(** * The credential lifecycle engine of the FreeSocks control plane

    A shallow embedding of the Cloudflare-Worker handlers that issue,
    reconcile and revoke Outline access keys:

    - [handlers/update.js]  (reconciliation scanner),
    - [handlers/delete.js]  (revocation scanner, the version with S3 clean-up),
    - [handlers/get.js]     (endpoint scorer, [getOptimalApiEndpoint]),
    - [handlers/list.js]    (listing of the credential store),
    - [utils/prometheusQueries.js] (usage oracle transport),
    - [utils/authentication.js] ([verifyAuth]),
    - [utils/s3Storage.js]  (S3 clean-up and upload).

    JavaScript values are modelled by a JSON datatype whose numbers are
    IEEE 754 doubles, the Workers KV namespaces by ordered association
    lists, and the asynchronous, exception-throwing handler code by a
    state-and-exception monad over a [world] that also records every
    request sent to an external service.  Instants are integers
    (milliseconds since the epoch); the age of a credential and the score
    of an endpoint are computed on exact rationals. *)

From Stdlib Require Import Floats.
From Stdlib Require Import ZArith QArith Qround Qabs List String Ascii Lia Bool OrdersEx.
From stdpp Require Import base gmap strings list pretty.

#[local] Set Warnings "-register-all".
Local Open Scope string_scope.
Local Open Scope list_scope.

(** ** Numbers

    A JavaScript number is a binary64 value, here a primitive [float]:
    [+], [*] and the comparisons are those of IEEE 754. *)

(** The number nearest to an integer and to a fraction (ties to even), as
    a numeric literal denotes it. *)
Definition number_of_Z (z : Z) : float := SF2Prim (binary_normalize prec emax z 0 false).

Definition number_of_Q (q : Q) : float :=
  let n := Qnum q in
  let d := Zpos (Qden q) in
  let k := Z.max 0 (64 + Z.log2 d - Z.log2 (Z.abs n) + 1) in
  let scaled := (Z.abs n * 2 ^ k)%Z in
  let sticky := if (scaled mod d =? 0)%Z then 0%Z else 1%Z in
  let m := (2 * (scaled / d) + sticky)%Z in
  SF2Prim (binary_normalize prec emax (if (n <? 0)%Z then - m else m)%Z (- k - 1) false).

(** [ToIntegerOrInfinity] of a finite number: the fraction is dropped.
    [None] for [NaN] and the infinities. *)
Definition truncate (x : float) : option Z :=
  match Prim2SF x with
  | S754_zero _ => Some 0%Z
  | S754_finite s m e =>
      let a := if (0 <=? e)%Z then (Zpos m * 2 ^ e)%Z else (Zpos m / 2 ^ (- e))%Z in
      Some (if s then (- a)%Z else a)
  | S754_infinity _ | S754_nan => None
  end.

(** [TimeClip]: the time value of [new Date(x)]; [None] is an invalid
    date.  (A number beyond 8.64e15 has no fraction, so the bound can be
    tested on the integer.) *)
Definition TimeClip (x : float) : option Z :=
  match truncate x with
  | Some t => if (Z.abs t <=? 8640000000000000)%Z then Some t else None
  | None => None
  end.

(** *** [Number::toString]

    The shortest decimal numeral that denotes the number, the closest to
    it when there are several. *)

(** The [n] with 10^(n-1) <= a/b < 10^n, for positive [a] and [b]. *)
Definition magnitude (a b : Z) : Z :=
  if (b <=? a)%Z then Z.of_nat (String.length (pretty (a / b)%Z))
  else (1 - Z.of_nat (String.length (pretty ((b - 1) / a)%Z)))%Z.

(** The digits [s], their number [k] and the position [n] of the decimal
    point for the number [m * 2^e]: the least [k] from the given one on for
    which [s * 10^(n-k)] rounds to the number. *)
Fixpoint shortest (fuel : nat) (k : Z) (m : positive) (e : Z) (n : Z) : Z * Z * Z :=
  let sh := Z.max 0 (2 - e) in
  let den := (2 ^ sh)%Z in
  let v := (4 * Zpos m * 2 ^ (e - 2 + sh))%Z in
  let narrow := (Zpos m =? 2 ^ 52)%Z && (-1074 <? e)%Z in
  let low := ((4 * Zpos m - (if narrow then 1 else 2)) * 2 ^ (e - 2 + sh))%Z in
  let high := ((4 * Zpos m + 2) * 2 ^ (e - 2 + sh))%Z in
  let p := if (0 <=? n - k)%Z then (10 ^ (n - k))%Z else 1%Z in
  let q := if (0 <=? n - k)%Z then 1%Z else (10 ^ (k - n))%Z in
  let below := ((v * q) / (den * p))%Z in
  let above := (below + 1)%Z in
  let rounds_to (s : Z) :=
    let x := (s * p * den)%Z in
    if Z.even (Zpos m) then (low * q <=? x)%Z && (x <=? high * q)%Z
    else (low * q <? x)%Z && (x <? high * q)%Z in
  let digits (s : Z) := if (s =? 10 ^ k)%Z then (1%Z, 1%Z, (n + 1)%Z) else (s, k, n) in
  let gap_below := (v * q - below * p * den)%Z in
  let gap_above := (above * p * den - v * q)%Z in
  match rounds_to below, rounds_to above with
  | true, true =>
      if (gap_below <? gap_above)%Z then digits below
      else if (gap_above <? gap_below)%Z then digits above
      else if Z.even below then digits below else digits above
  | true, false => digits below
  | false, true => digits above
  | false, false =>
      match fuel with
      | O => digits below
      | S fuel' => shortest fuel' (k + 1) m e n
      end
  end.

Definition zeros (n : Z) : string := String.concat "" (List.repeat "0" (Z.to_nat n)).

Definition decimal (s k n : Z) : string :=
  let ds := pretty s in
  if (k <=? n)%Z && (n <=? 21)%Z then ds +:+ zeros (n - k)
  else if (0 <? n)%Z && (n <=? 21)%Z then
    String.substring 0 (Z.to_nat n) ds +:+ "." +:+
    String.substring (Z.to_nat n) (Z.to_nat (k - n)) ds
  else if (-6 <? n)%Z && (n <=? 0)%Z then "0." +:+ zeros (- n) +:+ ds
  else
    let x := (n - 1)%Z in
    let exponent := "e" +:+ (if (x <? 0)%Z then "-" else "+") +:+ pretty (Z.abs x) in
    if (k =? 1)%Z then ds +:+ exponent
    else String.substring 0 1 ds +:+ "." +:+ String.substring 1 (Z.to_nat (k - 1)) ds
         +:+ exponent.

Definition Number_toString (x : float) : string :=
  match Prim2SF x with
  | S754_nan => "NaN"
  | S754_zero _ => "0"
  | S754_infinity s => if s then "-Infinity" else "Infinity"
  | S754_finite s m e =>
      let a := if (0 <=? e)%Z then (Zpos m * 2 ^ e)%Z else Zpos m in
      let b := if (0 <=? e)%Z then 1%Z else (2 ^ (- e))%Z in
      let '(d, k, n) := shortest 17 1 m e (magnitude a b) in
      (if s then "-" else "") +:+ decimal d k n
  end.

(** ** JSON values

    An object is the list of its own properties in property order, as
    [JSON.parse] builds it. *)

Inductive json : Type :=
| JNull
| JBool (b : bool)
| JNum (x : float)
| JStr (s : string)
| JArr (items : list json)
| JObj (props : list (string * json)).

(** [o.name]: [None] stands for [undefined].  Only objects carry the
    property names the handlers read. *)
Fixpoint assoc {A : Type} (k : string) (l : list (string * A)) : option A :=
  match l with
  | [] => None
  | (k', v) :: l' => if String.eqb k' k then Some v else assoc k l'
  end.

Definition get_prop (name : string) (j : json) : option json :=
  match j with
  | JObj ps => assoc name ps
  | _ => None
  end.

(** [{ ...o, name: v }]: an existing property keeps its place, a new one is
    appended. *)
Fixpoint set_prop (name : string) (v : json) (ps : list (string * json))
  : list (string * json) :=
  match ps with
  | [] => [(name, v)]
  | (k, x) :: ps' =>
      if String.eqb k name then (k, v) :: ps' else (k, x) :: set_prop name v ps'
  end.

(** The own enumerable properties an object spread [{...j}] copies. *)
Fixpoint indexed (i : nat) (l : list json) : list (string * json) :=
  match l with
  | [] => []
  | x :: l' => (pretty i, x) :: indexed (S i) l'
  end.

Fixpoint chars (s : string) : list json :=
  match s with
  | EmptyString => []
  | String c s' => JStr (String c EmptyString) :: chars s'
  end.

Definition spread (j : json) : list (string * json) :=
  match j with
  | JObj ps => ps
  | JArr l => indexed 0 l
  | JStr s => indexed 0 (chars s)
  | _ => []
  end.

(** [x ?? null] *)
Definition nullish (x : option json) : json :=
  match x with
  | None | Some JNull => JNull
  | Some v => v
  end.

(** JavaScript truthiness ([ToBoolean]). *)
Definition truthy (j : json) : bool :=
  match j with
  | JNull => false
  | JBool b => b
  | JNum x => negb (PrimFloat.eqb x 0 || PrimFloat.is_nan x)
  | JStr s => negb (String.eqb s "")
  | JArr _ | JObj _ => true
  end.

Definition truthy_opt (x : option json) : bool :=
  match x with
  | None => false
  | Some j => truthy j
  end.

(** *** [JSON.stringify] (one argument: no indentation) *)

Definition dquote : ascii := "034"%char.
Definition backslash : ascii := "092"%char.

Definition hex_digit (n : N) : ascii :=
  ascii_of_N (if (n <? 10)%N then 48 + n else 87 + n).

Definition escape_char (c : ascii) : string :=
  let n := N_of_ascii c in
  if Ascii.eqb c dquote then String backslash (String dquote "")
  else if Ascii.eqb c backslash then String backslash (String backslash "")
  else if (n =? 8)%N then String backslash "b"
  else if (n =? 9)%N then String backslash "t"
  else if (n =? 10)%N then String backslash "n"
  else if (n =? 12)%N then String backslash "f"
  else if (n =? 13)%N then String backslash "r"
  else if (n <? 32)%N then
    String backslash
      ("u00" +:+ String (hex_digit (n / 16)) (String (hex_digit (n mod 16)) ""))
  else String c "".

Fixpoint escape (s : string) : string :=
  match s with
  | EmptyString => ""
  | String c s' => escape_char c +:+ escape s'
  end.

Definition quote (s : string) : string :=
  String dquote (escape s +:+ String dquote "").

Fixpoint stringify (j : json) : string :=
  match j with
  | JNull => "null"
  | JBool b => if b then "true" else "false"
  | JNum x => if PrimFloat.is_finite x then Number_toString x else "null"
  | JStr s => quote s
  | JArr l => "[" +:+ String.concat "," (map stringify l) +:+ "]"
  | JObj ps =>
      "{" +:+
      String.concat ","
        (map (fun p => let '(k, v) := p in quote k +:+ ":" +:+ stringify v) ps)
      +:+ "}"
  end.

(** [ToString], as array elements and template literals are rendered. *)
Fixpoint ToString (j : json) : string :=
  match j with
  | JNull => "null"
  | JBool b => if b then "true" else "false"
  | JNum x => Number_toString x
  | JStr s => s
  | JArr l =>
      String.concat ","
        (map (fun e => match e with JNull => "" | _ => ToString e end) l)
  | JObj _ => "[object Object]"
  end.

(** A text held by a KV namespace or an HTTP body is represented by what
    [JSON.parse] makes of it: [JsonText j] is a text that parses to [j]
    (the texts the handlers write are [JSON.stringify j]), [PlainText s] a
    text that [JSON.parse] rejects. *)
Inductive text : Type :=
| PlainText (s : string)
| JsonText (j : json).

Definition raw (t : text) : string :=
  match t with
  | PlainText s => s
  | JsonText j => stringify j
  end.

(** ** Strings: [split] with a non-empty separator *)

Fixpoint split_go (sep : string) (skip : nat) (cur : string) (s : string)
  : list string :=
  match s with
  | EmptyString => [String.rev cur]
  | String c s' =>
      match skip with
      | S k => split_go sep k cur s'
      | O =>
          if String.prefix sep s
          then String.rev cur :: split_go sep (String.length sep - 1) "" s'
          else split_go sep 0 (String c cur) s'
      end
  end.

Definition split (sep s : string) : list string := split_go sep 0 "" s.

(** [s.split(sep).pop()] *)
Definition last_part (sep s : string) : string := List.last (split sep s) "".

(** ** Workers KV namespaces

    Modelled from the spec: the credential store, the endpoint registry and
    the state store are external key-value services; section 6 gives their
    interface as [get], [put], [delete] and
    [list({prefix?, cursor?, limit?}) -> {keys[], cursor, isComplete}].
    A namespace is the list of its entries in listing order (Workers KV lists
    keys in lexicographic order).  A list cursor is an opaque token; here it
    is the decimal numeral of the number of matching keys already returned,
    and it is absent ([undefined]) when the listing is complete. *)

Definition kv (V : Type) : Type := list (string * V).

Definition kv_get {V : Type} (k : string) (ns : kv V) : option V := assoc k ns.

Fixpoint kv_put {V : Type} (k : string) (v : V) (ns : kv V) : kv V :=
  match ns with
  | [] => [(k, v)]
  | (k', v') :: ns' =>
      if String.eqb k' k then (k, v) :: ns'
      else if String.ltb k k' then (k, v) :: (k', v') :: ns'
      else (k', v') :: kv_put k v ns'
  end.

Fixpoint kv_delete {V : Type} (k : string) (ns : kv V) : kv V :=
  match ns with
  | [] => []
  | (k', v') :: ns' =>
      if String.eqb k' k then kv_delete k ns' else (k', v') :: kv_delete k ns'
  end.

Definition digit_value (c : ascii) : option nat :=
  let n := nat_of_ascii c in
  if (48 <=? n)%nat && (n <=? 57)%nat then Some (n - 48)%nat else None.

Fixpoint decode_digits (acc : nat) (s : string) : option nat :=
  match s with
  | EmptyString => Some acc
  | String c s' =>
      match digit_value c with
      | Some d => decode_digits (10 * acc + d)%nat s'
      | None => None
      end
  end.

Definition decode_cursor (s : string) : option nat :=
  match s with
  | EmptyString => None
  | _ => decode_digits 0 s
  end.

Definition encode_cursor (n : nat) : string := pretty n.

Record list_result : Type := mkListResult {
  keys : list string;        (* the [name] of each listed key *)
  list_cursor : option string   (* [None]: the listing is complete *)
}.

Inductive exn : Type :=
| Error (message : string)   (* an [Error] object (or subclass) *)
| Undefined.                 (* [throw undefined] *)

Inductive outcome (A : Type) : Type :=
| Ret (a : A)
| Throw (e : exn)
| OutOfFuel.                 (* the bound given to a paging loop was too small *)
Arguments Ret {A} a.
Arguments Throw {A} e.
Arguments OutOfFuel {A}.

Definition kv_list {V : Type} (pfx : option string) (cur : option string)
  (limit : Z) (ns : kv V) : outcome list_result :=
  let matching :=
    List.filter (fun k => match pfx with Some p => String.prefix p k | None => true end)
           (map fst ns) in
  let start :=
    match cur with
    | None => Some 0%nat
    | Some c => decode_cursor c
    end in
  match start with
  | None => Throw (Error "KV LIST failed: invalid cursor")
  | Some off =>
      if (limit <? 1)%Z || (1000 <? limit)%Z
      then Throw (Error "KV LIST failed: invalid limit")
      else
        let n := Z.to_nat limit in
        let page := firstn n (skipn off matching) in
        let rest := skipn (off + n) matching in
        Ret {| keys := page;
               list_cursor := match rest with
                         | [] => None
                         | _ => Some (encode_cursor (off + n))
                         end |}
  end.

(** ** The world

    Three KV namespaces and the log of every request the worker has sent to
    an external service, most recent first.  The responses of the outside
    world (KV availability, HTTP replies, the clock) are functions of the
    number of requests sent so far, collected in [env]. *)

Inductive namespace : Type :=
| ACCESS_KEYS_NAMESPACE
| API_ENDPOINTS_NAMESPACE
| STATE_NAMESPACE.

Inductive event : Type :=
| KvGet (ns : namespace) (key : string)
| KvList (ns : namespace) (pfx cur : option string) (limit : Z)
| KvPut (ns : namespace) (key : string) (value : text)
| KvDelete (ns : namespace) (key : string)
| Fetch (method url : string).

Definition mutating (e : event) : bool :=
  match e with
  | KvGet _ _ | KvList _ _ _ _ => false
  | KvPut _ _ _ | KvDelete _ _ => true
  | Fetch method _ => negb (String.eqb method "GET")
  end.

Record world : Type := mkWorld {
  access_keys : kv text;
  api_endpoints : kv text;
  state : kv text;
  trace : list event
}.

Definition store (ns : namespace) (w : world) : kv text :=
  match ns with
  | ACCESS_KEYS_NAMESPACE => access_keys w
  | API_ENDPOINTS_NAMESPACE => api_endpoints w
  | STATE_NAMESPACE => state w
  end.

Definition set_store (ns : namespace) (s : kv text) (w : world) : world :=
  match ns with
  | ACCESS_KEYS_NAMESPACE =>
      mkWorld s (api_endpoints w) (state w) (trace w)
  | API_ENDPOINTS_NAMESPACE =>
      mkWorld (access_keys w) s (state w) (trace w)
  | STATE_NAMESPACE =>
      mkWorld (access_keys w) (api_endpoints w) s (trace w)
  end.

Definition record_event (e : event) (w : world) : world :=
  mkWorld (access_keys w) (api_endpoints w) (state w) (e :: trace w).

Inductive response : Type :=
| NetworkError (message : string)            (* [fetch] rejects *)
| Response (status : Z) (body : text).

Definition ok (status : Z) : bool := (200 <=? status)%Z && (status <=? 299)%Z.

Record env : Type := mkEnv {
  (* [Some msg]: the KV request sent as request number [n] fails with [msg] *)
  kv_error : nat -> option string;
  (* the reply to the HTTP request sent as request number [n] *)
  http : nat -> string -> string -> response;
  (* [Date.now()] in milliseconds when [n] requests have been sent *)
  clock : nat -> Z;
  (* [new Date(s).getTime()]; [None] is an invalid date *)
  Date_parse : string -> option Z;
  (* [new Date(t).toISOString()] for a valid time value *)
  toISOString : Z -> string;
  (* [parseFloat] on a string *)
  parseFloat : string -> float;
  (* [ToNumber] on a string *)
  StringToNumber : string -> float
}.

(** The constants of [config/constants.js], which reads them from the
    worker's bindings. *)
Record constants : Type := mkConstants {
  AUTH_TOKEN : string;
  MAX_KEYS_PER_RUN : Z;
  MAX_RETRIES : Z;
  EXPIRATION_DAYS : Z;
  DELETE_DRY_RUN : bool;
  DELETE_S3_OBJECTS : bool;
  WEIGHT_LATENCY : Q;
  WEIGHT_ACCESS_KEY_COUNT : Q;
  API_ENDPOINT_TIMEOUT : Q
}.

(** ** The handler monad: state and exceptions

    A computation runs on the world and on the handler's mutable report
    object [R]; what it did to either before throwing stays done. *)

Definition M (R A : Type) : Type := world * R -> outcome A * (world * R).

Definition ret {R A} (a : A) : M R A := fun s => (Ret a, s).

Definition throw {R A} (e : exn) : M R A := fun s => (Throw e, s).

Definition bind {R A B} (m : M R A) (k : A -> M R B) : M R B :=
  fun s =>
    match m s with
    | (Ret a, s') => k a s'
    | (Throw e, s') => (Throw e, s')
    | (OutOfFuel, s') => (OutOfFuel, s')
    end.

(** [try { m } catch (error) { h error }] *)
Definition try_catch {R A} (m : M R A) (h : exn -> M R A) : M R A :=
  fun s =>
    match m s with
    | (Throw e, s') => h e s'
    | r => r
    end.

Declare Scope handler_scope.
Delimit Scope handler_scope with handler.
Notation "'let*' x := m 'in' k" := (bind m (fun x => k))
  (at level 10, x pattern, m at level 100, k at level 200) : handler_scope.
Notation "'run' m 'then' k" := (bind m (fun _ => k))
  (at level 10, m at level 100, k at level 200) : handler_scope.
Local Open Scope handler_scope.

Definition get_report {R} : M R R := fun s => (Ret (snd s), s).
Definition modify_report {R} (f : R -> R) : M R unit :=
  fun s => (Ret tt, (fst s, f (snd s))).
Definition get_world {R} : M R world := fun s => (Ret (fst s), s).

(** [error.message]; reading it off [undefined] is a [TypeError]. *)
Definition message_of {R} (e : exn) : M R string :=
  match e with
  | Error m => ret m
  | Undefined =>
      throw (Error "Cannot read properties of undefined (reading 'message')")
  end.

(** *** Requests *)

Definition kv_request {R A} (E : env) (ev : event)
  (reply : world -> outcome A * world) : M R A :=
  fun s =>
    let w := fst s in
    let w1 := record_event ev w in
    match kv_error E (List.length (trace w)) with
    | Some msg => (Throw (Error msg), (w1, snd s))
    | None => let (o, w2) := reply w1 in (o, (w2, snd s))
    end.

Definition KV_get {R} (E : env) (ns : namespace) (k : string) : M R (option text) :=
  kv_request E (KvGet ns k) (fun w => (Ret (kv_get k (store ns w)), w)).

Definition KV_put {R} (E : env) (ns : namespace) (k : string) (v : text) : M R unit :=
  kv_request E (KvPut ns k v)
    (fun w => (Ret tt, set_store ns (kv_put k v (store ns w)) w)).

Definition KV_delete {R} (E : env) (ns : namespace) (k : string) : M R unit :=
  kv_request E (KvDelete ns k)
    (fun w => (Ret tt, set_store ns (kv_delete k (store ns w)) w)).

Definition KV_list {R} (E : env) (ns : namespace) (pfx cur : option string)
  (limit : Z) : M R list_result :=
  kv_request E (KvList ns pfx cur limit)
    (fun w => (kv_list pfx cur limit (store ns w), w)).

(** [fetch(url, { method })]: a reply, or a rejection. *)
Definition fetch {R} (E : env) (method url : string) : M R (Z * text) :=
  fun s =>
    let w := fst s in
    let w1 := record_event (Fetch method url) w in
    match http E (List.length (trace w)) method url with
    | NetworkError msg => (Throw (Error msg), (w1, snd s))
    | Response status body => (Ret (status, body), (w1, snd s))
    end.

Definition now {R} (E : env) : M R Z :=
  fun s => (Ret (clock E (List.length (trace (fst s)))), s).

(** [JSON.parse] of a text, and of the [null] a missing key reads as. *)
Definition JSON_parse {R} (t : option text) : M R json :=
  match t with
  | None => ret JNull
  | Some (JsonText j) => ret j
  | Some (PlainText s) => throw (Error "Unexpected token in JSON")
  end.

(** [NAMESPACE.get(key).then(JSON.parse)] *)
Definition get_json {R} (E : env) (ns : namespace) (key : string) : M R json :=
  let* t := KV_get E ns key in JSON_parse t.

(** *** [retry] (the same function in [update.js] and [delete.js]) *)

Fixpoint retry_from {R A} (fn : M R A) (attempts : nat) (lastError : exn) : M R A :=
  match attempts with
  | O => throw lastError
  | S n => try_catch fn (fun error => retry_from fn n error)
  end.

Definition retry {R A} (c : constants) (fn : M R A) : M R A :=
  retry_from fn (Z.to_nat (MAX_RETRIES c)) Undefined.

Definition set_report {R} (r : R) : M R unit := modify_report (fun _ => r).

(** [x.name] for a value that may be [undefined] or [null]: reading a
    property off either is a [TypeError]. *)
Definition member {R} (name : string) (x : option json) : M R (option json) :=
  match x with
  | None => throw (Error ("Cannot read properties of undefined (reading '" +:+ name +:+ "')"))
  | Some JNull => throw (Error ("Cannot read properties of null (reading '" +:+ name +:+ "')"))
  | Some j => ret (get_prop name j)
  end.

(** A value inside a template literal. *)
Definition template (x : option json) : string :=
  match x with
  | None => "undefined"
  | Some j => ToString j
  end.

Definition template_str (x : option string) : string :=
  match x with
  | None => "undefined"
  | Some s => s
  end.

(** Truthiness of a string that may be [null] or [undefined]. *)
Definition nonempty (x : option string) : bool :=
  match x with
  | None => false
  | Some s => negb (String.eqb s "")
  end.

(** [!str] for what [KV.get] returned. *)
Definition missing (t : option text) : bool := negb (nonempty (option_map raw t)).

(** [a === b] where at least one side is a primitive. *)
Definition strict_eq (a b : json) : bool :=
  match a, b with
  | JNull, JNull => true
  | JBool x, JBool y => Bool.eqb x y
  | JNum x, JNum y => PrimFloat.eqb x y
  | JStr x, JStr y => String.eqb x y
  | _, _ => false
  end.

(** Request headers: the header list of [request.headers], each name as it
    was sent and each value as the [Headers] object holds it.  [request]
    itself is [null] on a cron trigger. *)
Definition headers : Type := list (string * string).

(** Header names are matched without regard to the case of the letters
    A to Z. *)
Definition lower (ch : ascii) : ascii :=
  let n := nat_of_ascii ch in
  if (65 <=? n)%nat && (n <=? 90)%nat then ascii_of_nat (n + 32) else ch.

Fixpoint lowercase (s : string) : string :=
  match s with
  | EmptyString => EmptyString
  | String ch s' => String (lower ch) (lowercase s')
  end.

Definition same_name (a b : string) : bool := String.eqb (lowercase a) (lowercase b).

(** [headers.get(name)]: the values of all the headers called [name], in
    the order of the list and joined by a comma and a space; [None] stands
    for the [null] of a name that does not occur. *)
Definition header (name : string) (h : headers) : option string :=
  match List.filter (fun entry => same_name (fst entry) name) h with
  | [] => None
  | entries => Some (String.concat ", " (map snd entries))
  end.

(** [verifyAuth] of [utils/authentication.js]. *)
Definition verifyAuth {R} (request : option headers) (authToken : string) : M R bool :=
  match request with
  | None => throw (Error "Cannot read properties of null (reading 'headers')")
  | Some h =>
      ret (match header "Authorization" h with
           | Some a => negb (String.eqb a "") && String.eqb a ("Bearer " +:+ authToken)
           | None => false
           end)
  end.

(** ** The usage oracle: [queryPrometheus] and [queryActiveKeys] *)

(** What [queryPrometheus] returns: [{success: true, data}] or
    [{success: false, error}]. *)
Inductive queryResult : Type :=
| QuerySuccess (data : option json)
| QueryFailure (error : string).

Definition queryResult_json (q : queryResult) : json :=
  match q with
  | QuerySuccess None => JObj [("success", JBool true)]
  | QuerySuccess (Some d) => JObj [("success", JBool true); ("data", d)]
  | QueryFailure e => JObj [("success", JBool false); ("error", JStr e)]
  end.

(** [encodeURIComponent] of the PromQL query of [queryActiveKeys]. *)
Definition encoded_query : string :=
  "increase(shadowsocks_data_bytes%7Bdir%3D~%22c%3Cp%7Cp%3Et%22%7D%5B30m%5D)%20%3E%200".

Definition queryPrometheus {R} (E : env) (promApiEndpoint : option json) : M R queryResult :=
  let queryUrl := template promApiEndpoint +:+ "/api/v1/query?query=" +:+ encoded_query in
  try_catch
    (let* (status, body) := fetch E "GET" queryUrl in
     if negb (ok status)
     then throw (Error ("Prometheus API request failed: " +:+ pretty status))
     else
       let* data := JSON_parse (Some body) in
       let* d := member "data" (Some data) in
       let* result := member "result" d in
       ret (QuerySuccess result))
    (fun error =>
       let* m := message_of error in
       ret (QueryFailure m)).

(** One entry of the activity snapshot. *)
Record activity : Type := mkActivity {
  totalBytes : float;
  lastSeen : string
}.

(** [x > 0] *)
Definition positive (x : float) : bool := PrimFloat.ltb 0 x.

(** [ToNumber] *)
Definition ToNumber (E : env) (j : json) : float :=
  match j with
  | JNull => 0%float
  | JBool b => if b then 1%float else 0%float
  | JNum x => x
  | JStr s => StringToNumber E s
  | _ => StringToNumber E (ToString j)
  end.

(** [new Date(ms).toISOString()]: a [RangeError] on an invalid date. *)
Definition Date_toISOString {R} (E : env) (ms : option Z) : M R string :=
  match ms with
  | Some t =>
      if (Z.abs t <=? 8640000000000000)%Z then ret (toISOString E t)
      else throw (Error "Invalid time value")
  | None => throw (Error "Invalid time value")
  end.

(** The test that guards the body of the [forEach] callback, and what the
    callback reads when it passes: the key id and the two-element sample. *)
Definition sample (item : json) : option (string * json * json) :=
  if truthy item then
    match get_prop "metric" item with
    | Some metric =>
        if truthy metric then
          match get_prop "access_key" metric, get_prop "value" item with
          | Some access_key, Some (JArr [t; v]) =>
              if truthy access_key then Some (ToString access_key, t, v) else None
          | _, _ => None
          end
        else None
    | None => None
    end
  else None.

(** The names every object inherits from [Object.prototype]. *)
Definition inherited (name : string) : bool :=
  existsb (String.eqb name)
    ["constructor"; "__defineGetter__"; "__defineSetter__"; "hasOwnProperty";
     "__lookupGetter__"; "__lookupSetter__"; "isPrototypeOf"; "propertyIsEnumerable";
     "toString"; "valueOf"; "__proto__"; "toLocaleString"].

(** The body of the callback once the test has passed.  The snapshot is a
    plain object used as a map from key id to entry: the map holds its own
    properties.  Under an inherited name [activeKeys[accessKey]] is the
    member of [Object.prototype], which is truthy: no entry is made, the
    sum goes to that member ([undefined + bytes]), and the comparison with
    its [lastSeen] ([undefined]) is false. *)
Definition accumulate (accessKey timestamp : string) (bytes : float)
  (activeKeys : gmap string activity) : gmap string activity :=
  if inherited accessKey then activeKeys
  else
    let entry :=
      match activeKeys !! accessKey with
      | Some a => a
      | None => mkActivity 0%float timestamp
      end in
    let total := (totalBytes entry + bytes)%float in
    let seen := if String.ltb (lastSeen entry) timestamp then timestamp else lastSeen entry in
    <[accessKey := mkActivity total seen]> activeKeys.

Fixpoint forEach_item {R} (E : env) (data : list json)
  (activeKeys : gmap string activity) : M R (gmap string activity) :=
  match data with
  | [] => ret activeKeys
  | item :: data' =>
      match sample item with
      | Some (accessKey, t, v) =>
          let* timestamp := Date_toISOString E (TimeClip (ToNumber E t * 1000)%float) in
          let bytes := parseFloat E (ToString v) in
          forEach_item E data' (accumulate accessKey timestamp bytes activeKeys)
      | None => forEach_item E data' activeKeys
      end
  end.

(** What [queryActiveKeys] returns: [{success: true, data: activeKeys}] or
    [{success: false, error}]. *)
Inductive activeKeysResult : Type :=
| ActiveKeys (data : gmap string activity)
| ActiveKeysFailure (error : string).

Definition queryActiveKeys {R} (c : constants) (E : env) (promApiEndpoint : option json)
  : M R activeKeysResult :=
  try_catch
    (let* queryResult := retry c (queryPrometheus E promApiEndpoint) in
     match queryResult with
     | QueryFailure _ =>
         ret (ActiveKeysFailure
                ("Prometheus query unsuccessful: " +:+ stringify (queryResult_json queryResult)))
     | QuerySuccess (Some (JArr data)) =>
         let* activeKeys := forEach_item E data ∅ in
         ret (ActiveKeys activeKeys)
     | QuerySuccess _ =>
         ret (ActiveKeysFailure
                ("Unexpected Prometheus response structure: " +:+
                 stringify (queryResult_json queryResult)))
     end)
    (fun error =>
       let* m := message_of error in
       ret (ActiveKeysFailure ("Error querying Prometheus: " +:+ m))).

(** ** [handlers/update.js]: the reconciliation scanner *)

Module Update.

Definition UPDATE_CURSOR_KEY : string := "update_script_cursor".

(** The report object [updateResults].  Its entries are the JSON values
    the response serialises; the [debugInfo] attachments of the [X-Debug]
    flag, which influence nothing else, are left out. *)
Record updateResults : Type := mkResults {
  updatedKeys : list json;
  errors : list string;
  nextCursor : option string
}.

Definition empty : updateResults := mkResults [] [] None.

Definition push_updated (x : json) : M updateResults unit :=
  modify_report (fun r => mkResults (updatedKeys r ++ [x]) (errors r) (nextCursor r)).

Definition push_error (x : string) : M updateResults unit :=
  modify_report (fun r => mkResults (updatedKeys r) (errors r ++ [x]) (nextCursor r)).

Definition set_nextCursor (x : string) : M updateResults unit :=
  modify_report (fun r => mkResults (updatedKeys r) (errors r) (Some x)).

(** What the HTTP response of [handleRequest] carries. *)
Inductive reply : Type :=
| Report (status : Z) (results : updateResults) (isDryRun : bool) (targetKey : option string)
| Failure (status : Z) (error : string) (details : option string).

Section Handlers.
Context (c : constants) (E : env).

(** [{...keyData, deletionTime: keyData.deletionTime ?? null, ...}] *)
Definition populate (keyData : json) : list (string * json) :=
  set_prop "currentlyConnected" (nullish (get_prop "currentlyConnected" keyData))
    (set_prop "lastSeen" (nullish (get_prop "lastSeen" keyData))
       (set_prop "deletionTime" (nullish (get_prop "deletionTime" keyData))
          (spread keyData))).

Definition added (x : option json) : json :=
  JStr (match x with None => "added" | Some _ => "unchanged" end).

Definition missing_fields (keyData : json) : json :=
  JObj [("deletionTime", added (get_prop "deletionTime" keyData));
        ("lastSeen", added (get_prop "lastSeen" keyData));
        ("currentlyConnected", added (get_prop "currentlyConnected" keyData))].

(** [accessKeyId in activeKeys && activeKeys[accessKeyId].totalBytes > 0] *)
Definition isActive (accessKeyId : string) (activeKeys : gmap string activity) : bool :=
  match activeKeys !! accessKeyId with
  | Some a => positive (totalBytes a)
  | None => false
  end.

Definition finalize (accessKeyId : string) (activeKeys : gmap string activity)
  (updatedKeyData : list (string * json)) : list (string * json) :=
  let active := isActive accessKeyId activeKeys in
  set_prop "lastSeen"
    (match activeKeys !! accessKeyId with
     | Some a => if active then JStr (lastSeen a) else nullish (assoc "lastSeen" updatedKeyData)
     | None => nullish (assoc "lastSeen" updatedKeyData)
     end)
    (set_prop "currentlyConnected" (JBool active) updatedKeyData).

Definition hasChanges (accessKeyId : string) (activeKeys : gmap string activity)
  (updatedKeyData : list (string * json)) : bool :=
  let active := isActive accessKeyId activeKeys in
  let finalKeyData := finalize accessKeyId activeKeys updatedKeyData in
  active
  || negb (strict_eq (nullish (assoc "currentlyConnected" updatedKeyData)) (JBool active))
  || (active &&
      negb (strict_eq (nullish (assoc "lastSeen" updatedKeyData))
                      (nullish (assoc "lastSeen" finalKeyData)))).

(** The [try] block of [processKey] once the record has been read. *)
Definition update_record (key : string) (activeKeys : gmap string activity)
  (isDryRun : bool) (keyData : json) : M updateResults unit :=
  (* Populate missing fields *)
  run member "deletionTime" (Some keyData) then
  let updatedKeyData := populate keyData in
  let needsUpdate :=
    negb (String.eqb (stringify keyData) (stringify (JObj updatedKeyData))) in
  if needsUpdate then
    if isDryRun then
      push_updated (JObj [("key", JStr key); ("before", keyData);
                          ("after", JObj updatedKeyData);
                          ("changes", missing_fields keyData)])
    else
      run retry c (KV_put E ACCESS_KEYS_NAMESPACE key (JsonText (JObj updatedKeyData))) then
      push_updated (JObj [("key", JStr key); ("changes", missing_fields keyData)])
  else if truthy_opt (assoc "deletionTime" updatedKeyData) then ret tt
  else
    let accessKeyId := last_part "-" key in
    let active := isActive accessKeyId activeKeys in
    let finalKeyData := finalize accessKeyId activeKeys updatedKeyData in
    let keyUpdateInfo :=
      JObj [("key", JStr key); ("before", JObj updatedKeyData);
            ("after", JObj finalKeyData);
            ("changes",
             JObj [("currentlyConnected",
                    if strict_eq (JBool active)
                         (nullish (assoc "currentlyConnected" updatedKeyData))
                    then JStr "unchanged" else JBool active);
                   ("lastSeen",
                    if active then nullish (assoc "lastSeen" finalKeyData)
                    else JStr "unchanged")])] in
    if hasChanges accessKeyId activeKeys updatedKeyData then
      if isDryRun then push_updated keyUpdateInfo
      else
        run retry c (KV_put E ACCESS_KEYS_NAMESPACE key (JsonText (JObj finalKeyData))) then
        push_updated keyUpdateInfo
    else ret tt.

Definition processKey (key : string) (activeKeys : gmap string activity)
  (isDryRun : bool) : M updateResults unit :=
  try_catch
    (let* keyData := retry c (get_json E ACCESS_KEYS_NAMESPACE key) in
     update_record key activeKeys isDryRun keyData)
    (fun error =>
       let* m := message_of error in
       push_error ("Error processing key " +:+ key +:+ ": " +:+ m)).

(** The [for ... of listResult.keys] loop of [processKeysForHostname]. *)
Fixpoint process_page (page : list string) (activeKeys : gmap string activity)
  (isDryRun : bool) (processedKeys remainingKeys : Z) : M updateResults (Z * Z) :=
  match page with
  | [] => ret (processedKeys, remainingKeys)
  | key :: page' =>
      run processKey key activeKeys isDryRun then
      let processedKeys := (processedKeys + 1)%Z in
      let remainingKeys := (remainingKeys - 1)%Z in
      if (remainingKeys <=? 0)%Z then ret (processedKeys, remainingKeys)
      else process_page page' activeKeys isDryRun processedKeys remainingKeys
  end.

(** The [do ... while (cursor && remainingKeys > 0)] loop, bounded by
    [fuel] iterations. *)
Fixpoint paging (fuel : nat) (hostname : string) (activeKeys : gmap string activity)
  (isDryRun : bool) (cursor : option string) (processedKeys remainingKeys : Z)
  : M updateResults (Z * option string) :=
  match fuel with
  | O => fun s => (OutOfFuel, s)
  | S fuel' =>
      let* listResult :=
        retry c (KV_list E ACCESS_KEYS_NAMESPACE (Some (hostname +:+ "-key-")) cursor
                   (Z.min remainingKeys 1000)) in
      let* (processedKeys, remainingKeys) :=
        process_page (keys listResult) activeKeys isDryRun processedKeys remainingKeys in
      let cursor := list_cursor listResult in
      if nonempty cursor && (0 <? remainingKeys)%Z
      then paging fuel' hostname activeKeys isDryRun cursor processedKeys remainingKeys
      else ret (processedKeys, cursor)
  end.

(** Every iteration but the last consumes at least one unit of the
    budget, so [remainingKeys] iterations and one more are enough. *)
Definition processKeysForHostname (hostname : string) (activeKeys : gmap string activity)
  (isDryRun : bool) (remainingKeys : Z) (startCursor : option string)
  : M updateResults (Z * option string) :=
  paging (S (Z.to_nat remainingKeys)) hostname activeKeys isDryRun startCursor 0 remainingKeys.

(** How one round of the hostname loop of [updateAccessKeys] ends: with
    the loop variables for the next round, or with [break]. *)
Inductive round : Type :=
| Next (currentCursor : option string) (globalKeyCount : Z)
| Break.

(** [JSON.parse(endpointDataStr).prometheusUrl], in its own [try]. *)
Definition prometheusUrl (endpointDataStr : option text) : M updateResults (option json) :=
  let* endpointData := JSON_parse endpointDataStr in
  member "prometheusUrl" (Some endpointData).

Definition hostname_round (hostname : string) (isDryRun : bool)
  (currentCursor : option string) (globalKeyCount : Z) : M updateResults round :=
  try_catch
    (let* endpointDataStr := retry c (KV_get E API_ENDPOINTS_NAMESPACE hostname) in
     if missing endpointDataStr then
       run push_error ("Endpoint not found for hostname: " +:+ hostname) then
       ret (Next currentCursor globalKeyCount)
     else
       let* parsed :=
         try_catch (let* u := prometheusUrl endpointDataStr in ret (Some u))
                   (fun _ => ret None) in
       match parsed with
       | None =>
           run push_error ("Invalid endpoint data for hostname: " +:+ hostname) then
           ret (Next currentCursor globalKeyCount)
       | Some promApiEndpoint =>
           let* activeKeysResult := queryActiveKeys c E promApiEndpoint in
           match activeKeysResult with
           | ActiveKeysFailure error =>
               run push_error ("Error querying active keys for " +:+ hostname +:+ ": " +:+ error) then
               ret (Next currentCursor globalKeyCount)
           | ActiveKeys activeKeys =>
               let* (processedKeys, nextCursor) :=
                 processKeysForHostname hostname activeKeys isDryRun
                   (MAX_KEYS_PER_RUN c - globalKeyCount)%Z currentCursor in
               let globalKeyCount := (globalKeyCount + processedKeys)%Z in
               if (MAX_KEYS_PER_RUN c <=? globalKeyCount)%Z then
                 run set_nextCursor (hostname +:+ ":" +:+ template_str nextCursor) then
                 ret Break
               else ret (Next None globalKeyCount)
           end
       end)
    (fun error =>
       let* m := message_of error in
       run push_error ("Error processing hostname " +:+ hostname +:+ ": " +:+ m) then
       ret (Next currentCursor globalKeyCount)).

Fixpoint hostnames_loop (hostnames : list string) (isDryRun : bool)
  (startHostname currentCursor : option string) (globalKeyCount : Z)
  : M updateResults unit :=
  match hostnames with
  | [] => ret tt
  | hostname :: hostnames' =>
      if nonempty startHostname && negb (String.eqb hostname (template_str startHostname))
      then hostnames_loop hostnames' isDryRun startHostname currentCursor globalKeyCount
      else
        let* r := hostname_round hostname isDryRun currentCursor globalKeyCount in
        match r with
        | Break => ret tt
        | Next currentCursor globalKeyCount =>
            hostnames_loop hostnames' isDryRun None currentCursor globalKeyCount
        end
  end.

Definition updateAccessKeys (isDryRun : bool) (startCursor : option string)
  : M updateResults updateResults :=
  run set_report empty then
  let* hostnames := retry c (KV_list E API_ENDPOINTS_NAMESPACE None None 1000) in
  let parts := if nonempty startCursor then split ":" (template_str startCursor) else [] in
  let startHostname := nth_error parts 0 in
  let currentCursor := nth_error parts 1 in
  run hostnames_loop (keys hostnames) isDryRun startHostname currentCursor 0 then
  get_report.

Definition updateTargetKey (targetKey : string) (isDryRun : bool)
  : M updateResults updateResults :=
  run set_report (mkResults [] [] None) then
  run try_catch
    (let hostname := hd "" (split "-key-" targetKey) in
     let* endpointDataStr := retry c (KV_get E API_ENDPOINTS_NAMESPACE hostname) in
     if missing endpointDataStr then
       push_error ("Endpoint not found for hostname: " +:+ hostname)
     else
       let* parsed :=
         try_catch (let* u := prometheusUrl endpointDataStr in ret (Some u))
                   (fun _ => ret None) in
       match parsed with
       | None => push_error ("Invalid endpoint data for hostname: " +:+ hostname)
       | Some promApiEndpoint =>
           let* activeKeysResult := queryActiveKeys c E promApiEndpoint in
           match activeKeysResult with
           | ActiveKeysFailure error =>
               push_error ("Error querying active keys for " +:+ hostname +:+ ": " +:+ error)
           | ActiveKeys activeKeys => processKey targetKey activeKeys isDryRun
           end
       end)
    (fun error =>
       let* m := message_of error in
       push_error ("Error processing target key " +:+ targetKey +:+ ": " +:+ m)) then
  get_report.

Definition handleRequest (request : option headers) (isCronTriggered : bool)
  : M updateResults reply :=
  let isDryRun :=
    match request with
    | Some h => match header "X-Dry-Run" h with
                | Some v => String.eqb v "true"
                | None => false
                end
    | None => false
    end in
  let targetKey :=
    match request with
    | Some h => header "X-Target-Key" h
    | None => None
    end in
  let* isAuthorized :=
    if isCronTriggered then ret true else verifyAuth request (AUTH_TOKEN c) in
  if negb isAuthorized then ret (Failure 401 "Unauthorized" None)
  else
    try_catch
      (let* updateResults :=
         if nonempty targetKey
         then updateTargetKey (template_str targetKey) isDryRun
         else
           let* startCursor := retry c (KV_get E STATE_NAMESPACE UPDATE_CURSOR_KEY) in
           let* updateResults := updateAccessKeys isDryRun (option_map raw startCursor) in
           run (if isDryRun then ret tt
                else if nonempty (nextCursor updateResults)
                then retry c (KV_put E STATE_NAMESPACE UPDATE_CURSOR_KEY
                                (PlainText (template_str (nextCursor updateResults))))
                else retry c (KV_delete E STATE_NAMESPACE UPDATE_CURSOR_KEY)) then
           ret updateResults in
       ret (Report 200 updateResults isDryRun targetKey))
      (fun error =>
         ret (Failure 500 "Error updating access keys"
                (match error with Error m => Some m | Undefined => None end))).

End Handlers.
End Update.

(** ** [handlers/delete.js]: the revocation scanner *)

(** A provider as [parseS3Providers] builds it (the fields the deletion
    path reads). *)
Record s3Provider : Type := mkProvider {
  endpoint : string;
  bucket : string;
  publicUrl : string
}.

(** [s.replace(pat, '')] for a non-empty string pattern. *)
Fixpoint remove_first (pat s : string) : string :=
  if String.prefix pat s
  then String.substring (String.length pat) (String.length s - String.length pat) s
  else match s with
       | EmptyString => EmptyString
       | String ch s' => String ch (remove_first pat s')
       end.

(** [x.toFixed(2)]; the quotient is taken exactly. *)
Definition two_digits (n : Z) : string :=
  if (n <? 10)%Z then "0" +:+ pretty n else pretty n.

Definition toFixed2 (x : option Q) : string :=
  match x with
  | None => "NaN"
  | Some q =>
      let a := Qabs q in
      let n := Qfloor (a * 100 + (1 # 2))%Q in
      (if Qle_bool 0 q then "" else "-") +:+
      pretty (n / 100)%Z +:+ "." +:+ two_digits (n mod 100)%Z
  end.

(** [new Date(value).getTime()]; [None] is an invalid date. *)
Definition Date_of (E : env) (value : option json) : option Z :=
  match value with
  | None => None
  | Some JNull => Some 0%Z
  | Some (JBool b) => Some (if b then 1 else 0)%Z
  | Some (JNum x) => TimeClip x
  | Some (JStr s) => Date_parse E s
  | Some j => Date_parse E (ToString j)
  end.

(** [x.length > 0] *)
Definition has_length (E : env) (j : json) : bool :=
  match j with
  | JArr l => (0 <? Z.of_nat (List.length l))%Z
  | JStr s => (0 <? Z.of_nat (String.length s))%Z
  | JObj ps =>
      match assoc "length" ps with
      | Some v => PrimFloat.ltb 0 (ToNumber E v)
      | None => false
      end
  | _ => false
  end.

(** A property that is left out of the object when its value is
    [undefined], as [JSON.stringify] leaves it out of the response. *)
Definition opt_prop (name : string) (x : option json) : list (string * json) :=
  match x with
  | Some v => [(name, v)]
  | None => []
  end.

(** [args.push(...x)]: spreading [undefined] is a [TypeError] (the message
    is the one of V8). *)
Definition iterable {R A} (x : option (list A)) : M R (list A) :=
  match x with
  | Some l => ret l
  | None => throw (Error "Spread syntax requires ...iterable[Symbol.iterator] to be a function")
  end.

(** Runs [m] on a report object of its own: what [m] does to the report
    is not seen by the caller. *)
Definition scoped {R A} (m : M R A) : M R A :=
  fun s => let (o, s') := m s in (o, (fst s', snd s)).

(** Runs [m] with one more mutable local object, initially [l0], and
    returns that object as [m] leaves it. *)
Definition with_local {R L A} (l0 : L) (m : M (R * L) A) : M R L :=
  fun s =>
    match m (fst s, (snd s, l0)) with
    | (Ret _, (w, (r, l))) => (Ret l, (w, r))
    | (Throw e, (w, (r, _))) => (Throw e, (w, r))
    | (OutOfFuel, (w, (r, _))) => (OutOfFuel, (w, r))
    end.

(** [keyInfo.name = v] on the local object of [with_local]. *)
Definition set_info {R} (name : string) (v : json) : M (R * list (string * json)) unit :=
  modify_report (fun s => (fst s, set_prop name v (snd s))).

Module Delete.

Definition DELETE_CURSOR_KEY : string := "delete_script_cursor".

Record deleteResults : Type := mkResults {
  processedKeys : list json;
  errors : list string;
  nextCursor : option string
}.

Definition empty : deleteResults := mkResults [] [] None.

Definition push_processed (x : list json) : M deleteResults unit :=
  modify_report (fun r => mkResults (processedKeys r ++ x) (errors r) (nextCursor r)).

Definition push_error (x : list string) : M deleteResults unit :=
  modify_report (fun r => mkResults (processedKeys r) (errors r ++ x) (nextCursor r)).

Definition set_nextCursor (x : string) : M deleteResults unit :=
  modify_report (fun r => mkResults (processedKeys r) (errors r) (Some x)).

Inductive reply : Type :=
| Report (status : Z) (results : deleteResults) (isDryRun : bool)
         (targetServer targetKey : option string) (expirationDays : Z)
| Failure (status : Z) (error : string) (details : option string).

(** What [sendDeleteRequest] returns. *)
Inductive deleteResult : Type :=
| Success
| NoSuccess (error : string).

Section Handlers.
Context (c : constants) (E : env) (parsedS3Providers : list s3Provider).

Definition sendDeleteRequest {R} (url : string) : M R deleteResult :=
  try_catch
    (let* (status, body) := fetch E "DELETE" url in
     if negb (ok status)
     then ret (NoSuccess ("Status: " +:+ pretty status +:+ ", Response: " +:+ raw body))
     else ret Success)
    (fun error =>
       let* m := message_of error in
       ret (NoSuccess m)).

(** [deleteFromS3] of [utils/s3Storage.js]: never throws. *)
Definition deleteFromS3 {R} (provider : s3Provider) (path : string) : M R bool :=
  let url := endpoint provider +:+ "/" +:+ bucket provider +:+ "/" +:+ path in
  try_catch
    (let* (status, _) := fetch E "DELETE" url in
     if negb (ok status) && negb (status =? 404)%Z
     then throw (Error ("S3 delete failed with status " +:+ pretty status))
     else ret true)
    (fun _ => ret false).

(** The callbacks of [deleteFromMultipleS3], one per URL; [None] is a
    rejected promise ([url.startsWith] on a value that is no string). *)
Fixpoint deletePromises {R} (providers : list s3Provider) (s3Urls : list json)
  : M R (list (option bool)) :=
  match s3Urls with
  | [] => ret []
  | JStr url :: s3Urls' =>
      let* r :=
        match List.find (fun p => String.prefix (publicUrl p) url) providers with
        | None => ret false
        | Some provider =>
            deleteFromS3 provider (remove_first (publicUrl provider +:+ "/") url)
        end in
      let* rs := deletePromises providers s3Urls' in
      ret (Some r :: rs)
  | _ :: s3Urls' =>
      let* rs := deletePromises providers s3Urls' in
      ret (None :: rs)
  end.

Definition deleteFromMultipleS3 {R} (providers : list s3Provider) (s3Urls : json)
  : M R bool :=
  match s3Urls with
  | JArr urls =>
      let* results := deletePromises providers urls in
      if forallb (fun r => match r with Some _ => true | None => false end) results
      then ret (existsb (fun r => match r with Some true => true | _ => false end) results)
      else throw (Error "url.startsWith is not a function")
  | _ => throw (Error "s3Urls.map is not a function")
  end.

(** [(now - lastSeen) / (1000 * 60 * 60 * 24)]; [None] is [NaN]. *)
Definition daysSinceLastSeen (now : Z) (lastSeen : option Z) : option Q :=
  match lastSeen with
  | Some t => Some (inject_Z (now - t) / inject_Z (1000 * 60 * 60 * 24))%Q
  | None => None
  end.

(** [daysSinceLastSeen > EXPIRATION_DAYS && !keyData.currentlyConnected] *)
Definition shouldDelete (now : Z) (keyData : json) : bool :=
  match daysSinceLastSeen now (Date_of E (get_prop "lastSeen" keyData)) with
  | Some days => negb (Qle_bool days (inject_Z (EXPIRATION_DAYS c)))
  | None => false
  end
  && negb (truthy_opt (get_prop "currentlyConnected" keyData)).

(** The object literal [keyInfo] is built from. *)
Definition keyInfo_of (keyName : string) (keyData : json) (now : Z) : list (string * json) :=
  let s3Paths := get_prop "s3Paths" keyData in
  [("key", JStr keyName)] ++ opt_prop "lastSeen" (get_prop "lastSeen" keyData) ++
  [("daysSinceLastSeen",
    JStr (toFixed2 (daysSinceLastSeen now (Date_of E (get_prop "lastSeen" keyData)))))] ++
  opt_prop "currentlyConnected" (get_prop "currentlyConnected" keyData) ++
  [("expirationDays", JNum (number_of_Z (EXPIRATION_DAYS c)))] ++
  opt_prop "creationTime" (get_prop "creationTime" keyData) ++
  opt_prop "deletionTime" (get_prop "deletionTime" keyData) ++
  [("isWebSocket",
    if truthy_opt (get_prop "isWebSocket" keyData)
    then nullish (get_prop "isWebSocket" keyData) else JBool false);
   ("s3Paths", if truthy_opt s3Paths then nullish s3Paths else JArr [])].

(** The [try] block that revokes one credential: backend delete, S3
    clean-up, tombstone. *)
Definition revoke (keyName : string) (keyData : json) (isDryRun : bool)
  (s3Providers : list s3Provider) (now : Z)
  : M (deleteResults * list (string * json)) unit :=
  let s3Paths := get_prop "s3Paths" keyData in
  let present := truthy_opt s3Paths && has_length E (nullish s3Paths) in
  let parts := split "-key-" keyName in
  let hostname := hd "" parts in
  let accessKey := nth_error parts 1 in
  let* endpointDataStr := retry c (KV_get E API_ENDPOINTS_NAMESPACE hostname) in
  if missing endpointDataStr
  then throw (Error ("API endpoint not found for hostname: " +:+ hostname))
  else
    let* apiEndpointUrl :=
      try_catch
        (let* endpointData := JSON_parse endpointDataStr in
         let* apiUrl := member "apiUrl" (Some endpointData) in
         ret (template apiUrl))
        (fun _ => ret (template_str (option_map raw endpointDataStr))) in
    let* deleteResult :=
      sendDeleteRequest (apiEndpointUrl +:+ "/access-keys/" +:+ template_str accessKey) in
    match deleteResult with
    | Success =>
        (* Delete S3 objects if configured and present *)
        run (if DELETE_S3_OBJECTS c && present
                && (0 <? Z.of_nat (List.length s3Providers))%Z
             then
               try_catch
                 (let* s3DeleteSuccess :=
                    deleteFromMultipleS3 s3Providers (nullish s3Paths) in
                  set_info "s3DeleteStatus"
                    (JStr (if s3DeleteSuccess then "Deleted" else "Partial failure")))
                 (fun s3Error =>
                    run set_info "s3DeleteStatus" (JStr "Failed") then
                    let* m := message_of s3Error in
                    set_info "s3DeleteError" (JStr m))
             else if present then
               set_info "s3DeleteStatus"
                 (JStr (if isDryRun then "Would delete"
                        else "Skipped (S3 deletion disabled)"))
             else ret tt) then
        let deletionTime := toISOString E now in
        let keyData :=
          set_prop "currentlyConnected" JNull
            (set_prop "deletionTime" (JStr deletionTime) (spread keyData)) in
        run retry c (KV_put E ACCESS_KEYS_NAMESPACE keyName (JsonText (JObj keyData))) then
        run set_info "deletionTime" (JStr deletionTime) then
        set_info "currentlyConnected" JNull
    | NoSuccess error => throw (Error ("Failed to delete key: " +:+ error))
    end.

Definition processKeyForDeletion (keyName : string) (keyData : json) (isDryRun : bool)
  (s3Providers : list s3Provider) : M deleteResults unit :=
  let* now := now E in
  run member "lastSeen" (Some keyData) then
  let days := daysSinceLastSeen now (Date_of E (get_prop "lastSeen" keyData)) in
  let* keyInfo :=
    with_local (keyInfo_of keyName keyData now)
      (if shouldDelete now keyData then
         run set_info "status" (JStr (if isDryRun then "Would delete" else "Deleted")) then
         run set_info "reason"
               (JStr ("Last seen " +:+ toFixed2 days +:+ " days ago (> " +:+
                      pretty (EXPIRATION_DAYS c) +:+ " days), not currently connected")) then
         if negb isDryRun then
           try_catch (revoke keyName keyData isDryRun s3Providers now)
             (fun error =>
                run set_info "status" (JStr "Error") then
                let* m := message_of error in
                set_info "error" (JStr m))
         else ret tt
       else
         run set_info "status" (JStr "Not deleted") then
         set_info "reason"
           (JStr (if truthy_opt (get_prop "currentlyConnected" keyData)
                  then "Currently connected"
                  else "Last seen " +:+ toFixed2 days +:+ " days ago (<= " +:+
                       pretty (EXPIRATION_DAYS c) +:+ " days)"))) in
  push_processed [JObj keyInfo].

(** [processKeys]: the [X-Target-Key] path. *)
Fixpoint processKeys_loop (keys : list string) (isDryRun : bool)
  (targetServer : option string) (s3Providers : list s3Provider) : M deleteResults unit :=
  match keys with
  | [] => ret tt
  | key :: keys' =>
      run try_catch
        (if nonempty targetServer
            && negb (String.prefix (template_str targetServer +:+ "-key-") key)
         then push_error ["Key " +:+ key +:+ " does not match target server " +:+
                          template_str targetServer]
         else
           let* keyData := retry c (KV_get E ACCESS_KEYS_NAMESPACE key) in
           if missing keyData then push_error ["Key not found: " +:+ key]
           else
             let* parsed := JSON_parse keyData in
             processKeyForDeletion key parsed isDryRun s3Providers)
        (fun error =>
           let* m := message_of error in
           push_error ["Error processing key " +:+ key +:+ ": " +:+ m]) then
      processKeys_loop keys' isDryRun targetServer s3Providers
  end.

Definition processKeys (keys : list string) (isDryRun : bool)
  (targetServer : option string) (s3Providers : list s3Provider)
  : M deleteResults deleteResults :=
  scoped (run set_report (mkResults [] [] None) then
          run processKeys_loop keys isDryRun targetServer s3Providers then
          get_report).

(** The [for ... of listResult.keys] loop of [processKeysForServer];
    [true] when it ended with [return deleteResults]. *)
Fixpoint server_page (page : list string) (targetServer : string) (isDryRun : bool)
  (s3Providers : list s3Provider) (pageCursor : option string) (processedCount : Z)
  : M deleteResults (bool * Z) :=
  match page with
  | [] => ret (false, processedCount)
  | key :: page' =>
      let* processedCount :=
        try_catch
          (let* t := KV_get E ACCESS_KEYS_NAMESPACE key in
           let* keyData := JSON_parse t in
           run processKeyForDeletion key keyData isDryRun s3Providers then
           ret (processedCount + 1)%Z)
          (fun error =>
             let* m := message_of error in
             run push_error ["Error processing key " +:+ key +:+ ": " +:+ m] then
             ret processedCount) in
      if (MAX_KEYS_PER_RUN c <=? processedCount)%Z then
        run set_nextCursor (targetServer +:+ ":" +:+ template_str pageCursor) then
        ret (true, processedCount)
      else server_page page' targetServer isDryRun s3Providers pageCursor processedCount
  end.

(** The [do ... while (cursor)] loop, bounded by [fuel] iterations. *)
Fixpoint server_paging (fuel : nat) (targetServer : string) (isDryRun : bool)
  (s3Providers : list s3Provider) (cursor : option string) (processedCount : Z)
  : M deleteResults unit :=
  match fuel with
  | O => fun s => (OutOfFuel, s)
  | S fuel' =>
      let* listResult :=
        retry c (KV_list E ACCESS_KEYS_NAMESPACE (Some (targetServer +:+ "-key-")) cursor
                   (Z.min (MAX_KEYS_PER_RUN c - processedCount) 1000)) in
      let* (returned, processedCount) :=
        server_page (keys listResult) targetServer isDryRun s3Providers
          (list_cursor listResult) processedCount in
      if returned then ret tt
      else
        let cursor := list_cursor listResult in
        if nonempty cursor
        then server_paging fuel' targetServer isDryRun s3Providers cursor processedCount
        else ret tt
  end.

(** Every page but the last holds at least one key of the namespace, so
    one iteration per stored key and one more are enough. *)
Definition processKeysForServer (targetServer : string) (isDryRun : bool)
  (s3Providers : list s3Provider) : M deleteResults deleteResults :=
  scoped (run set_report empty then
          let* w := get_world in
          run server_paging (S (List.length (access_keys w))) targetServer isDryRun
                s3Providers None 0 then
          get_report).

Inductive round : Type :=
| Next (currentCursor : option string) (globalKeyCount : Z)
| Break.

Definition hostname_round (hostname : string) (isDryRun : bool)
  (s3Providers : list s3Provider) (currentCursor : option string) (globalKeyCount : Z)
  : M deleteResults round :=
  try_catch
    (let* result := processKeysForServer hostname isDryRun s3Providers in
     let processedKeys := Delete.processedKeys result in
     let nextCursor := Delete.nextCursor result in
     run push_processed processedKeys then
     (* [processedKeys] is an array: it has no property [errors] *)
     let* processedKeys_errors := iterable (@None (list string)) in
     run push_error processedKeys_errors then
     let globalKeyCount := (globalKeyCount + Z.of_nat (List.length processedKeys))%Z in
     if (MAX_KEYS_PER_RUN c <=? globalKeyCount)%Z then
       run set_nextCursor (hostname +:+ ":" +:+ template_str nextCursor) then
       ret Break
     else ret (Next None globalKeyCount))
    (fun error =>
       let* m := message_of error in
       run push_error ["Error processing hostname " +:+ hostname +:+ ": " +:+ m] then
       ret (Next currentCursor globalKeyCount)).

Fixpoint hostnames_loop (hostnames : list string) (isDryRun : bool)
  (s3Providers : list s3Provider) (startHostname currentCursor : option string)
  (globalKeyCount : Z) : M deleteResults unit :=
  match hostnames with
  | [] => ret tt
  | hostname :: hostnames' =>
      if nonempty startHostname && negb (String.eqb hostname (template_str startHostname))
      then hostnames_loop hostnames' isDryRun s3Providers startHostname currentCursor
             globalKeyCount
      else
        let* r := hostname_round hostname isDryRun s3Providers currentCursor globalKeyCount in
        match r with
        | Break => ret tt
        | Next currentCursor globalKeyCount =>
            hostnames_loop hostnames' isDryRun s3Providers None currentCursor globalKeyCount
        end
  end.

Definition processAllKeys (isDryRun : bool) (startCursor : option string)
  (s3Providers : list s3Provider) : M deleteResults deleteResults :=
  scoped (run set_report empty then
          let* hostnames := retry c (KV_list E API_ENDPOINTS_NAMESPACE None None 1000) in
          let parts :=
            if nonempty startCursor then split ":" (template_str startCursor) else [] in
          let startHostname := nth_error parts 0 in
          let currentCursor := nth_error parts 1 in
          run hostnames_loop (keys hostnames) isDryRun s3Providers startHostname
                currentCursor 0 then
          get_report).

Definition handleRequest (request : option headers) (isCronTriggered : bool)
  : M deleteResults reply :=
  (* Default to dry run mode unless explicitly disabled *)
  let isDryRun :=
    match request with
    | Some h => match header "X-Dry-Run" h with
                | Some v => negb (String.eqb v "false")
                | None => true
                end
    | None => DELETE_DRY_RUN c
    end in
  let targetServer :=
    match request with Some h => header "X-Target-Server" h | None => None end in
  let targetKey :=
    match request with Some h => header "X-Target-Key" h | None => None end in
  let s3Providers := if DELETE_S3_OBJECTS c then parsedS3Providers else [] in
  let* isAuthorized :=
    if isCronTriggered then ret true else verifyAuth request (AUTH_TOKEN c) in
  if negb isAuthorized then ret (Failure 401 "Unauthorized" None)
  else
    try_catch
      (let* deleteResults :=
         if nonempty targetKey
         then processKeys [template_str targetKey] isDryRun targetServer s3Providers
         else if nonempty targetServer
         then processKeysForServer (template_str targetServer) isDryRun s3Providers
         else
           let* startCursor := retry c (KV_get E STATE_NAMESPACE DELETE_CURSOR_KEY) in
           let* deleteResults :=
             processAllKeys isDryRun (option_map raw startCursor) s3Providers in
           run (if isDryRun then ret tt
                else if nonempty (nextCursor deleteResults)
                then retry c (KV_put E STATE_NAMESPACE DELETE_CURSOR_KEY
                                (PlainText (template_str (nextCursor deleteResults))))
                else retry c (KV_delete E STATE_NAMESPACE DELETE_CURSOR_KEY)) then
           ret deleteResults in
       ret (Report 200 deleteResults isDryRun
              (if nonempty targetServer then targetServer else None)
              (if nonempty targetKey then targetKey else None)
              (EXPIRATION_DAYS c)))
      (fun error =>
         ret (Failure 500 "Error deleting access keys"
                (match error with Error m => Some m | Undefined => None end))).

End Handlers.
End Delete.

(** ** [handlers/get.js]: the endpoint scorer *)

Module Get.

(** What the outside world answers to the probes of one call.  The
    callbacks of [endpoints.keys.map] run concurrently; [settled] lists the
    endpoint names in the order in which their callbacks settle. *)
Record probes : Type := mkProbes {
  (* [namespace.list()], its keys in settling order *)
  settled : outcome (list string);
  (* [namespace.get(name)] *)
  endpointData : string -> outcome (option text);
  (* [fetch(url)]: the time the reply takes in milliseconds, and the reply *)
  reply : string -> Q * response
}.

(** A count or a score, computed exactly: a rational, an infinity or
    [NaN]. *)
Inductive quantity : Type :=
| Finite (q : Q)
| Infinite (negative : bool)
| NotANumber.

(** The value of a number. *)
Definition quantity_of (x : float) : quantity :=
  match Prim2SF x with
  | S754_nan => NotANumber
  | S754_infinity s => Infinite s
  | S754_zero _ => Finite 0
  | S754_finite s m e =>
      let a := if (0 <=? e)%Z then inject_Z (Zpos m * 2 ^ e) else (Zpos m # 2 ^ Z.to_pos (- e)) in
      Finite (if s then - a else a)
  end.

(** [w * x] and [a + x] for finite [w] and [a]. *)
Definition times (w : Q) (x : quantity) : quantity :=
  match x with
  | Finite q => Finite (w * q)
  | Infinite s =>
      if Qeq_bool w 0 then NotANumber else Infinite (xorb s (negb (Qle_bool 0 w)))
  | NotANumber => NotANumber
  end.

Definition plus (a : Q) (x : quantity) : quantity :=
  match x with
  | Finite q => Finite (a + q)
  | Infinite s => Infinite s
  | NotANumber => NotANumber
  end.

(** One entry of [endpointScores]. *)
Definition endpointScore : Type := (string * quantity)%type.

Section Scorer.
Context (c : constants) (E : env) (P : probes).

(** [accessKeys.accessKeys.length], inside the callback's [try]. *)
Definition accessKeyCount (body : text) : outcome quantity :=
  match body with
  | PlainText _ => Throw (Error "Unexpected token in JSON")
  | JsonText JNull => Throw (Error "Cannot read properties of null (reading 'accessKeys')")
  | JsonText j =>
      match get_prop "accessKeys" j with
      | None => Throw (Error "Cannot read properties of undefined (reading 'length')")
      | Some JNull => Throw (Error "Cannot read properties of null (reading 'length')")
      | Some (JArr l) => Ret (Finite (inject_Z (Z.of_nat (List.length l))))
      | Some (JStr s) => Ret (Finite (inject_Z (Z.of_nat (String.length s))))
      | Some (JObj ps) =>
          Ret (match assoc "length" ps with
               | Some v => quantity_of (ToNumber E v)
               | None => NotANumber
               end)
      | Some _ => Ret NotANumber
      end
  end.

(** [WEIGHT_LATENCY * latency + WEIGHT_ACCESS_KEY_COUNT * accessKeyCount] *)
Definition score (latency : Q) (accessKeyCount : quantity) : quantity :=
  plus (WEIGHT_LATENCY c * latency) (times (WEIGHT_ACCESS_KEY_COUNT c) accessKeyCount).

(** The URL the callback probes, from what the registry holds. *)
Definition accessKeysUrl (endpointDataStr : option text) : string :=
  let apiEndpointUrl :=
    match endpointDataStr with
    | Some (JsonText JNull) => "null"                 (* backward compatibility *)
    | Some (JsonText j) => template (get_prop "apiUrl" j)
    | Some (PlainText s) => s                          (* backward compatibility *)
    | None => "undefined"
    end in
  apiEndpointUrl +:+ "/access-keys".

(** The callback for one endpoint: what it pushes on [endpointScores], or
    the rejection of its promise. *)
Definition probe (endpoint : string) : outcome (list endpointScore) :=
  match endpointData P endpoint with
  | Ret endpointDataStr =>
      if missing endpointDataStr then Ret []
      else
        match reply P (accessKeysUrl endpointDataStr) with
        | (latency, Response status body) =>
            if Qle_bool (API_ENDPOINT_TIMEOUT c) latency then Ret []   (* AbortError *)
            else if ok status then
              match accessKeyCount body with
              | Ret n => Ret [(endpoint, score latency n)]
              | _ => Ret []
              end
            else Ret []
        | (_, NetworkError _) => Ret []
        end
  | Throw e => Throw e
  | OutOfFuel => OutOfFuel
  end.

(** [try { await Promise.all(fetchPromises) } catch ...]: the entries pushed
    by the callbacks that settle before the join ends, which is at the
    first rejection. *)
Fixpoint join (endpoints : list string) (endpointScores : list endpointScore)
  : list endpointScore :=
  match endpoints with
  | [] => endpointScores
  | endpoint :: endpoints' =>
      match probe endpoint with
      | Ret pushed => join endpoints' (endpointScores ++ pushed)
      | _ => endpointScores
      end
  end.

(** [(a, b) => a.score - b.score] is negative. *)
Definition before (a b : endpointScore) : bool :=
  match snd a, snd b with
  | Finite x, Finite y => negb (Qle_bool y x)
  | Finite _, Infinite s => negb s
  | Infinite s, Finite _ => s
  | Infinite s, Infinite s' => s && negb s'
  | _, _ => false
  end.

(** [Array.prototype.sort] is stable; on a comparator that orders the
    entries it yields the stable sorted permutation, which insertion
    computes. *)
Fixpoint insert (x : endpointScore) (l : list endpointScore) : list endpointScore :=
  match l with
  | [] => [x]
  | y :: l' => if before y x then y :: insert x l' else x :: y :: l'
  end.

Fixpoint sort (l : list endpointScore) : list endpointScore :=
  match l with
  | [] => []
  | x :: l' => insert x (sort l')
  end.

Definition getOptimalApiEndpoint : outcome string :=
  match settled P with
  | Ret endpoints =>
      let endpointScores := join endpoints [] in
      match sort endpointScores with
      | [] => Throw (Error "No available API endpoints.")
      | best :: _ => Ret (fst best)
      end
  | Throw e => Throw e
  | OutOfFuel => OutOfFuel
  end.

End Scorer.
End Get.

(** ** [handlers/list.js]: the listing of the credential store *)

(** The calendar functions of [Date] that [list.js] calls, in the time
    zone of the runtime, and [parseInt]. *)
Record calendar : Type := mkCalendar {
  (* [new Date(t).toDateString()] for a valid time value *)
  toDateString : Z -> string;
  (* [new Date(t).getFullYear()] *)
  getFullYear : Z -> Z;
  (* [new Date(t).getMonth()], from 0 *)
  getMonth : Z -> Z;
  (* [parseInt] on a string; [None] is [NaN] *)
  parseInt : string -> option Z
}.

(** *** Property order

    A JavaScript object lists the own properties whose names are array
    indices first, in ascending numeric order, and the others after them in
    the order of their creation.  An array index is the canonical numeral
    of an integer from 0 to 2^32 - 2. *)

Fixpoint numeral (acc : N) (s : string) : option N :=
  match s with
  | EmptyString => Some acc
  | String ch s' =>
      match digit_value ch with
      | Some d => numeral (10 * acc + N.of_nat d)%N s'
      | None => None
      end
  end.

Definition array_index (name : string) : option N :=
  match name with
  | EmptyString => None
  | String "0" EmptyString => Some 0%N
  | String "0" _ => None
  | _ =>
      match numeral 0 name with
      | Some n => if (n <? 4294967295)%N then Some n else None
      | None => None
      end
  end.

(** A new property whose name is the array index [n] takes its place
    among the array indices. *)
Fixpoint insert_index (n : N) (name : string) (v : json) (ps : list (string * json))
  : list (string * json) :=
  match ps with
  | [] => [(name, v)]
  | (k, x) :: ps' =>
      match array_index k with
      | Some m =>
          if (m <? n)%N then (k, x) :: insert_index n name v ps' else (name, v) :: ps
      | None => (name, v) :: ps
      end
  end.

(** [o[name] = v] for a name that is an own property of [o] or is not
    inherited through an accessor; [ps] are the own properties. *)
Definition assign (name : string) (v : json) (ps : list (string * json))
  : list (string * json) :=
  match array_index name with
  | Some n =>
      if existsb (String.eqb name) (map fst ps) then set_prop name v ps
      else insert_index n name v ps
  | None => set_prop name v ps
  end.

(** A name under which a new property of a plain object goes last:
    neither an array index nor [__proto__], the accessor of
    [Object.prototype]. *)
Definition plain_name (name : string) : Prop :=
  array_index name = None /\ name <> "__proto__".

Module Listing.

(** What [getFiltersFromHeaders] builds. *)
Record filters : Type := mkFilters {
  currentlyConnected : bool;
  createdOn : option string;
  createdInMonth : option string;
  lastSeenOn : option string;
  lastSeenInMonth : option string
}.

Record counts : Type := mkCounts {
  total : Z;
  connected : Z;            (* [counts.currentlyConnected] *)
  createdOnDate : Z;
  createdInMonthCount : Z;  (* [counts.createdInMonth] *)
  lastSeenOnDate : Z;
  lastSeenInMonthCount : Z  (* [counts.lastSeenInMonth] *)
}.

(** The two objects [listKeys] fills: [keys], with its own properties in
    property order, and [counts].  [bare] tells that the prototype of
    [keys] has been set to [null]. *)
Record listing : Type := mkListing {
  keys : list (string * json);
  tally : counts;
  bare : bool
}.

Definition empty : listing := mkListing [] (mkCounts 0 0 0 0 0 0) false.

(** What the HTTP response of [handleRequest] carries. *)
Inductive reply : Type :=
| Listed (status : Z) (result : listing)
| Failure (status : Z) (error : string) (details : option string).

Definition getFiltersFromHeaders (h : headers) : filters :=
  mkFilters
    (match header "X-Filter-Connected" h with
     | Some v => String.eqb v "true"
     | None => false
     end)
    (header "X-Filter-Created-On" h)
    (header "X-Filter-Created-In-Month" h)
    (header "X-Filter-Last-Seen-On" h)
    (header "X-Filter-Last-Seen-In-Month" h).

(** [keys[name] = v].  While [keys] inherits from [Object.prototype],
    the name [__proto__] is an accessor: assigning to it makes no
    property, and sets the prototype when the value is an object or
    [null]. *)
Definition put (name : string) (v : json) (r : listing) : listing :=
  if String.eqb name "__proto__" && negb (bare r)
  then mkListing (keys r) (tally r) (match v with JNull => true | _ => false end)
  else mkListing (assign name v (keys r)) (tally r) (bare r).

Definition set_key (name : string) (v : json) : M listing unit := modify_report (put name v).

(** [counts.total++] *)
Definition count_total : M listing unit :=
  modify_report
    (fun r =>
       let n := tally r in
       mkListing (keys r)
         (mkCounts (total n + 1) (connected n) (createdOnDate n) (createdInMonthCount n)
            (lastSeenOnDate n) (lastSeenInMonthCount n))
         (bare r)).

(** [counts.currentlyConnected++] *)
Definition count_connected : M listing unit :=
  modify_report
    (fun r =>
       let n := tally r in
       mkListing (keys r)
         (mkCounts (total n) (connected n + 1) (createdOnDate n) (createdInMonthCount n)
            (lastSeenOnDate n) (lastSeenInMonthCount n))
         (bare r)).

Section Handlers.
Context (c : constants) (E : env) (C : calendar).

(** [date.toDateString()]; an invalid date prints as "Invalid Date". *)
Definition dateString (t : option Z) : string :=
  match t with
  | Some t => toDateString C t
  | None => "Invalid Date"
  end.

Definition isOnDate (timestamp : option json) (targetDate : string) : bool :=
  if negb (truthy_opt timestamp) then false
  else
    let date := Date_of E timestamp in
    let target := Date_parse E targetDate in
    String.eqb (dateString date) (dateString target).

(** [x === parseInt(s) - k] for an integer [x]; [parseInt(undefined)] is
    [NaN]. *)
Definition equals_parsed (x : Z) (s : option string) (k : Z) : bool :=
  match s with
  | Some s => match parseInt C s with
              | Some n => (x =? n - k)%Z
              | None => false
              end
  | None => false
  end.

Definition isInMonth (timestamp : option json) (targetMonth : string) : bool :=
  if negb (truthy_opt timestamp) then false
  else
    let parts := split "-" targetMonth in
    let year := nth_error parts 0 in
    let month := nth_error parts 1 in
    match Date_of E timestamp with
    | Some t => equals_parsed (getFullYear C t) year 0 && equals_parsed (getMonth C t) month 1
    | None => false        (* [NaN === ...] *)
    end.

(** One line of [applyFilters]: [if (filter && !test(keyData.name, filter))
    return false]; [true] when the line returns. *)
Definition rejects (filter : option string) (name : string)
  (test : option json -> string -> bool) (keyData : json) : M listing bool :=
  if nonempty filter then
    let* x := member name (Some keyData) in
    ret (negb (test x (template_str filter)))
  else ret false.

Definition applyFilters (keyData : json) (f : filters) : M listing bool :=
  let* r1 :=
    if currentlyConnected f then
      let* x := member "currentlyConnected" (Some keyData) in
      ret (negb (truthy_opt x))
    else ret false in
  if r1 then ret false else
  let* r2 := rejects (createdOn f) "creationTime" isOnDate keyData in
  if r2 then ret false else
  let* r3 := rejects (createdInMonth f) "creationTime" isInMonth keyData in
  if r3 then ret false else
  let* r4 := rejects (lastSeenOn f) "lastSeen" isOnDate keyData in
  if r4 then ret false else
  let* r5 := rejects (lastSeenInMonth f) "lastSeen" isInMonth keyData in
  if r5 then ret false else ret true.

Definition updateCounts (keyData : json) : M listing unit :=
  let* x := member "currentlyConnected" (Some keyData) in
  if truthy_opt x then count_connected else ret tt.
  (* Add other count updates as needed *)

Definition processKey (key : string) (f : filters) : M listing unit :=
  try_catch
    (let* value := KV_get E ACCESS_KEYS_NAMESPACE key in
     let* keyData := JSON_parse value in
     run count_total then
     let* pass := applyFilters keyData f in
     if pass then
       run set_key key keyData then
       updateCounts keyData
     else ret tt)
    (fun error =>
       let* m := message_of error in
       set_key key (JObj [("error", JStr ("Failed to parse: " +:+ m))])).

(** The [for ... of listResult.keys] loop. *)
Fixpoint process_page (page : list string) (f : filters) : M listing unit :=
  match page with
  | [] => ret tt
  | key :: page' => run processKey key f then process_page page' f
  end.

(** The [while (!done)] loop, bounded by [fuel] iterations.  A listing is
    complete ([list_complete]) exactly when it carries no cursor. *)
Fixpoint paging (fuel : nat) (f : filters) (cursor : option string) : M listing unit :=
  match fuel with
  | O => fun s => (OutOfFuel, s)
  | S fuel' =>
      let* listResult :=
        try_catch
          (let* listResult := KV_list E ACCESS_KEYS_NAMESPACE None cursor 1000 in
           let 'mkListResult page _ := listResult in
           run process_page page f then
           ret listResult)
          (fun error =>
             let* m := message_of error in
             throw (Error ("Failed to list keys: " +:+ m))) in
      match list_cursor listResult with
      | None => ret tt
      | Some cursor' => paging fuel' f (Some cursor')
      end
  end.

(** Every page but the last holds at least one key of the namespace, so
    one iteration per stored key and one more are enough. *)
Definition listKeys (f : filters) : M listing listing :=
  scoped (run set_report empty then
          let* w := get_world in
          run paging (S (List.length (access_keys w))) f None then
          get_report).

Definition handleRequest (request : option headers) : M listing reply :=
  let* isAuthorized := verifyAuth request (AUTH_TOKEN c) in
  if negb isAuthorized then ret (Failure 401 "Unauthorized" None)
  else
    try_catch
      (let f := getFiltersFromHeaders (match request with Some h => h | None => [] end) in
       let* result := listKeys f in
       ret (Listed 200 result))
      (fun error =>
         ret (Failure 500 "Error listing keys"
                (match error with Error m => Some m | Undefined => None end))).

End Handlers.
End Listing.

(** ** [utils/s3Storage.js]: the upload of a dynamic key

    The request headers (payload hash, date, AWS signature) do not show in
    the world; what matters of their computation is whether it throws:
    [new URL(provider.endpoint)] and the calls of [crypto.subtle] are
    inside the [try] of each attempt. *)

Module S3.

Section Upload.
Context (E : env).
(** The error that signing a request of the provider throws, if any. *)
Context (signing_error : s3Provider -> option string).

(** The [try] block of one attempt: the public URL when the provider
    accepts the object, [None] when the loop goes on to the next
    attempt. *)
Definition attempt_upload {R} (provider : s3Provider) (path : string) : M R (option string) :=
  let url := endpoint provider +:+ "/" +:+ bucket provider +:+ "/" +:+ path in
  run (match signing_error provider with
       | Some msg => throw (Error msg)
       | None => ret tt
       end) then
  let* (status, body) := fetch E "PUT" url in
  if ok status then ret (Some (publicUrl provider +:+ "/" +:+ path))
  else if (status <? 500)%Z && negb (status =? 429)%Z then
    (* Don't retry on client errors (except rate limits) *)
    throw (Error ("S3 upload failed with status " +:+ pretty status +:+ ": " +:+ raw body))
  else ret None.

(** The [for] loop from [attempt] on, with [n] iterations to go. *)
Fixpoint upload_attempts {R} (n : nat) (attempt maxRetries : Z) (provider : s3Provider)
  (path : string) : M R string :=
  match n with
  | O => throw (Error ("Failed to upload to S3 after " +:+ pretty maxRetries +:+ " attempts"))
  | S n' =>
      let* uploaded :=
        try_catch (attempt_upload provider path)
          (fun error => if (attempt =? maxRetries)%Z then throw error else ret None) in
      match uploaded with
      | Some publicUrl => ret publicUrl
      | None => upload_attempts n' (attempt + 1) maxRetries provider path
      end
  end.

(** [attempt] runs from 1 to [maxRetries]. *)
Definition uploadToS3 {R} (provider : s3Provider) (path : string) (maxRetries : Z)
  : M R string :=
  upload_attempts (Z.to_nat maxRetries) 1 maxRetries provider path.

End Upload.
End S3.

(** ** A reference environment for the examples

    An outside world in which every request succeeds, with the date and
    number functions of the platform restricted to the formats the
    handlers themselves produce: [Date.parse] reads the 24-character
    format of [toISOString], [parseFloat] a decimal numeral. *)

Module Reference.

Definition days_from_civil (y m d : Z) : Z :=
  let y' := (if m <=? 2 then y - 1 else y)%Z in
  let era := (y' / 400)%Z in
  let yoe := (y' - era * 400)%Z in
  let doy := ((153 * (if 2 <? m then m - 3 else m + 9) + 2) / 5 + d - 1)%Z in
  let doe := (yoe * 365 + yoe / 4 - yoe / 100 + doy)%Z in
  (era * 146097 + doe - 719468)%Z.

Definition civil_from_days (z : Z) : Z * Z * Z :=
  let z := (z + 719468)%Z in
  let era := (z / 146097)%Z in
  let doe := (z - era * 146097)%Z in
  let yoe := ((doe - doe / 1460 + doe / 36524 - doe / 146096) / 365)%Z in
  let doy := (doe - (365 * yoe + yoe / 4 - yoe / 100))%Z in
  let mp := ((5 * doy + 2) / 153)%Z in
  let d := (doy - (153 * mp + 2) / 5 + 1)%Z in
  let m := (if mp <? 10 then mp + 3 else mp - 9)%Z in
  ((yoe + era * 400 + (if m <=? 2 then 1 else 0))%Z, m, d).

Fixpoint pad_go (fuel width : nat) (s : string) : string :=
  match fuel with
  | O => s
  | S f => if (String.length s <? width)%nat then pad_go f width ("0" +:+ s) else s
  end.

Definition pad (width : nat) (s : string) : string := pad_go width width s.

Definition digits (width : nat) (n : Z) : string := pad width (pretty n).

Definition toISOString (ms : Z) : string :=
  let '(y, m, d) := civil_from_days (ms / 86400000) in
  let r := (ms mod 86400000)%Z in
  let year :=
    if (0 <=? y)%Z && (y <=? 9999)%Z then digits 4 y
    else (if (y <? 0)%Z then "-" else "+") +:+ digits 6 (Z.abs y) in
  year +:+ "-" +:+ digits 2 m +:+ "-" +:+ digits 2 d +:+ "T" +:+
  digits 2 (r / 3600000) +:+ ":" +:+ digits 2 (r / 60000 mod 60) +:+ ":" +:+
  digits 2 (r / 1000 mod 60) +:+ "." +:+ digits 3 (r mod 1000) +:+ "Z".

Definition number_at (start len : nat) (s : string) : option Z :=
  option_map Z.of_nat (decode_cursor (String.substring start len s)).

Definition Date_parse (s : string) : option Z :=
  if (String.length s =? 24)%nat
     && String.eqb (String.substring 4 1 s) "-" && String.eqb (String.substring 7 1 s) "-"
     && String.eqb (String.substring 10 1 s) "T" && String.eqb (String.substring 13 1 s) ":"
     && String.eqb (String.substring 16 1 s) ":" && String.eqb (String.substring 19 1 s) "."
     && String.eqb (String.substring 23 1 s) "Z"
  then
    match number_at 0 4 s, number_at 5 2 s, number_at 8 2 s, number_at 11 2 s,
          number_at 14 2 s, number_at 17 2 s, number_at 20 3 s with
    | Some y, Some m, Some d, Some h, Some mi, Some sec, Some milli =>
        Some (days_from_civil y m d * 86400000 + h * 3600000 + mi * 60000
              + sec * 1000 + milli)%Z
    | _, _, _, _, _, _, _ => None
    end
  else None.

(** A decimal numeral [digits] or [digits.digits], with an optional sign. *)
Definition digits_value (s : string) : option N :=
  match s with
  | EmptyString => None
  | _ => numeral 0 s
  end.

Definition numeral_value (s : string) : option Q :=
  let unsigned (u : string) : option Q :=
    match split "." u with
    | [i] => option_map (fun n => inject_Z (Z.of_N n)) (digits_value i)
    | [i; f] =>
        match digits_value i, digits_value f with
        | Some a, Some b =>
            Some (inject_Z (Z.of_N a)
                  + (Z.of_N b # Pos.of_nat (10 ^ String.length f)))%Q
        | _, _ => None
        end
    | _ => None
    end in
  match s with
  | String "-" s' => option_map Qopp (unsigned s')
  | _ => unsigned s
  end.

Definition parseFloat (s : string) : float :=
  match numeral_value s with
  | Some q => number_of_Q q
  | None => nan
  end.

Definition StringToNumber (s : string) : float :=
  match s with
  | EmptyString => 0%float
  | _ => parseFloat s
  end.

(** Every KV request succeeds; HTTP replies and the clock are given. *)
Definition reliable (http : nat -> string -> string -> response) (clock : nat -> Z) : env :=
  mkEnv (fun _ => None) http clock Date_parse toISOString parseFloat StringToNumber.

End Reference.

(** ** Scenarios

    Two backends [a] and [b] with three live credentials, a usage oracle
    that reports two samples for key id 1 and two for key id 3, backends
    that refuse every delete request, and a clock stopped at
    2024-07-01T00:00:00Z. *)

Module Scenario.

Definition config : constants :=
  mkConstants "secret" 1 2 90 false false (8 # 10) (2 # 10) 5000.

(** The samples of the oracle: key id, time in seconds, byte count. *)
Definition samples : list (string * float * string) :=
  [("1", number_of_Q (1719791900250 # 1000), "2048.5");
   ("1", number_of_Z 1719791000, "100");
   ("3", number_of_Z 1719791900, "0.1");
   ("3", number_of_Z 1719791900, "0.2")].

Definition sample_of (x : string * float * string) : json :=
  let '(k, t, b) := x in
  JObj [("metric", JObj [("__name__", JStr "shadowsocks_data_bytes");
                         ("access_key", JStr k); ("dir", JStr "c<p")]);
        ("value", JArr [JNum t; JStr b])].

Definition vector : list json := map sample_of samples.

Definition http_replies (n : nat) (method url : string) : response :=
  if String.eqb method "GET"
  then Response 200
         (JsonText (JObj [("status", JStr "success");
                          ("data", JObj [("resultType", JStr "vector");
                                         ("result", JArr vector)])]))
  else Response 500 (PlainText "refused").

Definition today : Z := 1719792000000.

Definition outside : env := Reference.reliable http_replies (fun _ => today).

(** Seen a month ago, connected. *)
Definition live : json :=
  JObj [("creationTime", JStr "2024-05-01T00:00:00.000Z"); ("deletionTime", JNull);
        ("lastSeen", JStr "2024-06-01T00:00:00.000Z"); ("currentlyConnected", JBool true)].

(** Idle for 91 days, not connected. *)
Definition idle : json :=
  JObj [("creationTime", JStr "2024-03-01T00:00:00.000Z"); ("deletionTime", JNull);
        ("lastSeen", JStr "2024-04-01T00:00:00.000Z"); ("currentlyConnected", JBool false)].

(** A record written before the activity fields existed. *)
Definition legacy : json := JObj [("creationTime", JStr "2023-01-01T00:00:00.000Z")].

(** As issued the day before: never seen. *)
Definition issued : json :=
  JObj [("creationTime", JStr "2024-06-30T00:00:00.000Z"); ("deletionTime", JNull);
        ("lastSeen", JNull); ("currentlyConnected", JNull)].

(** A tombstone. *)
Definition tombstone : json :=
  JObj [("creationTime", JStr "2023-01-01T00:00:00.000Z");
        ("deletionTime", JStr "2024-02-01T00:00:00.000Z");
        ("lastSeen", JStr "2023-10-01T00:00:00.000Z"); ("currentlyConnected", JNull)].

Definition endpoint_of (h : string) : text :=
  JsonText (JObj [("apiUrl", JStr ("https://" +:+ h +:+ "/api"));
                  ("prometheusUrl", JStr ("https://" +:+ h +:+ "/prom"))]).

Definition registry : kv text := [("a", endpoint_of "a"); ("b", endpoint_of "b")].

Definition fleet : world :=
  mkWorld [("a-key-1", JsonText live); ("a-key-2", JsonText live); ("b-key-1", JsonText live)]
          registry [] [].

Definition one (key : string) (record : json) : world :=
  mkWorld [(key, JsonText record)] registry [] [].

(** A snapshot in which key id 1 is active, last seen in January. *)
Definition stale_snapshot : gmap string activity :=
  {[ "1" := mkActivity 5%float "2024-01-01T00:00:00.000Z" ]}.

Definition key_list (n : nat) : text :=
  JsonText (JObj [("accessKeys", JArr (repeat JNull n))]).

(** Backend A answers in 50 ms with 10 keys, backend B in 20 ms with
    100, backend C in 10 ms with one. *)
Definition replies (url : string) : Q * response :=
  if String.eqb url "https://A/access-keys" then (50%Q, Response 200 (key_list 10))
  else if String.eqb url "https://B/access-keys" then (20%Q, Response 200 (key_list 100))
  else (10%Q, Response 200 (key_list 1)).

Definition registered (e : string) : option text :=
  Some (JsonText (JObj [("apiUrl", JStr ("https://" +:+ e))])).

Definition probes : Get.probes :=
  Get.mkProbes (Ret ["A"; "B"]) (fun e => Ret (registered e)) replies.

(** The read of the registry entry of A fails, before any callback has
    settled. *)
Definition failing_read : Get.probes :=
  Get.mkProbes (Ret ["A"; "B"])
    (fun e => if String.eqb e "A" then Throw (Error "KV GET failed") else Ret (registered e))
    replies.

(** The same failure once the callback of B has settled; the callback of
    C is still waiting for its reply. *)
Definition failing_late : Get.probes :=
  Get.mkProbes (Ret ["B"; "A"; "C"])
    (fun e => if String.eqb e "A" then Throw (Error "KV GET failed") else Ret (registered e))
    replies.

End Scenario.

(** ** More scenarios

    The calendar of a runtime in UTC, backends that accept every delete
    request, and the worlds of the examples of the management
    endpoints. *)

Module Utc.

Definition weekday (days : Z) : string :=
  nth (Z.to_nat ((days + 4) mod 7)) ["Sun"; "Mon"; "Tue"; "Wed"; "Thu"; "Fri"; "Sat"] "".

Definition month_name (m : Z) : string :=
  nth (Z.to_nat (m - 1))
    ["Jan"; "Feb"; "Mar"; "Apr"; "May"; "Jun"; "Jul"; "Aug"; "Sep"; "Oct"; "Nov"; "Dec"] "".

(** [toDateString]: "Mon Jul 01 2024". *)
Definition toDateString (ms : Z) : string :=
  let days := (ms / 86400000)%Z in
  let '(y, m, d) := Reference.civil_from_days days in
  weekday days +:+ " " +:+ month_name m +:+ " " +:+ Reference.digits 2 d +:+ " " +:+
  Reference.digits 4 y.

Definition getFullYear (ms : Z) : Z :=
  let '(y, _, _) := Reference.civil_from_days (ms / 86400000) in y.

Definition getMonth (ms : Z) : Z :=
  let '(_, m, _) := Reference.civil_from_days (ms / 86400000) in (m - 1)%Z.

(** [parseInt] on a decimal numeral with an optional sign. *)
Definition parseInt (s : string) : option Z :=
  match s with
  | String "-" s' => option_map (fun n => (- Z.of_nat n)%Z) (decode_cursor s')
  | _ => option_map Z.of_nat (decode_cursor s)
  end.

Definition calendar : calendar := mkCalendar toDateString getFullYear getMonth parseInt.

End Utc.

Module Cases.

(** Every backend and S3 provider accepts what it is sent. *)
Definition accepting : env :=
  Reference.reliable (fun _ _ _ => Response 200 (PlainText "")) (fun _ => Scenario.today).

(** The configuration of the scenarios with no attempt for [retry]. *)
Definition no_attempt : constants :=
  mkConstants "secret" 1 0 90 false false (8 # 10) (2 # 10) 5000.

(** An S3 provider that refuses the first request it is sent. *)
Definition bucket_a : s3Provider := mkProvider "https://s3.a" "keys" "https://cdn.a".

Definition refusing_once : env :=
  Reference.reliable
    (fun n _ _ => if (n =? 0)%nat then Response 403 (PlainText "AccessDenied")
                  else Response 200 (PlainText ""))
    (fun _ => Scenario.today).

Definition authorised : headers := [("authorization", "Bearer secret")].

(** The fleet with one idle credential on backend [a]. *)
Definition mixed : world :=
  mkWorld [("a-key-1", JsonText Scenario.idle); ("a-key-2", JsonText Scenario.live);
           ("b-key-1", JsonText Scenario.live)]
          Scenario.registry [] [].

(** The fleet with a saved reconciliation cursor that names a backend
    that has left the registry. *)
Definition resumed : world :=
  mkWorld (access_keys Scenario.fleet) Scenario.registry
          [(Update.UPDATE_CURSOR_KEY, PlainText "z:2")] [].

End Cases.

(** ** Vocabulary of the statements *)

(** The result and the final state of a handler started on [w] with
    report [r]. *)
Definition result_of {R A} (x : outcome A * (world * R)) : outcome A := fst x.
Definition world_of {R A} (x : outcome A * (world * R)) : world := fst (snd x).
Definition report_of {R A} (x : outcome A * (world * R)) : R := snd (snd x).

(** The requests sent between [w] and a later world [w']. *)
Definition sent (w w' : world) : list event :=
  firstn (List.length (trace w') - List.length (trace w)) (trace w').

(** The mutating requests among them: KV puts and deletes, and HTTP
    requests other than GET. *)
Definition writes (w w' : world) : list event := List.filter mutating (sent w w').

Definition same_stores (w w' : world) : Prop :=
  access_keys w' = access_keys w /\ api_endpoints w' = api_endpoints w
  /\ state w' = state w.

(** [w'] comes from [w] by read requests only. *)
Definition reads_only (w w' : world) : Prop :=
  same_stores w w' /\
  exists evs, trace w' = evs ++ trace w /\ List.filter mutating evs = [].

(** A computation that only ever reads. *)
Definition quiet {R A} (m : M R A) : Prop :=
  forall s, reads_only (fst s) (world_of (m s)).

(** The keys of the entries of a report list. *)
Definition key_of (entry : json) : option json := get_prop "key" entry.

(** The three activity fields are all present in a stored record. *)
Definition complete (keyData : json) : Prop :=
  get_prop "deletionTime" keyData <> None /\ get_prop "lastSeen" keyData <> None
  /\ get_prop "currentlyConnected" keyData <> None.

(** The stored record of a credential. *)
Definition stored (key : string) (w : world) : option text := kv_get key (access_keys w).

(** * Theorems *)

(** ** Read-only computations *)

Lemma reads_only_refl (w : world) : reads_only w w.
Proof.
  split; [repeat split | exists []; split; reflexivity].
Qed.

Lemma reads_only_trans (w1 w2 w3 : world) :
  reads_only w1 w2 -> reads_only w2 w3 -> reads_only w1 w3.
Proof.
  intros [[Ha [Hb Hc]] [e1 [He1 Hf1]]] [[Ha' [Hb' Hc']] [e2 [He2 Hf2]]].
  split.
  - repeat split; congruence.
  - exists (e2 ++ e1). split.
    + rewrite He2, He1. apply app_assoc.
    + rewrite List.filter_app, Hf1, Hf2. reflexivity.
Qed.

Lemma reads_only_event (e : event) (w : world) :
  mutating e = false -> reads_only w (record_event e w).
Proof.
  intros He. split; [repeat split |].
  exists [e]. split; [reflexivity | simpl; rewrite He; reflexivity].
Qed.


Section Quiet.
Context {R : Type}.

Lemma quiet_ret {A} (a : A) : quiet (@ret R A a).
Proof. intros s. apply reads_only_refl. Qed.

Lemma quiet_throw {A} (e : exn) : quiet (@throw R A e).
Proof. intros s. apply reads_only_refl. Qed.

Lemma quiet_bind {A B} (m : M R A) (k : A -> M R B) :
  quiet m -> (forall a, quiet (k a)) -> quiet (bind m k).
Proof.
  intros Hm Hk s. unfold bind, world_of. specialize (Hm s). unfold world_of in Hm.
  destruct (m s) as [[a | e |] s']; simpl in *; try exact Hm.
  eapply reads_only_trans; [exact Hm | apply (Hk a s')].
Qed.

Lemma quiet_try_catch {A} (m : M R A) (h : exn -> M R A) :
  quiet m -> (forall e, quiet (h e)) -> quiet (try_catch m h).
Proof.
  intros Hm Hh s. unfold try_catch, world_of. specialize (Hm s). unfold world_of in Hm.
  destruct (m s) as [[a | e |] s']; simpl in *; try exact Hm.
  eapply reads_only_trans; [exact Hm | apply (Hh e s')].
Qed.

Lemma quiet_retry_from {A} (fn : M R A) (n : nat) (e : exn) :
  quiet fn -> quiet (retry_from fn n e).
Proof.
  intros Hfn. revert e. induction n as [| n IH]; intros e; simpl.
  - apply quiet_throw.
  - apply quiet_try_catch; [exact Hfn | exact IH].
Qed.

Lemma quiet_retry {A} (c : constants) (fn : M R A) : quiet fn -> quiet (retry c fn).
Proof. apply quiet_retry_from. Qed.

Lemma quiet_modify_report (f : R -> R) : quiet (modify_report f).
Proof. intros s. apply reads_only_refl. Qed.

Lemma quiet_get_report : quiet (@get_report R).
Proof. intros s. apply reads_only_refl. Qed.

Lemma quiet_get_world : quiet (@get_world R).
Proof. intros s. apply reads_only_refl. Qed.

Lemma quiet_message_of (e : exn) : quiet (@message_of R e).
Proof. destruct e; [apply quiet_ret | apply quiet_throw]. Qed.

Lemma quiet_member (name : string) (x : option json) : quiet (@member R name x).
Proof.
  destruct x as [[]|]; first [apply quiet_ret | apply quiet_throw].
Qed.

Lemma quiet_JSON_parse (t : option text) : quiet (@JSON_parse R t).
Proof.
  destruct t as [[]|]; first [apply quiet_ret | apply quiet_throw].
Qed.

Lemma quiet_now (E : env) : quiet (@now R E).
Proof. intros s. apply reads_only_refl. Qed.

Lemma quiet_Date_toISOString (E : env) (ms : option Z) : quiet (@Date_toISOString R E ms).
Proof.
  destruct ms as [t|]; simpl; [| apply quiet_throw].
  destruct (Z.abs t <=? 8640000000000000)%Z; [apply quiet_ret | apply quiet_throw].
Qed.

Lemma quiet_kv_request {A} (E : env) (ev : event) (reply : world -> outcome A * world) :
  mutating ev = false -> (forall w, snd (reply w) = w) -> quiet (@kv_request R A E ev reply).
Proof.
  intros Hev Hreply s. unfold kv_request, world_of.
  destruct (kv_error E (List.length (trace (fst s)))); simpl.
  - apply reads_only_event, Hev.
  - specialize (Hreply (record_event ev (fst s))).
    destruct (reply (record_event ev (fst s))) as [o w2]. simpl in *. subst w2.
    apply reads_only_event, Hev.
Qed.

Lemma quiet_KV_get (E : env) (ns : namespace) (k : string) : quiet (@KV_get R E ns k).
Proof. apply quiet_kv_request; reflexivity. Qed.

Lemma quiet_KV_list (E : env) (ns : namespace) (pfx cur : option string) (limit : Z) :
  quiet (@KV_list R E ns pfx cur limit).
Proof. apply quiet_kv_request; reflexivity. Qed.

Lemma quiet_fetch_GET (E : env) (url : string) : quiet (@fetch R E "GET" url).
Proof.
  intros s. unfold fetch, world_of.
  destruct (http E (List.length (trace (fst s))) "GET" url); simpl;
    apply reads_only_event; reflexivity.
Qed.

Lemma quiet_scoped {A} (m : M R A) : quiet m -> quiet (scoped m).
Proof.
  intros Hm s. unfold scoped, world_of. specialize (Hm s). unfold world_of in Hm.
  destruct (m s) as [o s']. exact Hm.
Qed.

Lemma quiet_verifyAuth (request : option headers) (token : string) :
  quiet (@verifyAuth R request token).
Proof. destruct request; [apply quiet_ret | apply quiet_throw]. Qed.

Lemma quiet_out_of_fuel {A} : quiet (fun s : world * R => (@OutOfFuel A, s)).
Proof. intros s. apply reads_only_refl. Qed.

End Quiet.

Lemma quiet_with_local {R L A} (l0 : L) (m : M (R * L) A) :
  quiet m -> quiet (@with_local R L A l0 m).
Proof.
  intros Hm s. unfold with_local, world_of. specialize (Hm (fst s, (snd s, l0))).
  unfold world_of in Hm.
  destruct (m (fst s, (snd s, l0))) as [[a | e |] [w [r l]]]; exact Hm.
Qed.

(** One step of a proof that a handler is read-only: the rule for the
    construct at the head of the computation. *)
Ltac quiet_step :=
  lazymatch goal with
  | |- quiet (bind _ _) => apply quiet_bind; [| intros ?]
  | |- quiet (try_catch _ _) => apply quiet_try_catch; [| intros ?]
  | |- quiet (retry _ _) => apply quiet_retry
  | |- quiet (scoped _) => apply quiet_scoped
  | |- quiet (with_local _ _) => apply quiet_with_local
  | |- quiet (ret _) => apply quiet_ret
  | |- quiet (throw _) => apply quiet_throw
  | |- quiet (modify_report _) => apply quiet_modify_report
  | |- quiet (set_report _) => apply quiet_modify_report
  | |- quiet (set_info _ _) => apply quiet_modify_report
  | |- quiet get_report => apply quiet_get_report
  | |- quiet get_world => apply quiet_get_world
  | |- quiet (message_of _) => apply quiet_message_of
  | |- quiet (member _ _) => apply quiet_member
  | |- quiet (JSON_parse _) => apply quiet_JSON_parse
  | |- quiet (now _) => apply quiet_now
  | |- quiet (Date_toISOString _ _) => apply quiet_Date_toISOString
  | |- quiet (KV_get _ _ _) => apply quiet_KV_get
  | |- quiet (KV_list _ _ _ _ _) => apply quiet_KV_list
  | |- quiet (fetch _ "GET" _) => apply quiet_fetch_GET
  | |- quiet (verifyAuth _ _) => apply quiet_verifyAuth
  | |- quiet (if ?b then _ else _) => destruct b
  | |- quiet (match ?x with _ => _ end) => destruct x
  end.

Ltac quiet_tac := repeat quiet_step.

(** ** Objects *)

Lemma assoc_set_prop_eq (k : string) (v : json) (l : list (string * json)) :
  assoc k (set_prop k v l) = Some v.
Proof.
  induction l as [| [k' x] l IH]; simpl.
  - rewrite String.eqb_refl. reflexivity.
  - destruct (String.eqb k' k) eqn:Hk; simpl; rewrite Hk; [reflexivity | exact IH].
Qed.

Lemma assoc_set_prop_ne (k k' : string) (v : json) (l : list (string * json)) :
  k <> k' -> assoc k' (set_prop k v l) = assoc k' l.
Proof.
  intros Hne. induction l as [| [k0 x] l IH]; simpl.
  - destruct (String.eqb k k') eqn:Hk; [apply String.eqb_eq in Hk; contradiction | reflexivity].
  - destruct (String.eqb k0 k) eqn:Hk; simpl.
    + apply String.eqb_eq in Hk. subst k0.
      destruct (String.eqb k k') eqn:Hk'; [apply String.eqb_eq in Hk'; contradiction | reflexivity].
    + destruct (String.eqb k0 k'); [reflexivity | exact IH].
Qed.

(** ** The revocation decision *)

Lemma days_exceed (d e : Z) :
  negb (Qle_bool (inject_Z d / inject_Z (1000 * 60 * 60 * 24)) (inject_Z e)) = true
  <-> (e * 86400000 < d)%Z.
Proof.
  rewrite negb_true_iff, <- not_true_iff_false, Qle_bool_iff.
  unfold Qle, Qdiv, Qmult, Qinv, inject_Z. simpl. lia.
Qed.

(** [currentlyConnected] holds one of the values of the data model:
    absent, [null], [true] or [false]. *)
Definition tri_state (x : option json) : Prop :=
  x = None \/ x = Some JNull \/ exists b, x = Some (JBool b).

Section Revocation.
Context (c : constants) (E : env).

Lemma shouldDelete_iff (now : Z) (keyData : json) :
  Delete.shouldDelete c E now keyData = true <->
  (exists t, Date_of E (get_prop "lastSeen" keyData) = Some t
             /\ (EXPIRATION_DAYS c * 86400000 < now - t)%Z)
  /\ truthy_opt (get_prop "currentlyConnected" keyData) = false.
Proof.
  unfold Delete.shouldDelete, Delete.daysSinceLastSeen.
  rewrite andb_true_iff, negb_true_iff.
  destruct (Date_of E (get_prop "lastSeen" keyData)) as [t|].
  - rewrite days_exceed. split.
    + intros [H1 H2]. split; [exists t; split; [reflexivity | exact H1] | exact H2].
    + intros [[t' [Ht H1]] H2]. injection Ht as <-. split; assumption.
  - split; [intros [H _]; discriminate | intros [[t [Ht _]] _]; discriminate].
Qed.

Lemma tri_state_falsy (x : option json) :
  tri_state x -> (truthy_opt x = false <-> x <> Some (JBool true)).
Proof.
  intros [-> | [-> | [b ->]]]; simpl; [split; congruence .. |].
  destruct b; split; congruence.
Qed.

(** What the scanner reports for a credential it does not revoke: no
    request is sent, and the entry names the decision. *)
Lemma processKeyForDeletion_reports (keyName : string) (keyData : json) (isDryRun : bool)
  (s3Providers : list s3Provider) (w : world) (r : Delete.deleteResults) :
  keyData <> JNull ->
  Delete.shouldDelete c E (clock E (List.length (trace w))) keyData = false
  \/ isDryRun = true ->
  exists keyInfo,
    Delete.processKeyForDeletion c E keyName keyData isDryRun s3Providers (w, r)
    = (Ret tt, (w, Delete.mkResults (Delete.processedKeys r ++ [JObj keyInfo])
                     (Delete.errors r) (Delete.nextCursor r)))
    /\ assoc "key" keyInfo = Some (JStr keyName)
    /\ assoc "status" keyInfo
       = Some (JStr (if Delete.shouldDelete c E (clock E (List.length (trace w))) keyData
                     then "Would delete" else "Not deleted")).
Proof.
  intros Hnn Hcase.
  unfold Delete.processKeyForDeletion, bind, now. simpl.
  assert (Hm : forall s : world * Delete.deleteResults,
             member "lastSeen" (Some keyData) s = (Ret (get_prop "lastSeen" keyData), s)).
  { intros s. destruct keyData; try reflexivity. contradiction. }
  rewrite Hm.
  assert (Hk : assoc "key" (Delete.keyInfo_of c E keyName keyData
                              (clock E (List.length (trace w))))
               = Some (JStr keyName)) by reflexivity.
  remember (Delete.keyInfo_of c E keyName keyData (clock E (List.length (trace w)))) as k0.
  destruct (Delete.shouldDelete c E (clock E (List.length (trace w))) keyData) eqn:Hsd.
  - destruct Hcase as [Hcase | ->]; [discriminate |].
    unfold with_local, bind, set_info, modify_report, ret. cbn [fst snd negb].
    eexists. split; [reflexivity |]. split.
    + rewrite !assoc_set_prop_ne by discriminate. exact Hk.
    + rewrite assoc_set_prop_ne by discriminate. apply assoc_set_prop_eq.
  - unfold with_local, bind, set_info, modify_report, ret. cbn [fst snd negb].
    eexists. split; [reflexivity |]. split.
    + rewrite !assoc_set_prop_ne by discriminate. exact Hk.
    + rewrite assoc_set_prop_ne by discriminate. apply assoc_set_prop_eq.
Qed.

(** C10. A record whose [lastSeen] is JSON [null] is aged from the Unix
    epoch ([new Date(null)]): its age in days is [now / 86400000], so once
    the clock is more than expirationDays past the epoch it satisfies the
    deletion predicate whenever [currentlyConnected] is falsy, whatever its
    other fields (creationTime included) hold.  A record with no [lastSeen]
    property has the age [NaN] and is never selected. *)
Theorem null_lastSeen_ages_from_epoch (now : Z) (keyData : json) :
  (get_prop "lastSeen" keyData = Some JNull ->
   Delete.daysSinceLastSeen now (Date_of E (get_prop "lastSeen" keyData))
     = Some (inject_Z (now - 0) / inject_Z (1000 * 60 * 60 * 24))%Q
   /\ ((EXPIRATION_DAYS c * 86400000 < now)%Z ->
       truthy_opt (get_prop "currentlyConnected" keyData) = false ->
       Delete.shouldDelete c E now keyData = true))
  /\ (get_prop "lastSeen" keyData = None ->
      Delete.daysSinceLastSeen now (Date_of E (get_prop "lastSeen" keyData)) = None
      /\ Delete.shouldDelete c E now keyData = false).
Proof.
  split.
  - intros Hnull. rewrite Hnull. split; [reflexivity |].
    intros Hnow Hcc. apply shouldDelete_iff. split; [| exact Hcc].
    exists 0%Z. rewrite Hnull. split; [reflexivity | lia].
  - intros Habsent. unfold Delete.shouldDelete. rewrite Habsent. split; reflexivity.
Qed.

End Revocation.

(** ** The endpoint scorer *)

Section ScorerFacts.
Context (c : constants) (E : env) (P : Get.probes).


Definition pushed (e : string) : list Get.endpointScore :=
  match Get.probe c E P e with
  | Ret l => l
  | _ => []
  end.

(** The probe of [e] is answered: the registry holds its data, and the
    reply arrives after [latency] ms, before the timeout, with a success
    status and a key list of [n] entries. *)
Definition answers (e : string) (latency : Q) (n : nat) : Prop :=
  exists data status fields accessKeys,
    Get.endpointData P e = Ret data /\ missing data = false
    /\ Get.reply P (Get.accessKeysUrl data)
       = (latency, Response status (JsonText (JObj fields)))
    /\ Qle_bool (API_ENDPOINT_TIMEOUT c) latency = false
    /\ ok status = true
    /\ assoc "accessKeys" fields = Some (JArr accessKeys)
    /\ List.length accessKeys = n.



(** The score of a backend that answers after [latency] ms with [n] keys. *)
Definition weighted (latency : Q) (n : nat) : Q :=
  WEIGHT_LATENCY c * latency + WEIGHT_ACCESS_KEY_COUNT c * inject_Z (Z.of_nat n).











End ScorerFacts.

(** ** The order of timestamps

    [queryActiveKeys] compares ISO-8601 texts with [>]; on the
    24-character texts of [toISOString] that order is the order of the
    instants. *)

Lemma ltb_irrefl (a : string) : String.ltb a a = false.
Proof.
  unfold String.ltb. pose proof (String.compare_antisym a a) as H.
  destruct (String.compare a a); simpl in H; congruence.
Qed.

Lemma ltb_trans (a b d : string) :
  String.ltb a b = true -> String.ltb b d = true -> String.ltb a d = true.
Proof.
  unfold String.ltb. intros H1 H2.
  assert (L1 : String_as_OT.lt a b).
  { unfold String_as_OT.lt. change (String.compare a b = Lt).
    destruct (String.compare a b); congruence. }
  assert (L2 : String_as_OT.lt b d).
  { unfold String_as_OT.lt. change (String.compare b d = Lt).
    destruct (String.compare b d); congruence. }
  pose proof (StrictOrder_Transitive a b d L1 L2) as L3.
  unfold String_as_OT.lt in L3. change (String.compare a d = Lt) in L3.
  rewrite L3. reflexivity.
Qed.

(** [a] is not later than [b]. *)
Definition not_later (a b : string) : Prop := String.ltb b a = false.


(** ** The usage oracle *)

Section Oracle.
Context (c : constants) (E : env).






(** *** The result set

    The result of an instant query, as the HTTP API of Prometheus returns
    it: one object per series, with the labels of the series under
    [metric], among them the key id, and the sample under [value], the
    time in seconds and the byte count as a text. *)










Definition queryUrl (promApiEndpoint : option json) : string :=
  template promApiEndpoint +:+ "/api/v1/query?query=" +:+ encoded_query.













Lemma retry_returns {R A} (fn : M R A) (s s' : world * R) (a : A) :
  (0 < MAX_RETRIES c)%Z -> fn s = (Ret a, s') -> retry c fn s = (Ret a, s').
Proof.
  intros Hpos Hfn. unfold retry.
  destruct (Z.to_nat (MAX_RETRIES c)) as [| n] eqn:Hn; [lia |].
  simpl. unfold try_catch. rewrite Hfn. reflexivity.
Qed.




End Oracle.

(** ** Requests under [retry] *)

(** [w] with the requests [evs] sent in addition (most recent first). *)
Definition appended (evs : list event) (w : world) : world :=
  mkWorld (access_keys w) (api_endpoints w) (state w) (evs ++ trace w).

Lemma appended_nil (w : world) : appended [] w = w.
Proof. destruct w; reflexivity. Qed.

Lemma appended_app (evs evs' : list event) (w : world) :
  appended evs' (appended evs w) = appended (evs' ++ evs) w.
Proof. unfold appended. simpl. rewrite app_assoc. reflexivity. Qed.

Lemma record_event_appended (ev : event) (w : world) : record_event ev w = appended [ev] w.
Proof. reflexivity. Qed.

Lemma store_appended (ns : namespace) (evs : list event) (w : world) :
  store ns (appended evs w) = store ns w.
Proof. destruct ns; reflexivity. Qed.

Lemma store_record_event (ns : namespace) (ev : event) (w : world) :
  store ns (record_event ev w) = store ns w.
Proof. destruct ns; reflexivity. Qed.

Lemma reads_only_appended (evs : list event) (w : world) :
  List.filter mutating evs = [] -> reads_only w (appended evs w).
Proof.
  intros H. split; [repeat split |]. exists evs. split; [reflexivity | exact H].
Qed.

Lemma sent_appended (evs : list event) (w : world) : sent w (appended evs w) = evs.
Proof.
  unfold sent, appended. simpl. rewrite List.length_app.
  replace (List.length evs + List.length (trace w) - List.length (trace w))%nat
    with (List.length evs + 0)%nat by lia.
  rewrite List.firstn_app_2. simpl. apply app_nil_r.
Qed.

Lemma kv_get_put_eq {V} (k : string) (v : V) (ns : kv V) : kv_get k (kv_put k v ns) = Some v.
Proof.
  unfold kv_get. induction ns as [| [k' v'] ns IH]; simpl.
  - rewrite String.eqb_refl. reflexivity.
  - destruct (String.eqb k' k) eqn:Hk; simpl.
    + rewrite String.eqb_refl. reflexivity.
    + destruct (String.ltb k k'); simpl.
      * rewrite String.eqb_refl. reflexivity.
      * rewrite Hk. exact IH.
Qed.

(** What a text parses to. *)
Definition parsed (t : option text) (j : json) : Prop :=
  match t with
  | None => j = JNull
  | Some (JsonText j') => j = j'
  | Some (PlainText _) => False
  end.

Section Retry.
Context (c : constants) (E : env) {R : Type}.

Lemma get_attempt (ns : namespace) (key : string) (s : world * R) :
  get_json E ns key s
  = match kv_error E (List.length (trace (fst s))) with
    | Some msg => (Throw (Error msg), (record_event (KvGet ns key) (fst s), snd s))
    | None =>
        (match kv_get key (store ns (fst s)) with
         | Some (PlainText _) => Throw (Error "Unexpected token in JSON")
         | Some (JsonText j) => Ret j
         | None => Ret JNull
         end, (record_event (KvGet ns key) (fst s), snd s))
    end.
Proof.
  unfold get_json, bind, KV_get, kv_request.
  destruct (kv_error E (List.length (trace (fst s)))); simpl; [reflexivity |].
  rewrite store_record_event.
  destruct (kv_get key (store ns (fst s))) as [[txt | j] |]; reflexivity.
Qed.

(** Reading and parsing a key under [retry]: only reads are sent; the
    value returned is what the store holds; [undefined] is thrown only
    when no attempt is made. *)
Lemma retry_from_get (ns : namespace) (key : string) (n : nat) (e : exn) (s : world * R) :
  exists evs,
    snd (retry_from (get_json E ns key) n e s)
    = (appended evs (fst s), snd s)
    /\ List.filter mutating evs = []
    /\ match fst (retry_from (get_json E ns key) n e s) with
       | Ret j => parsed (kv_get key (store ns (fst s))) j
       | Throw (Error _) => True
       | Throw Undefined => n = O /\ e = Undefined
       | OutOfFuel => False
       end.
Proof.
  revert e s. induction n as [| n IH]; intros e [w r]; cbn [retry_from].
  - exists []. unfold throw. cbn [fst snd]. rewrite appended_nil.
    repeat split; destruct e; auto.
  - unfold try_catch. rewrite get_attempt. cbn [fst snd].
    assert (Hstep : forall msg,
      exists evs,
        snd (retry_from (get_json E ns key) n (Error msg)
               (record_event (KvGet ns key) w, r))
        = (appended evs w, r)
        /\ List.filter mutating evs = []
        /\ match fst (retry_from (get_json E ns key) n (Error msg)
                        (record_event (KvGet ns key) w, r)) with
           | Ret j => parsed (kv_get key (store ns w)) j
           | Throw (Error _) => True
           | Throw Undefined => S n = O /\ e = Undefined
           | OutOfFuel => False
           end).
    { intros msg.
      destruct (IH (Error msg) (record_event (KvGet ns key) w, r)) as [evs [Hs [Hf Ho]]].
      exists (evs ++ [KvGet ns key]). cbn [fst snd] in Hs, Ho. rewrite Hs. split; [| split].
      - rewrite record_event_appended, appended_app. reflexivity.
      - rewrite List.filter_app, Hf. reflexivity.
      - rewrite store_record_event in Ho.
        destruct (fst (retry_from _ n (Error msg) (record_event (KvGet ns key) w, r)))
          as [j | [m |] |]; auto.
        destruct Ho as [_ Ho]. discriminate. }
    destruct (kv_error E (List.length (trace w))) as [msg |]; [apply Hstep |].
    destruct (kv_get key (store ns w)) as [[txt | j] |] eqn:Hget;
      [apply Hstep | exists [KvGet ns key]; repeat split ..].
Qed.

Lemma put_attempt (ns : namespace) (key : string) (v : text) (s : world * R) :
  KV_put E ns key v s
  = match kv_error E (List.length (trace (fst s))) with
    | Some msg => (Throw (Error msg), (appended [KvPut ns key v] (fst s), snd s))
    | None =>
        (Ret tt, (set_store ns (kv_put key v (store ns (fst s)))
                    (appended [KvPut ns key v] (fst s)), snd s))
    end.
Proof.
  unfold KV_put, kv_request.
  destruct (kv_error E (List.length (trace (fst s)))); [reflexivity |].
  rewrite store_record_event. reflexivity.
Qed.

(** Writing a key under [retry]: every attempt is a put of the same
    value; the store holds it exactly when the call returns. *)
Lemma retry_from_put (ns : namespace) (key : string) (v : text) (n : nat) (e : exn)
  (s : world * R) :
  exists evs,
    Forall (fun ev => ev = KvPut ns key v) evs
    /\ (n <> O -> evs <> [])
    /\ match retry_from (KV_put E ns key v) n e s with
       | (Ret _, s') =>
           s' = (set_store ns (kv_put key v (store ns (fst s))) (appended evs (fst s)), snd s)
       | (Throw (Error _), s') => s' = (appended evs (fst s), snd s)
       | (Throw Undefined, s') => s' = (appended evs (fst s), snd s) /\ n = O /\ e = Undefined
       | (OutOfFuel, _) => False
       end.
Proof.
  revert e s. induction n as [| n IH]; intros e [w r]; cbn [retry_from].
  - exists []. split; [constructor |]. split; [congruence |].
    unfold throw. cbn [fst snd]. rewrite appended_nil.
    destruct e; auto.
  - unfold try_catch. rewrite put_attempt. cbn [fst snd].
    destruct (kv_error E (List.length (trace w))) as [msg |].
    + destruct (IH (Error msg) (appended [KvPut ns key v] w, r)) as [evs [Hall [_ Ho]]].
      exists (evs ++ [KvPut ns key v]). split; [| split].
      * apply Forall_app. split; [exact Hall | repeat constructor].
      * intros _ H. apply app_eq_nil in H. destruct H as [_ H]. discriminate.
      * destruct (retry_from (KV_put E ns key v) n (Error msg)
                    (appended [KvPut ns key v] w, r)) as [[u | [m |] |] s'];
          cbn [fst snd] in Ho;
          rewrite ?store_appended, ?appended_app in Ho; auto.
        destruct Ho as [_ [_ Ho]]. discriminate.
    + exists [KvPut ns key v]. split; [repeat constructor |].
      split; [discriminate | reflexivity].
Qed.

End Retry.

(** ** One credential under reconciliation *)

Lemma json_null_dec (j : json) : {j = JNull} + {j <> JNull}.
Proof. destruct j; first [left; reflexivity | right; discriminate]. Qed.

Section Reconciliation.
Context (c : constants) (E : env).

Local Abbreviation AK := ACCESS_KEYS_NAMESPACE.

(** The record [processKey] decides to persist for a stored record
    [keyData], if any: the backfilled record when a field is missing, the
    record with the activity fields of the snapshot when [hasChanges]. *)
Definition persisted (key : string) (activeKeys : gmap string activity) (keyData : json)
  : option (list (string * json)) :=
  let updatedKeyData := Update.populate keyData in
  if negb (String.eqb (stringify keyData) (stringify (JObj updatedKeyData)))
  then Some updatedKeyData
  else if truthy_opt (assoc "deletionTime" updatedKeyData) then None
  else if Update.hasChanges (last_part "-" key) activeKeys updatedKeyData
  then Some (Update.finalize (last_part "-" key) activeKeys updatedKeyData)
  else None.

Definition pushed_entry (r : Update.updateResults) (entry : json) : Update.updateResults :=
  Update.mkResults (Update.updatedKeys r ++ [entry]) (Update.errors r) (Update.nextCursor r).

Definition pushed_error (r : Update.updateResults) (msg : string) : Update.updateResults :=
  Update.mkResults (Update.updatedKeys r) (Update.errors r ++ [msg]) (Update.nextCursor r).

Lemma member_not_null {R} (name : string) (j : json) (s : world * R) :
  j <> JNull -> member name (Some j) s = (Ret (get_prop name j), s).
Proof. intros H. destruct j; try reflexivity. contradiction. Qed.

Lemma bind_returned {R A B} (m : M R A) (k : A -> M R B) (s s' : world * R) (a : A) :
  m s = (Ret a, s') -> bind m k s = k a s'.
Proof. intros H. unfold bind. rewrite H. reflexivity. Qed.

Lemma bind_thrown {R A B} (m : M R A) (k : A -> M R B) (s s' : world * R) (e : exn) :
  m s = (Throw e, s') -> bind m k s = (Throw e, s').
Proof. intros H. unfold bind. rewrite H. reflexivity. Qed.

Lemma update_record_null (key : string) (a : gmap string activity) (isDryRun : bool)
  (s : world * Update.updateResults) :
  exists msg, Update.update_record c E key a isDryRun JNull s = (Throw (Error msg), s).
Proof. eexists. reflexivity. Qed.

(** A dry run reports the key exactly when a record would be persisted,
    and sends nothing. *)
Lemma update_record_dry (key : string) (a : gmap string activity) (keyData : json)
  (s : world * Update.updateResults) :
  keyData <> JNull ->
  match persisted key a keyData with
  | None => Update.update_record c E key a true keyData s = (Ret tt, s)
  | Some _ =>
      exists entry,
        key_of entry = Some (JStr key)
        /\ Update.update_record c E key a true keyData s
           = (Ret tt, (fst s, pushed_entry (snd s) entry))
  end.
Proof.
  intros Hnn. unfold Update.update_record, persisted.
  rewrite (bind_returned _ _ _ _ _ (member_not_null _ _ _ Hnn)).
  destruct (negb (String.eqb (stringify keyData) (stringify (JObj (Update.populate keyData))))).
  - eexists. split; [| reflexivity]. reflexivity.
  - destruct (truthy_opt (assoc "deletionTime" (Update.populate keyData)));
      [destruct s; reflexivity |].
    destruct (Update.hasChanges (last_part "-" key) a (Update.populate keyData));
      [| destruct s; reflexivity].
    eexists. split; [| reflexivity]. reflexivity.
Qed.

(** A real run puts the persisted record under [retry]: the store holds
    it and the key is reported when the put returns; otherwise nothing is
    stored and the error is thrown. *)
Lemma update_record_wet (key : string) (a : gmap string activity) (keyData : json)
  (s : world * Update.updateResults) :
  keyData <> JNull ->
  match persisted key a keyData with
  | None => Update.update_record c E key a false keyData s = (Ret tt, s)
  | Some v =>
      exists puts,
        Forall (fun ev => ev = KvPut AK key (JsonText (JObj v))) puts
        /\ (Z.to_nat (MAX_RETRIES c) <> O -> puts <> [])
        /\ ((exists entry,
               key_of entry = Some (JStr key)
               /\ Update.update_record c E key a false keyData s
                  = (Ret tt,
                     (set_store AK (kv_put key (JsonText (JObj v)) (access_keys (fst s)))
                        (appended puts (fst s)),
                      pushed_entry (snd s) entry)))
            \/ (exists e,
                  Update.update_record c E key a false keyData s
                  = (Throw e, (appended puts (fst s), snd s))
                  /\ (e = Undefined -> Z.to_nat (MAX_RETRIES c) = O)))
  end.
Proof.
  intros Hnn. unfold Update.update_record, persisted.
  rewrite (bind_returned _ _ _ _ _ (member_not_null _ _ _ Hnn)).
  assert (Hput : forall v entry,
    exists puts,
      Forall (fun ev => ev = KvPut AK key (JsonText (JObj v))) puts
      /\ (Z.to_nat (MAX_RETRIES c) <> O -> puts <> [])
      /\ ((exists entry',
             key_of entry' = key_of entry
             /\ (run retry c (KV_put E AK key (JsonText (JObj v))) then
                 Update.push_updated entry) s
                = (Ret tt,
                   (set_store AK (kv_put key (JsonText (JObj v)) (access_keys (fst s)))
                      (appended puts (fst s)),
                    pushed_entry (snd s) entry')))
          \/ (exists e,
                (run retry c (KV_put E AK key (JsonText (JObj v))) then
                 Update.push_updated entry) s
                = (Throw e, (appended puts (fst s), snd s))
                /\ (e = Undefined -> Z.to_nat (MAX_RETRIES c) = O)))).
  { intros v entry. unfold bind, retry.
    destruct (retry_from_put E AK key (JsonText (JObj v)) (Z.to_nat (MAX_RETRIES c))
                Undefined s) as [puts [Hall [Hne Ho]]].
    exists puts. split; [exact Hall |]. split; [exact Hne |].
    destruct (retry_from (KV_put E AK key (JsonText (JObj v))) (Z.to_nat (MAX_RETRIES c))
                Undefined s) as [[u | [m |] |] s'].
    - left. exists entry. split; [reflexivity |]. subst s'. reflexivity.
    - right. eexists. split; [subst s'; reflexivity | discriminate].
    - right. destruct Ho as [-> [Hn _]]. eexists. split; [reflexivity | intros _; exact Hn].
    - contradiction. }
  destruct (negb (String.eqb (stringify keyData) (stringify (JObj (Update.populate keyData))))).
  - destruct (Hput (Update.populate keyData)
                (JObj [("key", JStr key); ("changes", Update.missing_fields keyData)]))
      as [puts [Hall [Hne Hcase]]].
    exists puts. split; [exact Hall |]. split; [exact Hne |].
    destruct Hcase as [[entry [Hk Hrun]] | [e [Hrun He]]].
    + left. exists entry. split; [exact Hk | exact Hrun].
    + right. exists e. split; [exact Hrun | exact He].
  - destruct (truthy_opt (assoc "deletionTime" (Update.populate keyData)));
      [destruct s; reflexivity |].
    destruct (Update.hasChanges (last_part "-" key) a (Update.populate keyData));
      [| destruct s; reflexivity].
    match goal with
    | |- context [Update.push_updated ?entry] =>
        destruct (Hput (Update.finalize (last_part "-" key) a (Update.populate keyData))
                    entry) as [puts [Hall [Hne Hcase]]]
    end.
    exists puts. split; [exact Hall |]. split; [exact Hne |].
    destruct Hcase as [[entry [Hk Hrun]] | [e [Hrun He]]].
    + left. exists entry. split; [exact Hk | exact Hrun].
    + right. exists e. split; [exact Hrun | exact He].
Qed.

(** What [processKey] does, by what the read under [retry] returns.
    Either the record cannot be used (the read fails, or the text is
    [null]): nothing is written, and the failure is recorded as an error
    (or thrown on, when no attempt is made at all).  Or the read returns
    the stored record: then a dry run reports the key exactly when a
    record is to be persisted, and a real run puts that record, reporting
    the key when the put returns and an error when it fails. *)
Lemma processKey_cases (key : string) (a : gmap string activity) (w : world)
  (r : Update.updateResults) :
  exists gets,
    List.filter mutating gets = [] /\
    ((forall isDryRun,
         (exists msg,
             Update.processKey c E key a isDryRun (w, r)
             = (Ret tt, (appended gets w, pushed_error r msg)))
         \/ (exists e,
                Update.processKey c E key a isDryRun (w, r)
                = (Throw e, (appended gets w, r))))
     \/ (exists keyData,
            parsed (stored key w) keyData /\ keyData <> JNull /\
            match persisted key a keyData with
            | None =>
                forall isDryRun,
                  Update.processKey c E key a isDryRun (w, r) = (Ret tt, (appended gets w, r))
            | Some v =>
                (exists entry,
                    key_of entry = Some (JStr key)
                    /\ Update.processKey c E key a true (w, r)
                       = (Ret tt, (appended gets w, pushed_entry r entry)))
                /\ (exists puts,
                       puts <> []
                       /\ Forall (fun ev => ev = KvPut AK key (JsonText (JObj v))) puts
                       /\ ((exists entry,
                               key_of entry = Some (JStr key)
                               /\ Update.processKey c E key a false (w, r)
                                  = (Ret tt,
                                     (set_store AK
                                        (kv_put key (JsonText (JObj v)) (access_keys w))
                                        (appended (puts ++ gets) w),
                                      pushed_entry r entry)))
                            \/ (exists msg,
                                   Update.processKey c E key a false (w, r)
                                   = (Ret tt, (appended (puts ++ gets) w,
                                               pushed_error r msg)))))
            end)).
Proof.
  unfold Update.processKey, retry.
  destruct (retry_from_get E AK key (Z.to_nat (MAX_RETRIES c)) Undefined (w, r))
    as [gets [Hs [Hf Ho]]].
  exists gets. split; [exact Hf |].
  destruct (retry_from (get_json E AK key) (Z.to_nat (MAX_RETRIES c)) Undefined (w, r))
    as [[keyData | [m |] |] s1] eqn:Hread; cbn [fst snd] in Hs, Ho; subst s1.
  - (* the read returned *)
    destruct (json_null_dec keyData) as [-> | Hnn].
    + left. intros isDryRun. left. unfold try_catch.
      rewrite (bind_returned _ _ _ _ _ Hread).
      destruct (update_record_null key a isDryRun (appended gets w, r)) as [msg ->].
      eexists. reflexivity.
    + right. exists keyData. split; [exact Ho |]. split; [exact Hnn |].
      pose proof (update_record_dry key a keyData (appended gets w, r) Hnn) as Hdry.
      pose proof (update_record_wet key a keyData (appended gets w, r) Hnn) as Hwet.
      assert (Hn : Z.to_nat (MAX_RETRIES c) <> O).
      { intros Hz. rewrite Hz in Hread. discriminate. }
      destruct (persisted key a keyData) as [v |].
      * split.
        -- destruct Hdry as [entry [Hk Hrun]]. exists entry. split; [exact Hk |].
           unfold try_catch. rewrite (bind_returned _ _ _ _ _ Hread), Hrun. reflexivity.
        -- destruct Hwet as [puts [Hall [Hne Hcase]]]. exists puts.
           split; [exact (Hne Hn) |]. split; [exact Hall |].
           destruct Hcase as [[entry [Hk Hrun]] | [e [Hrun He]]].
           ++ left. exists entry. split; [exact Hk |].
              unfold try_catch. rewrite (bind_returned _ _ _ _ _ Hread), Hrun.
              cbn [fst snd]. rewrite appended_app. reflexivity.
           ++ right. unfold try_catch. rewrite (bind_returned _ _ _ _ _ Hread), Hrun.
              cbn [fst snd]. rewrite appended_app.
              destruct e as [m |]; [eexists; reflexivity |].
              exfalso. exact (Hn (He eq_refl)).
      * intros [|]; unfold try_catch; rewrite (bind_returned _ _ _ _ _ Hread).
        -- rewrite Hdry. reflexivity.
        -- rewrite Hwet. reflexivity.
  - left. intros isDryRun. left. unfold try_catch.
    rewrite (bind_thrown _ _ _ _ _ Hread). eexists. reflexivity.
  - left. intros isDryRun. right. unfold try_catch.
    rewrite (bind_thrown _ _ _ _ _ Hread). eexists. reflexivity.
  - contradiction.
Qed.

(** *** The fields of the records [processKey] builds *)

Lemma nullish_some (v : json) : nullish (Some v) = v.
Proof. destruct v; reflexivity. Qed.

Lemma nullish_idem (x : option json) : nullish (Some (nullish x)) = nullish x.
Proof. apply nullish_some. Qed.

Lemma set_prop_same (k : string) (v : json) (ps : list (string * json)) :
  assoc k ps = Some v -> set_prop k v ps = ps.
Proof.
  induction ps as [| [k' x] ps IH]; simpl; [discriminate |].
  destruct (String.eqb k' k) eqn:Hk.
  - intros H. injection H as ->. apply String.eqb_eq in Hk. subst k'. reflexivity.
  - intros H. rewrite (IH H). reflexivity.
Qed.

Lemma populate_deletionTime (keyData : json) :
  assoc "deletionTime" (Update.populate keyData)
  = Some (nullish (get_prop "deletionTime" keyData)).
Proof.
  unfold Update.populate. rewrite !assoc_set_prop_ne by discriminate.
  apply assoc_set_prop_eq.
Qed.

Lemma populate_lastSeen (keyData : json) :
  assoc "lastSeen" (Update.populate keyData) = Some (nullish (get_prop "lastSeen" keyData)).
Proof.
  unfold Update.populate. rewrite assoc_set_prop_ne by discriminate.
  apply assoc_set_prop_eq.
Qed.

Lemma populate_currentlyConnected (keyData : json) :
  assoc "currentlyConnected" (Update.populate keyData)
  = Some (nullish (get_prop "currentlyConnected" keyData)).
Proof. unfold Update.populate. apply assoc_set_prop_eq. Qed.

Lemma complete_object (keyData : json) :
  complete keyData -> exists ps, keyData = JObj ps.
Proof. intros [H _]. destruct keyData; simpl in H; try congruence. eexists. reflexivity. Qed.

Lemma populate_complete (ps : list (string * json)) :
  complete (JObj ps) -> Update.populate (JObj ps) = ps.
Proof.
  intros [Hd [Hl Hc]]. unfold Update.populate. simpl in *.
  destruct (assoc "deletionTime" ps) as [d |] eqn:Ed; [| congruence].
  destruct (assoc "lastSeen" ps) as [l |] eqn:El; [| congruence].
  destruct (assoc "currentlyConnected" ps) as [x |] eqn:Ec; [| congruence].
  rewrite !nullish_some.
  rewrite (set_prop_same _ _ _ Ed), (set_prop_same _ _ _ El). apply set_prop_same, Ec.
Qed.

Lemma finalize_deletionTime (id : string) (a : gmap string activity)
  (u : list (string * json)) :
  assoc "deletionTime" (Update.finalize id a u) = assoc "deletionTime" u.
Proof. unfold Update.finalize. rewrite !assoc_set_prop_ne by discriminate. reflexivity. Qed.

Lemma finalize_currentlyConnected (id : string) (a : gmap string activity)
  (u : list (string * json)) :
  assoc "currentlyConnected" (Update.finalize id a u) = Some (JBool (Update.isActive id a)).
Proof.
  unfold Update.finalize. rewrite assoc_set_prop_ne by discriminate.
  apply assoc_set_prop_eq.
Qed.

Lemma finalize_lastSeen (id : string) (a : gmap string activity)
  (u : list (string * json)) :
  assoc "lastSeen" (Update.finalize id a u)
  = Some (match a !! id with
          | Some act =>
              if Update.isActive id a then JStr (lastSeen act)
              else nullish (assoc "lastSeen" u)
          | None => nullish (assoc "lastSeen" u)
          end).
Proof. unfold Update.finalize. apply assoc_set_prop_eq. Qed.

Lemma persisted_shape (key : string) (a : gmap string activity) (keyData : json)
  (v : list (string * json)) :
  persisted key a keyData = Some v ->
  (v = Update.populate keyData /\ ~ complete keyData)
  \/ (v = Update.finalize (last_part "-" key) a (Update.populate keyData)
      /\ truthy_opt (assoc "deletionTime" (Update.populate keyData)) = false
      /\ Update.hasChanges (last_part "-" key) a (Update.populate keyData) = true).
Proof.
  unfold persisted.
  destruct (negb (String.eqb (stringify keyData) (stringify (JObj (Update.populate keyData)))))
    eqn:Hneeds.
  - intros H. injection H as <-. left. split; [reflexivity |].
    intros Hc. destruct (complete_object _ Hc) as [ps ->].
    rewrite (populate_complete _ Hc), String.eqb_refl in Hneeds. discriminate.
  - destruct (truthy_opt (assoc "deletionTime" (Update.populate keyData))); [discriminate |].
    destruct (Update.hasChanges (last_part "-" key) a (Update.populate keyData));
      [| discriminate].
    intros H. injection H as <-. right. repeat split.
Qed.

Lemma persisted_complete (key : string) (a : gmap string activity)
  (ps : list (string * json)) :
  complete (JObj ps) ->
  persisted key a (JObj ps)
  = if truthy_opt (assoc "deletionTime" ps) then None
    else if Update.hasChanges (last_part "-" key) a ps
         then Some (Update.finalize (last_part "-" key) a ps)
         else None.
Proof.
  intros Hc. unfold persisted. rewrite (populate_complete _ Hc), String.eqb_refl.
  reflexivity.
Qed.

Lemma finalize_complete (id : string) (a : gmap string activity)
  (ps : list (string * json)) :
  complete (JObj ps) -> complete (JObj (Update.finalize id a ps)).
Proof.
  intros [Hd _]. unfold complete. simpl in *.
  rewrite finalize_deletionTime, finalize_lastSeen, finalize_currentlyConnected.
  repeat split; congruence.
Qed.

(** The record persisted for an inactive credential is a fixed point. *)
Lemma persisted_idempotent (key : string) (a : gmap string activity)
  (ps : list (string * json)) :
  complete (JObj ps) ->
  Update.isActive (last_part "-" key) a = false ->
  persisted key a (JObj (Update.finalize (last_part "-" key) a ps)) = None.
Proof.
  intros Hc Hinactive.
  rewrite (persisted_complete _ _ _ (finalize_complete _ a _ Hc)).
  destruct (truthy_opt (assoc "deletionTime" (Update.finalize (last_part "-" key) a ps)));
    [reflexivity |].
  unfold Update.hasChanges.
  rewrite finalize_currentlyConnected, Hinactive. reflexivity.
Qed.

Lemma stored_appended (key : string) (evs : list event) (w : world) :
  stored key (appended evs w) = stored key w.
Proof. reflexivity. Qed.

Lemma stored_put (key : string) (v : text) (evs : list event) (w : world) :
  stored key (set_store ACCESS_KEYS_NAMESPACE (kv_put key v (access_keys w)) (appended evs w))
  = Some v.
Proof. unfold stored. simpl. apply kv_get_put_eq. Qed.

Lemma writes_appended (evs : list event) (w : world) :
  List.filter mutating evs = [] -> writes w (appended evs w) = [].
Proof. intros H. unfold writes. rewrite sent_appended. exact H. Qed.

Lemma parsed_stored (key : string) (w : world) (keyData j : json) :
  stored key w = Some (JsonText keyData) -> parsed (stored key w) j -> j = keyData.
Proof. intros -> H. exact H. Qed.

(** After [processKey] the store holds the record it held, or the
    record that was to be persisted. *)
Lemma processKey_stored (key : string) (a : gmap string activity) (isDryRun : bool)
  (w : world) (r : Update.updateResults) (keyData : json) :
  stored key w = Some (JsonText keyData) ->
  let w' := world_of (Update.processKey c E key a isDryRun (w, r)) in
  (stored key w' = Some (JsonText keyData) /\ (persisted key a keyData = None -> writes w w' = []))
  \/ (exists v, isDryRun = false /\ persisted key a keyData = Some v
                /\ stored key w' = Some (JsonText (JObj v))).
Proof.
  intros Hst w'. subst w'.
  destruct (processKey_cases key a w r) as [gets [Hf [Hfail | [kd [Hp [Hnn Hcase]]]]]].
  - left. destruct (Hfail isDryRun) as [[msg ->] | [e ->]]; unfold world_of; cbn [fst snd];
      (split; [exact Hst | intros _; apply writes_appended, Hf]).
  - pose proof (parsed_stored _ _ _ _ Hst Hp) as ->.
    destruct (persisted key a keyData) as [v |].
    + destruct Hcase as [[entry [_ Hdry]] [puts [_ [_ Hwet]]]].
      destruct isDryRun.
      * left. rewrite Hdry. unfold world_of. cbn [fst snd].
        split; [exact Hst | discriminate].
      * destruct Hwet as [[entry' [_ ->]] | [msg ->]]; unfold world_of; cbn [fst snd].
        -- right. exists v. repeat split. apply stored_put.
        -- left. split; [exact Hst | discriminate].
    + left. rewrite Hcase. unfold world_of. cbn [fst snd].
      split; [exact Hst | intros _; apply writes_appended, Hf].
Qed.

(** C5. A reconciliation pass does not change [lastSeen] or
    [currentlyConnected] (nor [deletionTime]) of a credential whose
    [deletionTime] holds a timestamp: the stored record keeps their values
    (an absent field reads as the [null] that the backfill writes for
    it), and when the three fields are present the pass sends no write at
    all: the record is skipped. *)
Theorem tombstone_immutable (key : string) (a : gmap string activity) (isDryRun : bool)
  (w : world) (r : Update.updateResults) (keyData : json) (deletionTime : string) :
  stored key w = Some (JsonText keyData) ->
  get_prop "deletionTime" keyData = Some (JStr deletionTime) ->
  deletionTime <> "" ->
  let w' := world_of (Update.processKey c E key a isDryRun (w, r)) in
  (exists keyData',
      stored key w' = Some (JsonText keyData')
      /\ get_prop "deletionTime" keyData' = Some (JStr deletionTime)
      /\ nullish (get_prop "lastSeen" keyData') = nullish (get_prop "lastSeen" keyData)
      /\ nullish (get_prop "currentlyConnected" keyData')
         = nullish (get_prop "currentlyConnected" keyData))
  /\ (complete keyData -> writes w w' = []).
Proof.
  intros Hst Hdt Hne w'. subst w'.
  assert (Htomb : truthy_opt (assoc "deletionTime" (Update.populate keyData)) = true).
  { rewrite populate_deletionTime, Hdt. simpl.
    destruct (String.eqb deletionTime "") eqn:Heq; [| reflexivity].
    apply String.eqb_eq in Heq. contradiction. }
  assert (Hshape : forall v, persisted key a keyData = Some v ->
                             v = Update.populate keyData /\ ~ complete keyData).
  { intros v Hv. destruct (persisted_shape _ _ _ _ Hv) as [H | [_ [H _]]]; [exact H |].
    congruence. }
  destruct (processKey_stored key a isDryRun w r keyData Hst)
    as [[Hsame Hw] | [v [_ [Hv Hnew]]]].
  - split.
    + exists keyData. repeat split; assumption.
    + intros Hc. apply Hw. destruct (persisted key a keyData) as [v |] eqn:Hv; [| reflexivity].
      destruct (Hshape v eq_refl) as [_ Hnc]. contradiction.
  - destruct (Hshape v Hv) as [-> Hnc]. split; [| intros Hc; contradiction].
    exists (JObj (Update.populate keyData)). split; [exact Hnew |]. simpl.
    rewrite populate_deletionTime, populate_lastSeen, populate_currentlyConnected, Hdt.
    repeat split; apply nullish_idem.
Qed.

(** C6, as the code has it.  When the credential is not active in the
    snapshot a pass leaves [lastSeen] unchanged; when it is active the
    stored [lastSeen] is unchanged or becomes the timestamp of the
    snapshot.  So [lastSeen] does not decrease over a pass whose snapshot
    timestamp is not earlier than the stored one. *)
Theorem lastSeen_follows_snapshot (key : string) (a : gmap string activity)
  (isDryRun : bool) (w : world) (r : Update.updateResults) (keyData : json) :
  stored key w = Some (JsonText keyData) ->
  let w' := world_of (Update.processKey c E key a isDryRun (w, r)) in
  exists keyData',
    stored key w' = Some (JsonText keyData')
    /\ (Update.isActive (last_part "-" key) a = false ->
        nullish (get_prop "lastSeen" keyData') = nullish (get_prop "lastSeen" keyData))
    /\ (forall act,
          a !! last_part "-" key = Some act ->
          nullish (get_prop "lastSeen" keyData') = nullish (get_prop "lastSeen" keyData)
          \/ nullish (get_prop "lastSeen" keyData') = JStr (lastSeen act))
    /\ (forall old,
          nullish (get_prop "lastSeen" keyData) = JStr old ->
          (forall act, a !! last_part "-" key = Some act -> not_later old (lastSeen act)) ->
          exists new,
            nullish (get_prop "lastSeen" keyData') = JStr new /\ not_later old new).
Proof.
  intros Hst w'. subst w'.
  assert (Hkey : exists keyData',
             stored key (world_of (Update.processKey c E key a isDryRun (w, r)))
             = Some (JsonText keyData')
             /\ (nullish (get_prop "lastSeen" keyData') = nullish (get_prop "lastSeen" keyData)
                 \/ exists act,
                      a !! last_part "-" key = Some act
                      /\ Update.isActive (last_part "-" key) a = true
                      /\ nullish (get_prop "lastSeen" keyData') = JStr (lastSeen act))).
  { destruct (processKey_stored key a isDryRun w r keyData Hst)
      as [[Hsame _] | [v [_ [Hv Hnew]]]].
    - exists keyData. split; [exact Hsame | left; reflexivity].
    - exists (JObj v). split; [exact Hnew |]. simpl.
      destruct (persisted_shape _ _ _ _ Hv) as [[-> _] | [-> _]].
      + left. rewrite populate_lastSeen. apply nullish_idem.
      + rewrite finalize_lastSeen, populate_lastSeen.
        destruct (a !! last_part "-" key) as [act |] eqn:Hact;
          [| left; rewrite !nullish_some; reflexivity].
        destruct (Update.isActive (last_part "-" key) a) eqn:Hactive;
          [| left; rewrite !nullish_some; reflexivity].
        right. exists act. repeat split. }
  destruct Hkey as [keyData' [Hst' Hls]]. exists keyData'. split; [exact Hst' |].
  split; [| split].
  - intros Hinactive. destruct Hls as [H | [act [_ [Hactive _]]]]; [exact H | congruence].
  - intros act Hact. destruct Hls as [H | [act' [Hact' [_ H]]]]; [left; exact H |].
    right. rewrite Hact in Hact'. injection Hact' as <-. exact H.
  - intros old Hold Hlater. destruct Hls as [H | [act [Hact [_ H]]]].
    + exists old. split; [congruence | apply ltb_irrefl].
    + exists (lastSeen act). split; [exact H | exact (Hlater act Hact)].
Qed.

Lemma app_one_neq {A} (l : list A) (x : A) : l ++ [x] <> l.
Proof.
  intros H. apply (f_equal (@List.length A)) in H. rewrite List.length_app in H.
  simpl in H. lia.
Qed.

Lemma pushed_error_errors (r r' : Update.updateResults) (msg : string) :
  r' = pushed_error r msg -> Update.errors r' <> Update.errors r.
Proof. intros ->. simpl. apply app_one_neq. Qed.

Lemma writes_put (key : string) (v : text) (puts gets : list event) (w : world) :
  Forall (fun ev => ev = KvPut ACCESS_KEYS_NAMESPACE key v) puts ->
  List.filter mutating gets = [] ->
  writes w (set_store ACCESS_KEYS_NAMESPACE (kv_put key v (access_keys w))
              (appended (puts ++ gets) w))
  = puts.
Proof.
  intros Hall Hf. unfold writes.
  change (sent w (set_store ACCESS_KEYS_NAMESPACE (kv_put key v (access_keys w))
                    (appended (puts ++ gets) w)))
    with (sent w (appended (puts ++ gets) w)).
  rewrite sent_appended, List.filter_app, Hf, app_nil_r.
  induction Hall as [| ev puts -> _ IH]; simpl; [reflexivity | rewrite IH; reflexivity].
Qed.

(** C2, as the code has it.  For a credential record that carries the
    three activity fields and that is not active in the snapshot (or is
    tombstoned): a pass writes the record only when a field changes, and
    once a pass has been applied without an error a second pass with the
    same snapshot sends no store write. *)
Theorem second_pass_writes_nothing (key : string) (a : gmap string activity)
  (w w1 : world) (r r1 : Update.updateResults) (keyData : json) :
  stored key w = Some (JsonText keyData) ->
  complete keyData ->
  Update.isActive (last_part "-" key) a = false
  \/ truthy_opt (get_prop "deletionTime" keyData) = true ->
  Update.processKey c E key a false (w, r) = (Ret tt, (w1, r1)) ->
  Update.errors r1 = Update.errors r ->
  Forall (fun ev => exists v, ev = KvPut ACCESS_KEYS_NAMESPACE key (JsonText (JObj v))
                              /\ JObj v <> keyData) (writes w w1)
  /\ writes w1 (world_of (Update.processKey c E key a false (w1, r1))) = [].
Proof.
  intros Hst Hc Hquiet Hrun Herr.
  destruct (complete_object _ Hc) as [ps ->].
  pose proof (persisted_complete key a ps Hc) as Hp.
  (* a second pass on a world whose record persists nothing *)
  assert (Hsecond : forall w2 r2 kd,
             stored key w2 = Some (JsonText kd) -> persisted key a kd = None ->
             writes w2 (world_of (Update.processKey c E key a false (w2, r2))) = []).
  { intros w2 r2 kd Hst2 Hnone.
    destruct (processKey_stored key a false w2 r2 kd Hst2) as [[_ Hw] | [v [_ [Hv _]]]];
      [exact (Hw Hnone) | congruence]. }
  destruct (processKey_cases key a w r) as [gets [Hf [Hfail | [kd [Hpar [Hnn Hcase]]]]]].
  - destruct (Hfail false) as [[msg H] | [e H]]; rewrite H in Hrun.
    + injection Hrun as <- <-. exfalso. exact (pushed_error_errors _ _ _ eq_refl Herr).
    + discriminate.
  - pose proof (parsed_stored _ _ _ _ Hst Hpar) as ->.
    destruct (persisted key a (JObj ps)) as [v |] eqn:Hv.
    + destruct Hcase as [_ [puts [_ [Hall [[entry [_ H]] | [msg H]]]]]]; rewrite H in Hrun.
      * assert (Hw1 : w1 = set_store ACCESS_KEYS_NAMESPACE
                              (kv_put key (JsonText (JObj v)) (access_keys w))
                              (appended (puts ++ gets) w)) by congruence.
        subst w1. clear Hrun H.
        assert (Hfin : v = Update.finalize (last_part "-" key) a ps
                       /\ truthy_opt (assoc "deletionTime" ps) = false
                       /\ Update.hasChanges (last_part "-" key) a ps = true).
        { destruct (truthy_opt (assoc "deletionTime" ps)); [discriminate |].
          destruct (Update.hasChanges (last_part "-" key) a ps); [| discriminate].
          injection Hp as ->. repeat split. }
        destruct Hfin as [-> [Htomb Hchg]].
        destruct Hquiet as [Hinactive | Hdead]; [| simpl in Hdead; congruence].
        split.
        -- rewrite (writes_put _ _ _ _ _ Hall Hf).
           eapply Forall_impl; [exact Hall |]. intros ev ->. eexists. split; [reflexivity |].
           intros Heq. injection Heq as Heq.
           unfold Update.hasChanges in Hchg. rewrite Hinactive in Hchg. simpl in Hchg.
           rewrite <- Heq, finalize_currentlyConnected, Hinactive in Hchg. discriminate.
        -- apply (Hsecond _ _ (JObj (Update.finalize (last_part "-" key) a ps)));
             [apply stored_put | apply persisted_idempotent; assumption].
      * injection Hrun as <- <-. exfalso. exact (pushed_error_errors _ _ _ eq_refl Herr).
    + rewrite (Hcase false) in Hrun. injection Hrun as <- <-. split.
      * rewrite (writes_appended _ _ Hf). constructor.
      * apply (Hsecond _ _ (JObj ps)); [exact Hst | exact Hv].
Qed.

End Reconciliation.

(** ** One credential under revocation *)

(** The backend does not accept the delete: a transport error, or a
    status outside 200..299. *)
Definition refused (reply : response) : Prop :=
  match reply with
  | NetworkError _ => True
  | Response status _ => ok status = false
  end.

Section RevocationFailure.
Context (c : constants) (E : env).

Lemma KV_get_attempt {R} (ns : namespace) (key : string) (s : world * R) :
  KV_get E ns key s
  = match kv_error E (List.length (trace (fst s))) with
    | Some msg => (Throw (Error msg), (appended [KvGet ns key] (fst s), snd s))
    | None => (Ret (kv_get key (store ns (fst s))), (appended [KvGet ns key] (fst s), snd s))
    end.
Proof.
  unfold KV_get, kv_request.
  destruct (kv_error E (List.length (trace (fst s)))); [reflexivity |].
  rewrite store_record_event. reflexivity.
Qed.

Lemma retry_from_KV_get {R} (ns : namespace) (key : string) (n : nat) (e : exn)
  (s : world * R) :
  exists evs,
    snd (retry_from (KV_get E ns key) n e s) = (appended evs (fst s), snd s)
    /\ List.filter mutating evs = []
    /\ match fst (retry_from (KV_get E ns key) n e s) with
       | Ret t => t = kv_get key (store ns (fst s))
       | Throw (Error _) => True
       | Throw Undefined => n = O /\ e = Undefined
       | OutOfFuel => False
       end.
Proof.
  revert e s. induction n as [| n IH]; intros e [w r]; cbn [retry_from].
  - exists []. unfold throw. cbn [fst snd]. rewrite appended_nil.
    repeat split; destruct e; auto.
  - unfold try_catch. rewrite KV_get_attempt. cbn [fst snd].
    destruct (kv_error E (List.length (trace w))) as [msg |].
    + destruct (IH (Error msg) (appended [KvGet ns key] w, r)) as [evs [Hs [Hf Ho]]].
      exists (evs ++ [KvGet ns key]). cbn [fst snd] in Hs, Ho. rewrite Hs. split; [| split].
      * rewrite appended_app. reflexivity.
      * rewrite List.filter_app, Hf. reflexivity.
      * rewrite store_appended in Ho.
        destruct (fst (retry_from (KV_get E ns key) n (Error msg)
                         (appended [KvGet ns key] w, r))) as [t | [m |] |]; auto.
        destruct Ho as [_ Ho]. discriminate.
    + exists [KvGet ns key]. cbn [fst snd]. repeat split.
Qed.

(** The URL of the backend, from what the registry holds: no request. *)
Lemma apiEndpointUrl_pure {R} (endpointDataStr : option text) (s : world * R) :
  exists url,
    try_catch
      (let* endpointData := JSON_parse endpointDataStr in
       let* apiUrl := member "apiUrl" (Some endpointData) in
       ret (template apiUrl))
      (fun _ => ret (template_str (option_map raw endpointDataStr))) s
    = (Ret url, s).
Proof.
  unfold try_catch, bind.
  destruct endpointDataStr as [[txt | j] |]; simpl; try (eexists; reflexivity).
  destruct j; simpl; eexists; reflexivity.
Qed.

Lemma sendDeleteRequest_refused {R} (url : string) (s : world * R) :
  refused (http E (List.length (trace (fst s))) "DELETE" url) ->
  exists error,
    Delete.sendDeleteRequest E url s
    = (Ret (Delete.NoSuccess error), (appended [Fetch "DELETE" url] (fst s), snd s)).
Proof.
  unfold Delete.sendDeleteRequest, try_catch, bind, fetch, refused.
  destruct (http E (List.length (trace (fst s))) "DELETE" url) as [msg | status body]; simpl.
  - intros _. eexists. reflexivity.
  - intros ->. simpl. eexists. reflexivity.
Qed.

(** Requests that leave the credential store alone: reads, and the
    delete request to the backend. *)
Definition harmless (ev : event) : Prop :=
  mutating ev = false \/ exists url, ev = Fetch "DELETE" url.

Lemma revoke_refused (keyName : string) (keyData : json) (isDryRun : bool)
  (s3Providers : list s3Provider) (now : Z)
  (s : world * (Delete.deleteResults * list (string * json))) :
  (0 < MAX_RETRIES c)%Z ->
  (forall n url, (List.length (trace (fst s)) <= n)%nat -> refused (http E n "DELETE" url)) ->
  exists evs m,
    Delete.revoke c E keyName keyData isDryRun s3Providers now s
    = (Throw (Error m), (appended evs (fst s), snd s))
    /\ Forall harmless evs.
Proof.
  intros Hpos Hrefused. unfold Delete.revoke, retry.
  destruct (retry_from_KV_get API_ENDPOINTS_NAMESPACE (hd "" (split "-key-" keyName))
              (Z.to_nat (MAX_RETRIES c)) Undefined s) as [gets [Hs [Hf Ho]]].
  assert (Hgets : Forall harmless gets).
  { clear - Hf. induction gets as [| ev gets IH]; [constructor |].
    simpl in Hf. destruct (mutating ev) eqn:Hm; [discriminate |].
    constructor; [left; exact Hm | exact (IH Hf)]. }
  destruct (retry_from (KV_get E API_ENDPOINTS_NAMESPACE (hd "" (split "-key-" keyName)))
              (Z.to_nat (MAX_RETRIES c)) Undefined s) as [[t | [m |] |] s1] eqn:Hread;
    cbn [fst snd] in Hs, Ho; subst s1.
  - rewrite (bind_returned _ _ _ _ _ Hread).
    destruct (missing t).
    + exists gets. eexists. split; [reflexivity | exact Hgets].
    + destruct (apiEndpointUrl_pure t (appended gets (fst s), snd s)) as [url Hurl].
      rewrite (bind_returned _ _ _ _ _ Hurl).
      destruct (sendDeleteRequest_refused
                  (url +:+ "/access-keys/" +:+ template_str (nth_error (split "-key-" keyName) 1))
                  (appended gets (fst s), snd s)) as [error Hsend].
      { apply Hrefused. cbn [fst]. unfold appended. simpl. rewrite List.length_app. lia. }
      rewrite (bind_returned _ _ _ _ _ Hsend). cbn [fst snd]. rewrite appended_app.
      eexists. eexists. split; [reflexivity |].
      constructor; [right; eexists; reflexivity | exact Hgets].
  - rewrite (bind_thrown _ _ _ _ _ Hread). exists gets, m. split; [reflexivity | exact Hgets].
  - destruct Ho as [Hn _]. lia.
  - contradiction.
Qed.

Lemma keyInfo_deletionTime (keyName : string) (keyData : json) (now : Z) :
  assoc "deletionTime" (Delete.keyInfo_of c E keyName keyData now)
  = get_prop "deletionTime" keyData.
Proof.
  unfold Delete.keyInfo_of.
  destruct (get_prop "lastSeen" keyData), (get_prop "currentlyConnected" keyData),
    (get_prop "creationTime" keyData), (get_prop "deletionTime" keyData); reflexivity.
Qed.

Lemma harmless_stores (evs : list event) (w : world) : same_stores w (appended evs w).
Proof. repeat split. Qed.

Lemma shouldDelete_later (now now' : Z) (keyData : json) :
  (now <= now')%Z ->
  Delete.shouldDelete c E now keyData = true -> Delete.shouldDelete c E now' keyData = true.
Proof.
  intros Hle H. apply shouldDelete_iff in H. apply shouldDelete_iff.
  destruct H as [[t [Ht Hlt]] Hcc]. split; [| exact Hcc].
  exists t. split; [exact Ht | lia].
Qed.

(** C4. Revocation is atomic with respect to a failure of the backend
    delete.  For a credential selected for deletion on a real run, when
    the backend refuses the delete request (transport error or non-success
    status): the stores are unchanged (no put or delete is sent: the only
    request that is not a read is the refused delete itself), the reported
    entry has status "Error", carries the message and leaves
    [deletionTime] as it was, and the record is selected again at any later
    time. *)
Theorem revocation_atomic (keyName : string) (keyData : json)
  (s3Providers : list s3Provider) (w : world) (r : Delete.deleteResults) :
  (0 < MAX_RETRIES c)%Z ->
  Delete.shouldDelete c E (clock E (List.length (trace w))) keyData = true ->
  (forall n url, (List.length (trace w) <= n)%nat -> refused (http E n "DELETE" url)) ->
  exists evs keyInfo message,
    Delete.processKeyForDeletion c E keyName keyData false s3Providers (w, r)
    = (Ret tt, (appended evs w,
                Delete.mkResults (Delete.processedKeys r ++ [JObj keyInfo])
                  (Delete.errors r) (Delete.nextCursor r)))
    /\ Forall harmless evs
    /\ same_stores w (appended evs w)
    /\ stored keyName (appended evs w) = stored keyName w
    /\ assoc "key" keyInfo = Some (JStr keyName)
    /\ assoc "status" keyInfo = Some (JStr "Error")
    /\ assoc "error" keyInfo = Some (JStr message)
    /\ assoc "deletionTime" keyInfo = get_prop "deletionTime" keyData
    /\ forall now', (clock E (List.length (trace w)) <= now')%Z ->
                    Delete.shouldDelete c E now' keyData = true.
Proof.
  intros Hpos Hsel Hrefused.
  assert (Hnn : keyData <> JNull).
  { intros ->. unfold Delete.shouldDelete in Hsel. simpl in Hsel. discriminate. }
  unfold Delete.processKeyForDeletion.
  assert (Hnow : now (R := Delete.deleteResults) E (w, r)
                 = (Ret (clock E (List.length (trace w))), (w, r))) by reflexivity.
  rewrite (bind_returned _ _ _ _ _ Hnow).
  rewrite (bind_returned _ _ _ _ _ (member_not_null _ _ _ Hnn)).
  rewrite Hsel. cbn [negb].
  set (now0 := clock E (List.length (trace w))).
  set (k0 := Delete.keyInfo_of c E keyName keyData now0).
  set (days := toFixed2 (Delete.daysSinceLastSeen now0 (Date_of E (get_prop "lastSeen" keyData)))).
  set (k1 := set_prop "reason"
               (JStr ("Last seen " +:+ days +:+ " days ago (> " +:+
                      pretty (EXPIRATION_DAYS c) +:+ " days), not currently connected"))
               (set_prop "status" (JStr "Deleted") k0)).
  destruct (revoke_refused keyName keyData false s3Providers now0 (w, (r, k1)) Hpos Hrefused)
    as [evs [m [Hrevoke Hharm]]].
  exists evs, (set_prop "error" (JStr m) (set_prop "status" (JStr "Error") k1)), m.
  split; [| split; [exact Hharm | split; [apply harmless_stores | split; [reflexivity |]]]].
  - unfold with_local, bind at 1. cbn [fst snd].
    unfold bind at 1, set_info at 1, modify_report at 1. cbn [fst snd].
    unfold bind at 1, set_info at 1, modify_report at 1. cbn [fst snd].
    fold days. fold k1. unfold try_catch. rewrite Hrevoke. reflexivity.
  - assert (Hkey : assoc "key" k0 = Some (JStr keyName)) by reflexivity.
    unfold k1. split; [| split; [| split; [| split]]].
    + rewrite !assoc_set_prop_ne by discriminate. exact Hkey.
    + rewrite assoc_set_prop_ne by discriminate. apply assoc_set_prop_eq.
    + apply assoc_set_prop_eq.
    + rewrite !assoc_set_prop_ne by discriminate. apply keyInfo_deletionTime.
    + intros now' Hle. exact (shouldDelete_later _ _ _ Hle Hsel).
Qed.

End RevocationFailure.

(** ** Dry runs *)

Ltac quiet_auto :=
  repeat first
    [ quiet_step
    | match goal with
      | |- quiet (if negb true then _ else _) => cbn [negb]
      | |- quiet (let (_, _) := ?x in _) => destruct x
      end
    | solve [auto with quiet] ].

Section DryRun.
Context (c : constants) (E : env).















Section DryRevocation.
Context (parsedS3Providers : list s3Provider).











(** The dry-run flag of the revocation entry point: [X-Dry-Run] is
    anything but "false" (or absent) on a request, and the configured
    default on a cron trigger. *)
Definition dry_revocation (request : option headers) : bool :=
  match request with
  | Some h => match header "X-Dry-Run" h with
              | Some v => negb (String.eqb v "false")
              | None => true
              end
  | None => DELETE_DRY_RUN c
  end.


End DryRevocation.




End DryRun.

(** ** The scans on the scenarios *)

Section Scans.
Import Scenario.

(** C1. The revocation scan does not respect the budget.  With
    [MAX_KEYS_PER_RUN = 1], backend [a] holding two credentials and
    backend [b] one, a single invocation of [processAllKeys] processes two
    credentials (one of each backend): [processedKeys.errors] is read off
    an array, the spread of [undefined] throws, and the [catch] of the
    hostname loop resumes with the next backend before the count is added
    and compared.  It returns no cursor although [a-key-2] is left
    unprocessed. *)
Theorem revocation_scan_exceeds_budget :
  exists report,
    result_of (Delete.processAllKeys config outside false None [] (fleet, Delete.empty))
    = Ret report
    /\ MAX_KEYS_PER_RUN config = 1%Z
    /\ map key_of (Delete.processedKeys report)
       = [Some (JStr "a-key-1"); Some (JStr "b-key-1")]
    /\ Delete.nextCursor report = None
    /\ Delete.errors report
       = ["Error processing hostname a: Spread syntax requires ...iterable[Symbol.iterator] to be a function";
          "Error processing hostname b: Spread syntax requires ...iterable[Symbol.iterator] to be a function"].
Proof. eexists. split; [vm_compute; reflexivity |]. repeat split. Qed.

(** The reconciliation scan of the same fleet stops at the budget and
    returns the cursor ["a:1"], which the entry point persists. *)
Example reconciliation_scan_respects_budget :
  exists report,
    result_of (Update.updateAccessKeys config outside false None (fleet, Update.empty))
    = Ret report
    /\ map key_of (Update.updatedKeys report) = [Some (JStr "a-key-1")]
    /\ Update.nextCursor report = Some "a:1"
    /\ state (world_of (Update.handleRequest config outside None true (fleet, Update.empty)))
       = [("update_script_cursor", PlainText "a:1")].
Proof. eexists. split; [vm_compute; reflexivity |]. repeat split. Qed.

(** When the budget runs out on the last credential of the last backend
    the reconciliation scan still returns a cursor, built from the absent
    list cursor. *)
Example reconciliation_cursor_at_the_end :
  exists report,
    result_of (Update.updateAccessKeys config outside false None
                 (one "a-key-1" live, Update.empty))
    = Ret report
    /\ Update.nextCursor report = Some "a:undefined".
Proof. eexists. split; [vm_compute; reflexivity |]. repeat split. Qed.

(** *** Reconciliation *)

(** C2 is not what the code does: after a first pass has backfilled a
    legacy record without error, a second pass with the same (empty)
    snapshot writes the record again, now with [currentlyConnected] set to
    [false]. *)
Lemma second_pass_writes_legacy_record :
  let first := Update.processKey config outside "a-key-9" ∅ false
                 (one "a-key-9" legacy, Update.empty) in
  let second := Update.processKey config outside "a-key-9" ∅ false (snd first) in
  result_of first = Ret tt
  /\ Update.errors (report_of first) = []
  /\ writes (one "a-key-9" legacy) (world_of first)
     = [KvPut ACCESS_KEYS_NAMESPACE "a-key-9"
          (JsonText (JObj [("creationTime", JStr "2023-01-01T00:00:00.000Z");
                           ("deletionTime", JNull); ("lastSeen", JNull);
                           ("currentlyConnected", JNull)]))]
  /\ writes (world_of first) (world_of second)
     = [KvPut ACCESS_KEYS_NAMESPACE "a-key-9"
          (JsonText (JObj [("creationTime", JStr "2023-01-01T00:00:00.000Z");
                           ("deletionTime", JNull); ("lastSeen", JNull);
                           ("currentlyConnected", JBool false)]))].
Proof. vm_compute. repeat split. Qed.

(** A credential that is active in the snapshot is written on every
    pass, also when no field changes: [hasChanges] starts with
    [isActive ||]. *)
Example active_key_rewritten :
  let settled := JObj [("creationTime", JStr "2024-05-01T00:00:00.000Z");
                       ("deletionTime", JNull);
                       ("lastSeen", JStr "2024-01-01T00:00:00.000Z");
                       ("currentlyConnected", JBool true)] in
  let pass := Update.processKey config outside "a-key-1" stale_snapshot false
                (one "a-key-1" settled, Update.empty) in
  writes (one "a-key-1" settled) (world_of pass)
  = [KvPut ACCESS_KEYS_NAMESPACE "a-key-1" (JsonText settled)].
Proof. vm_compute. reflexivity. Qed.

Lemma second_pass_witness :
  let first := Update.processKey config outside "a-key-1" ∅ false
                 (one "a-key-1" live, Update.empty) in
  writes (world_of first)
    (world_of (Update.processKey config outside "a-key-1" ∅ false (snd first)))
  = [].
Proof.
  refine (proj2 (second_pass_writes_nothing config outside "a-key-1" ∅
                   (one "a-key-1" live) _ Update.empty _ live _ _ _ _ _)).
  - reflexivity.
  - repeat split; discriminate.
  - left. reflexivity.
  - vm_compute. reflexivity.
  - reflexivity.
Defined.

(** C6 is not what the code does: a snapshot that reports the credential
    active with a timestamp of January replaces a stored [lastSeen] of
    June. *)
Lemma lastSeen_regresses :
  let pass := Update.processKey config outside "a-key-1" stale_snapshot false
                (one "a-key-1" live, Update.empty) in
  get_prop "lastSeen" live = Some (JStr "2024-06-01T00:00:00.000Z")
  /\ stored "a-key-1" (world_of pass)
     = Some (JsonText (JObj [("creationTime", JStr "2024-05-01T00:00:00.000Z");
                             ("deletionTime", JNull);
                             ("lastSeen", JStr "2024-01-01T00:00:00.000Z");
                             ("currentlyConnected", JBool true)]))
  /\ String.ltb "2024-01-01T00:00:00.000Z" "2024-06-01T00:00:00.000Z" = true
  /\ Reference.Date_parse "2024-01-01T00:00:00.000Z" = Some 1704067200000%Z
  /\ Reference.Date_parse "2024-06-01T00:00:00.000Z" = Some 1717200000000%Z.
Proof. vm_compute. repeat split. Qed.

Lemma lastSeen_witness :
  exists keyData',
    stored "a-key-1"
      (world_of (Update.processKey config outside "a-key-1" ∅ false
                   (one "a-key-1" live, Update.empty)))
    = Some (JsonText keyData')
    /\ nullish (get_prop "lastSeen" keyData') = nullish (get_prop "lastSeen" live).
Proof.
  destruct (lastSeen_follows_snapshot config outside "a-key-1" ∅ false
              (one "a-key-1" live) Update.empty live eq_refl)
    as [keyData' [Hstored [Hinactive _]]].
  exists keyData'. split; [exact Hstored | apply Hinactive; reflexivity].
Defined.

Lemma tombstone_witness :
  writes (one "a-key-1" tombstone)
    (world_of (Update.processKey config outside "a-key-1" stale_snapshot false
                 (one "a-key-1" tombstone, Update.empty)))
  = [].
Proof.
  refine (proj2 (tombstone_immutable config outside "a-key-1" stale_snapshot false
                   (one "a-key-1" tombstone) Update.empty tombstone
                   "2024-02-01T00:00:00.000Z" _ _ _) _).
  - reflexivity.
  - reflexivity.
  - discriminate.
  - repeat split; discriminate.
Defined.

(** *** Revocation *)

Lemma revocation_atomic_witness :
  exists evs keyInfo message,
    Delete.processKeyForDeletion config outside "a-key-1" idle false []
      (one "a-key-1" idle, Delete.empty)
    = (Ret tt, (appended evs (one "a-key-1" idle),
                Delete.mkResults [JObj keyInfo] [] None))
    /\ stored "a-key-1" (appended evs (one "a-key-1" idle)) = Some (JsonText idle)
    /\ assoc "status" keyInfo = Some (JStr "Error")
    /\ assoc "error" keyInfo = Some (JStr message)
    /\ assoc "deletionTime" keyInfo = Some JNull.
Proof.
  destruct (revocation_atomic config outside "a-key-1" idle [] (one "a-key-1" idle)
              Delete.empty)
    as [evs [keyInfo [message [Hrun [_ [_ [Hstored [_ [Hstatus [Herror [Hdt _]]]]]]]]]]].
  - reflexivity.
  - reflexivity.
  - intros n url _. reflexivity.
  - exists evs, keyInfo, message. repeat split; assumption.
Defined.

(** The refused delete, in full: one read of the registry, the delete
    request, and the entry reported. *)
Example revocation_refused :
  let pass := Delete.processKeyForDeletion config outside "a-key-1" idle false []
                (one "a-key-1" idle, Delete.empty) in
  trace (world_of pass)
  = [Fetch "DELETE" "https://a/api/access-keys/1"; KvGet API_ENDPOINTS_NAMESPACE "a"]
  /\ access_keys (world_of pass) = [("a-key-1", JsonText idle)]
  /\ map (get_prop "error") (Delete.processedKeys (report_of pass))
     = [Some (JStr "Failed to delete key: Status: 500, Response: refused")].
Proof. vm_compute. repeat split. Qed.

Lemma null_lastSeen_witness :
  Delete.shouldDelete config outside today issued = true
  /\ Delete.shouldDelete config outside today legacy = false.
Proof.
  destruct (null_lastSeen_ages_from_epoch config outside today issued) as [Hnull _].
  destruct (null_lastSeen_ages_from_epoch config outside today legacy) as [_ Habsent].
  split.
  - apply (proj2 (Hnull eq_refl)); reflexivity.
  - exact (proj2 (Habsent eq_refl)).
Defined.

(** The credential issued the day before is reported for deletion. *)
Example issued_would_be_deleted :
  let pass := Delete.processKeyForDeletion config outside "a-key-7" issued true []
                (one "a-key-7" issued, Delete.empty) in
  map (get_prop "status") (Delete.processedKeys (report_of pass))
  = [Some (JStr "Would delete")]
  /\ map (get_prop "daysSinceLastSeen") (Delete.processedKeys (report_of pass))
     = [Some (JStr "19905.00")].
Proof. vm_compute. repeat split. Qed.

(** *** Dry runs *)


(** The flag is read as [headers.get] returns it: [x-dry-run: false] makes
    the revocation real, whatever the case of the name, and a flag sent
    twice is neither "true" nor "false". *)
Example dry_run_flag :
  dry_revocation config (Some [("x-dry-run", "false")]) = false
  /\ dry_revocation config (Some [("X-Dry-Run", "false"); ("x-dry-run", "false")]) = true
  /\ header "X-Dry-Run" [("X-Dry-Run", "true"); ("x-dry-run", "true")] = Some "true, true"
  /\ dry_revocation config (Some []) = true.
Proof. repeat split. Qed.

(** The dry revocation run reads the cursor, the registry and the idle
    credential, and reports it. *)
Example dry_revocation_report :
  let call := Delete.handleRequest config outside [] (Some []) true
                (one "a-key-1" idle, Delete.empty) in
  match result_of call with
  | Ret (Delete.Report 200 results true None None 90) =>
      map (get_prop "status") (Delete.processedKeys results) = [Some (JStr "Would delete")]
  | _ => False
  end
  /\ List.filter mutating (trace (world_of call)) = [].
Proof. vm_compute. repeat split. Qed.

(** *** The usage oracle and the scorer *)




(** The sum is the sum of doubles: 0.1 + 0.2 is not 0.3. *)
Example oracle_snapshot :
  exists data,
    result_of (queryActiveKeys config outside (Some (JStr "https://a/prom"))
                 (fleet, Update.empty))
    = Ret (ActiveKeys data)
    /\ option_map (fun a => Number_toString (totalBytes a)) (data !! "3")
       = Some "0.30000000000000004"
    /\ option_map (fun a => Number_toString (totalBytes a)) (data !! "1") = Some "2148.5"
    /\ Number_toString (number_of_Q (3 # 10)) = "0.3".
Proof. eexists. split; [vm_compute; reflexivity |]. repeat split. Qed.

(** A key id that is the name of a member of [Object.prototype] gets no
    entry, and a result set with an item that is no sample is read without
    it. *)
Example oracle_skips :
  let reply (n : nat) (method url : string) :=
    Response 200
      (JsonText (JObj [("data",
         JObj [("result",
                JArr [Scenario.sample_of ("toString", number_of_Z 1719791900, "7");
                      JObj [("metric", JObj [])];
                      Scenario.sample_of ("2", number_of_Z 1719791900, "7")])])])) in
  exists data,
    result_of (queryActiveKeys config (Reference.reliable reply (fun _ => today))
                 (Some (JStr "https://a/prom")) (fleet, Update.empty))
    = Ret (ActiveKeys data)
    /\ data !! "toString" = None
    /\ data !! "2" = Some (mkActivity 7%float "2024-06-30T23:58:20.000Z").
Proof. eexists. split; [vm_compute; reflexivity |]. repeat split. Qed.



(** The scenario of the scorer: A scores 42, B scores 36, B is returned. *)
Example scorer_scenario :
  Get.getOptimalApiEndpoint config outside probes = Ret "B"
  /\ match Get.join config outside probes ["A"; "B"] [] with
     | [("A", Get.Finite a); ("B", Get.Finite b)] => a == 42 /\ b == 36
     | _ => False
     end.
Proof. split; [vm_compute; reflexivity |]. vm_compute. split; reflexivity. Qed.

(** C7. The scorer drops backends that answer.  The callback reads the
    registry outside its [try], so a read that fails rejects the promise
    of the callback and [Promise.all] at once: the ranking holds only
    what the callbacks that settled before have pushed.  With backend A
    whose registry read fails first and backend B that answers in 20 ms
    with 100 keys, the call fails with "No available API endpoints."; and
    when B has settled before A fails, B (score 36) is returned although
    backend C answers in 10 ms with one key (score 8.2). *)
Theorem scorer_drops_pending_backends :
  Get.settled failing_read = Ret ["A"; "B"]
  /\ Get.endpointData failing_read "A" = Throw (Error "KV GET failed")
  /\ answers config failing_read "B" 20%Q 100
  /\ Get.getOptimalApiEndpoint config outside failing_read
     = Throw (Error "No available API endpoints.")
  /\ Get.settled failing_late = Ret ["B"; "A"; "C"]
  /\ answers config failing_late "B" 20%Q 100
  /\ answers config failing_late "C" 10%Q 1
  /\ (weighted config 10%Q 1 < weighted config 20%Q 100)%Q
  /\ Get.getOptimalApiEndpoint config outside failing_late = Ret "B".
Proof.
  split; [reflexivity |]. split; [reflexivity |]. split; [repeat eexists |].
  split; [vm_compute; reflexivity |]. split; [reflexivity |].
  split; [repeat eexists |]. split; [repeat eexists |].
  split; [reflexivity | vm_compute; reflexivity].
Qed.

End Scans.

(** ** Listing a namespace page by page *)

Lemma digit_value_pretty (d : N) :
  (d < 10)%N -> digit_value (pretty_N_char d) = Some (N.to_nat d).
Proof.
  intros Hd.
  assert (H : (d = 0 \/ d = 1 \/ d = 2 \/ d = 3 \/ d = 4 \/ d = 5 \/ d = 6 \/ d = 7
               \/ d = 8 \/ d = 9)%N) by lia.
  repeat (destruct H as [-> | H]; [reflexivity |]). subst d. reflexivity.
Qed.

Lemma decode_digits_pretty_go (x : N) (s : string) :
  decode_digits 0 (pretty_N_go x s) = decode_digits (N.to_nat x) s.
Proof.
  revert s. induction (N.lt_wf_0 x) as [x _ IH]. intros s.
  destruct (N.eq_dec x 0%N) as [-> | Hx]; [reflexivity |].
  rewrite pretty_N_go_step by lia.
  rewrite IH by (apply N.div_lt; lia). simpl.
  rewrite digit_value_pretty by (apply N.mod_lt; lia).
  f_equal. pose proof (N.div_mod x 10). lia.
Qed.

Lemma pretty_go_nonempty (x : N) (s : string) : s <> "" -> pretty_N_go x s <> "".
Proof.
  revert s. induction (N.lt_wf_0 x) as [x _ IH]. intros s Hs.
  destruct (N.eq_dec x 0%N) as [-> | Hx]; [exact Hs |].
  rewrite pretty_N_go_step by lia.
  apply IH; [apply N.div_lt; lia | discriminate].
Qed.

(** The cursor token of an offset reads back as that offset. *)
Lemma decode_encode_cursor (n : nat) : decode_cursor (encode_cursor n) = Some n.
Proof.
  unfold encode_cursor, pretty, pretty_nat, pretty, pretty_N.
  destruct (decide (N.of_nat n = 0%N)) as [H0 | Hn].
  - assert (n = 0%nat) as -> by lia. reflexivity.
  - unfold decode_cursor.
    destruct (pretty_N_go (N.of_nat n) "") as [| ch s] eqn:Hp.
    + pose proof (N.div_mod (N.of_nat n) 10) as _.
      rewrite pretty_N_go_step in Hp by lia.
      exfalso. revert Hp. apply pretty_go_nonempty. discriminate.
    + rewrite <- Hp, decode_digits_pretty_go. simpl. f_equal. lia.
Qed.

(** Where a listing resumes: at the start without a cursor, at the offset
    its cursor names otherwise. *)
Definition cursor_at (off : nat) (cur : option string) : Prop :=
  (off = 0%nat /\ cur = None) \/ cur = Some (encode_cursor off).

Lemma kv_list_page {V} (pfx cur : option string) (off : nat) (limit : Z) (ns : kv V) :
  cursor_at off cur -> (1 <= limit <= 1000)%Z ->
  let matching :=
    List.filter (fun k => match pfx with Some p => String.prefix p k | None => true end)
      (map fst ns) in
  let n := Z.to_nat limit in
  kv_list pfx cur limit ns
  = Ret (mkListResult (firstn n (skipn off matching))
           (match skipn (off + n) matching with
            | [] => None
            | _ => Some (encode_cursor (off + n))
            end)).
Proof.
  intros Hcur Hlimit matching n. unfold kv_list.
  assert (Hstart : match cur with None => Some 0%nat | Some c => decode_cursor c end
                   = Some off).
  { destruct Hcur as [[-> ->] | ->]; [reflexivity | apply decode_encode_cursor]. }
  rewrite Hstart.
  destruct (limit <? 1)%Z eqn:H1; [lia |].
  destruct (1000 <? limit)%Z eqn:H2; [lia |].
  reflexivity.
Qed.

Lemma filter_all {A} (l : list A) : List.filter (fun _ => true) l = l.
Proof. induction l as [| x l IH]; simpl; [reflexivity | rewrite IH; reflexivity]. Qed.

(** A stored entry is what [get] reads under its key when keys are
    distinct. *)
Lemma kv_get_In {V} (k : string) (v : V) (ns : kv V) :
  NoDup (map fst ns) -> In (k, v) ns -> kv_get k ns = Some v.
Proof.
  unfold kv_get. induction ns as [| [k' v'] ns IH]; simpl; intros Hnd Hin; [contradiction |].
  inversion Hnd as [| ? ? Hnotin Hnd']; subst.
  destruct Hin as [Heq | Hin].
  - injection Heq as -> ->. rewrite String.eqb_refl. reflexivity.
  - destruct (String.eqb k' k) eqn:Hk; [| exact (IH Hnd' Hin)].
    apply String.eqb_eq in Hk. subst k'. exfalso. apply Hnotin, list_elem_of_In.
    apply (in_map fst) in Hin. exact Hin.
Qed.

Section Reliable.
Context (E : env) {R : Type}.
Hypothesis reliable : forall n, kv_error E n = None.

Lemma KV_get_reliable (ns : namespace) (k : string) (w : world) (r : R) :
  KV_get E ns k (w, r) = (Ret (kv_get k (store ns w)), (record_event (KvGet ns k) w, r)).
Proof. unfold KV_get, kv_request. simpl. rewrite reliable. reflexivity. Qed.

Lemma KV_list_reliable (ns : namespace) (pfx cur : option string) (limit : Z)
  (w : world) (r : R) :
  KV_list E ns pfx cur limit (w, r)
  = (kv_list pfx cur limit (store ns w), (record_event (KvList ns pfx cur limit) w, r)).
Proof. unfold KV_list, kv_request. simpl. rewrite reliable. reflexivity. Qed.

End Reliable.

Lemma KV_put_reliable (E : env) {R : Type} (ns : namespace) (k : string) (v : text)
  (w : world) (r : R) :
  (forall n, kv_error E n = None) ->
  KV_put E ns k v (w, r)
  = (Ret tt, (set_store ns (kv_put k v (store ns w)) (record_event (KvPut ns k v) w), r)).
Proof.
  intros reliable. unfold KV_put, kv_request. simpl. rewrite reliable.
  rewrite store_record_event. reflexivity.
Qed.

Lemma kv_get_put_same {V} (k : string) (v : V) (ns : kv V) : kv_get k (kv_put k v ns) = Some v.
Proof.
  unfold kv_get. induction ns as [| [k0 v0] ns IH]; simpl.
  - rewrite String.eqb_refl. reflexivity.
  - destruct (String.eqb k0 k) eqn:H0; simpl.
    + rewrite String.eqb_refl. reflexivity.
    + destruct (String.ltb k k0); simpl.
      * rewrite String.eqb_refl. reflexivity.
      * rewrite H0. exact IH.
Qed.

Lemma kv_get_put_other {V} (k k' : string) (v : V) (ns : kv V) :
  k' <> k -> kv_get k' (kv_put k v ns) = kv_get k' ns.
Proof.
  intros Hne. assert (Hk : String.eqb k k' = false) by (apply String.eqb_neq; congruence).
  unfold kv_get. induction ns as [| [k0 v0] ns IH]; simpl.
  - rewrite Hk. reflexivity.
  - destruct (String.eqb k0 k) eqn:H0; simpl.
    + apply String.eqb_eq in H0. subst k0. rewrite Hk. reflexivity.
    + destruct (String.ltb k k0); simpl.
      * rewrite Hk. reflexivity.
      * destruct (String.eqb k0 k'); [reflexivity | exact IH].
Qed.

(** ** Computations that return or throw an [Error] object

    Every exception the handlers can meet is an [Error] (a rejected
    request, a [SyntaxError] of [JSON.parse], a [TypeError]), except the
    [undefined] that [retry] throws when it is given no attempt. *)

Definition settled {A} (o : outcome A) : Prop :=
  match o with
  | Ret _ | Throw (Error _) => True
  | Throw Undefined | OutOfFuel => False
  end.

(** [m] returns, or throws an [Error] object. *)
Definition settles {R A} (m : M R A) : Prop := forall s, settled (result_of (m s)).

(** [m] returns. *)
Definition returns {R A} (m : M R A) : Prop :=
  forall s, exists a s', m s = (Ret a, s').

Section Settles.
Context {R : Type}.

Lemma returns_settles {A} (m : M R A) : returns m -> settles m.
Proof. intros H s. destruct (H s) as [a [s' ->]]. exact I. Qed.

Lemma returns_ret {A} (a : A) : returns (@ret R A a).
Proof. intros s. exists a, s. reflexivity. Qed.

Lemma settles_throw {A} (msg : string) : settles (@throw R A (Error msg)).
Proof. intros s. exact I. Qed.

Lemma settles_bind {A B} (m : M R A) (k : A -> M R B) :
  settles m -> (forall a, settles (k a)) -> settles (bind m k).
Proof.
  intros Hm Hk s. unfold bind, result_of. specialize (Hm s). unfold result_of in Hm.
  destruct (m s) as [[a | e |] s']; simpl in *; [apply (Hk a s') | exact Hm | exact Hm].
Qed.

Lemma returns_bind {A B} (m : M R A) (k : A -> M R B) :
  returns m -> (forall a, returns (k a)) -> returns (bind m k).
Proof.
  intros Hm Hk s. unfold bind. destruct (Hm s) as [a [s' ->]]. apply Hk.
Qed.

Lemma settles_try_catch {A} (m : M R A) (h : exn -> M R A) :
  settles m -> (forall msg, settles (h (Error msg))) -> settles (try_catch m h).
Proof.
  intros Hm Hh s. unfold try_catch, result_of. specialize (Hm s). unfold result_of in Hm.
  destruct (m s) as [[a | [msg |] |] s']; simpl in *;
    [exact I | apply (Hh msg s') | contradiction | contradiction].
Qed.

Lemma returns_try_catch {A} (m : M R A) (h : exn -> M R A) :
  settles m -> (forall msg, returns (h (Error msg))) -> returns (try_catch m h).
Proof.
  intros Hm Hh s. unfold try_catch. specialize (Hm s). unfold result_of in Hm.
  destruct (m s) as [[a | [msg |] |] s']; simpl in *;
    [exists a, s'; reflexivity | apply Hh | contradiction | contradiction].
Qed.

Lemma settles_retry_from {A} (fn : M R A) (n : nat) (msg : string) :
  settles fn -> settles (retry_from fn n (Error msg)).
Proof.
  intros Hfn. revert msg. induction n as [| n IH]; intros msg; simpl.
  - apply settles_throw.
  - apply settles_try_catch; [exact Hfn | exact IH].
Qed.

(** With at least one attempt, what [retry] throws is the error of its
    last attempt. *)
Lemma settles_retry {A} (c : constants) (fn : M R A) :
  (0 < MAX_RETRIES c)%Z -> settles fn -> settles (retry c fn).
Proof.
  intros Hc Hfn. unfold retry.
  destruct (Z.to_nat (MAX_RETRIES c)) as [| n] eqn:Hn; [lia |]. simpl.
  apply settles_try_catch; [exact Hfn | intros msg; apply settles_retry_from, Hfn].
Qed.

Lemma returns_modify_report (f : R -> R) : returns (modify_report f).
Proof. intros s. exists tt, (fst s, f (snd s)). reflexivity. Qed.

Lemma returns_get_report : returns (@get_report R).
Proof. intros s. exists (snd s), s. reflexivity. Qed.

Lemma returns_get_world : returns (@get_world R).
Proof. intros s. exists (fst s), s. reflexivity. Qed.

Lemma returns_now (E : env) : returns (@now R E).
Proof. intros s. eexists _, s. reflexivity. Qed.

Lemma settles_message_of (e : exn) : settles (@message_of R e).
Proof. destruct e; intros ?; exact I. Qed.

Lemma returns_message_of (msg : string) : returns (@message_of R (Error msg)).
Proof. apply returns_ret. Qed.

Lemma settles_member (name : string) (x : option json) : settles (@member R name x).
Proof. destruct x as [[]|]; intros ?; exact I. Qed.

Lemma settles_JSON_parse (t : option text) : settles (@JSON_parse R t).
Proof. destruct t as [[]|]; intros ?; exact I. Qed.

Lemma settles_Date_toISOString (E : env) (ms : option Z) :
  settles (@Date_toISOString R E ms).
Proof.
  destruct ms as [t|]; simpl; [| intros s; exact I].
  destruct (Z.abs t <=? 8640000000000000)%Z; intros s; exact I.
Qed.

Lemma settles_kv_request {A} (E : env) (ev : event) (reply : world -> outcome A * world) :
  (forall w, settled (fst (reply w))) -> settles (@kv_request R A E ev reply).
Proof.
  intros Hreply s. unfold kv_request, result_of.
  destruct (kv_error E (List.length (trace (fst s)))); simpl; [exact I |].
  specialize (Hreply (record_event ev (fst s))).
  destruct (reply (record_event ev (fst s))) as [o w2]. exact Hreply.
Qed.

Lemma settles_KV_get (E : env) (ns : namespace) (k : string) : settles (@KV_get R E ns k).
Proof. apply settles_kv_request. intros w. exact I. Qed.

Lemma settles_KV_put (E : env) (ns : namespace) (k : string) (v : text) :
  settles (@KV_put R E ns k v).
Proof. apply settles_kv_request. intros w. exact I. Qed.

Lemma settles_KV_delete (E : env) (ns : namespace) (k : string) :
  settles (@KV_delete R E ns k).
Proof. apply settles_kv_request. intros w. exact I. Qed.

Lemma settled_kv_list {V} (pfx cur : option string) (limit : Z) (ns : kv V) :
  settled (kv_list pfx cur limit ns).
Proof.
  unfold kv_list.
  destruct (match cur with None => Some 0%nat | Some c => decode_cursor c end); [| exact I].
  destruct ((limit <? 1)%Z || (1000 <? limit)%Z); exact I.
Qed.

Lemma settles_KV_list (E : env) (ns : namespace) (pfx cur : option string) (limit : Z) :
  settles (@KV_list R E ns pfx cur limit).
Proof. apply settles_kv_request. intros w. apply settled_kv_list. Qed.

Lemma settles_fetch (E : env) (method url : string) : settles (@fetch R E method url).
Proof.
  intros s. unfold fetch, result_of.
  destruct (http E (List.length (trace (fst s))) method url); exact I.
Qed.

Lemma settles_scoped {A} (m : M R A) : settles m -> settles (scoped m).
Proof.
  intros Hm s. unfold scoped, result_of. specialize (Hm s). unfold result_of in Hm.
  destruct (m s) as [o s']. exact Hm.
Qed.

Lemma settles_verifyAuth (request : option headers) (token : string) :
  settles (@verifyAuth R request token).
Proof. destruct request; intros s; exact I. Qed.

End Settles.

Lemma settles_with_local {R L A} (l0 : L) (m : M (R * L) A) :
  settles m -> settles (@with_local R L A l0 m).
Proof.
  intros Hm s. unfold with_local, result_of. specialize (Hm (fst s, (snd s, l0))).
  unfold result_of in Hm.
  destruct (m (fst s, (snd s, l0))) as [[a | e |] [w [r l]]]; simpl in *;
    [exact I | exact Hm | exact Hm].
Qed.

(** One step of a proof that a computation returns or throws an [Error]:
    the rule for the construct at its head. *)
Ltac settles_step :=
  lazymatch goal with
  | |- settles (bind _ _) => apply settles_bind; [| intros ?]
  | |- settles (try_catch _ _) => apply settles_try_catch; [| intros ?]
  | |- settles (retry _ _) => apply settles_retry; [assumption |]
  | |- settles (scoped _) => apply settles_scoped
  | |- settles (with_local _ _) => apply settles_with_local
  | |- settles (ret _) => apply returns_settles, returns_ret
  | |- settles (throw (Error _)) => apply settles_throw
  | |- settles (modify_report _) => apply returns_settles, returns_modify_report
  | |- settles (set_report _) => apply returns_settles, returns_modify_report
  | |- settles (set_info _ _) => apply returns_settles, returns_modify_report
  | |- settles get_report => apply returns_settles, returns_get_report
  | |- settles get_world => apply returns_settles, returns_get_world
  | |- settles (message_of _) => apply settles_message_of
  | |- settles (member _ _) => apply settles_member
  | |- settles (JSON_parse _) => apply settles_JSON_parse
  | |- settles (now _) => apply returns_settles, returns_now
  | |- settles (Date_toISOString _ _) => apply settles_Date_toISOString
  | |- settles (KV_get _ _ _) => apply settles_KV_get
  | |- settles (KV_put _ _ _ _) => apply settles_KV_put
  | |- settles (KV_delete _ _ _) => apply settles_KV_delete
  | |- settles (KV_list _ _ _ _ _) => apply settles_KV_list
  | |- settles (fetch _ _ _) => apply settles_fetch
  | |- settles (verifyAuth _ _) => apply settles_verifyAuth
  | |- settles (if ?b then _ else _) => destruct b
  | |- settles (match ?x with _ => _ end) => destruct x
  end.

Ltac settles_tac := repeat settles_step.

(** ** The listing of the credential store *)

Section ListingFacts.
Context (c : constants) (E : env) (C : calendar).

Lemma quiet_listing_rejects (filter : option string) (name : string)
  (test : option json -> string -> bool) (keyData : json) :
  quiet (Listing.rejects filter name test keyData).
Proof. unfold Listing.rejects. quiet_tac. Qed.

Lemma quiet_listing_applyFilters (keyData : json) (f : Listing.filters) :
  quiet (Listing.applyFilters E C keyData f).
Proof.
  unfold Listing.applyFilters.
  repeat first [apply quiet_listing_rejects | quiet_step].
Qed.

Lemma quiet_listing_processKey (key : string) (f : Listing.filters) :
  quiet (Listing.processKey E C key f).
Proof.
  unfold Listing.processKey, Listing.updateCounts, Listing.set_key, Listing.count_total,
    Listing.count_connected.
  repeat first [apply quiet_listing_applyFilters | quiet_step].
Qed.

Lemma quiet_listing_process_page (page : list string) (f : Listing.filters) :
  quiet (Listing.process_page E C page f).
Proof.
  induction page as [| key page IH]; simpl; [apply quiet_ret |].
  apply quiet_bind; [apply quiet_listing_processKey | intros _; exact IH].
Qed.

Lemma quiet_listing_paging (fuel : nat) (f : Listing.filters) (cursor : option string) :
  quiet (Listing.paging E C fuel f cursor).
Proof.
  revert cursor. induction fuel as [| fuel IH]; intros cursor; simpl.
  - apply quiet_out_of_fuel.
  - apply quiet_bind.
    + apply quiet_try_catch; [| intros e; quiet_tac].
      apply quiet_bind; [apply quiet_KV_list | intros [page cur]].
      apply quiet_bind; [apply quiet_listing_process_page | intros _; apply quiet_ret].
    + intros [page [cur |]]; simpl; [apply IH | apply quiet_ret].
Qed.

Lemma quiet_listKeys (f : Listing.filters) : quiet (Listing.listKeys E C f).
Proof.
  unfold Listing.listKeys. apply quiet_scoped.
  apply quiet_bind; [apply quiet_modify_report | intros _].
  apply quiet_bind; [apply quiet_get_world | intros w].
  apply quiet_bind; [apply quiet_listing_paging | intros _; apply quiet_get_report].
Qed.


Lemma quiet_listing_handleRequest (request : option headers) :
  quiet (Listing.handleRequest c E C request).
Proof.
  unfold Listing.handleRequest.
  apply quiet_bind; [apply quiet_verifyAuth | intros isAuthorized].
  destruct (negb isAuthorized); [apply quiet_ret |].
  apply quiet_try_catch; [| intros e; apply quiet_ret].
  apply quiet_bind; [apply quiet_listKeys | intros result; apply quiet_ret].
Qed.

End ListingFacts.


(** *** The listing without filters *)

Definition no_filters : Listing.filters := Listing.mkFilters false None None None None.

(** What the listing holds for a stored text: the record it parses to, or
    an error entry. *)
Definition listed (t : text) : json :=
  match t with
  | JsonText JNull =>
      JObj [("error",
             JStr "Failed to parse: Cannot read properties of null (reading 'currentlyConnected')")]
  | JsonText j => j
  | PlainText _ => JObj [("error", JStr "Failed to parse: Unexpected token in JSON")]
  end.

Definition parses (t : text) : bool :=
  match t with
  | JsonText _ => true
  | PlainText _ => false
  end.

Definition connected_record (t : text) : bool :=
  match t with
  | JsonText j => truthy_opt (get_prop "currentlyConnected" j)
  | PlainText _ => false
  end.

(** The listing after one more stored entry has been processed. *)
Definition tallied (r : Listing.listing) (entry : string * text) : Listing.listing :=
  let n := Listing.tally r in
  Listing.mkListing (assign (fst entry) (listed (snd entry)) (Listing.keys r))
    (Listing.mkCounts
       (if parses (snd entry) then Listing.total n + 1 else Listing.total n)
       (if connected_record (snd entry) then Listing.connected n + 1 else Listing.connected n)
       (Listing.createdOnDate n) (Listing.createdInMonthCount n)
       (Listing.lastSeenOnDate n) (Listing.lastSeenInMonthCount n))
    (Listing.bare r).

Lemma set_prop_twice (k : string) (v v' : json) (l : list (string * json)) :
  set_prop k v (set_prop k v' l) = set_prop k v l.
Proof.
  induction l as [| [k0 x] l IH]; simpl.
  - rewrite String.eqb_refl. reflexivity.
  - destruct (String.eqb k0 k) eqn:Hk; simpl; rewrite Hk; [reflexivity |].
    rewrite IH. reflexivity.
Qed.

Lemma existsb_name (k : string) (names : list string) :
  existsb (String.eqb k) names = true <-> In k names.
Proof.
  rewrite existsb_exists. split.
  - intros [x [Hin Hx]]. apply String.eqb_eq in Hx. subst x. exact Hin.
  - intros Hin. exists k. split; [exact Hin | apply String.eqb_refl].
Qed.

Lemma set_prop_names (k : string) (v : json) (l : list (string * json)) :
  In k (map fst (set_prop k v l)).
Proof.
  induction l as [| [k0 x] l IH]; simpl; [left; reflexivity |].
  destruct (String.eqb k0 k) eqn:Hk; simpl.
  - left. apply String.eqb_eq, Hk.
  - right. exact IH.
Qed.

Lemma insert_index_names (n : N) (k : string) (v : json) (l : list (string * json)) :
  In k (map fst (insert_index n k v l)).
Proof.
  induction l as [| [k0 x] l IH]; simpl; [left; reflexivity |].
  destruct (array_index k0) as [m |]; [| left; reflexivity].
  destruct (m <? n)%N; simpl; [right; exact IH | left; reflexivity].
Qed.

Lemma set_prop_insert_index (n : N) (k : string) (v v' : json) (l : list (string * json)) :
  ~ In k (map fst l) -> set_prop k v (insert_index n k v' l) = insert_index n k v l.
Proof.
  induction l as [| [k0 x] l IH]; simpl; intros Hfresh.
  - rewrite String.eqb_refl. reflexivity.
  - destruct (array_index k0) as [m |]; simpl.
    + destruct (m <? n)%N; simpl.
      * destruct (String.eqb k0 k) eqn:Hk.
        -- apply String.eqb_eq in Hk. exfalso. apply Hfresh. left. exact Hk.
        -- rewrite IH; [reflexivity |]. intros Hin. apply Hfresh. right. exact Hin.
      * rewrite String.eqb_refl. reflexivity.
    + rewrite String.eqb_refl. reflexivity.
Qed.

(** Assigning twice is assigning the last value. *)
Lemma assign_twice (k : string) (v v' : json) (l : list (string * json)) :
  assign k v (assign k v' l) = assign k v l.
Proof.
  unfold assign. destruct (array_index k) as [n |]; [| apply set_prop_twice].
  destruct (existsb (String.eqb k) (map fst l)) eqn:Hin.
  - assert (H : existsb (String.eqb k) (map fst (set_prop k v' l)) = true)
      by (apply existsb_name, set_prop_names).
    rewrite H. apply set_prop_twice.
  - assert (H : existsb (String.eqb k) (map fst (insert_index n k v' l)) = true)
      by (apply existsb_name, insert_index_names).
    rewrite H. apply set_prop_insert_index.
    intros Hk. apply existsb_name in Hk. congruence.
Qed.

(** Under any name but [__proto__], [keys[name] = v] is the assignment. *)
Lemma put_named (k : string) (v : json) (r : Listing.listing) :
  k <> "__proto__" ->
  Listing.put k v r
  = Listing.mkListing (assign k v (Listing.keys r)) (Listing.tally r) (Listing.bare r).
Proof. intros Hk. unfold Listing.put. apply String.eqb_neq in Hk. rewrite Hk. reflexivity. Qed.

Section ListingComplete.
Context (E : env) (C : calendar).
Hypothesis reliable : forall n, kv_error E n = None.

Lemma processKey_no_filters (key : string) (t : text) (w : world) (r : Listing.listing) :
  key <> "__proto__" ->
  kv_get key (access_keys w) = Some t ->
  exists w',
    Listing.processKey E C key no_filters (w, r) = (Ret tt, (w', tallied r (key, t)))
    /\ access_keys w' = access_keys w.
Proof.
  intros Hname Hget. exists (record_event (KvGet ACCESS_KEYS_NAMESPACE key) w).
  split; [| reflexivity].
  unfold Listing.processKey, try_catch, bind, Listing.set_key, modify_report.
  rewrite (KV_get_reliable E reliable). cbn [store]. rewrite Hget.
  destruct r as [ks [n1 n2 n3 n4 n5 n6] b0]. destruct t as [s | j].
  { cbn -[assign Listing.put]. rewrite (put_named _ _ _ Hname). reflexivity. }
  destruct j as [| b | z | s | l | ps]; cbn -[assign Listing.put];
    rewrite ?(put_named _ _ _ Hname); try reflexivity.
  - cbn -[assign]. rewrite assign_twice. reflexivity.
  - unfold tallied. cbn -[assign].
    destruct (truthy_opt (assoc "currentlyConnected" ps)); reflexivity.
Qed.

Lemma process_page_no_filters (seg : list (string * text)) (w : world)
  (r : Listing.listing) :
  (forall k t, In (k, t) seg -> k <> "__proto__") ->
  (forall k t, In (k, t) seg -> kv_get k (access_keys w) = Some t) ->
  exists w',
    Listing.process_page E C (map fst seg) no_filters (w, r)
    = (Ret tt, (w', fold_left tallied seg r))
    /\ access_keys w' = access_keys w.
Proof.
  revert w r. induction seg as [| [k t] seg IH]; intros w r Hnames Hseg.
  - exists w. split; reflexivity.
  - destruct (processKey_no_filters k t w r (Hnames k t (or_introl eq_refl))
                (Hseg k t (or_introl eq_refl)))
      as [w1 [H1 Hk1]].
    destruct (IH w1 (tallied r (k, t))) as [w2 [H2 Hk2]].
    { intros k' t' Hin. apply (Hnames k' t'). right. exact Hin. }
    { intros k' t' Hin. rewrite Hk1. apply Hseg. right. exact Hin. }
    exists w2. split; [| congruence].
    simpl. unfold bind at 1. rewrite H1. exact H2.
Qed.

Lemma In_segment {A} (x : A) (n off : nat) (l : list A) :
  In x (firstn n (skipn off l)) -> In x l.
Proof.
  intros H.
  rewrite <- (List.firstn_skipn off l). apply in_or_app. right.
  rewrite <- (List.firstn_skipn n (skipn off l)). apply in_or_app. left. exact H.
Qed.

Lemma skipn_nil_length {A} (n : nat) (l : list A) :
  skipn n l <> [] -> (n < List.length l)%nat.
Proof.
  intros H. destruct (Nat.lt_ge_cases n (List.length l)) as [Hlt | Hge]; [exact Hlt |].
  exfalso. apply H. apply List.skipn_all2. exact Hge.
Qed.

Lemma paging_no_filters (ak : kv text) (fuel off : nat) (cursor : option string)
  (w : world) (r : Listing.listing) :
  NoDup (map fst ak) -> Forall plain_name (map fst ak) ->
  access_keys w = ak -> cursor_at off cursor ->
  (List.length ak - off < fuel)%nat ->
  exists w',
    Listing.paging E C fuel no_filters cursor (w, r)
    = (Ret tt, (w', fold_left tallied (skipn off ak) r))
    /\ access_keys w' = ak.
Proof.
  intros Hnd Hnames. revert off cursor w r.
  induction fuel as [| fuel IH]; intros off cursor w r Hak Hcur Hfuel; [lia |].
  cbn [Listing.paging]. unfold bind at 1, try_catch, bind at 1.
  rewrite (KV_list_reliable E reliable). cbn [store]. rewrite Hak.
  rewrite (kv_list_page None cursor off 1000 ak Hcur) by lia.
  rewrite filter_all.
  change (Z.to_nat 1000) with 1000%nat.
  rewrite !List.skipn_map, List.firstn_map.
  destruct (process_page_no_filters (firstn 1000 (skipn off ak))
              (record_event (KvList ACCESS_KEYS_NAMESPACE None cursor 1000) w) r)
    as [w1 [H1 Hk1]].
  { intros k t Hin.
    assert (Hk : In k (map fst ak)).
    { apply in_map_iff. exists (k, t).
      split; [reflexivity | exact (In_segment _ _ _ _ Hin)]. }
    exact (proj2 (proj1 (List.Forall_forall _ _) Hnames k Hk)). }
  { intros k t Hin. cbn [access_keys record_event]. rewrite Hak.
    apply kv_get_In; [exact Hnd |].
    exact (In_segment _ _ _ _ Hin). }
  cbn [access_keys record_event] in Hk1.
  unfold bind at 1. rewrite H1. cbn [ret list_cursor].
  assert (Hfold : fold_left tallied (skipn off ak) r
                  = fold_left tallied (skipn (off + 1000) ak)
                      (fold_left tallied (firstn 1000 (skipn off ak)) r)).
  { rewrite <- fold_left_app, <- (Nat.add_comm 1000 off), <- List.skipn_skipn,
      List.firstn_skipn. reflexivity. }
  rewrite Hfold.
  destruct (skipn (off + 1000) ak) as [| e rest] eqn:Hrest.
  - exists w1. split; [reflexivity | congruence].
  - destruct (IH (off + 1000)%nat (Some (encode_cursor (off + 1000))) w1
                (fold_left tallied (firstn 1000 (skipn off ak)) r))
      as [w2 [H2 Hk2]].
    + congruence.
    + right. reflexivity.
    + assert (off + 1000 < List.length ak)%nat
        by (apply skipn_nil_length; rewrite Hrest; discriminate).
      lia.
    + exists w2. split; [| exact Hk2].
      cbn [map]. rewrite H2, Hrest. reflexivity.
Qed.

End ListingComplete.

Lemma set_prop_fresh (k : string) (v : json) (l : list (string * json)) :
  ~ In k (map fst l) -> set_prop k v l = l ++ [(k, v)].
Proof.
  induction l as [| [k0 x] l IH]; simpl; intros Hfresh; [reflexivity |].
  destruct (String.eqb k0 k) eqn:Hk.
  - apply String.eqb_eq in Hk. exfalso. apply Hfresh. left. exact Hk.
  - rewrite IH; [reflexivity |]. intros Hin. apply Hfresh. right. exact Hin.
Qed.

Definition listed_entry (entry : string * text) : string * json :=
  (fst entry, listed (snd entry)).

(** A new property whose name is no array index goes last. *)
Lemma assign_fresh (k : string) (v : json) (l : list (string * json)) :
  plain_name k -> ~ In k (map fst l) -> assign k v l = l ++ [(k, v)].
Proof. intros [Hk _] Hfresh. unfold assign. rewrite Hk. apply set_prop_fresh, Hfresh. Qed.

Lemma fold_tallied_keys (seg : list (string * text)) (r : Listing.listing) :
  Forall plain_name (map fst seg) ->
  NoDup (map fst (Listing.keys r) ++ map fst seg) ->
  Listing.keys (fold_left tallied seg r) = Listing.keys r ++ map listed_entry seg.
Proof.
  revert r. induction seg as [| [k t] seg IH]; intros r Hnames Hnd; simpl.
  - rewrite app_nil_r. reflexivity.
  - assert (Hfresh : ~ In k (map fst (Listing.keys r))).
    { intros Hin. apply NoDup_app in Hnd as [_ [Hdisj _]].
      apply (Hdisj k); [apply list_elem_of_In; exact Hin | left]. }
    inversion Hnames as [| ? ? Hk Hrest]; subst.
    rewrite IH.
    + simpl. rewrite (assign_fresh _ _ _ Hk Hfresh), <- app_assoc. reflexivity.
    + exact Hrest.
    + simpl. rewrite (assign_fresh _ _ _ Hk Hfresh), map_app, <- app_assoc. exact Hnd.
Qed.

Definition count_of {A} (p : A -> bool) (l : list A) : Z :=
  Z.of_nat (List.length (List.filter p l)).

Lemma fold_tallied_counts (seg : list (string * text)) (r : Listing.listing) :
  Listing.tally (fold_left tallied seg r)
  = Listing.mkCounts
      (Listing.total (Listing.tally r) + count_of (fun e => parses (snd e)) seg)
      (Listing.connected (Listing.tally r)
       + count_of (fun e => connected_record (snd e)) seg)
      (Listing.createdOnDate (Listing.tally r))
      (Listing.createdInMonthCount (Listing.tally r))
      (Listing.lastSeenOnDate (Listing.tally r))
      (Listing.lastSeenInMonthCount (Listing.tally r)).
Proof.
  revert r. induction seg as [| [k t] seg IH]; intros [ks [n1 n2 n3 n4 n5 n6]].
  - unfold count_of. simpl. rewrite !Z.add_0_r. reflexivity.
  - cbn [fold_left]. rewrite IH. unfold tallied, count_of. cbn.
    destruct (parses t), (connected_record t); cbn [List.length]; f_equal; lia.
Qed.

Lemma fold_tallied_bare (seg : list (string * text)) (r : Listing.listing) :
  Listing.bare (fold_left tallied seg r) = Listing.bare r.
Proof.
  revert r. induction seg as [| e seg IH]; intros r; [reflexivity |].
  cbn [fold_left]. rewrite IH. reflexivity.
Qed.

(** *** Authorisation *)

Lemma verifyAuth_bearer {R} (h : headers) (token : string) (s : world * R) :
  header "Authorization" h = Some ("Bearer " +:+ token) ->
  verifyAuth (Some h) token s = (Ret true, s).
Proof.
  intros H. unfold verifyAuth, ret. rewrite H, String.eqb_refl. reflexivity.
Qed.

Lemma verifyAuth_rejects {R} (h : headers) (token : string) (s : world * R) :
  header "Authorization" h <> Some ("Bearer " +:+ token) ->
  verifyAuth (Some h) token s = (Ret false, s).
Proof.
  intros H. unfold verifyAuth, ret.
  destruct (header "Authorization" h) as [a |]; [| reflexivity].
  destruct (String.eqb a ("Bearer " +:+ token)) eqn:Ha.
  - apply String.eqb_eq in Ha. congruence.
  - rewrite andb_false_r. reflexivity.
Qed.

(** An entry that reports a credential that could not be read. *)
Definition error_entry (v : json) : Prop :=
  exists msg, v = JObj [("error", JStr ("Failed to parse: " +:+ msg))].

(** The property [p] of the listing is the entry of the stored
    credential: under its key, the record its text parses to, or an
    error entry when the text does not parse or parses to [null]. *)
Definition lists (entry : string * text) (p : string * json) : Prop :=
  fst p = fst entry
  /\ match snd entry with
     | JsonText JNull | PlainText _ => error_entry (snd p)
     | JsonText j => snd p = j
     end.

Lemma listed_lists (ak : kv text) : Forall2 lists ak (map listed_entry ak).
Proof.
  induction ak as [| [k t] ak IH]; constructor; [| exact IH].
  split; [reflexivity |]. destruct t as [s | []]; cbn; try reflexivity; eexists; reflexivity.
Qed.

Section ListingResponse.
Context (c : constants) (E : env) (C : calendar).

(** X1. With no filter header, the listing endpoint answers an authorised
    request with one entry per stored credential, in store order when no
    key name is an array index or [__proto__]: the record the stored text
    parses to, or an error entry when it does not parse (or parses to
    [null]).  [total] counts the texts that parse, [currentlyConnected]
    the records whose flag is truthy, the four date counters stay at 0,
    and only read requests are sent.  The headers are those [headers.get]
    finds: names are matched without regard to case. *)
Theorem listing_is_complete (h : headers) (w : world) (r : Listing.listing) :
  (forall n, kv_error E n = None) ->
  NoDup (map fst (access_keys w)) ->
  Forall plain_name (map fst (access_keys w)) ->
  header "Authorization" h = Some ("Bearer " +:+ AUTH_TOKEN c) ->
  Listing.getFiltersFromHeaders h = no_filters ->
  exists w' L,
    Listing.handleRequest c E C (Some h) (w, r) = (Ret (Listing.Listed 200 L), (w', r))
    /\ Forall2 lists (access_keys w) (Listing.keys L)
    /\ Listing.tally L
       = Listing.mkCounts
           (count_of (fun e => parses (snd e)) (access_keys w))
           (count_of (fun e => connected_record (snd e)) (access_keys w))
           0 0 0 0
    /\ reads_only w w'.
Proof.
  intros reliable Hnd Hnames Hauth Hfilters.
  destruct (paging_no_filters E C reliable (access_keys w)
              (S (List.length (access_keys w))) 0 None w Listing.empty Hnd Hnames eq_refl)
    as [w' [Hrun Hak]]; [left; split; reflexivity | lia |].
  exists w',
    (Listing.mkListing (map listed_entry (access_keys w))
       (Listing.mkCounts
          (count_of (fun e => parses (snd e)) (access_keys w))
          (count_of (fun e => connected_record (snd e)) (access_keys w))
          0 0 0 0)
       false).
  split; [| split; [apply listed_lists | split; [reflexivity |]]].
  - unfold Listing.handleRequest, bind at 1.
    rewrite (verifyAuth_bearer _ _ _ Hauth). cbn [negb].
    unfold try_catch, bind at 1. rewrite Hfilters.
    unfold Listing.listKeys, scoped, bind at 1, set_report, modify_report, bind at 1,
      get_world, bind at 1.
    cbn [fst snd]. rewrite Hrun. cbn [get_report fst snd ret].
    change (skipn 0 (access_keys w)) with (access_keys w).
    destruct (fold_left tallied (access_keys w) Listing.empty) as [ks n b] eqn:Hfold.
    assert (Hks : ks = map listed_entry (access_keys w)).
    { change ks with (Listing.keys (Listing.mkListing ks n b)). rewrite <- Hfold.
      rewrite fold_tallied_keys; [reflexivity | exact Hnames | exact Hnd]. }
    assert (Hn : n = Listing.mkCounts
                       (count_of (fun e => parses (snd e)) (access_keys w))
                       (count_of (fun e => connected_record (snd e)) (access_keys w))
                       0 0 0 0).
    { change n with (Listing.tally (Listing.mkListing ks n b)). rewrite <- Hfold.
      rewrite fold_tallied_counts. reflexivity. }
    assert (Hb : b = false).
    { change b with (Listing.bare (Listing.mkListing ks n b)). rewrite <- Hfold.
      apply fold_tallied_bare. }
    rewrite Hks, Hn, Hb. reflexivity.
  - pose proof (quiet_listing_paging E C (S (List.length (access_keys w))) no_filters None
                  (w, Listing.empty)) as Hq.
    rewrite Hrun in Hq. exact Hq.
Qed.

End ListingResponse.


(** *** The listing under filters *)

Section ListingFilters.
Context (c : constants) (E : env) (C : calendar) (f : Listing.filters).

(** The record [v] passes every filter that is set. *)
Definition accepted (v : json) : Prop :=
  (Listing.currentlyConnected f = true ->
   truthy_opt (get_prop "currentlyConnected" v) = true)
  /\ (forall d, Listing.createdOn f = Some d -> d <> "" ->
      Listing.isOnDate E C (get_prop "creationTime" v) d = true)
  /\ (forall m, Listing.createdInMonth f = Some m -> m <> "" ->
      Listing.isInMonth E C (get_prop "creationTime" v) m = true)
  /\ (forall d, Listing.lastSeenOn f = Some d -> d <> "" ->
      Listing.isOnDate E C (get_prop "lastSeen" v) d = true)
  /\ (forall m, Listing.lastSeenInMonth f = Some m -> m <> "" ->
      Listing.isInMonth E C (get_prop "lastSeen" v) m = true).

(** What a listing in progress holds, for the store [ak]: stored records
    that pass the filters, or error entries; and counters in range. *)
Definition well_listed (ak : kv text) (L : Listing.listing) : Prop :=
  (forall k v, In (k, v) (Listing.keys L) ->
     error_entry v \/ (kv_get k ak = Some (JsonText v) /\ accepted v))
  /\ (0 <= Listing.connected (Listing.tally L) <= Listing.total (Listing.tally L))%Z
  /\ Listing.createdOnDate (Listing.tally L) = 0%Z
  /\ Listing.createdInMonthCount (Listing.tally L) = 0%Z
  /\ Listing.lastSeenOnDate (Listing.tally L) = 0%Z
  /\ Listing.lastSeenInMonthCount (Listing.tally L) = 0%Z.

Lemma set_prop_In (k k' : string) (v v' : json) (l : list (string * json)) :
  In (k', v') (set_prop k v l) -> (k' = k /\ v' = v) \/ In (k', v') l.
Proof.
  induction l as [| [k0 x] l IH]; simpl.
  - intros [H | []]. injection H as <- <-. left. split; reflexivity.
  - destruct (String.eqb k0 k) eqn:Hk; simpl.
    + apply String.eqb_eq in Hk. subst k0.
      intros [H | H]; [injection H as <- <-; left; split; reflexivity | right; right; exact H].
    + intros [H | H]; [right; left; exact H |].
      destruct (IH H) as [H' | H']; [left; exact H' | right; right; exact H'].
Qed.

Lemma insert_index_In (n : N) (k k' : string) (v v' : json) (l : list (string * json)) :
  In (k', v') (insert_index n k v l) -> (k' = k /\ v' = v) \/ In (k', v') l.
Proof.
  induction l as [| [k0 x] l IH]; simpl.
  - intros [H | []]. injection H as <- <-. left. split; reflexivity.
  - destruct (array_index k0) as [m |].
    + destruct (m <? n)%N; simpl.
      * intros [H | H]; [right; left; exact H |].
        destruct (IH H) as [H' | H']; [left; exact H' | right; right; exact H'].
      * intros [H | H]; [injection H as <- <-; left; split; reflexivity | right; exact H].
    + intros [H | H]; [injection H as <- <-; left; split; reflexivity | right; exact H].
Qed.

Lemma assign_In (k k' : string) (v v' : json) (l : list (string * json)) :
  In (k', v') (assign k v l) -> (k' = k /\ v' = v) \/ In (k', v') l.
Proof.
  unfold assign. destruct (array_index k) as [n |]; [| apply set_prop_In].
  destruct (existsb (String.eqb k) (map fst l)); [apply set_prop_In | apply insert_index_In].
Qed.

Lemma nonempty_some (x : option string) :
  nonempty x = true -> exists s, x = Some s /\ s <> "".
Proof.
  destruct x as [s |]; [| discriminate]. simpl. intros H. exists s. split; [reflexivity |].
  intros ->. discriminate.
Qed.

(** One line of [applyFilters] leaves the state as it is; when it does
    not return, the filter, if set, holds. *)
Lemma rejects_cases (filter : option string) (name : string)
  (test : option json -> string -> bool) (keyData : json) (s : world * Listing.listing) :
  (exists msg, Listing.rejects filter name test keyData s = (Throw (Error msg), s))
  \/ Listing.rejects filter name test keyData s = (Ret true, s)
  \/ (Listing.rejects filter name test keyData s = (Ret false, s)
      /\ forall d, filter = Some d -> d <> "" -> test (get_prop name keyData) d = true).
Proof.
  unfold Listing.rejects. destruct (nonempty filter) eqn:Hf.
  - destruct (nonempty_some _ Hf) as [d [-> Hd]].
    destruct (json_null_dec keyData) as [-> | Hnn].
    + left. eexists. reflexivity.
    + unfold bind. rewrite (member_not_null _ _ _ Hnn). unfold ret. simpl.
      destruct (test (get_prop name keyData) d) eqn:Ht; simpl.
      * right. right. split; [reflexivity |]. intros d' Hd' _. injection Hd' as <-. exact Ht.
      * right. left. reflexivity.
  - right. right. split; [reflexivity |].
    intros d -> Hd. simpl in Hf. apply negb_false_iff, String.eqb_eq in Hf. contradiction.
Qed.

Lemma applyFilters_cases (keyData : json) (s : world * Listing.listing) :
  (exists msg, Listing.applyFilters E C keyData f s = (Throw (Error msg), s))
  \/ Listing.applyFilters E C keyData f s = (Ret false, s)
  \/ (Listing.applyFilters E C keyData f s = (Ret true, s) /\ accepted keyData).
Proof.
  unfold Listing.applyFilters.
  assert (H1 : (exists msg,
                   (if Listing.currentlyConnected f
                    then let* x := member "currentlyConnected" (Some keyData) in
                         ret (negb (truthy_opt x))
                    else ret false) s = (Throw (Error msg), s))
               \/ (if Listing.currentlyConnected f
                   then let* x := member "currentlyConnected" (Some keyData) in
                        ret (negb (truthy_opt x))
                   else ret false) s = (Ret true, s)
               \/ ((if Listing.currentlyConnected f
                    then let* x := member "currentlyConnected" (Some keyData) in
                         ret (negb (truthy_opt x))
                    else ret false) s = (Ret false, s)
                   /\ (Listing.currentlyConnected f = true ->
                       truthy_opt (get_prop "currentlyConnected" keyData) = true))).
  { destruct (Listing.currentlyConnected f).
    - destruct (json_null_dec keyData) as [-> | Hnn].
      + left. eexists. reflexivity.
      + unfold bind. rewrite (member_not_null _ _ _ Hnn). unfold ret. simpl.
        destruct (truthy_opt (get_prop "currentlyConnected" keyData)); simpl.
        * right. right. split; reflexivity.
        * right. left. reflexivity.
    - right. right. split; [reflexivity | discriminate]. }
  destruct H1 as [[msg H] | [H | [H A1]]].
  { left. exists msg. rewrite (bind_thrown _ _ _ _ _ H). reflexivity. }
  { right. left. rewrite (bind_returned _ _ _ _ _ H). reflexivity. }
  rewrite !(bind_returned _ _ _ _ _ H). cbv beta iota. clear H.
  destruct (rejects_cases (Listing.createdOn f) "creationTime" (Listing.isOnDate E C)
              keyData s) as [[msg H] | [H | [H A2]]].
  { left. exists msg. rewrite (bind_thrown _ _ _ _ _ H). reflexivity. }
  { right. left. rewrite (bind_returned _ _ _ _ _ H). reflexivity. }
  rewrite !(bind_returned _ _ _ _ _ H). cbv beta iota. clear H.
  destruct (rejects_cases (Listing.createdInMonth f) "creationTime" (Listing.isInMonth E C)
              keyData s) as [[msg H] | [H | [H A3]]].
  { left. exists msg. rewrite (bind_thrown _ _ _ _ _ H). reflexivity. }
  { right. left. rewrite (bind_returned _ _ _ _ _ H). reflexivity. }
  rewrite !(bind_returned _ _ _ _ _ H). cbv beta iota. clear H.
  destruct (rejects_cases (Listing.lastSeenOn f) "lastSeen" (Listing.isOnDate E C)
              keyData s) as [[msg H] | [H | [H A4]]].
  { left. exists msg. rewrite (bind_thrown _ _ _ _ _ H). reflexivity. }
  { right. left. rewrite (bind_returned _ _ _ _ _ H). reflexivity. }
  rewrite !(bind_returned _ _ _ _ _ H). cbv beta iota. clear H.
  destruct (rejects_cases (Listing.lastSeenInMonth f) "lastSeen" (Listing.isInMonth E C)
              keyData s) as [[msg H] | [H | [H A5]]].
  { left. exists msg. rewrite (bind_thrown _ _ _ _ _ H). reflexivity. }
  { right. left. rewrite (bind_returned _ _ _ _ _ H). reflexivity. }
  rewrite !(bind_returned _ _ _ _ _ H). cbv beta iota. clear H.
  right. right. split; [reflexivity |]. repeat split; assumption.
Qed.

Lemma KV_get_outcome {R} (ns : namespace) (k : string) (w : world) (r : R) :
  (exists msg, KV_get E ns k (w, r) = (Throw (Error msg), (record_event (KvGet ns k) w, r)))
  \/ KV_get E ns k (w, r) = (Ret (kv_get k (store ns w)), (record_event (KvGet ns k) w, r)).
Proof.
  unfold KV_get, kv_request. simpl.
  destruct (kv_error E (List.length (trace w))) as [msg |];
    [left; exists msg; reflexivity | right; reflexivity].
Qed.

Lemma put_tally (k : string) (v : json) (L : Listing.listing) :
  Listing.tally (Listing.put k v L) = Listing.tally L.
Proof. unfold Listing.put. destruct (_ && _); reflexivity. Qed.

Lemma put_In (k k' : string) (v v' : json) (L : Listing.listing) :
  In (k', v') (Listing.keys (Listing.put k v L)) ->
  (k' = k /\ v' = v) \/ In (k', v') (Listing.keys L).
Proof.
  unfold Listing.put. destruct (_ && _); cbn [Listing.keys];
    [intros H; right; exact H | apply assign_In].
Qed.

(** The entry left by two assignments under one name is the second. *)
Lemma put_put_In (k k' : string) (v v0 v' : json) (L : Listing.listing) :
  In (k', v') (Listing.keys (Listing.put k v (Listing.put k v0 L))) ->
  (k' = k /\ v' = v) \/ In (k', v') (Listing.keys L).
Proof.
  unfold Listing.put at 2.
  destruct (String.eqb k "__proto__" && negb (Listing.bare L)) eqn:Hacc.
  - intros Hin. apply put_In in Hin. exact Hin.
  - unfold Listing.put. cbn [Listing.bare Listing.keys]. rewrite Hacc. cbn [Listing.keys].
    rewrite assign_twice. apply assign_In.
Qed.

Lemma well_listed_error (ak : kv text) (key msg : string) (L : Listing.listing) :
  well_listed ak L ->
  well_listed ak
    (Listing.put key (JObj [("error", JStr ("Failed to parse: " +:+ msg))]) L).
Proof.
  intros [Hk Hc]. split; [| rewrite put_tally; exact Hc]. intros k v Hin.
  destruct (put_In _ _ _ _ _ Hin) as [[_ ->] | Hold];
    [left; exists msg; reflexivity | exact (Hk k v Hold)].
Qed.

Lemma well_listed_error_twice (ak : kv text) (key msg : string) (v0 : json)
  (L : Listing.listing) :
  well_listed ak L ->
  well_listed ak
    (Listing.put key (JObj [("error", JStr ("Failed to parse: " +:+ msg))])
       (Listing.put key v0 L)).
Proof.
  intros [Hk Hc]. split; [| rewrite !put_tally; exact Hc]. intros k v Hin.
  destruct (put_put_In _ _ _ _ _ _ Hin) as [[_ ->] | Hold];
    [left; exists msg; reflexivity | exact (Hk k v Hold)].
Qed.

Lemma well_listed_record (ak : kv text) (key : string) (v : json) (L : Listing.listing) :
  well_listed ak L -> kv_get key ak = Some (JsonText v) -> accepted v ->
  well_listed ak (Listing.put key v L).
Proof.
  intros [Hk Hc] Hget Hacc. split; [| rewrite put_tally; exact Hc]. intros k v' Hin.
  destruct (put_In _ _ _ _ _ Hin) as [[-> ->] | Hold];
    [right; split; assumption | exact (Hk k v' Hold)].
Qed.

Lemma listing_processKey_sound (key : string) (w : world) (L : Listing.listing) :
  well_listed (access_keys w) L ->
  exists w' L',
    Listing.processKey E C key f (w, L) = (Ret tt, (w', L'))
    /\ access_keys w' = access_keys w /\ well_listed (access_keys w) L'.
Proof.
  intros HL. exists (record_event (KvGet ACCESS_KEYS_NAMESPACE key) w).
  unfold Listing.processKey, try_catch.
  destruct (KV_get_outcome ACCESS_KEYS_NAMESPACE key w L) as [[msg H] | H].
  { rewrite (bind_thrown _ _ _ _ _ H). eexists. split; [reflexivity |].
    split; [reflexivity | exact (well_listed_error _ key msg L HL)]. }
  rewrite (bind_returned _ _ _ _ _ H). clear H. cbn [store].
  set (w1 := record_event (KvGet ACCESS_KEYS_NAMESPACE key) w).
  assert (Hparse : (exists msg,
                       JSON_parse (kv_get key (access_keys w)) (w1, L)
                       = (Throw (Error msg), (w1, L)))
                   \/ exists keyData,
                        JSON_parse (kv_get key (access_keys w)) (w1, L)
                        = (Ret keyData, (w1, L))
                        /\ (keyData <> JNull ->
                            kv_get key (access_keys w) = Some (JsonText keyData))).
  { destruct (kv_get key (access_keys w)) as [[s | j] |].
    - left. eexists. reflexivity.
    - right. exists j. split; [reflexivity | reflexivity].
    - right. exists JNull. split; [reflexivity | congruence]. }
  destruct Hparse as [[msg H] | [keyData [H Hstored]]].
  { rewrite (bind_thrown _ _ _ _ _ H). eexists. split; [reflexivity |].
    split; [reflexivity | exact (well_listed_error _ key msg L HL)]. }
  rewrite (bind_returned _ _ _ _ _ H). clear H.
  unfold bind at 1, Listing.count_total at 1, modify_report at 1. cbn [fst snd].
  set (L1 := Listing.mkListing _ _ _).
  assert (HL1 : well_listed (access_keys w) L1).
  { destruct HL as [Hk [Hc Hz]]. split; [exact Hk |]. split; [| exact Hz].
    subst L1. cbn. lia. }
  destruct (applyFilters_cases keyData (w1, L1)) as [[msg H] | [H | [H Hacc]]].
  { rewrite (bind_thrown _ _ _ _ _ H). eexists. split; [reflexivity |].
    split; [reflexivity | exact (well_listed_error _ key msg L1 HL1)]. }
  { rewrite (bind_returned _ _ _ _ _ H). exists L1. repeat split; [exact (proj1 HL1) | apply HL1 ..]. }
  rewrite (bind_returned _ _ _ _ _ H). clear H. cbv beta iota.
  unfold bind at 1, Listing.set_key at 1, modify_report at 1. cbn [fst snd].
  unfold Listing.updateCounts.
  destruct (json_null_dec keyData) as [-> | Hnn].
  - eexists. split; [reflexivity |]. split; [reflexivity |].
    exact (well_listed_error_twice _ key _ JNull L1 HL1).
  - rewrite (bind_returned _ _ _ _ _ (member_not_null _ _ _ Hnn)).
    pose proof (well_listed_record _ key keyData L1 HL1 (Hstored Hnn) Hacc) as HL2.
    destruct (truthy_opt (get_prop "currentlyConnected" keyData)).
    + eexists. split; [reflexivity |]. split; [reflexivity |].
      destruct HL2 as [Hk [Hc Hz]]. split; [exact Hk |].
      cbn [snd Listing.tally Listing.total Listing.connected Listing.createdOnDate
           Listing.createdInMonthCount Listing.lastSeenOnDate Listing.lastSeenInMonthCount].
      rewrite put_tally in Hc, Hz |- *. split; [| exact Hz].
      destruct HL as [_ [Hc0 _]]. subst L1. cbn in *. lia.
    + eexists. split; [reflexivity |]. split; [reflexivity | exact HL2].
Qed.

Lemma listing_process_page_sound (page : list string) (w : world) (L : Listing.listing) :
  well_listed (access_keys w) L ->
  exists w' L',
    Listing.process_page E C page f (w, L) = (Ret tt, (w', L'))
    /\ access_keys w' = access_keys w /\ well_listed (access_keys w) L'.
Proof.
  revert w L. induction page as [| key page IH]; intros w L HL.
  - exists w, L. repeat split; [exact (proj1 HL) | apply HL ..].
  - destruct (listing_processKey_sound key w L HL) as [w1 [L1 [H1 [Hk1 HL1]]]].
    rewrite <- Hk1 in HL1.
    destruct (IH w1 L1 HL1) as [w2 [L2 [H2 [Hk2 HL2]]]].
    exists w2, L2. cbn [Listing.process_page].
    rewrite (bind_returned _ _ _ _ _ H1). split; [exact H2 |].
    rewrite <- Hk1. split; [congruence | exact HL2].
Qed.

Lemma KV_list_outcome {R} (ns : namespace) (pfx cur : option string) (limit : Z)
  (w : world) (r : R) :
  (exists msg,
      KV_list E ns pfx cur limit (w, r)
      = (Throw (Error msg), (record_event (KvList ns pfx cur limit) w, r)))
  \/ KV_list E ns pfx cur limit (w, r)
     = (kv_list pfx cur limit (store ns w), (record_event (KvList ns pfx cur limit) w, r)).
Proof.
  unfold KV_list, kv_request. simpl.
  destruct (kv_error E (List.length (trace w))) as [msg |];
    [left; exists msg; reflexivity | right; reflexivity].
Qed.

Lemma listing_paging_sound (fuel off : nat) (cursor : option string) (w : world)
  (L : Listing.listing) :
  cursor_at off cursor -> (List.length (access_keys w) - off < fuel)%nat ->
  well_listed (access_keys w) L ->
  exists w' L',
    access_keys w' = access_keys w /\ well_listed (access_keys w) L'
    /\ (Listing.paging E C fuel f cursor (w, L) = (Ret tt, (w', L'))
        \/ exists msg,
             Listing.paging E C fuel f cursor (w, L)
             = (Throw (Error ("Failed to list keys: " +:+ msg)), (w', L'))).
Proof.
  revert off cursor w L.
  induction fuel as [| fuel IH]; intros off cursor w L Hcur Hfuel HL; [lia |].
  set (w1 := record_event (KvList ACCESS_KEYS_NAMESPACE None cursor 1000) w).
  destruct (KV_list_outcome ACCESS_KEYS_NAMESPACE None cursor 1000 w L) as [[msg H] | H].
  { exists w1, L. split; [reflexivity |]. split; [exact HL |]. right. exists msg.
    cbn [Listing.paging].
    unfold bind at 1, try_catch. rewrite (bind_thrown _ _ _ _ _ H). reflexivity. }
  cbn [store] in H.
  rewrite (kv_list_page None cursor off 1000 (access_keys w) Hcur) in H by lia.
  rewrite filter_all in H. change (Z.to_nat 1000) with 1000%nat in H.
  destruct (listing_process_page_sound
              (firstn 1000 (skipn off (map fst (access_keys w)))) w1 L HL)
    as [w2 [L2 [H2 [Hk2 HL2]]]].
  change (access_keys w1) with (access_keys w) in Hk2, HL2.
  assert (Hstep : Listing.paging E C (S fuel) f cursor (w, L)
                  = match skipn (off + 1000) (map fst (access_keys w)) with
                    | [] => (Ret tt, (w2, L2))
                    | _ => Listing.paging E C fuel f
                             (Some (encode_cursor (off + 1000))) (w2, L2)
                    end).
  { cbn [Listing.paging].
    unfold bind at 1, try_catch. rewrite (bind_returned _ _ _ _ _ H).
    rewrite (bind_returned _ _ _ _ _ H2). cbn [ret list_cursor].
    destruct (skipn (off + 1000) (map fst (access_keys w))); reflexivity. }
  rewrite Hstep. clear Hstep.
  destruct (skipn (off + 1000) (map fst (access_keys w))) as [| e rest] eqn:Hrest.
  - exists w2, L2. split; [exact Hk2 |]. split; [exact HL2 |]. left. reflexivity.
  - rewrite <- Hk2 in HL2.
    destruct (IH (off + 1000)%nat (Some (encode_cursor (off + 1000))) w2 L2)
      as [w3 [L3 [Hk3 [HL3 H3]]]].
    + right. reflexivity.
    + assert (off + 1000 < List.length (map fst (access_keys w)))%nat
        by (apply skipn_nil_length; rewrite Hrest; discriminate).
      rewrite List.length_map in *. rewrite Hk2. lia.
    + exact HL2.
    + exists w3, L3. rewrite Hk2 in *. split; [exact Hk3 |]. split; [exact HL3 |]. exact H3.
Qed.

End ListingFilters.

Section ListingSound.
Context (c : constants) (E : env) (C : calendar).

(** X2. The listing endpoint answers every authorised request, sending
    read requests only: with status 200 and a listing in which every entry
    is an error entry or a stored record that passes every filter of the
    request, with [currentlyConnected <= total] and the four date
    counters at 0; or, when a list request fails, with status 500 and the
    message of the failure. *)
Theorem listing_honours_filters (h : headers) (w : world) (r : Listing.listing) :
  header "Authorization" h = Some ("Bearer " +:+ AUTH_TOKEN c) ->
  exists w' reply,
    Listing.handleRequest c E C (Some h) (w, r) = (Ret reply, (w', r))
    /\ reads_only w w'
    /\ match reply with
       | Listing.Listed status L =>
           status = 200%Z
           /\ well_listed E C (Listing.getFiltersFromHeaders h) (access_keys w) L
       | Listing.Failure status error details =>
           status = 500%Z /\ error = "Error listing keys"
           /\ exists msg, details = Some ("Failed to list keys: " +:+ msg)
       end.
Proof.
  intros Hauth.
  set (f := Listing.getFiltersFromHeaders h).
  assert (H0 : well_listed E C f (access_keys w) Listing.empty).
  { split; [intros k v [] |]. cbn. repeat split; lia. }
  destruct (listing_paging_sound E C f (S (List.length (access_keys w))) 0 None w
              Listing.empty) as [w' [L' [Hk [HL Hrun]]]];
    [left; split; reflexivity | lia | exact H0 |].
  assert (Hreply : Listing.handleRequest c E C (Some h) (w, r)
                   = (match Listing.paging E C (S (List.length (access_keys w))) f None
                              (w, Listing.empty) with
                      | (Ret _, (w1, L1)) => Ret (Listing.Listed 200 L1)
                      | (Throw e, _) =>
                          Ret (Listing.Failure 500 "Error listing keys"
                                 (match e with Error m => Some m | Undefined => None end))
                      | (OutOfFuel, _) => OutOfFuel
                      end,
                      (fst (snd (Listing.paging E C (S (List.length (access_keys w))) f None
                                   (w, Listing.empty))), r))).
  { unfold Listing.handleRequest, bind at 1.
    rewrite (verifyAuth_bearer _ _ _ Hauth). cbn [negb].
    unfold try_catch, bind at 1, Listing.listKeys, scoped, bind at 1, set_report,
      modify_report, bind at 1, get_world, bind at 1.
    cbn [fst snd]. fold f.
    destruct (Listing.paging E C (S (List.length (access_keys w))) f None
                (w, Listing.empty)) as [[[] | e |] [w1 L1]]; reflexivity. }
  pose proof (quiet_listing_handleRequest c E C (Some h) (w, r)) as Hq.
  rewrite Hreply in *. clear Hreply. unfold world_of in Hq. cbn [fst snd] in Hq.
  destruct Hrun as [Hrun | [msg Hrun]]; rewrite Hrun in *; cbn [fst snd] in *.
  - exists w', (Listing.Listed 200 L').
    split; [reflexivity |]. split; [exact Hq |]. split; [reflexivity | exact HL].
  - exists w', (Listing.Failure 500 "Error listing keys"
                  (Some ("Failed to list keys: " +:+ msg))).
    split; [reflexivity |]. split; [exact Hq |].
    split; [reflexivity |]. split; [reflexivity |]. exists msg. reflexivity.
Qed.

End ListingSound.

(** ** The reconciliation scan: termination and budget *)

Section UpdateSettles.
Context (c : constants) (E : env).
Hypothesis attempts : (0 < MAX_RETRIES c)%Z.

Lemma settles_get_json {R} (ns : namespace) (key : string) :
  settles (@get_json R E ns key).
Proof. unfold get_json. settles_tac. Qed.

Lemma settles_update_record (key : string) (a : gmap string activity) (isDryRun : bool)
  (keyData : json) :
  settles (Update.update_record c E key a isDryRun keyData).
Proof.
  unfold Update.update_record, Update.push_updated.
  repeat first [apply settles_get_json | settles_step].
Qed.

(** [processKey] catches what it throws: it always returns. *)
Lemma returns_update_processKey (key : string) (a : gmap string activity) (isDryRun : bool) :
  returns (Update.processKey c E key a isDryRun).
Proof.
  unfold Update.processKey. apply returns_try_catch.
  - apply settles_bind; [| intros keyData; apply settles_update_record].
    apply settles_retry; [exact attempts | apply settles_get_json].
  - intros msg. apply returns_bind; [apply returns_message_of | intros m].
    apply returns_modify_report.
Qed.

End UpdateSettles.

(** What a listing returns: at most [limit] keys, and exactly [limit]
    when more are left. *)
Lemma kv_list_bounds {V} (pfx cur : option string) (limit : Z) (ns : kv V)
  (lr : list_result) :
  kv_list pfx cur limit ns = Ret lr ->
  (1 <= limit <= 1000)%Z
  /\ (List.length (keys lr) <= Z.to_nat limit)%nat
  /\ (list_cursor lr <> None -> List.length (keys lr) = Z.to_nat limit).
Proof.
  unfold kv_list.
  destruct (match cur with None => Some 0%nat | Some c => decode_cursor c end) as [off |];
    [| discriminate].
  destruct (limit <? 1)%Z eqn:H1; [discriminate |].
  destruct (1000 <? limit)%Z eqn:H2; [discriminate |]. simpl.
  intros H. injection H as <-. simpl. split; [lia |]. split.
  - apply List.firstn_le_length.
  - set (matching := List.filter _ _).
    intros Hmore. rewrite List.length_firstn, List.length_skipn.
    destruct (skipn (off + Z.to_nat limit) matching) eqn:Hrest; [contradiction |].
    assert (off + Z.to_nat limit < List.length matching)%nat
      by (apply skipn_nil_length; rewrite Hrest; discriminate).
    lia.
Qed.

Section UpdateBudget.
Context (c : constants) (E : env).
Hypothesis attempts : (0 < MAX_RETRIES c)%Z.

Lemma retry_from_list {R} (ns : namespace) (pfx cur : option string) (limit : Z)
  (n : nat) (e : exn) (w : world) (r : R) :
  match retry_from (KV_list E ns pfx cur limit) n e (w, r) with
  | (Ret lr, (w', r')) =>
      kv_list pfx cur limit (store ns w) = Ret lr /\ r' = r
      /\ store ns w' = store ns w
  | (Throw e', (w', r')) =>
      r' = r /\ store ns w' = store ns w /\ (e' = Undefined -> e = Undefined /\ n = O)
  | (OutOfFuel, _) => False
  end.
Proof.
  revert e w. induction n as [| n IH]; intros e w.
  - simpl. split; [reflexivity |]. split; [reflexivity |]. intros ->. split; reflexivity.
  - cbn [retry_from]. unfold try_catch.
    destruct (KV_list_outcome E ns pfx cur limit w r) as [[msg H] | H]; rewrite H.
    + specialize (IH (Error msg) (record_event (KvList ns pfx cur limit) w)).
      rewrite store_record_event in IH.
      destruct (retry_from (KV_list E ns pfx cur limit) n (Error msg)
                  (record_event (KvList ns pfx cur limit) w, r)) as [[lr | e' |] [w' r']];
        [exact IH | | exact IH].
      destruct IH as [Hr [Hs He]]. split; [exact Hr |]. split; [exact Hs |].
      intros He'. destruct (He He') as [Habs _]. discriminate.
    + pose proof (settled_kv_list pfx cur limit (store ns w)) as Hset.
      destruct (kv_list pfx cur limit (store ns w)) as [lr | [msg |] |] eqn:Hl;
        try contradiction.
      * split; [reflexivity |]. split; [reflexivity | apply store_record_event].
      * specialize (IH (Error msg) (record_event (KvList ns pfx cur limit) w)).
        rewrite store_record_event in IH.
        destruct (retry_from (KV_list E ns pfx cur limit) n (Error msg)
                    (record_event (KvList ns pfx cur limit) w, r)) as [[lr | e' |] [w' r']];
          [destruct IH as [Habs _]; congruence | | exact IH].
        destruct IH as [Hr [Hs He]]. split; [exact Hr |]. split; [exact Hs |].
        intros He'. destruct (He He') as [Habs _]. discriminate.
Qed.

(** What a pass over one credential adds to the report: nothing, an
    entry for the credential, or an error. *)
Lemma update_processKey_report (key : string) (a : gmap string activity) (isDryRun : bool)
  (w : world) (r : Update.updateResults) :
  exists w' r',
    Update.processKey c E key a isDryRun (w, r) = (Ret tt, (w', r'))
    /\ (r' = r
        \/ (exists entry, key_of entry = Some (JStr key) /\ r' = pushed_entry r entry)
        \/ exists msg, r' = pushed_error r msg).
Proof.
  destruct (returns_update_processKey c E attempts key a isDryRun (w, r)) as [[] [[w' r'] Hrun]].
  exists w', r'. split; [exact Hrun |].
  destruct (processKey_cases c E key a w r) as [gets [_ [Hfail | [kd [_ [_ Hcase]]]]]].
  - destruct (Hfail isDryRun) as [[msg H] | [e H]]; rewrite H in Hrun; [| discriminate].
    injection Hrun as _ <-. right. right. exists msg. reflexivity.
  - destruct (persisted key a kd) as [v |].
    + destruct Hcase as [[entry [Hk Hdry]] [puts [_ [_ Hwet]]]].
      destruct isDryRun.
      * rewrite Hdry in Hrun. injection Hrun as _ <-. right. left. exists entry.
        split; [exact Hk | reflexivity].
      * destruct Hwet as [[entry' [Hk' H]] | [msg H]]; rewrite H in Hrun;
          injection Hrun as _ <-.
        -- right. left. exists entry'. split; [exact Hk' | reflexivity].
        -- right. right. exists msg. reflexivity.
    + rewrite (Hcase isDryRun) in Hrun. injection Hrun as _ <-. left. reflexivity.
Qed.

(** The report [r'] holds at most [n] updated keys more than [r], and
    the same cursor. *)
Definition grown (r r' : Update.updateResults) (n : nat) : Prop :=
  (List.length (Update.updatedKeys r') <= List.length (Update.updatedKeys r) + n)%nat
  /\ Update.nextCursor r' = Update.nextCursor r.

Lemma update_process_page_counts (page : list string) (a : gmap string activity)
  (isDryRun : bool) (p q : Z) (w : world) (r : Update.updateResults) :
  (Z.of_nat (List.length page) <= q)%Z ->
  exists p' q' w' r',
    Update.process_page c E page a isDryRun p q (w, r) = (Ret (p', q'), (w', r'))
    /\ p' = (p + Z.of_nat (List.length page))%Z
    /\ q' = (q - Z.of_nat (List.length page))%Z
    /\ grown r r' (List.length page).
Proof.
  revert p q w r. induction page as [| key page IH]; intros p q w r Hlen.
  - exists p, q, w, r. split; [reflexivity |].
    change (List.length (@nil string)) with 0%nat.
    split; [lia |]. split; [lia |]. split; [lia | reflexivity].
  - destruct (update_processKey_report key a isDryRun w r) as [w1 [r1 [H1 Hr1]]].
    assert (Hg1 : grown r r1 1).
    { destruct Hr1 as [-> | [[entry [_ ->]] | [msg ->]]]; split; cbn;
        rewrite ?List.length_app; cbn; first [lia | reflexivity]. }
    cbn [Update.process_page]. rewrite (bind_returned _ _ _ _ _ H1).
    change (List.length (key :: page)) with (S (List.length page)) in Hlen.
    destruct (q - 1 <=? 0)%Z eqn:Hq.
    + assert (page = []) as -> by (destruct page; [reflexivity | simpl in Hlen; lia]).
      exists (p + 1)%Z, (q - 1)%Z, w1, r1. split; [reflexivity |].
      change (List.length [key]) with 1%nat.
      split; [lia |]. split; [lia | exact Hg1].
    + destruct (IH (p + 1)%Z (q - 1)%Z w1 r1) as [p' [q' [w2 [r2 [H2 [Hp [Hq' Hg2]]]]]]]; [lia |].
      exists p', q', w2, r2. split; [exact H2 |].
      change (List.length (key :: page)) with (S (List.length page)).
      split; [lia |]. split; [lia |].
      destruct Hg1 as [Ha Hb], Hg2 as [Hc Hd]. split; [lia | congruence].
Qed.

Lemma update_paging_budget (fuel : nat) (hostname : string) (a : gmap string activity)
  (isDryRun : bool) (cur : option string) (p q : Z) (w : world)
  (r : Update.updateResults) :
  (Z.to_nat q < fuel)%nat ->
  match Update.paging c E fuel hostname a isDryRun cur p q (w, r) with
  | (Ret (p', cur'), (w', r')) =>
      (0 < q)%Z /\ (p <= p' <= p + q)%Z
      /\ (p' = (p + q)%Z \/ nonempty cur' = false)
      /\ grown r r' (Z.to_nat (p' - p))
  | (Throw (Error _), _) => True
  | (Throw Undefined, _) | (OutOfFuel, _) => False
  end.
Proof.
  revert cur p q w r. induction fuel as [| fuel IH]; intros cur p q w r Hfuel; [lia |].
  cbn [Update.paging]. unfold bind at 1, retry.
  pose proof (retry_from_list ACCESS_KEYS_NAMESPACE (Some (hostname +:+ "-key-")) cur
                (Z.min q 1000) (Z.to_nat (MAX_RETRIES c)) Undefined w r) as Hlist.
  destruct (retry_from _ _ _ _) as [[lr | e |] [w1 r1]]; [| | contradiction].
  2: { destruct e as [msg |]; [exact I |]. destruct Hlist as [_ [_ He]].
       destruct (He eq_refl) as [_ Hn]. lia. }
  destruct Hlist as [Hl [-> _]].
  destruct (kv_list_bounds _ _ _ _ _ Hl) as [Hlimit [Hlen Hfull]].
  destruct (update_process_page_counts (keys lr) a isDryRun p q w1 r)
    as [p1 [q1 [w2 [r2 [H2 [Hp1 [Hq1 Hg2]]]]]]]; [lia |].
  unfold bind at 1. rewrite H2. cbv beta iota.
  destruct (nonempty (list_cursor lr) && (0 <? q1)%Z) eqn:Hmore.
  - apply andb_true_iff in Hmore as [Hcursor Hpos]. apply Z.ltb_lt in Hpos.
    assert (Hm : List.length (keys lr) = Z.to_nat (Z.min q 1000)).
    { apply Hfull. intros Hnone. rewrite Hnone in Hcursor. discriminate. }
    specialize (IH (list_cursor lr) p1 q1 w2 r2).
    destruct (Update.paging c E fuel hostname a isDryRun (list_cursor lr) p1 q1 (w2, r2))
      as [[[p' cur'] | [msg |] |] [w3 r3]]; try (apply IH; lia).
    destruct IH as [Hq [Hp [Hstop Hg3]]]; [lia |].
    split; [lia |]. split; [lia |]. split; [destruct Hstop; [left; lia | right; assumption] |].
    destruct Hg2 as [Ha Hb], Hg3 as [Hc Hd]. split; [lia | congruence].
  - unfold ret. split; [lia |]. split; [lia |]. split.
    + apply andb_false_iff in Hmore as [Hcursor | Hpos]; [right; exact Hcursor |].
      apply Z.ltb_ge in Hpos. left. lia.
    + destruct Hg2 as [Ha Hb]. split; [lia | exact Hb].
Qed.

(** X3. The paging loop of the reconciliation scanner ends, and within
    its budget: given at least one attempt per request,
    [processKeysForHostname] returns or throws the error of a failed list
    request; when it returns, the budget was positive, the number of
    credentials it processed is at most the budget, it stopped because
    the budget was used up or the listing was complete, and the report
    holds at most that many more updated keys. *)
Theorem reconciliation_paging_within_budget (hostname : string)
  (a : gmap string activity) (isDryRun : bool) (remainingKeys : Z)
  (startCursor : option string) (w : world) (r : Update.updateResults) :
  match Update.processKeysForHostname c E hostname a isDryRun remainingKeys startCursor
          (w, r) with
  | (Ret (processedKeys, nextCursor), (w', r')) =>
      (0 < remainingKeys)%Z /\ (0 <= processedKeys <= remainingKeys)%Z
      /\ (processedKeys = remainingKeys \/ nonempty nextCursor = false)
      /\ (List.length (Update.updatedKeys r')
          <= List.length (Update.updatedKeys r) + Z.to_nat processedKeys)%nat
  | (Throw (Error _), _) => True
  | (Throw Undefined, _) | (OutOfFuel, _) => False
  end.
Proof.
  unfold Update.processKeysForHostname.
  pose proof (update_paging_budget (S (Z.to_nat remainingKeys)) hostname a isDryRun
                startCursor 0 remainingKeys w r (Nat.lt_succ_diag_r _)) as H.
  destruct (Update.paging c E _ _ _ _ _ _ _ _) as [[[p' cur'] | [msg |] |] [w' r']];
    try exact H.
  destruct H as [Hq [Hp [Hstop [Hg _]]]].
  rewrite Z.sub_0_r in Hg.
  split; [exact Hq |]. split; [lia |]. split; [| exact Hg].
  destruct Hstop as [-> | Hc]; [left; lia | right; exact Hc].
Qed.

End UpdateBudget.

(** *** The entry point answers every request *)

Section UpdateAnswers.
Context (c : constants) (E : env).
Hypothesis attempts : (0 < MAX_RETRIES c)%Z.

Lemma settles_queryPrometheus {R} (promApiEndpoint : option json) :
  settles (@queryPrometheus R E promApiEndpoint).
Proof. unfold queryPrometheus. settles_tac. Qed.

Lemma settles_forEach_item {R} (data : list json) (activeKeys : gmap string activity) :
  settles (@forEach_item R E data activeKeys).
Proof.
  revert activeKeys. induction data as [| item data IH]; intros activeKeys; simpl.
  - apply returns_settles, returns_ret.
  - destruct (sample item) as [[[accessKey t] v] |]; [| apply IH].
    apply settles_bind; [apply settles_Date_toISOString | intros timestamp; apply IH].
Qed.

Lemma returns_queryActiveKeys {R} (promApiEndpoint : option json) :
  returns (@queryActiveKeys R c E promApiEndpoint).
Proof.
  unfold queryActiveKeys. apply returns_try_catch.
  - apply settles_bind.
    + apply settles_retry; [exact attempts | apply settles_queryPrometheus].
    + intros [[[] |] | error]; try (apply returns_settles, returns_ret).
      apply settles_bind; [apply settles_forEach_item | intros ?].
      apply returns_settles, returns_ret.
  - intros msg. apply returns_bind; [apply returns_message_of | intros m; apply returns_ret].
Qed.

Lemma settles_processKeysForHostname (hostname : string) (a : gmap string activity)
  (isDryRun : bool) (remainingKeys : Z) (startCursor : option string) :
  settles (Update.processKeysForHostname c E hostname a isDryRun remainingKeys startCursor).
Proof.
  intros [w r]. unfold Update.processKeysForHostname, result_of.
  pose proof (update_paging_budget c E attempts (S (Z.to_nat remainingKeys)) hostname a
                isDryRun startCursor 0 remainingKeys w r (Nat.lt_succ_diag_r _)) as H.
  destruct (Update.paging c E _ _ _ _ _ _ _ _) as [[[p' cur'] | [msg |] |] [w' r']];
    simpl; [exact I | exact I | exact H | exact H].
Qed.

Lemma settles_prometheusUrl (endpointDataStr : option text) :
  settles (Update.prometheusUrl endpointDataStr).
Proof. unfold Update.prometheusUrl. settles_tac. Qed.

Ltac update_settles :=
  repeat first [ apply settles_processKeysForHostname
               | apply settles_prometheusUrl
               | apply returns_settles, returns_queryActiveKeys
               | apply returns_settles, returns_update_processKey; exact attempts
               | settles_step ].

Lemma returns_hostname_round (hostname : string) (isDryRun : bool)
  (currentCursor : option string) (globalKeyCount : Z) :
  returns (Update.hostname_round c E hostname isDryRun currentCursor globalKeyCount).
Proof.
  unfold Update.hostname_round. apply returns_try_catch.
  - unfold Update.push_error, Update.set_nextCursor. update_settles.
  - intros msg. apply returns_bind; [apply returns_message_of | intros m].
    apply returns_bind; [apply returns_modify_report | intros _; apply returns_ret].
Qed.

Lemma returns_hostnames_loop (hostnames : list string) (isDryRun : bool)
  (startHostname currentCursor : option string) (globalKeyCount : Z) :
  returns (Update.hostnames_loop c E hostnames isDryRun startHostname currentCursor
             globalKeyCount).
Proof.
  revert startHostname currentCursor globalKeyCount.
  induction hostnames as [| hostname hostnames IH]; intros sh cur g; simpl.
  - apply returns_ret.
  - destruct (nonempty sh && negb (String.eqb hostname (template_str sh))); [apply IH |].
    apply returns_bind; [apply returns_hostname_round | intros [cur' g' |]];
      [apply IH | apply returns_ret].
Qed.

Lemma settles_updateAccessKeys (isDryRun : bool) (startCursor : option string) :
  settles (Update.updateAccessKeys c E isDryRun startCursor).
Proof.
  unfold Update.updateAccessKeys.
  repeat first [ apply returns_settles, returns_hostnames_loop | settles_step ].
Qed.

Lemma settles_updateTargetKey (targetKey : string) (isDryRun : bool) :
  settles (Update.updateTargetKey c E targetKey isDryRun).
Proof.
  unfold Update.updateTargetKey, Update.push_error. update_settles.
Qed.

(** X4. The reconciliation entry point answers every request it can be
    given (a request with headers, or the cron trigger), whatever the KV
    stores and the usage oracle do: with 401 and nothing sent when the
    request is not authorised, with the report and status 200, or with
    status 500 and the message of the error that ended the scan. *)
Theorem reconciliation_always_answers (request : option headers) (isCronTriggered : bool)
  (s : world * Update.updateResults) :
  request <> None \/ isCronTriggered = true ->
  exists reply s',
    Update.handleRequest c E request isCronTriggered s = (Ret reply, s')
    /\ match reply with
       | Update.Report status _ _ _ => status = 200%Z
       | Update.Failure status error details =>
           (status = 401%Z /\ error = "Unauthorized" /\ details = None
            /\ isCronTriggered = false /\ s' = s)
           \/ (status = 500%Z /\ error = "Error updating access keys"
               /\ exists msg, details = Some msg)
       end.
Proof.
  intros Hgiven. unfold Update.handleRequest.
  set (isDryRun := match request with Some h => _ | None => false end).
  set (targetKey := match request with Some h => header "X-Target-Key" h | None => None end).
  assert (Hauth : exists b,
             (if isCronTriggered then ret true else verifyAuth request (AUTH_TOKEN c)) s
             = (Ret b, s) /\ (b = false -> isCronTriggered = false)).
  { destruct isCronTriggered.
    - exists true. split; [reflexivity | discriminate].
    - destruct request as [h |]; [| destruct Hgiven; congruence].
      eexists. split; [reflexivity | reflexivity]. }
  destruct Hauth as [b [Hb Hcron]]. rewrite (bind_returned _ _ _ _ _ Hb).
  destruct b; cbn [negb].
  - assert (Hbody : settles
                      (let* updateResults :=
                         if nonempty targetKey
                         then Update.updateTargetKey c E (template_str targetKey) isDryRun
                         else
                           let* startCursor :=
                             retry c (KV_get E STATE_NAMESPACE Update.UPDATE_CURSOR_KEY) in
                           let* updateResults :=
                             Update.updateAccessKeys c E isDryRun (option_map raw startCursor) in
                           run (if isDryRun then ret tt
                                else if nonempty (Update.nextCursor updateResults)
                                then retry c (KV_put E STATE_NAMESPACE Update.UPDATE_CURSOR_KEY
                                                (PlainText (template_str
                                                              (Update.nextCursor updateResults))))
                                else retry c (KV_delete E STATE_NAMESPACE
                                                Update.UPDATE_CURSOR_KEY)) then
                           ret updateResults in
                       ret (Update.Report 200 updateResults isDryRun targetKey))).
    { repeat first [ apply settles_updateTargetKey | apply settles_updateAccessKeys
                   | settles_step ]. }
    specialize (Hbody s). unfold result_of in Hbody. unfold try_catch.
    set (scan := if nonempty targetKey then _ else _) in *.
    destruct (bind scan _ s) as [[reply | [msg |] |] s'] eqn:Hrun; try contradiction.
    + exists reply, s'. split; [reflexivity |].
      unfold bind in Hrun.
      destruct (scan s) as [[u | e |] s1];
        [injection Hrun as <- _; reflexivity | discriminate | discriminate].
    + eexists _, s'. split; [reflexivity |]. right.
      split; [reflexivity |]. split; [reflexivity |]. exists msg. reflexivity.
  - exists (Update.Failure 401 "Unauthorized" None), s. split; [reflexivity |]. left.
    repeat split. exact (Hcron eq_refl).
Qed.

End UpdateAnswers.

(** ** The requests a computation may send *)

Definition same_namespace (a b : namespace) : bool :=
  match a, b with
  | ACCESS_KEYS_NAMESPACE, ACCESS_KEYS_NAMESPACE
  | API_ENDPOINTS_NAMESPACE, API_ENDPOINTS_NAMESPACE
  | STATE_NAMESPACE, STATE_NAMESPACE => true
  | _, _ => false
  end.

(** The request writes to the namespace [ns]. *)
Definition writes_to (ns : namespace) (ev : event) : bool :=
  match ev with
  | KvPut n _ _ | KvDelete n _ => same_namespace n ns
  | _ => false
  end.

(** The request deletes a key of the namespace [ns]. *)
Definition deletes_from (ns : namespace) (ev : event) : bool :=
  match ev with
  | KvDelete n _ => same_namespace n ns
  | _ => false
  end.

(** [w'] comes from [w] by requests that are all [allowed]; a namespace
    none of them writes to is as it was, and a namespace none of them
    deletes from has kept its keys. *)
Definition follows (allowed : event -> bool) (w w' : world) : Prop :=
  exists evs,
    trace w' = evs ++ trace w /\ forallb allowed evs = true
    /\ (forall ns, existsb (writes_to ns) evs = false -> store ns w' = store ns w)
    /\ (forall ns, existsb (deletes_from ns) evs = false ->
        forall k, kv_get k (store ns w) <> None -> kv_get k (store ns w') <> None).

(** A computation that sends [allowed] requests only. *)
Definition confined {R A} (allowed : event -> bool) (m : M R A) : Prop :=
  forall s, follows allowed (fst s) (world_of (m s)).

Lemma same_namespace_eq (a b : namespace) : same_namespace a b = true <-> a = b.
Proof. destruct a, b; simpl; split; congruence. Qed.

Lemma store_set_store_same (ns : namespace) (st : kv text) (w : world) :
  store ns (set_store ns st w) = st.
Proof. destruct ns; reflexivity. Qed.

Lemma kv_put_keeps {V} (k k' : string) (v : V) (ns : kv V) :
  kv_get k ns <> None -> kv_get k (kv_put k' v ns) <> None.
Proof.
  unfold kv_get. induction ns as [| [k0 v0] ns IH]; simpl; intros H; [contradiction |].
  destruct (String.eqb k0 k') eqn:H0; simpl.
  - apply String.eqb_eq in H0. subst k0.
    destruct (String.eqb k' k); [discriminate | exact H].
  - destruct (String.ltb k' k0); simpl.
    + destruct (String.eqb k' k); [discriminate |].
      destruct (String.eqb k0 k); [discriminate | exact H].
    + destruct (String.eqb k0 k); [discriminate | apply IH, H].
Qed.

Lemma store_set_store_other (ns ns' : namespace) (st : kv text) (w : world) :
  same_namespace ns ns' = false -> store ns' (set_store ns st w) = store ns' w.
Proof. destruct ns, ns'; simpl; intros H; try discriminate; reflexivity. Qed.

Section Follows.
Context (allowed : event -> bool).

Lemma follows_refl (w : world) : follows allowed w w.
Proof. exists []. split; [reflexivity |]. split; [reflexivity |]. split; auto. Qed.

Lemma follows_trans (w1 w2 w3 : world) :
  follows allowed w1 w2 -> follows allowed w2 w3 -> follows allowed w1 w3.
Proof.
  intros [e1 [He1 [Ha1 [Hs1 Hk1]]]] [e2 [He2 [Ha2 [Hs2 Hk2]]]].
  exists (e2 ++ e1). split; [rewrite He2, He1; apply app_assoc |].
  split; [rewrite forallb_app, Ha1, Ha2; reflexivity |]. split.
  - intros ns Hns. rewrite existsb_app in Hns. apply orb_false_iff in Hns as [H2 H1].
    rewrite (Hs2 ns H2). exact (Hs1 ns H1).
  - intros ns Hns k Hk. rewrite existsb_app in Hns.
    apply orb_false_iff in Hns as [H2 H1].
    exact (Hk2 ns H2 k (Hk1 ns H1 k Hk)).
Qed.

Lemma follows_event (ev : event) (w : world) :
  allowed ev = true -> follows allowed w (record_event ev w).
Proof.
  intros Hev. exists [ev]. split; [reflexivity |].
  split; [simpl; rewrite Hev; reflexivity |]. split.
  - intros ns _. apply store_record_event.
  - intros ns _ k Hk. rewrite store_record_event. exact Hk.
Qed.

Lemma follows_put (ns : namespace) (k : string) (v : text) (w : world) :
  allowed (KvPut ns k v) = true ->
  follows allowed w
    (set_store ns (kv_put k v (store ns (record_event (KvPut ns k v) w)))
       (record_event (KvPut ns k v) w)).
Proof.
  intros Hev. exists [KvPut ns k v]. split; [destruct ns; reflexivity |].
  split; [simpl; rewrite Hev; reflexivity |]. split.
  - intros ns' Hns'. simpl in Hns'. rewrite orb_false_r in Hns'.
    rewrite store_set_store_other; [apply store_record_event | exact Hns'].
  - intros ns' _ k' Hk'. destruct (same_namespace ns ns') eqn:Hsame.
    + apply same_namespace_eq in Hsame. subst ns'.
      rewrite store_set_store_same, store_record_event. apply kv_put_keeps, Hk'.
    + rewrite store_set_store_other by exact Hsame. rewrite store_record_event. exact Hk'.
Qed.

Lemma follows_delete (ns : namespace) (k : string) (w : world) :
  allowed (KvDelete ns k) = true ->
  follows allowed w
    (set_store ns (kv_delete k (store ns (record_event (KvDelete ns k) w)))
       (record_event (KvDelete ns k) w)).
Proof.
  intros Hev. exists [KvDelete ns k]. split; [destruct ns; reflexivity |].
  split; [simpl; rewrite Hev; reflexivity |]. split.
  - intros ns' Hns'. simpl in Hns'. rewrite orb_false_r in Hns'.
    rewrite store_set_store_other; [apply store_record_event | exact Hns'].
  - intros ns' Hns' k' Hk'. simpl in Hns'. rewrite orb_false_r in Hns'.
    rewrite store_set_store_other by exact Hns'. rewrite store_record_event. exact Hk'.
Qed.

Context {R : Type}.

Lemma confined_ret {A} (a : A) : confined allowed (@ret R A a).
Proof. intros s. apply follows_refl. Qed.

Lemma confined_throw {A} (e : exn) : confined allowed (@throw R A e).
Proof. intros s. apply follows_refl. Qed.

Lemma confined_bind {A B} (m : M R A) (k : A -> M R B) :
  confined allowed m -> (forall a, confined allowed (k a)) -> confined allowed (bind m k).
Proof.
  intros Hm Hk s. unfold bind, world_of. specialize (Hm s). unfold world_of in Hm.
  destruct (m s) as [[a | e |] s']; simpl in *; try exact Hm.
  eapply follows_trans; [exact Hm | apply (Hk a s')].
Qed.

Lemma confined_try_catch {A} (m : M R A) (h : exn -> M R A) :
  confined allowed m -> (forall e, confined allowed (h e)) ->
  confined allowed (try_catch m h).
Proof.
  intros Hm Hh s. unfold try_catch, world_of. specialize (Hm s). unfold world_of in Hm.
  destruct (m s) as [[a | e |] s']; simpl in *; try exact Hm.
  eapply follows_trans; [exact Hm | apply (Hh e s')].
Qed.

Lemma confined_retry_from {A} (fn : M R A) (n : nat) (e : exn) :
  confined allowed fn -> confined allowed (retry_from fn n e).
Proof.
  intros Hfn. revert e. induction n as [| n IH]; intros e; simpl.
  - apply confined_throw.
  - apply confined_try_catch; [exact Hfn | exact IH].
Qed.

Lemma confined_retry {A} (c : constants) (fn : M R A) :
  confined allowed fn -> confined allowed (retry c fn).
Proof. apply confined_retry_from. Qed.

Lemma confined_modify_report (f : R -> R) : confined allowed (modify_report f).
Proof. intros s. apply follows_refl. Qed.

Lemma confined_get_report : confined allowed (@get_report R).
Proof. intros s. apply follows_refl. Qed.

Lemma confined_get_world : confined allowed (@get_world R).
Proof. intros s. apply follows_refl. Qed.

Lemma confined_message_of (e : exn) : confined allowed (@message_of R e).
Proof. destruct e; [apply confined_ret | apply confined_throw]. Qed.

Lemma confined_member (name : string) (x : option json) :
  confined allowed (@member R name x).
Proof. destruct x as [[]|]; first [apply confined_ret | apply confined_throw]. Qed.

Lemma confined_JSON_parse (t : option text) : confined allowed (@JSON_parse R t).
Proof. destruct t as [[]|]; first [apply confined_ret | apply confined_throw]. Qed.

Lemma confined_now (E : env) : confined allowed (@now R E).
Proof. intros s. apply follows_refl. Qed.

Lemma confined_Date_toISOString (E : env) (ms : option Z) :
  confined allowed (@Date_toISOString R E ms).
Proof.
  destruct ms as [t|]; simpl; [| apply confined_throw].
  destruct (Z.abs t <=? 8640000000000000)%Z; [apply confined_ret | apply confined_throw].
Qed.

Lemma confined_KV_get (E : env) (ns : namespace) (k : string) :
  allowed (KvGet ns k) = true -> confined allowed (@KV_get R E ns k).
Proof.
  intros Hev s. unfold KV_get, kv_request, world_of.
  destruct (kv_error E (List.length (trace (fst s)))); simpl; apply follows_event, Hev.
Qed.

Lemma confined_KV_list (E : env) (ns : namespace) (pfx cur : option string) (limit : Z) :
  allowed (KvList ns pfx cur limit) = true -> confined allowed (@KV_list R E ns pfx cur limit).
Proof.
  intros Hev s. unfold KV_list, kv_request, world_of.
  destruct (kv_error E (List.length (trace (fst s)))); simpl; apply follows_event, Hev.
Qed.

Lemma confined_KV_put (E : env) (ns : namespace) (k : string) (v : text) :
  allowed (KvPut ns k v) = true -> confined allowed (@KV_put R E ns k v).
Proof.
  intros Hev s. unfold KV_put, kv_request, world_of.
  destruct (kv_error E (List.length (trace (fst s)))); simpl.
  - apply follows_event, Hev.
  - apply follows_put, Hev.
Qed.

Lemma confined_KV_delete (E : env) (ns : namespace) (k : string) :
  allowed (KvDelete ns k) = true -> confined allowed (@KV_delete R E ns k).
Proof.
  intros Hev s. unfold KV_delete, kv_request, world_of.
  destruct (kv_error E (List.length (trace (fst s)))); simpl.
  - apply follows_event, Hev.
  - apply follows_delete, Hev.
Qed.

Lemma confined_fetch (E : env) (method url : string) :
  allowed (Fetch method url) = true -> confined allowed (@fetch R E method url).
Proof.
  intros Hev s. unfold fetch, world_of.
  destruct (http E (List.length (trace (fst s))) method url); simpl;
    apply follows_event, Hev.
Qed.

Lemma confined_scoped {A} (m : M R A) : confined allowed m -> confined allowed (scoped m).
Proof.
  intros Hm s. unfold scoped, world_of. specialize (Hm s). unfold world_of in Hm.
  destruct (m s) as [o s']. exact Hm.
Qed.

Lemma confined_verifyAuth (request : option headers) (token : string) :
  confined allowed (@verifyAuth R request token).
Proof. destruct request; [apply confined_ret | apply confined_throw]. Qed.

Lemma confined_out_of_fuel {A} : confined allowed (fun s : world * R => (@OutOfFuel A, s)).
Proof. intros s. apply follows_refl. Qed.

End Follows.

Lemma confined_with_local {R L A} (allowed : event -> bool) (l0 : L) (m : M (R * L) A) :
  confined allowed m -> confined allowed (@with_local R L A l0 m).
Proof.
  intros Hm s. unfold with_local, world_of. specialize (Hm (fst s, (snd s, l0))).
  unfold world_of in Hm.
  destruct (m (fst s, (snd s, l0))) as [[a | e |] [w [r l]]]; exact Hm.
Qed.

(** One step of a proof that a computation is confined: the rule for the
    construct at its head; a request is allowed by computation. *)
Ltac confined_step :=
  lazymatch goal with
  | |- confined _ (bind _ _) => apply confined_bind; [| intros ?]
  | |- confined _ (try_catch _ _) => apply confined_try_catch; [| intros ?]
  | |- confined _ (retry _ _) => apply confined_retry
  | |- confined _ (scoped _) => apply confined_scoped
  | |- confined _ (with_local _ _) => apply confined_with_local
  | |- confined _ (ret _) => apply confined_ret
  | |- confined _ (throw _) => apply confined_throw
  | |- confined _ (modify_report _) => apply confined_modify_report
  | |- confined _ (set_report _) => apply confined_modify_report
  | |- confined _ (set_info _ _) => apply confined_modify_report
  | |- confined _ get_report => apply confined_get_report
  | |- confined _ get_world => apply confined_get_world
  | |- confined _ (message_of _) => apply confined_message_of
  | |- confined _ (member _ _) => apply confined_member
  | |- confined _ (JSON_parse _) => apply confined_JSON_parse
  | |- confined _ (now _) => apply confined_now
  | |- confined _ (Date_toISOString _ _) => apply confined_Date_toISOString
  | |- confined _ (KV_get _ _ _) => apply confined_KV_get; reflexivity
  | |- confined _ (KV_list _ _ _ _ _) => apply confined_KV_list; reflexivity
  | |- confined _ (KV_put _ _ _ _) => apply confined_KV_put; reflexivity
  | |- confined _ (KV_delete _ _ _) => apply confined_KV_delete; reflexivity
  | |- confined _ (fetch _ _ _) => apply confined_fetch; reflexivity
  | |- confined _ (verifyAuth _ _) => apply confined_verifyAuth
  | |- confined _ (if ?b then _ else _) => destruct b
  | |- confined _ (match ?x with _ => _ end) => destruct x
  end.

Ltac confined_tac := repeat confined_step.

(** ** What the scanners send *)

(** The requests of the reconciliation scanner: KV reads, HTTP GET, puts
    of credential records, and the put or delete of its own cursor. *)
Definition update_event (ev : event) : bool :=
  match ev with
  | KvGet _ _ | KvList _ _ _ _ => true
  | KvPut ACCESS_KEYS_NAMESPACE _ _ => true
  | KvPut STATE_NAMESPACE k _ | KvDelete STATE_NAMESPACE k =>
      String.eqb k Update.UPDATE_CURSOR_KEY
  | Fetch method _ => String.eqb method "GET"
  | _ => false
  end.

(** The requests of the revocation scanner: KV reads, HTTP DELETE, puts
    of credential records, and the delete of its own cursor. *)
Definition delete_event (ev : event) : bool :=
  match ev with
  | KvGet _ _ | KvList _ _ _ _ => true
  | KvPut ACCESS_KEYS_NAMESPACE _ _ => true
  | KvDelete STATE_NAMESPACE k => String.eqb k Delete.DELETE_CURSOR_KEY
  | Fetch method _ => String.eqb method "DELETE"
  | _ => false
  end.

Section UpdateFrame.
Context (c : constants) (E : env).

Lemma confined_get_json {R} (allowed : event -> bool) (ns : namespace) (key : string) :
  allowed (KvGet ns key) = true -> confined allowed (@get_json R E ns key).
Proof.
  intros H. unfold get_json.
  apply confined_bind; [apply confined_KV_get, H | intros t; apply confined_JSON_parse].
Qed.

Lemma confined_update_processKey (key : string) (a : gmap string activity)
  (isDryRun : bool) :
  confined update_event (Update.processKey c E key a isDryRun).
Proof.
  unfold Update.processKey, Update.update_record, Update.push_updated, Update.push_error.
  repeat first [apply confined_get_json; reflexivity | confined_step].
Qed.

Lemma confined_update_process_page (page : list string) (a : gmap string activity)
  (isDryRun : bool) (p q : Z) :
  confined update_event (Update.process_page c E page a isDryRun p q).
Proof.
  revert p q. induction page as [| key page IH]; intros p q; simpl.
  - apply confined_ret.
  - apply confined_bind; [apply confined_update_processKey | intros _].
    destruct (q - 1 <=? 0)%Z; [apply confined_ret | apply IH].
Qed.

Lemma confined_update_paging (fuel : nat) (hostname : string) (a : gmap string activity)
  (isDryRun : bool) (cur : option string) (p q : Z) :
  confined update_event (Update.paging c E fuel hostname a isDryRun cur p q).
Proof.
  revert cur p q. induction fuel as [| fuel IH]; intros cur p q; simpl.
  - apply confined_out_of_fuel.
  - apply confined_bind; [confined_tac | intros listResult].
    apply confined_bind; [apply confined_update_process_page | intros [p' q']].
    destruct (nonempty (list_cursor listResult) && (0 <? q')%Z);
      [apply IH | apply confined_ret].
Qed.

Lemma confined_forEach_item {R} (allowed : event -> bool) (data : list json)
  (activeKeys : gmap string activity) :
  confined allowed (@forEach_item R E data activeKeys).
Proof.
  revert activeKeys. induction data as [| item data IH]; intros activeKeys; simpl.
  - apply confined_ret.
  - destruct (sample item) as [[[accessKey t] v] |]; [| apply IH].
    apply confined_bind; [apply confined_Date_toISOString | intros timestamp; apply IH].
Qed.

Lemma confined_queryActiveKeys {R} (promApiEndpoint : option json) :
  confined update_event (@queryActiveKeys R c E promApiEndpoint).
Proof.
  unfold queryActiveKeys, queryPrometheus.
  repeat first [apply confined_forEach_item | confined_step].
Qed.

Ltac update_confined :=
  repeat first [ apply confined_update_processKey
               | apply confined_update_paging
               | apply confined_queryActiveKeys
               | confined_step ].

Lemma confined_update_hostnames_loop (hostnames : list string) (isDryRun : bool)
  (startHostname currentCursor : option string) (globalKeyCount : Z) :
  confined update_event
    (Update.hostnames_loop c E hostnames isDryRun startHostname currentCursor
       globalKeyCount).
Proof.
  revert startHostname currentCursor globalKeyCount.
  induction hostnames as [| hostname hostnames IH]; intros sh cur g; simpl.
  - apply confined_ret.
  - destruct (nonempty sh && negb (String.eqb hostname (template_str sh))); [apply IH |].
    apply confined_bind; [| intros [cur' g' |]; [apply IH | apply confined_ret]].
    unfold Update.hostname_round, Update.processKeysForHostname, Update.prometheusUrl,
      Update.push_error, Update.set_nextCursor.
    update_confined.
Qed.

Lemma confined_update_handleRequest (request : option headers) (isCronTriggered : bool) :
  confined update_event (Update.handleRequest c E request isCronTriggered).
Proof.
  unfold Update.handleRequest, Update.updateAccessKeys, Update.updateTargetKey,
    Update.prometheusUrl, Update.push_error.
  repeat first [ apply confined_update_hostnames_loop | update_confined ].
Qed.

End UpdateFrame.

Section DeleteFrame.
Context (c : constants) (E : env) (parsedS3Providers : list s3Provider).

Lemma confined_deletePromises {R} (providers : list s3Provider) (s3Urls : list json) :
  confined delete_event (@Delete.deletePromises E R providers s3Urls).
Proof.
  induction s3Urls as [| url s3Urls IH]; simpl; [apply confined_ret |].
  destruct url; try (apply confined_bind; [exact IH | intros rs; apply confined_ret]).
  apply confined_bind; [| intros r; apply confined_bind;
                                     [exact IH | intros rs; apply confined_ret]].
  unfold Delete.deleteFromS3. confined_tac.
Qed.

Lemma confined_processKeyForDeletion (keyName : string) (keyData : json)
  (isDryRun : bool) (s3Providers : list s3Provider) :
  confined delete_event
    (Delete.processKeyForDeletion c E keyName keyData isDryRun s3Providers).
Proof.
  unfold Delete.processKeyForDeletion, Delete.revoke, Delete.sendDeleteRequest,
    Delete.deleteFromMultipleS3, Delete.push_processed.
  repeat first [apply confined_deletePromises | confined_step].
Qed.

Lemma confined_processKeys_loop (keys : list string) (isDryRun : bool)
  (targetServer : option string) (s3Providers : list s3Provider) :
  confined delete_event
    (Delete.processKeys_loop c E keys isDryRun targetServer s3Providers).
Proof.
  induction keys as [| key keys IH]; simpl; [apply confined_ret |].
  apply confined_bind; [| intros _; exact IH].
  unfold Delete.push_error.
  repeat first [apply confined_processKeyForDeletion | confined_step].
Qed.

Lemma confined_server_page (page : list string) (targetServer : string) (isDryRun : bool)
  (s3Providers : list s3Provider) (pageCursor : option string) (processedCount : Z) :
  confined delete_event
    (Delete.server_page c E page targetServer isDryRun s3Providers pageCursor
       processedCount).
Proof.
  revert processedCount. induction page as [| key page IH]; intros n; simpl.
  - apply confined_ret.
  - apply confined_bind.
    + unfold Delete.push_error.
      repeat first [apply confined_processKeyForDeletion | confined_step].
    + intros n'. destruct (MAX_KEYS_PER_RUN c <=? n')%Z; [| apply IH].
      unfold Delete.set_nextCursor. confined_tac.
Qed.

Lemma confined_server_paging (fuel : nat) (targetServer : string) (isDryRun : bool)
  (s3Providers : list s3Provider) (cursor : option string) (processedCount : Z) :
  confined delete_event
    (Delete.server_paging c E fuel targetServer isDryRun s3Providers cursor
       processedCount).
Proof.
  revert cursor processedCount. induction fuel as [| fuel IH]; intros cur n; simpl.
  - apply confined_out_of_fuel.
  - apply confined_bind; [confined_tac | intros listResult].
    apply confined_bind; [apply confined_server_page | intros [returned n']].
    destruct returned; [apply confined_ret |].
    destruct (nonempty (list_cursor listResult)); [apply IH | apply confined_ret].
Qed.

Lemma confined_processKeysForServer (targetServer : string) (isDryRun : bool)
  (s3Providers : list s3Provider) :
  confined delete_event (Delete.processKeysForServer c E targetServer isDryRun s3Providers).
Proof.
  unfold Delete.processKeysForServer.
  repeat first [apply confined_server_paging | confined_step].
Qed.

Lemma confined_delete_hostnames_loop (hostnames : list string) (isDryRun : bool)
  (s3Providers : list s3Provider) (startHostname currentCursor : option string)
  (globalKeyCount : Z) :
  confined delete_event
    (Delete.hostnames_loop c E hostnames isDryRun s3Providers startHostname currentCursor
       globalKeyCount).
Proof.
  revert startHostname currentCursor globalKeyCount.
  induction hostnames as [| hostname hostnames IH]; intros sh cur g; simpl.
  - apply confined_ret.
  - destruct (nonempty sh && negb (String.eqb hostname (template_str sh))); [apply IH |].
    apply confined_bind; [| intros [cur' g' |]; [apply IH | apply confined_ret]].
    unfold Delete.hostname_round, Delete.push_processed, Delete.push_error,
      Delete.set_nextCursor, iterable.
    repeat first [apply confined_processKeysForServer | confined_step].
Qed.

(** One round of the scan of all backends never ends the loop and never
    sets the cursor of the report: reading [processedKeys.errors] off an
    array gives [undefined], spreading it throws, and the [catch] of the
    round resumes the loop. *)
Lemma delete_hostname_round_resumes (hostname : string) (isDryRun : bool)
  (s3Providers : list s3Provider) (currentCursor : option string) (globalKeyCount : Z)
  (s : world * Delete.deleteResults) :
  match Delete.hostname_round c E hostname isDryRun s3Providers currentCursor globalKeyCount s
  with
  | (Ret Delete.Break, _) => False
  | (_, (_, r')) => Delete.nextCursor r' = Delete.nextCursor (snd s)
  end.
Proof.
  unfold Delete.hostname_round, try_catch, bind at 1.
  assert (Hrep : report_of (Delete.processKeysForServer c E hostname isDryRun s3Providers s)
                 = snd s).
  { unfold Delete.processKeysForServer, scoped, report_of.
    destruct (bind _ _ s). reflexivity. }
  unfold report_of in Hrep.
  destruct (Delete.processKeysForServer c E hostname isDryRun s3Providers s)
    as [[result | [m |] |] [w1 r1]]; cbn [fst snd] in Hrep; subst r1; reflexivity.
Qed.

Lemma delete_hostnames_loop_cursor (hostnames : list string) (isDryRun : bool)
  (s3Providers : list s3Provider) (startHostname currentCursor : option string)
  (globalKeyCount : Z) (s : world * Delete.deleteResults) :
  Delete.nextCursor
    (report_of (Delete.hostnames_loop c E hostnames isDryRun s3Providers startHostname
                  currentCursor globalKeyCount s))
  = Delete.nextCursor (snd s).
Proof.
  revert startHostname currentCursor globalKeyCount s.
  induction hostnames as [| hostname hostnames IH]; intros sh cur g s; simpl; [reflexivity |].
  destruct (nonempty sh && negb (String.eqb hostname (template_str sh))); [apply IH |].
  unfold bind.
  pose proof (delete_hostname_round_resumes hostname isDryRun s3Providers cur g s) as Hround.
  destruct (Delete.hostname_round c E hostname isDryRun s3Providers cur g s)
    as [[[cur' g' |] | e |] [w1 r1]]; try exact Hround; [| contradiction].
  rewrite <- Hround. apply IH.
Qed.

(** The report of a scan of all backends carries no cursor. *)
Lemma processAllKeys_no_cursor (isDryRun : bool) (startCursor : option string)
  (s3Providers : list s3Provider) (s s' : world * Delete.deleteResults)
  (results : Delete.deleteResults) :
  Delete.processAllKeys c E isDryRun startCursor s3Providers s = (Ret results, s') ->
  Delete.nextCursor results = None.
Proof.
  unfold Delete.processAllKeys, scoped, set_report, modify_report, bind at 1.
  cbn [fst snd]. unfold bind at 1, retry.
  pose proof (retry_from_list E API_ENDPOINTS_NAMESPACE None None 1000
                (Z.to_nat (MAX_RETRIES c)) Undefined (fst s) Delete.empty) as Hlist.
  destruct (retry_from (KV_list E API_ENDPOINTS_NAMESPACE None None 1000)
              (Z.to_nat (MAX_RETRIES c)) Undefined (fst s, Delete.empty))
    as [[hostnames | e |] [w1 r1]]; [| discriminate | discriminate].
  destruct Hlist as [_ [-> _]]. unfold bind at 1.
  match goal with
  | |- context [Delete.hostnames_loop c E ?hs isDryRun s3Providers ?sh ?cur 0 ?s0] =>
      pose proof (delete_hostnames_loop_cursor hs isDryRun s3Providers sh cur 0 s0) as Hloop;
      unfold report_of in Hloop;
      destruct (Delete.hostnames_loop c E hs isDryRun s3Providers sh cur 0 s0)
        as [[[] | e |] [w2 r2]]
  end; [| discriminate | discriminate].
  cbn [fst snd get_report] in *. intros H. injection H as <- _. exact Hloop.
Qed.

(** A continuation that is confined for the values the computation can
    return. *)
Lemma confined_bind_returned {R A B} (allowed : event -> bool) (Q : A -> Prop)
  (m : M R A) (k : A -> M R B) :
  confined allowed m -> (forall s a s', m s = (Ret a, s') -> Q a) ->
  (forall a, Q a -> confined allowed (k a)) -> confined allowed (bind m k).
Proof.
  intros Hm HQ Hk s. unfold bind, world_of. specialize (Hm s). unfold world_of in Hm.
  destruct (m s) as [[a | e |] s'] eqn:Hrun; simpl in *; try exact Hm.
  eapply follows_trans; [exact Hm | apply (Hk a (HQ s a s' Hrun) s')].
Qed.

Lemma confined_delete_handleRequest (request : option headers) (isCronTriggered : bool) :
  confined delete_event
    (Delete.handleRequest c E parsedS3Providers request isCronTriggered).
Proof.
  unfold Delete.handleRequest, Delete.processKeys.
  repeat first
    [ apply confined_processKeys_loop | apply confined_processKeysForServer
    | match goal with
      | |- confined _ (bind (Delete.processAllKeys _ _ _ _ _) _) =>
          apply (confined_bind_returned delete_event
                   (fun results => Delete.nextCursor results = None));
          [ unfold Delete.processAllKeys;
            repeat first [apply confined_delete_hostnames_loop | confined_step]
          | intros s results s' Hrun; exact (processAllKeys_no_cursor _ _ _ _ _ _ Hrun)
          | intros results Hnone; rewrite Hnone; cbn [nonempty] ]
      end
    | confined_step ].
Qed.

End DeleteFrame.

Lemma existsb_of_forallb (p q : event -> bool) (evs : list event) :
  (forall ev, p ev = true -> q ev = false) ->
  forallb p evs = true -> existsb q evs = false.
Proof.
  intros Hpq. induction evs as [| ev evs IH]; simpl; [reflexivity |].
  intros H. apply andb_true_iff in H as [Hev Hevs].
  rewrite (Hpq ev Hev), (IH Hevs). reflexivity.
Qed.

(** What follows from the requests sent: the registry is as it was and
    every credential record is still there. *)
Lemma follows_keeps_records (allowed : event -> bool) (w w' : world) :
  (forall ev, allowed ev = true ->
     writes_to API_ENDPOINTS_NAMESPACE ev = false
     /\ deletes_from ACCESS_KEYS_NAMESPACE ev = false) ->
  follows allowed w w' ->
  (exists evs, trace w' = evs ++ trace w /\ forallb allowed evs = true)
  /\ api_endpoints w' = api_endpoints w
  /\ forall key, stored key w <> None -> stored key w' <> None.
Proof.
  intros Hallowed [evs [Ht [Ha [Hs Hk]]]].
  split; [exists evs; split; assumption |]. split.
  - apply (Hs API_ENDPOINTS_NAMESPACE).
    apply (existsb_of_forallb allowed); [intros ev Hev; apply (Hallowed ev Hev) | exact Ha].
  - apply (Hk ACCESS_KEYS_NAMESPACE).
    apply (existsb_of_forallb allowed); [intros ev Hev; apply (Hallowed ev Hev) | exact Ha].
Qed.

Section Frames.
Context (c : constants) (E : env).

(** X5. Whatever it is asked, the reconciliation entry point sends only
    KV reads, HTTP GET requests, puts of credential records and the put or
    delete of its own cursor: it never writes to the endpoint registry,
    and every credential record of the store is still there afterwards. *)
Theorem reconciliation_requests (request : option headers) (isCronTriggered : bool)
  (w : world) (r : Update.updateResults) :
  let w' := world_of (Update.handleRequest c E request isCronTriggered (w, r)) in
  (exists evs, trace w' = evs ++ trace w /\ forallb update_event evs = true)
  /\ api_endpoints w' = api_endpoints w
  /\ forall key, stored key w <> None -> stored key w' <> None.
Proof.
  intros w'. apply follows_keeps_records.
  - intros [ns k | ns pfx cur limit | [] k v | [] k | method url]; simpl;
      intros H; try discriminate; split; reflexivity.
  - exact (confined_update_handleRequest c E request isCronTriggered (w, r)).
Qed.

(** X6. Whatever it is asked, the revocation entry point sends only KV
    reads, HTTP DELETE requests, puts of credential records and the delete
    of its own cursor.  So a revoked credential stays in the store as a
    tombstone (no key of the credential store is ever deleted), the
    endpoint registry is never written, and no cursor is ever saved. *)
Theorem revocation_requests (parsedS3Providers : list s3Provider)
  (request : option headers) (isCronTriggered : bool) (w : world)
  (r : Delete.deleteResults) :
  let w' := world_of (Delete.handleRequest c E parsedS3Providers request isCronTriggered
                        (w, r)) in
  (exists evs, trace w' = evs ++ trace w /\ forallb delete_event evs = true)
  /\ api_endpoints w' = api_endpoints w
  /\ forall key, stored key w <> None -> stored key w' <> None.
Proof.
  intros w'. apply follows_keeps_records.
  - intros [ns k | ns pfx cur limit | [] k v | [] k | method url]; simpl;
      intros H; try discriminate; split; reflexivity.
  - exact (confined_delete_handleRequest c E parsedS3Providers request isCronTriggered
             (w, r)).
Qed.

End Frames.

(** ** A revocation that succeeds *)

(** The backend accepts the delete: a status in 200..299. *)
Definition accepts (reply : response) : Prop :=
  match reply with
  | NetworkError _ => False
  | Response status _ => ok status = true
  end.

(** The URL of the backend, from what the registry holds (a JSON object
    with [apiUrl], or the bare URL of older registries). *)
Definition backend_url (endpointDataStr : text) : string :=
  match endpointDataStr with
  | JsonText JNull => "null"
  | JsonText j => template (get_prop "apiUrl" j)
  | PlainText s => s
  end.

(** The tombstone the scanner writes for a record at time [now]. *)
Definition tombstone_of (E : env) (keyData : json) (now : Z) : list (string * json) :=
  set_prop "currentlyConnected" JNull
    (set_prop "deletionTime" (JStr (toISOString E now)) (spread keyData)).

(** A computation that only talks to the network: it leaves the report
    and the stores alone, and returns or throws an [Error]. *)
Definition outbound {R A} (m : M R A) : Prop :=
  forall s, exists o evs, m s = (o, (appended evs (fst s), snd s)) /\ settled o.

Section Outbound.
Context {R : Type}.

Lemma outbound_ret {A} (a : A) : outbound (@ret R A a).
Proof. intros s. exists (Ret a), []. rewrite appended_nil. destruct s. split; [reflexivity | exact I]. Qed.

Lemma outbound_throw {A} (msg : string) : outbound (@throw R A (Error msg)).
Proof.
  intros s. exists (Throw (Error msg)), []. rewrite appended_nil. destruct s.
  split; [reflexivity | exact I].
Qed.

Lemma outbound_bind {A B} (m : M R A) (k : A -> M R B) :
  outbound m -> (forall a, outbound (k a)) -> outbound (bind m k).
Proof.
  intros Hm Hk s. unfold bind. destruct (Hm s) as [o [evs [-> Ho]]].
  destruct o as [a | [msg |] |]; try contradiction.
  - destruct (Hk a (appended evs (fst s), snd s)) as [o' [evs' [-> Ho']]].
    exists o', (evs' ++ evs). cbn [fst snd]. rewrite appended_app. split; [reflexivity | exact Ho'].
  - exists (Throw (Error msg)), evs. split; [reflexivity | exact I].
Qed.

Lemma outbound_try_catch {A} (m : M R A) (h : exn -> M R A) :
  outbound m -> (forall msg, outbound (h (Error msg))) -> outbound (try_catch m h).
Proof.
  intros Hm Hh s. unfold try_catch. destruct (Hm s) as [o [evs [-> Ho]]].
  destruct o as [a | [msg |] |]; try contradiction.
  - exists (Ret a), evs. split; [reflexivity | exact I].
  - destruct (Hh msg (appended evs (fst s), snd s)) as [o' [evs' [-> Ho']]].
    exists o', (evs' ++ evs). cbn [fst snd]. rewrite appended_app. split; [reflexivity | exact Ho'].
Qed.

Lemma outbound_fetch (E : env) (method url : string) : outbound (@fetch R E method url).
Proof.
  intros s. unfold fetch.
  destruct (http E (List.length (trace (fst s))) method url) as [msg | status body].
  - exists (Throw (Error msg)), [Fetch method url]. split; [reflexivity | exact I].
  - exists (Ret (status, body)), [Fetch method url]. split; [reflexivity | exact I].
Qed.

Lemma outbound_deleteFromS3 (E : env) (provider : s3Provider) (path : string) :
  outbound (@Delete.deleteFromS3 E R provider path).
Proof.
  unfold Delete.deleteFromS3. apply outbound_try_catch; [| intros msg; apply outbound_ret].
  apply outbound_bind; [apply outbound_fetch | intros [status body]].
  destruct (negb (ok status) && negb (status =? 404)%Z);
    [apply outbound_throw | apply outbound_ret].
Qed.

Lemma outbound_deletePromises (E : env) (providers : list s3Provider) (s3Urls : list json) :
  outbound (@Delete.deletePromises E R providers s3Urls).
Proof.
  induction s3Urls as [| url s3Urls IH]; simpl; [apply outbound_ret |].
  destruct url;
    try (apply outbound_bind; [exact IH | intros rs; apply outbound_ret]).
  apply outbound_bind;
    [| intros r; apply outbound_bind; [exact IH | intros rs; apply outbound_ret]].
  destruct (List.find _ providers); [apply outbound_deleteFromS3 | apply outbound_ret].
Qed.

Lemma outbound_deleteFromMultipleS3 (E : env) (providers : list s3Provider) (s3Urls : json) :
  outbound (@Delete.deleteFromMultipleS3 E R providers s3Urls).
Proof.
  unfold Delete.deleteFromMultipleS3.
  destruct s3Urls; try apply outbound_throw.
  apply outbound_bind; [apply outbound_deletePromises | intros results].
  destruct (forallb _ results); [apply outbound_ret | apply outbound_throw].
Qed.

End Outbound.

Section RevocationSuccess.
Context (c : constants) (E : env).
Hypothesis attempts : (0 < MAX_RETRIES c)%Z.
Hypothesis reliable : forall n, kv_error E n = None.

(** The delete request of a credential, for the registry entry [t]. *)
Definition delete_url (t : text) (keyName : string) : string :=
  backend_url t +:+ "/access-keys/" +:+ template_str (nth_error (split "-key-" keyName) 1).

Lemma apiEndpointUrl_value {R} (t : text) (s : world * R) :
  try_catch
    (let* endpointData := JSON_parse (Some t) in
     let* apiUrl := member "apiUrl" (Some endpointData) in
     ret (template apiUrl))
    (fun _ => ret (template_str (option_map raw (Some t)))) s
  = (Ret (backend_url t), s).
Proof.
  unfold try_catch, bind. destruct t as [txt | j]; simpl; [reflexivity |].
  destruct j; reflexivity.
Qed.

Lemma sendDeleteRequest_accepted {R} (url : string) (s : world * R) :
  accepts (http E (List.length (trace (fst s))) "DELETE" url) ->
  Delete.sendDeleteRequest E url s
  = (Ret Delete.Success, (appended [Fetch "DELETE" url] (fst s), snd s)).
Proof.
  unfold Delete.sendDeleteRequest, try_catch, bind, fetch, accepts.
  destruct (http E (List.length (trace (fst s))) "DELETE" url) as [msg | status body]; simpl.
  - contradiction.
  - intros ->. reflexivity.
Qed.

(** The S3 clean-up of a revocation never fails it: it sends requests to
    the S3 providers and notes the outcome in [keyInfo]. *)
Lemma s3_cleanup_returns {R} (guard present isDryRun : bool) (s3Providers : list s3Provider)
  (s3Paths : json) (w : world) (r : R) (k : list (string * json)) :
  exists evs k',
    (if guard
     then
       try_catch
         (let* s3DeleteSuccess := Delete.deleteFromMultipleS3 E s3Providers s3Paths in
          set_info "s3DeleteStatus"
            (JStr (if s3DeleteSuccess then "Deleted" else "Partial failure")))
         (fun s3Error =>
            run set_info "s3DeleteStatus" (JStr "Failed") then
            let* m := message_of s3Error in
            set_info "s3DeleteError" (JStr m))
     else if present then
       set_info "s3DeleteStatus"
         (JStr (if isDryRun then "Would delete" else "Skipped (S3 deletion disabled)"))
     else ret tt) (w, (r, k))
    = (Ret tt, (appended evs w, (r, k')))
    /\ (forall name, name <> "s3DeleteStatus" -> name <> "s3DeleteError" ->
                     assoc name k' = assoc name k).
Proof.
  destruct guard; [| destruct present].
  - unfold try_catch, bind at 1.
    destruct (outbound_deleteFromMultipleS3 E s3Providers s3Paths (w, (r, k)))
      as [o [evs [-> Ho]]].
    destruct o as [b | [m |] |]; try contradiction; cbn [fst snd].
    + exists evs. eexists. split; [reflexivity |].
      intros name H1 H2. apply assoc_set_prop_ne. congruence.
    + exists evs. eexists. split; [reflexivity |].
      intros name H1 H2. cbn [fst snd]. rewrite !assoc_set_prop_ne by congruence. reflexivity.
  - exists []. eexists. rewrite appended_nil. split; [reflexivity |].
    intros name H1 H2. apply assoc_set_prop_ne. congruence.
  - exists [], k. rewrite appended_nil. split; [reflexivity |]. reflexivity.
Qed.

Lemma revoke_accepted (keyName : string) (keyData : json) (isDryRun : bool)
  (s3Providers : list s3Provider) (now : Z) (t : text)
  (w : world) (r : Delete.deleteResults) (k : list (string * json)) :
  kv_get (hd "" (split "-key-" keyName)) (api_endpoints w) = Some t ->
  missing (Some t) = false ->
  accepts (http E (S (List.length (trace w))) "DELETE" (delete_url t keyName)) ->
  exists evs k',
    Delete.revoke c E keyName keyData isDryRun s3Providers now (w, (r, k))
    = (Ret tt,
       (mkWorld
          (kv_put keyName (JsonText (JObj (tombstone_of E keyData now))) (access_keys w))
          (api_endpoints w) (state w)
          (KvPut ACCESS_KEYS_NAMESPACE keyName (JsonText (JObj (tombstone_of E keyData now)))
             :: evs ++ trace w),
        (r, set_prop "currentlyConnected" JNull
              (set_prop "deletionTime" (JStr (toISOString E now)) k'))))
    /\ In (Fetch "DELETE" (delete_url t keyName)) evs
    /\ (forall name, name <> "s3DeleteStatus" -> name <> "s3DeleteError" ->
                     assoc name k' = assoc name k).
Proof.
  intros Hreg Hthere Haccept. unfold Delete.revoke. cbv zeta.
  set (hostname := hd "" (split "-key-" keyName)) in *.
  assert (Hread : retry c (KV_get E API_ENDPOINTS_NAMESPACE hostname) (w, (r, k))
                  = (Ret (Some t), (appended [KvGet API_ENDPOINTS_NAMESPACE hostname] w, (r, k)))).
  { apply (retry_returns c); [exact attempts |].
    rewrite (KV_get_reliable E reliable). simpl. rewrite Hreg. reflexivity. }
  rewrite (bind_returned _ _ _ _ _ Hread). rewrite Hthere.
  rewrite (bind_returned _ _ _ _ _ (apiEndpointUrl_value t _)).
  assert (Hsend : Delete.sendDeleteRequest E (delete_url t keyName)
                    (appended [KvGet API_ENDPOINTS_NAMESPACE hostname] w, (r, k))
                  = (Ret Delete.Success,
                     (appended [Fetch "DELETE" (delete_url t keyName);
                                KvGet API_ENDPOINTS_NAMESPACE hostname] w, (r, k)))).
  { rewrite sendDeleteRequest_accepted; [reflexivity | exact Haccept]. }
  unfold delete_url in Hsend at 1.
  rewrite (bind_returned _ _ _ _ _ Hsend).
  match goal with
  | |- context [bind (if ?g then _ else if ?p then _ else _) _] =>
      destruct (s3_cleanup_returns g p isDryRun s3Providers
                  (nullish (get_prop "s3Paths" keyData))
                  (appended [Fetch "DELETE" (delete_url t keyName);
                             KvGet API_ENDPOINTS_NAMESPACE hostname] w) r k)
        as [evs [k' [Hclean Hkeep]]]
  end.
  rewrite (bind_returned _ _ _ _ _ Hclean). rewrite appended_app.
  set (w2 := appended _ w).
  set (record := JsonText (JObj _)).
  assert (Hput : retry c (KV_put E ACCESS_KEYS_NAMESPACE keyName record) (w2, (r, k'))
                 = (Ret tt, (set_store ACCESS_KEYS_NAMESPACE
                               (kv_put keyName record (store ACCESS_KEYS_NAMESPACE w2))
                               (record_event (KvPut ACCESS_KEYS_NAMESPACE keyName record) w2),
                             (r, k')))).
  { apply (retry_returns c); [exact attempts |]. apply KV_put_reliable, reliable. }
  rewrite (bind_returned _ _ _ _ _ Hput).
  exists (evs ++ [Fetch "DELETE" (delete_url t keyName); KvGet API_ENDPOINTS_NAMESPACE hostname]), k'.
  split; [| split; [| exact Hkeep]].
  - unfold bind, set_info, modify_report. cbn [fst snd]. subst w2 record.
    unfold tombstone_of. simpl. rewrite <- !app_assoc. reflexivity.
  - apply in_or_app. right. left. reflexivity.
Qed.

End RevocationSuccess.

Section Tombstones.
Context (c : constants) (E : env).

Lemma tombstone_keeps (keyData : json) (now : Z) (name : string) :
  name <> "deletionTime" -> name <> "currentlyConnected" ->
  get_prop name (JObj (tombstone_of E keyData now)) = assoc name (spread keyData).
Proof.
  intros H1 H2. unfold tombstone_of. simpl.
  rewrite !assoc_set_prop_ne by congruence. reflexivity.
Qed.

(** A credential selected on a real run whose backend accepts the delete
    request: the request is sent, the tombstone stored, the entry
    reported. *)
Lemma processKeyForDeletion_revokes (keyName : string) (keyData : json)
  (s3Providers : list s3Provider) (t : text) (w : world) (r : Delete.deleteResults) :
  (0 < MAX_RETRIES c)%Z ->
  (forall n, kv_error E n = None) ->
  Delete.shouldDelete c E (clock E (List.length (trace w))) keyData = true ->
  kv_get (hd "" (split "-key-" keyName)) (api_endpoints w) = Some t ->
  missing (Some t) = false ->
  accepts (http E (S (List.length (trace w))) "DELETE" (delete_url t keyName)) ->
  exists w' keyInfo evs,
    Delete.processKeyForDeletion c E keyName keyData false s3Providers (w, r)
    = (Ret tt, (w', Delete.mkResults (Delete.processedKeys r ++ [JObj keyInfo])
                      (Delete.errors r) (Delete.nextCursor r)))
    /\ stored keyName w'
       = Some (JsonText (JObj (tombstone_of E keyData (clock E (List.length (trace w))))))
    /\ (forall key, key <> keyName -> stored key w' = stored key w)
    /\ api_endpoints w' = api_endpoints w /\ state w' = state w
    /\ trace w'
       = KvPut ACCESS_KEYS_NAMESPACE keyName
           (JsonText (JObj (tombstone_of E keyData (clock E (List.length (trace w))))))
         :: evs ++ trace w
    /\ In (Fetch "DELETE" (delete_url t keyName)) evs
    /\ assoc "key" keyInfo = Some (JStr keyName)
    /\ assoc "status" keyInfo = Some (JStr "Deleted")
    /\ assoc "deletionTime" keyInfo
       = Some (JStr (toISOString E (clock E (List.length (trace w)))))
    /\ assoc "currentlyConnected" keyInfo = Some JNull.
Proof.
  intros Hpos Hrel Hsel Hreg Hthere Haccept.
  assert (Hnn : keyData <> JNull).
  { intros ->. unfold Delete.shouldDelete in Hsel. simpl in Hsel. discriminate. }
  unfold Delete.processKeyForDeletion.
  assert (Hnow : now (R := Delete.deleteResults) E (w, r)
                 = (Ret (clock E (List.length (trace w))), (w, r))) by reflexivity.
  rewrite (bind_returned _ _ _ _ _ Hnow).
  rewrite (bind_returned _ _ _ _ _ (member_not_null _ _ _ Hnn)).
  rewrite Hsel. cbn [negb].
  set (now0 := clock E (List.length (trace w))).
  set (k0 := Delete.keyInfo_of c E keyName keyData now0).
  set (days := toFixed2 (Delete.daysSinceLastSeen now0 (Date_of E (get_prop "lastSeen" keyData)))).
  set (k1 := set_prop "reason"
               (JStr ("Last seen " +:+ days +:+ " days ago (> " +:+
                      pretty (EXPIRATION_DAYS c) +:+ " days), not currently connected"))
               (set_prop "status" (JStr "Deleted") k0)).
  destruct (revoke_accepted c E Hpos Hrel keyName keyData false s3Providers now0 t w r k1
              Hreg Hthere Haccept) as [evs [k' [Hrevoke [Hsent Hkeep]]]].
  eexists. eexists. exists evs.
  split; [| split; [| split; [| split; [| split; [| split; [| split]]]]]].
  - unfold with_local, bind at 1. cbn [fst snd].
    unfold bind at 1, set_info at 1, modify_report at 1. cbn [fst snd].
    unfold bind at 1, set_info at 1, modify_report at 1. cbn [fst snd].
    fold days. fold k1. unfold try_catch. rewrite Hrevoke. reflexivity.
  - unfold stored. cbn [access_keys]. apply kv_get_put_same.
  - intros key Hne. unfold stored. cbn [access_keys]. apply kv_get_put_other, Hne.
  - reflexivity.
  - reflexivity.
  - reflexivity.
  - exact Hsent.
  - assert (Hkey : assoc "key" k0 = Some (JStr keyName)) by reflexivity.
    split; [| split; [| split]].
    + rewrite !assoc_set_prop_ne by discriminate. rewrite Hkeep by discriminate.
      unfold k1. rewrite !assoc_set_prop_ne by discriminate. exact Hkey.
    + rewrite !assoc_set_prop_ne by discriminate. rewrite Hkeep by discriminate.
      unfold k1. rewrite assoc_set_prop_ne by discriminate. apply assoc_set_prop_eq.
    + rewrite assoc_set_prop_ne by discriminate. apply assoc_set_prop_eq.
    + apply assoc_set_prop_eq.
Qed.

(** X7. A successful revocation.  With a reliable KV store and at least
    one attempt per request, for a credential selected for deletion on a
    real run, whose backend is in the registry and accepts the delete
    request: the scanner sends that request, then stores the tombstone (the
    record with [deletionTime] set to the time of the scan and
    [currentlyConnected] to [null]) under the same key, leaves every other
    record, the registry and the state store as they were, and reports the
    entry with status "Deleted" and the same [deletionTime], whatever the
    S3 clean-up does. *)
Theorem revocation_writes_tombstone (keyName : string) (keyData : json)
  (s3Providers : list s3Provider) (t : text) (w : world) (r : Delete.deleteResults) :
  (0 < MAX_RETRIES c)%Z ->
  (forall n, kv_error E n = None) ->
  Delete.shouldDelete c E (clock E (List.length (trace w))) keyData = true ->
  kv_get (hd "" (split "-key-" keyName)) (api_endpoints w) = Some t ->
  missing (Some t) = false ->
  accepts (http E (S (List.length (trace w))) "DELETE" (delete_url t keyName)) ->
  exists w' keyInfo evs,
    Delete.processKeyForDeletion c E keyName keyData false s3Providers (w, r)
    = (Ret tt, (w', Delete.mkResults (Delete.processedKeys r ++ [JObj keyInfo])
                      (Delete.errors r) (Delete.nextCursor r)))
    /\ stored keyName w'
       = Some (JsonText (JObj (tombstone_of E keyData (clock E (List.length (trace w))))))
    /\ (forall key, key <> keyName -> stored key w' = stored key w)
    /\ api_endpoints w' = api_endpoints w /\ state w' = state w
    /\ trace w'
       = KvPut ACCESS_KEYS_NAMESPACE keyName
           (JsonText (JObj (tombstone_of E keyData (clock E (List.length (trace w))))))
         :: evs ++ trace w
    /\ In (Fetch "DELETE" (delete_url t keyName)) evs
    /\ assoc "key" keyInfo = Some (JStr keyName)
    /\ assoc "status" keyInfo = Some (JStr "Deleted")
    /\ assoc "deletionTime" keyInfo
       = Some (JStr (toISOString E (clock E (List.length (trace w)))))
    /\ assoc "currentlyConnected" keyInfo = Some JNull.
Proof. apply processKeyForDeletion_revokes. Qed.

(** X8. The scanner does not look at [deletionTime]: the tombstone of a
    credential it has revoked is selected for deletion again by every
    later scan. *)
Theorem tombstone_selected_again (keyData : json) (now now' : Z) :
  Delete.shouldDelete c E now keyData = true ->
  (now <= now')%Z ->
  Delete.shouldDelete c E now' (JObj (tombstone_of E keyData now)) = true.
Proof.
  intros Hsel Hle. apply (shouldDelete_iff c E) in Hsel. apply (shouldDelete_iff c E).
  destruct Hsel as [[seen [Hseen Hlt]] _]. split.
  - exists seen. split; [| lia].
    rewrite tombstone_keeps by discriminate.
    destruct keyData; simpl in Hseen |- *; try discriminate. exact Hseen.
  - unfold tombstone_of. simpl. rewrite assoc_set_prop_eq. reflexivity.
Qed.

End Tombstones.

(** ** The revocation decision at work *)

Section RevocationDecision.
Context (c : constants) (E : env).

(** C3. The deletion decision of the revocation scanner is the predicate
    "daysSinceLastSeen = (now - lastSeen) / 86400 s exceeds expirationDays
    and currentlyConnected is not true": a credential idle for 91 days
    with expirationDays = 90 and currentlyConnected = false is selected, a
    credential with currentlyConnected = true never is.  The scanner acts
    on the decision.  A credential that is not selected, or any credential
    on a dry run, is reported ("Not deleted", "Would delete") without a
    request being sent.  A credential that is selected on a real run is
    deleted: given a reliable KV store and a registered backend that
    accepts the request, the scanner sends the delete request to the
    backend, stores the tombstone under the key of the credential and
    reports it as "Deleted". *)
Theorem revocation_decision (now : Z) (keyData : json) :
  tri_state (get_prop "currentlyConnected" keyData) ->
  (Delete.shouldDelete c E now keyData = true <->
   (exists t days,
       Date_of E (get_prop "lastSeen" keyData) = Some t
       /\ Delete.daysSinceLastSeen now (Some t) = Some days
       /\ days == inject_Z (now - t) / inject_Z 86400000
       /\ inject_Z (EXPIRATION_DAYS c) < days)%Q
   /\ get_prop "currentlyConnected" keyData <> Some (JBool true))
  /\ (forall t,
        EXPIRATION_DAYS c = 90%Z ->
        Date_of E (get_prop "lastSeen" keyData) = Some t ->
        (now - t = 91 * 86400000)%Z ->
        get_prop "currentlyConnected" keyData = Some (JBool false) ->
        Delete.shouldDelete c E now keyData = true)
  /\ (get_prop "currentlyConnected" keyData = Some (JBool true) ->
      Delete.shouldDelete c E now keyData = false)
  /\ (forall keyName isDryRun s3Providers w r,
        keyData <> JNull ->
        now = clock E (List.length (trace w)) ->
        Delete.shouldDelete c E now keyData = false \/ isDryRun = true ->
        exists keyInfo,
          Delete.processKeyForDeletion c E keyName keyData isDryRun s3Providers (w, r)
          = (Ret tt, (w, Delete.mkResults (Delete.processedKeys r ++ [JObj keyInfo])
                           (Delete.errors r) (Delete.nextCursor r)))
          /\ assoc "status" keyInfo
             = Some (JStr (if Delete.shouldDelete c E now keyData
                           then "Would delete" else "Not deleted")))
  /\ (forall keyName s3Providers t w r,
        (0 < MAX_RETRIES c)%Z ->
        (forall n, kv_error E n = None) ->
        now = clock E (List.length (trace w)) ->
        Delete.shouldDelete c E now keyData = true ->
        kv_get (hd "" (split "-key-" keyName)) (api_endpoints w) = Some t ->
        missing (Some t) = false ->
        accepts (http E (S (List.length (trace w))) "DELETE" (delete_url t keyName)) ->
        exists w' keyInfo evs,
          Delete.processKeyForDeletion c E keyName keyData false s3Providers (w, r)
          = (Ret tt, (w', Delete.mkResults (Delete.processedKeys r ++ [JObj keyInfo])
                            (Delete.errors r) (Delete.nextCursor r)))
          /\ trace w'
             = KvPut ACCESS_KEYS_NAMESPACE keyName
                 (JsonText (JObj (tombstone_of E keyData now)))
               :: evs ++ trace w
          /\ In (Fetch "DELETE" (delete_url t keyName)) evs
          /\ stored keyName w' = Some (JsonText (JObj (tombstone_of E keyData now)))
          /\ assoc "status" keyInfo = Some (JStr "Deleted")).
Proof.
  intros Htri. split; [| split; [| split; [| split]]].
  - rewrite shouldDelete_iff, (tri_state_falsy _ Htri). split.
    + intros [[t [Ht Hlt]] Hcc]. split; [| exact Hcc].
      exists t, (inject_Z (now - t) / inject_Z (1000 * 60 * 60 * 24))%Q.
      repeat split; try assumption; try reflexivity.
      unfold Qlt, Qdiv, Qmult, Qinv, inject_Z. simpl. lia.
    + intros [[t [days [Ht [Hd [_ Hlt]]]]] Hcc]. split; [| exact Hcc].
      exists t. split; [exact Ht |].
      injection Hd as <-.
      unfold Qlt, Qdiv, Qmult, Qinv, inject_Z in Hlt. simpl in Hlt. lia.
  - intros t Hexp Ht Hidle Hcc. apply shouldDelete_iff. split.
    + exists t. split; [exact Ht | lia].
    + rewrite Hcc. reflexivity.
  - intros Hcc. unfold Delete.shouldDelete. rewrite Hcc. simpl.
    apply andb_false_r.
  - intros keyName isDryRun s3Providers w r Hnn -> Hcase.
    destruct (processKeyForDeletion_reports c E keyName keyData isDryRun s3Providers w r
                Hnn Hcase) as [keyInfo [Hrun [_ Hstatus]]].
    exists keyInfo. split; assumption.
  - intros keyName s3Providers t w r Hpos Hrel -> Hsel Hreg Hthere Haccept.
    destruct (processKeyForDeletion_revokes c E keyName keyData s3Providers t w r
                Hpos Hrel Hsel Hreg Hthere Haccept)
      as [w' [keyInfo [evs [Hrun [Hstored [_ [_ [_ [Htrace [Hsent [_ [Hstatus _]]]]]]]]]]]].
    exists w', keyInfo, evs. repeat split; assumption.
Qed.

End RevocationDecision.

(** ** Scans that end *)

(** The keys of a namespace are in strictly increasing order, as a KV
    namespace lists them. *)
Fixpoint ordered (l : list string) : bool :=
  match l with
  | [] => true
  | k :: l' => forallb (String.ltb k) l' && ordered l'
  end.

(** Overwriting the value of a key leaves the keys as they are. *)
Lemma kv_put_keys {V} (k : string) (v : V) (ns : kv V) :
  ordered (map fst ns) = true -> In k (map fst ns) ->
  map fst (kv_put k v ns) = map fst ns.
Proof.
  induction ns as [| [k0 v0] ns IH]; simpl; [contradiction |].
  intros Hord Hin. apply andb_true_iff in Hord as [Hhead Hord].
  destruct (String.eqb k0 k) eqn:H0.
  - apply String.eqb_eq in H0. subst k0. reflexivity.
  - destruct Hin as [Heq | Hin]; [subst k0; rewrite String.eqb_refl in H0; discriminate |].
    assert (Hlt : String.ltb k0 k = true).
    { rewrite forallb_forall in Hhead. apply Hhead, Hin. }
    destruct (String.ltb k k0) eqn:Hgt.
    + pose proof (ltb_trans _ _ _ Hlt Hgt) as Habs. rewrite ltb_irrefl in Habs. discriminate.
    + simpl. rewrite (IH Hord Hin). reflexivity.
Qed.

(** The run has ended (within the bounds of its paging loops) in a world
    that has the property [P]; a computation that does so from every
    world that has it. *)
Definition kept {R A} (P : world -> Prop) (x : outcome A * (world * R)) : Prop :=
  result_of x <> OutOfFuel /\ P (world_of x).

Definition steady {R A} (P : world -> Prop) (m : M R A) : Prop :=
  forall s, P (fst s) -> kept P (m s).

Section Steady.
Context (P : world -> Prop).
Hypothesis stable : forall ev w, P w -> P (record_event ev w).
Context {R : Type}.

Lemma steady_ret {A} (a : A) : steady P (@ret R A a).
Proof. intros s H. split; [discriminate | exact H]. Qed.

Lemma steady_throw {A} (e : exn) : steady P (@throw R A e).
Proof. intros s H. split; [discriminate | exact H]. Qed.

Lemma steady_bind {A B} (m : M R A) (k : A -> M R B) :
  steady P m -> (forall a, steady P (k a)) -> steady P (bind m k).
Proof.
  intros Hm Hk s H. unfold bind. specialize (Hm s H).
  destruct (m s) as [[a | e |] s']; destruct Hm as [Hends HP].
  - apply (Hk a s'), HP.
  - split; [discriminate | exact HP].
  - contradiction.
Qed.

Lemma steady_try_catch {A} (m : M R A) (h : exn -> M R A) :
  steady P m -> (forall e, steady P (h e)) -> steady P (try_catch m h).
Proof.
  intros Hm Hh s H. unfold try_catch. specialize (Hm s H).
  destruct (m s) as [[a | e |] s']; destruct Hm as [Hends HP].
  - split; [discriminate | exact HP].
  - apply (Hh e s'), HP.
  - contradiction.
Qed.

Lemma steady_retry_from {A} (fn : M R A) (n : nat) (e : exn) :
  steady P fn -> steady P (retry_from fn n e).
Proof.
  intros Hfn. revert e. induction n as [| n IH]; intros e; simpl.
  - apply steady_throw.
  - apply steady_try_catch; [exact Hfn | exact IH].
Qed.

Lemma steady_retry {A} (c : constants) (fn : M R A) : steady P fn -> steady P (retry c fn).
Proof. apply steady_retry_from. Qed.

Lemma steady_modify_report (f : R -> R) : steady P (modify_report f).
Proof. intros s H. split; [discriminate | exact H]. Qed.

Lemma steady_get_report : steady P (@get_report R).
Proof. intros s H. split; [discriminate | exact H]. Qed.

Lemma steady_get_world : steady P (@get_world R).
Proof. intros s H. split; [discriminate | exact H]. Qed.

Lemma steady_message_of (e : exn) : steady P (@message_of R e).
Proof. destruct e; [apply steady_ret | apply steady_throw]. Qed.

Lemma steady_member (name : string) (x : option json) : steady P (@member R name x).
Proof. destruct x as [[]|]; first [apply steady_ret | apply steady_throw]. Qed.

Lemma steady_JSON_parse (t : option text) : steady P (@JSON_parse R t).
Proof. destruct t as [[]|]; first [apply steady_ret | apply steady_throw]. Qed.

Lemma steady_now (E : env) : steady P (@now R E).
Proof. intros s H. split; [discriminate | exact H]. Qed.

Lemma steady_KV_get (E : env) (ns : namespace) (k : string) : steady P (@KV_get R E ns k).
Proof.
  intros s H. unfold KV_get, kv_request, kept, result_of, world_of.
  destruct (kv_error E (List.length (trace (fst s)))); simpl;
    (split; [discriminate | apply stable, H]).
Qed.

Lemma steady_KV_list (E : env) (ns : namespace) (pfx cur : option string) (limit : Z) :
  steady P (@KV_list R E ns pfx cur limit).
Proof.
  intros s H. unfold KV_list, kv_request, kept, result_of, world_of.
  destruct (kv_error E (List.length (trace (fst s)))); simpl;
    [split; [discriminate | apply stable, H] |].
  pose proof (settled_kv_list pfx cur limit
                (store ns (record_event (KvList ns pfx cur limit) (fst s)))) as Hset.
  destruct (kv_list pfx cur limit _) as [lr | [msg |] |]; try contradiction; simpl;
    (split; [discriminate | apply stable, H]).
Qed.

Lemma steady_KV_put (E : env) (ns : namespace) (k : string) (v : text) :
  (forall w, P w -> P (set_store ns (kv_put k v (store ns w)) w)) ->
  steady P (@KV_put R E ns k v).
Proof.
  intros Hput s H. unfold KV_put, kv_request, kept, result_of, world_of.
  destruct (kv_error E (List.length (trace (fst s)))); simpl;
    [split; [discriminate | apply stable, H] |].
  split; [discriminate | apply Hput, stable, H].
Qed.

Lemma steady_KV_delete (E : env) (ns : namespace) (k : string) :
  (forall w, P w -> P (set_store ns (kv_delete k (store ns w)) w)) ->
  steady P (@KV_delete R E ns k).
Proof.
  intros Hdel s H. unfold KV_delete, kv_request, kept, result_of, world_of.
  destruct (kv_error E (List.length (trace (fst s)))); simpl;
    [split; [discriminate | apply stable, H] |].
  split; [discriminate | apply Hdel, stable, H].
Qed.

Lemma steady_fetch (E : env) (method url : string) : steady P (@fetch R E method url).
Proof.
  intros s H. unfold fetch, kept, result_of, world_of.
  destruct (http E (List.length (trace (fst s))) method url); simpl;
    (split; [discriminate | apply stable, H]).
Qed.

Lemma steady_scoped {A} (m : M R A) : steady P m -> steady P (scoped m).
Proof.
  intros Hm s H. unfold scoped. specialize (Hm s H).
  destruct (m s) as [o s']. exact Hm.
Qed.

Lemma steady_verifyAuth (request : option headers) (token : string) :
  steady P (@verifyAuth R request token).
Proof. destruct request; [apply steady_ret | apply steady_throw]. Qed.

End Steady.

Lemma steady_with_local {R L A} (P : world -> Prop) (l0 : L) (m : M (R * L) A) :
  steady P m -> steady P (@with_local R L A l0 m).
Proof.
  intros Hm s H. unfold with_local. specialize (Hm (fst s, (snd s, l0)) H).
  destruct (m (fst s, (snd s, l0))) as [[a | e |] [w [r l]]]; destruct Hm as [Hends HP].
  - split; [discriminate | exact HP].
  - split; [discriminate | exact HP].
  - contradiction.
Qed.

(** One step of a proof that a computation is steady; [stable] and the
    side conditions of the writes are taken from the context. *)
Ltac steady_step :=
  lazymatch goal with
  | |- steady _ (bind _ _) => apply steady_bind; [| intros ?]
  | |- steady _ (try_catch _ _) => apply steady_try_catch; [| intros ?]
  | |- steady _ (retry _ _) => apply steady_retry
  | |- steady _ (scoped _) => apply steady_scoped
  | |- steady _ (with_local _ _) => apply steady_with_local
  | |- steady _ (ret _) => apply steady_ret
  | |- steady _ (throw _) => apply steady_throw
  | |- steady _ (modify_report _) => apply steady_modify_report
  | |- steady _ (set_report _) => apply steady_modify_report
  | |- steady _ (set_info _ _) => apply steady_modify_report
  | |- steady _ get_report => apply steady_get_report
  | |- steady _ get_world => apply steady_get_world
  | |- steady _ (message_of _) => apply steady_message_of
  | |- steady _ (member _ _) => apply steady_member
  | |- steady _ (JSON_parse _) => apply steady_JSON_parse
  | |- steady _ (now _) => apply steady_now
  | |- steady _ (KV_get _ _ _) => apply steady_KV_get; assumption
  | |- steady _ (KV_list _ _ _ _ _) => apply steady_KV_list; assumption
  | |- steady _ (KV_put _ _ _ _) => apply steady_KV_put; [assumption | auto]
  | |- steady _ (KV_delete _ _ _) => apply steady_KV_delete; [assumption | auto]
  | |- steady _ (fetch _ _ _) => apply steady_fetch; assumption
  | |- steady _ (verifyAuth _ _) => apply steady_verifyAuth
  | |- steady _ (if ?b then _ else _) => destruct b
  | |- steady _ (match ?x with _ => _ end) => destruct x
  end.

Ltac steady_tac := repeat steady_step.

Section DeleteEnds.
Context (c : constants) (E : env) (parsedS3Providers : list s3Provider).

Section Invariant.
Context (P : world -> Prop).
Hypothesis stable : forall ev w, P w -> P (record_event ev w).

Lemma steady_deletePromises {R} (providers : list s3Provider) (s3Urls : list json) :
  steady P (@Delete.deletePromises E R providers s3Urls).
Proof.
  induction s3Urls as [| url s3Urls IH]; simpl; [apply steady_ret |].
  destruct url; try (apply steady_bind; [exact IH | intros rs; apply steady_ret]).
  apply steady_bind; [| intros r; apply steady_bind; [exact IH | intros rs; apply steady_ret]].
  unfold Delete.deleteFromS3. steady_tac.
Qed.

Lemma steady_processKeyForDeletion (keyName : string) (keyData : json)
  (isDryRun : bool) (s3Providers : list s3Provider) :
  (forall v w, P w ->
     P (set_store ACCESS_KEYS_NAMESPACE (kv_put keyName v (access_keys w)) w)) ->
  steady P (Delete.processKeyForDeletion c E keyName keyData isDryRun s3Providers).
Proof.
  intros Hput.
  unfold Delete.processKeyForDeletion, Delete.revoke, Delete.sendDeleteRequest,
    Delete.deleteFromMultipleS3, Delete.push_processed.
  repeat first [apply steady_deletePromises | steady_step].
Qed.

Lemma steady_processKeys_loop (keys : list string) (isDryRun : bool)
  (targetServer : option string) (s3Providers : list s3Provider) :
  (forall k v w, P w -> P (set_store ACCESS_KEYS_NAMESPACE (kv_put k v (access_keys w)) w)) ->
  steady P (Delete.processKeys_loop c E keys isDryRun targetServer s3Providers).
Proof.
  intros Hput. induction keys as [| key keys IH]; simpl; [apply steady_ret |].
  apply steady_bind; [| intros _; exact IH].
  unfold Delete.push_error.
  repeat first [apply steady_processKeyForDeletion; exact (Hput key) | steady_step].
Qed.

Lemma steady_server_page (page : list string) (targetServer : string) (isDryRun : bool)
  (s3Providers : list s3Provider) (pageCursor : option string) (processedCount : Z) :
  (forall k, In k page ->
     forall v w, P w -> P (set_store ACCESS_KEYS_NAMESPACE (kv_put k v (access_keys w)) w)) ->
  steady P (Delete.server_page c E page targetServer isDryRun s3Providers pageCursor
              processedCount).
Proof.
  revert processedCount. induction page as [| key page IH]; intros n Hput; simpl.
  - apply steady_ret.
  - apply steady_bind.
    + unfold Delete.push_error.
      repeat first [apply steady_processKeyForDeletion; apply Hput; left; reflexivity
                   | steady_step].
    + intros n'. destruct (MAX_KEYS_PER_RUN c <=? n')%Z.
      * unfold Delete.set_nextCursor. steady_tac.
      * apply IH. intros k Hk. apply Hput. right. exact Hk.
Qed.

End Invariant.

(** The credential store holds exactly the keys [K]. *)
Definition keys_are (K : list string) (w : world) : Prop := map fst (access_keys w) = K.

Lemma keys_are_stable (K : list string) (ev : event) (w : world) :
  keys_are K w -> keys_are K (record_event ev w).
Proof. intros H. exact H. Qed.

Lemma keys_are_put (K : list string) (k : string) (v : text) (w : world) :
  ordered K = true -> In k K -> keys_are K w ->
  keys_are K (set_store ACCESS_KEYS_NAMESPACE (kv_put k v (access_keys w)) w).
Proof.
  unfold keys_are. intros Hord Hin H. simpl. subst K. apply kv_put_keys; assumption.
Qed.

Section ServerScan.
Context (K : list string).
Hypothesis sorted : ordered K = true.

Lemma server_paging_ends (targetServer : string) (isDryRun : bool)
  (s3Providers : list s3Provider) (fuel off : nat) (cursor : option string)
  (processedCount : Z) (w : world) (r : Delete.deleteResults) :
  let matching := List.filter (fun k => String.prefix (targetServer +:+ "-key-") k) K in
  keys_are K w -> cursor_at off cursor ->
  (off <= List.length matching < fuel + off)%nat ->
  kept (keys_are K)
    (Delete.server_paging c E fuel targetServer isDryRun s3Providers cursor
       processedCount (w, r)).
Proof.
  intros matching. revert off cursor processedCount w r.
  induction fuel as [| fuel IH]; intros off cur n w r HK Hcur Hfuel; [lia |].
  cbn [Delete.server_paging]. unfold bind at 1, retry.
  set (limit := Z.min (MAX_KEYS_PER_RUN c - n) 1000).
  pose proof (retry_from_list E ACCESS_KEYS_NAMESPACE (Some (targetServer +:+ "-key-")) cur
                limit (Z.to_nat (MAX_RETRIES c)) Undefined w r) as Hlist.
  destruct (retry_from (KV_list E ACCESS_KEYS_NAMESPACE (Some (targetServer +:+ "-key-")) cur
                          limit) (Z.to_nat (MAX_RETRIES c)) Undefined (w, r))
    as [[lr | e |] [w1 r1]]; [| | contradiction].
  - destruct Hlist as [Hl [-> Hstore]].
    assert (HK1 : keys_are K w1) by (unfold keys_are; simpl in Hstore; rewrite Hstore; exact HK).
    destruct (kv_list_bounds _ _ _ _ _ Hl) as [Hlimit _].
    rewrite (kv_list_page _ _ off _ _ Hcur Hlimit) in Hl. cbv zeta in Hl.
    cbn [store] in Hl. unfold keys_are in HK. rewrite HK in Hl. fold matching in Hl.
    injection Hl as <-. cbn [keys list_cursor].
    assert (Hpage : forall k, In k (firstn (Z.to_nat limit) (skipn off matching)) -> In k K).
    { intros k Hk. apply In_segment in Hk. unfold matching in Hk.
      apply filter_In in Hk. exact (proj1 Hk). }
    destruct (steady_server_page (keys_are K) (keys_are_stable K)
                (firstn (Z.to_nat limit) (skipn off matching)) targetServer isDryRun
                s3Providers
                (match skipn (off + Z.to_nat limit) matching with
                 | [] => None
                 | _ => Some (encode_cursor (off + Z.to_nat limit))
                 end) n
                (fun k Hk v w0 => keys_are_put K k v w0 sorted (Hpage k Hk)) (w1, r) HK1)
      as [Hends HK2].
    unfold result_of, world_of in Hends, HK2. unfold bind at 1.
    destruct (Delete.server_page c E _ targetServer isDryRun s3Providers _ n (w1, r))
      as [[[returned n'] | e |] [w2 r2]]; cbn [fst snd] in *;
      [| split; [discriminate | exact HK2] | contradiction].
    destruct returned; [split; [simpl; discriminate | exact HK2] |].
    destruct (skipn (off + Z.to_nat limit) matching) as [| k rest] eqn:Hrest;
      [split; [simpl; discriminate | exact HK2] |].
    assert (Hmore : (off + Z.to_nat limit < List.length matching)%nat).
    { apply skipn_nil_length. rewrite Hrest. discriminate. }
    assert (Hne : nonempty (Some (encode_cursor (off + Z.to_nat limit))) = true).
    { simpl. apply negb_true_iff, String.eqb_neq. intros Habs.
      pose proof (decode_encode_cursor (off + Z.to_nat limit)) as Hd.
      rewrite Habs in Hd. discriminate. }
    rewrite Hne.
    apply (IH (off + Z.to_nat limit)%nat); [exact HK2 | right; reflexivity | lia].
  - destruct Hlist as [-> [Hstore _]]. split; [discriminate |].
    unfold keys_are, world_of. simpl in Hstore |- *. rewrite Hstore. exact HK.
Qed.

Lemma steady_processKeysForServer (targetServer : string) (isDryRun : bool)
  (s3Providers : list s3Provider) :
  steady (keys_are K) (Delete.processKeysForServer c E targetServer isDryRun s3Providers).
Proof.
  intros [w r] HK. unfold Delete.processKeysForServer, scoped, set_report, modify_report,
    get_world, bind at 1, bind at 1. cbn [fst snd].
  destruct (server_paging_ends targetServer isDryRun s3Providers
              (S (List.length (access_keys w))) 0 None 0 w Delete.empty HK)
    as [Hends HK'].
  { left. split; reflexivity. }
  { pose proof (List.filter_length_le
                  (fun k => String.prefix (targetServer +:+ "-key-") k) K) as Hle.
    assert (Hlen : List.length K = List.length (access_keys w))
      by (rewrite <- HK; apply List.length_map).
    lia. }
  unfold bind.
  destruct (Delete.server_paging c E _ targetServer isDryRun s3Providers None 0
              (w, Delete.empty)) as [[[] | e |] [w' r']];
    [split; [discriminate | exact HK'] | split; [discriminate | exact HK'] | contradiction].
Qed.

Lemma steady_delete_hostnames_loop (hostnames : list string) (isDryRun : bool)
  (s3Providers : list s3Provider) (startHostname currentCursor : option string)
  (globalKeyCount : Z) :
  steady (keys_are K)
    (Delete.hostnames_loop c E hostnames isDryRun s3Providers startHostname currentCursor
       globalKeyCount).
Proof.
  pose proof (keys_are_stable K) as stable.
  revert startHostname currentCursor globalKeyCount.
  induction hostnames as [| hostname hostnames IH]; intros sh cur g; simpl.
  - apply steady_ret.
  - destruct (nonempty sh && negb (String.eqb hostname (template_str sh))); [apply IH |].
    apply steady_bind; [| intros [cur' g' |]; [apply IH | apply steady_ret]].
    unfold Delete.hostname_round, Delete.push_processed, Delete.push_error,
      Delete.set_nextCursor, iterable.
    repeat first [apply steady_processKeysForServer | steady_step].
Qed.

End ServerScan.

(** The three scans of the entry point end. *)
Lemma delete_scan_ends (isDryRun : bool) (targetServer targetKey : option string)
  (s3Providers : list s3Provider) (w : world) (r : Delete.deleteResults) :
  ordered (map fst (access_keys w)) = true ->
  result_of
    ((if nonempty targetKey
      then Delete.processKeys c E [template_str targetKey] isDryRun targetServer s3Providers
      else if nonempty targetServer
      then Delete.processKeysForServer c E (template_str targetServer) isDryRun s3Providers
      else
        let* startCursor := retry c (KV_get E STATE_NAMESPACE Delete.DELETE_CURSOR_KEY) in
        let* deleteResults :=
          Delete.processAllKeys c E isDryRun (option_map raw startCursor) s3Providers in
        run (if isDryRun then ret tt
             else if nonempty (Delete.nextCursor deleteResults)
             then retry c (KV_put E STATE_NAMESPACE Delete.DELETE_CURSOR_KEY
                             (PlainText (template_str (Delete.nextCursor deleteResults))))
             else retry c (KV_delete E STATE_NAMESPACE Delete.DELETE_CURSOR_KEY)) then
        ret deleteResults) (w, r))
  <> OutOfFuel.
Proof.
  intros Hord. destruct (nonempty targetKey).
  - assert (Hs : steady (fun _ => True)
                   (Delete.processKeys c E [template_str targetKey] isDryRun targetServer
                      s3Providers)).
    { assert (stable : forall (ev : event) (w0 : world), True -> True) by auto.
      unfold Delete.processKeys.
      repeat first [apply steady_processKeys_loop; auto | steady_step]. }
    exact (proj1 (Hs (w, r) I)).
  - set (K := map fst (access_keys w)) in *.
    pose proof (keys_are_stable K) as stable.
    assert (HK : keys_are K w) by reflexivity.
    destruct (nonempty targetServer).
    + exact (proj1 (steady_processKeysForServer K Hord _ isDryRun s3Providers (w, r) HK)).
    + match goal with
      | |- result_of (?m _) <> _ => assert (Hs : steady (keys_are K) m)
      end.
      { unfold Delete.processAllKeys.
        repeat first [apply (steady_delete_hostnames_loop K Hord) | steady_step]. }
      exact (proj1 (Hs (w, r) HK)).
Qed.

(** The scan of all backends, as the entry point runs it, reports no
    cursor. *)
Lemma delete_scan_cursor (isDryRun : bool) (s3Providers : list s3Provider)
  (s s' : world * Delete.deleteResults) (results : Delete.deleteResults) :
  (let* startCursor := retry c (KV_get E STATE_NAMESPACE Delete.DELETE_CURSOR_KEY) in
   let* deleteResults :=
     Delete.processAllKeys c E isDryRun (option_map raw startCursor) s3Providers in
   run (if isDryRun then ret tt
        else if nonempty (Delete.nextCursor deleteResults)
        then retry c (KV_put E STATE_NAMESPACE Delete.DELETE_CURSOR_KEY
                        (PlainText (template_str (Delete.nextCursor deleteResults))))
        else retry c (KV_delete E STATE_NAMESPACE Delete.DELETE_CURSOR_KEY)) then
   ret deleteResults) s = (Ret results, s') ->
  Delete.nextCursor results = None.
Proof.
  unfold bind at 1.
  destruct (retry c (KV_get E STATE_NAMESPACE Delete.DELETE_CURSOR_KEY) s)
    as [[startCursor | e |] s1]; [| discriminate | discriminate].
  unfold bind at 1.
  destruct (Delete.processAllKeys c E isDryRun (option_map raw startCursor) s3Providers s1)
    as [[deleteResults | e |] s2] eqn:Hscan; [| discriminate | discriminate].
  apply processAllKeys_no_cursor in Hscan.
  unfold bind.
  destruct ((if isDryRun then ret tt
             else if nonempty (Delete.nextCursor deleteResults)
             then retry c (KV_put E STATE_NAMESPACE Delete.DELETE_CURSOR_KEY
                             (PlainText (template_str (Delete.nextCursor deleteResults))))
             else retry c (KV_delete E STATE_NAMESPACE Delete.DELETE_CURSOR_KEY)) s2)
    as [[[] | e |] s3]; [| discriminate | discriminate].
  unfold ret. intros H. injection H as <- _. exact Hscan.
Qed.

(** X9. The revocation entry point always answers a request it can be
    given (a request with headers, or the cron trigger).  Whatever the KV
    namespaces, the backends and the S3 providers reply, for a credential
    store listed in key order the handler returns a response: the report
    with status 200, 401 for a request that is not authorised (nothing is
    sent then), or 500 for the error that ended the scan.  Every scan
    ends: the targeted one, the scan of one backend and the scan of all
    backends; and the report of a scan of all backends never carries a
    cursor (reading [processedKeys.errors] throws before it is set). *)
Theorem revocation_always_answers (request : option headers) (isCronTriggered : bool)
  (w : world) (r : Delete.deleteResults) :
  ordered (map fst (access_keys w)) = true ->
  request <> None \/ isCronTriggered = true ->
  exists reply s',
    Delete.handleRequest c E parsedS3Providers request isCronTriggered (w, r)
    = (Ret reply, s')
    /\ match reply with
       | Delete.Report status results _ targetServer targetKey _ =>
           status = 200%Z
           /\ (targetServer = None -> targetKey = None -> Delete.nextCursor results = None)
       | Delete.Failure status error details =>
           (status = 401%Z /\ error = "Unauthorized" /\ details = None
            /\ isCronTriggered = false /\ s' = (w, r))
           \/ (status = 500%Z /\ error = "Error deleting access keys")
       end.
Proof.
  intros Hord Hreq. unfold Delete.handleRequest.
  assert (Hauth : exists b,
             (if isCronTriggered then ret true else verifyAuth request (AUTH_TOKEN c)) (w, r)
             = (Ret b, (w, r)) /\ (b = false -> isCronTriggered = false)).
  { destruct isCronTriggered; [exists true; split; [reflexivity | discriminate] |].
    destruct request as [h |]; [| destruct Hreq; [contradiction | discriminate]].
    eexists. split; [reflexivity | reflexivity]. }
  destruct Hauth as [b [Hauth Hcron]].
  rewrite (bind_returned _ _ _ _ _ Hauth).
  destruct b; cbn [negb].
  - unfold try_catch, bind at 1.
    set (isDryRun := match request with
                     | Some h => match header "X-Dry-Run" h with
                                 | Some v => negb (String.eqb v "false")
                                 | None => true
                                 end
                     | None => DELETE_DRY_RUN c
                     end).
    set (targetServer := match request with
                         | Some h => header "X-Target-Server" h
                         | None => None
                         end).
    set (targetKey := match request with Some h => header "X-Target-Key" h | None => None end).
    set (s3Providers := if DELETE_S3_OBJECTS c then parsedS3Providers else []).
    pose proof (delete_scan_ends isDryRun targetServer targetKey s3Providers w r Hord)
      as Hends.
    unfold result_of in Hends.
    pose proof (delete_scan_cursor isDryRun s3Providers (w, r)) as Hcursor.
    destruct (nonempty targetKey) eqn:Hkey; [| destruct (nonempty targetServer) eqn:Hserver].
    + clear Hcursor.
      destruct (Delete.processKeys c E [template_str targetKey] isDryRun targetServer
                  s3Providers (w, r)) as [[results | e |] s1]; cbn [fst] in Hends.
      * eexists. eexists. split; [reflexivity |]. split; [reflexivity |].
        intros _ Hnone. rewrite Hnone in Hkey. discriminate.
      * eexists. eexists. split; [reflexivity |]. right. split; reflexivity.
      * contradiction.
    + clear Hcursor.
      destruct (Delete.processKeysForServer c E (template_str targetServer) isDryRun
                  s3Providers (w, r)) as [[results | e |] s1]; cbn [fst] in Hends.
      * eexists. eexists. split; [reflexivity |]. split; [reflexivity |].
        intros Hnone _. rewrite Hnone in Hserver. discriminate.
      * eexists. eexists. split; [reflexivity |]. right. split; reflexivity.
      * contradiction.
    + match type of Hends with
      | fst (?scan ?s) <> _ => destruct (scan s) as [[results | e |] s1]
      end; cbn [fst] in Hends.
      * eexists. eexists. split; [reflexivity |]. split; [reflexivity |].
        intros _ _. exact (Hcursor s1 results eq_refl).
      * eexists. eexists. split; [reflexivity |]. right. split; reflexivity.
      * contradiction.
  - eexists. eexists. split; [reflexivity |]. left.
    split; [reflexivity |]. split; [reflexivity |]. split; [reflexivity |].
    split; [exact (Hcron eq_refl) | reflexivity].
Qed.

End DeleteEnds.

(** ** What a computation leaves in the report *)

(** The computation leaves the part [f] of the report as it was. *)
Definition unchanged {R X A} (f : R -> X) (m : M R A) : Prop :=
  forall s, f (report_of (m s)) = f (snd s).

Section Unchanged.
Context {R X : Type} (f : R -> X).

Lemma unchanged_ret {A} (a : A) : unchanged f (@ret R A a).
Proof. intros s. reflexivity. Qed.

Lemma unchanged_throw {A} (e : exn) : unchanged f (@throw R A e).
Proof. intros s. reflexivity. Qed.

Lemma unchanged_bind {A B} (m : M R A) (k : A -> M R B) :
  unchanged f m -> (forall a, unchanged f (k a)) -> unchanged f (bind m k).
Proof.
  intros Hm Hk s. unfold bind, report_of. specialize (Hm s). unfold report_of in Hm.
  destruct (m s) as [[a | e |] s']; simpl in *; try exact Hm.
  rewrite <- Hm. apply (Hk a s').
Qed.

Lemma unchanged_try_catch {A} (m : M R A) (h : exn -> M R A) :
  unchanged f m -> (forall e, unchanged f (h e)) -> unchanged f (try_catch m h).
Proof.
  intros Hm Hh s. unfold try_catch, report_of. specialize (Hm s). unfold report_of in Hm.
  destruct (m s) as [[a | e |] s']; simpl in *; try exact Hm.
  rewrite <- Hm. apply (Hh e s').
Qed.

Lemma unchanged_retry_from {A} (fn : M R A) (n : nat) (e : exn) :
  unchanged f fn -> unchanged f (retry_from fn n e).
Proof.
  intros Hfn. revert e. induction n as [| n IH]; intros e; simpl.
  - apply unchanged_throw.
  - apply unchanged_try_catch; [exact Hfn | exact IH].
Qed.

Lemma unchanged_retry {A} (c : constants) (fn : M R A) :
  unchanged f fn -> unchanged f (retry c fn).
Proof. apply unchanged_retry_from. Qed.

Lemma unchanged_modify_report (g : R -> R) :
  (forall r, f (g r) = f r) -> unchanged f (modify_report g).
Proof. intros Hg s. apply Hg. Qed.

Lemma unchanged_get_report : unchanged f (@get_report R).
Proof. intros s. reflexivity. Qed.

Lemma unchanged_get_world : unchanged f (@get_world R).
Proof. intros s. reflexivity. Qed.

Lemma unchanged_message_of (e : exn) : unchanged f (@message_of R e).
Proof. destruct e; [apply unchanged_ret | apply unchanged_throw]. Qed.

Lemma unchanged_member (name : string) (x : option json) : unchanged f (@member R name x).
Proof. destruct x as [[]|]; first [apply unchanged_ret | apply unchanged_throw]. Qed.

Lemma unchanged_JSON_parse (t : option text) : unchanged f (@JSON_parse R t).
Proof. destruct t as [[]|]; first [apply unchanged_ret | apply unchanged_throw]. Qed.

Lemma unchanged_now (E : env) : unchanged f (@now R E).
Proof. intros s. reflexivity. Qed.

Lemma unchanged_kv_request {A} (E : env) (ev : event) (reply : world -> outcome A * world) :
  unchanged f (@kv_request R A E ev reply).
Proof.
  intros s. unfold kv_request, report_of.
  destruct (kv_error E (List.length (trace (fst s)))); [reflexivity |].
  destruct (reply (record_event ev (fst s))). reflexivity.
Qed.

Lemma unchanged_fetch (E : env) (method url : string) : unchanged f (@fetch R E method url).
Proof.
  intros s. unfold fetch, report_of.
  destruct (http E (List.length (trace (fst s))) method url); reflexivity.
Qed.

Lemma unchanged_scoped {A} (m : M R A) : unchanged f (scoped m).
Proof. intros s. unfold scoped, report_of. destruct (m s). reflexivity. Qed.

Lemma unchanged_verifyAuth (request : option headers) (token : string) :
  unchanged f (@verifyAuth R request token).
Proof. destruct request; [apply unchanged_ret | apply unchanged_throw]. Qed.

Lemma unchanged_with_local {L A} (l0 : L) (m : M (R * L) A) :
  unchanged (fun s => f (fst s)) m -> unchanged f (with_local l0 m).
Proof.
  intros Hm s. unfold with_local, report_of. specialize (Hm (fst s, (snd s, l0))).
  unfold report_of in Hm.
  destruct (m (fst s, (snd s, l0))) as [[a | e |] [w [r l]]]; exact Hm.
Qed.

End Unchanged.

Ltac unchanged_step :=
  lazymatch goal with
  | |- unchanged _ (bind _ _) => apply unchanged_bind; [| intros ?]
  | |- unchanged _ (try_catch _ _) => apply unchanged_try_catch; [| intros ?]
  | |- unchanged _ (retry _ _) => apply unchanged_retry
  | |- unchanged _ (scoped _) => apply unchanged_scoped
  | |- unchanged _ (with_local _ _) => apply unchanged_with_local
  | |- unchanged _ (ret _) => apply unchanged_ret
  | |- unchanged _ (throw _) => apply unchanged_throw
  | |- unchanged _ (modify_report _) => apply unchanged_modify_report; intros ?; reflexivity
  | |- unchanged _ (set_info _ _) => apply unchanged_modify_report; intros ?; reflexivity
  | |- unchanged _ get_report => apply unchanged_get_report
  | |- unchanged _ get_world => apply unchanged_get_world
  | |- unchanged _ (message_of _) => apply unchanged_message_of
  | |- unchanged _ (member _ _) => apply unchanged_member
  | |- unchanged _ (JSON_parse _) => apply unchanged_JSON_parse
  | |- unchanged _ (now _) => apply unchanged_now
  | |- unchanged _ (KV_get _ _ _) => apply unchanged_kv_request
  | |- unchanged _ (KV_list _ _ _ _ _) => apply unchanged_kv_request
  | |- unchanged _ (KV_put _ _ _ _) => apply unchanged_kv_request
  | |- unchanged _ (KV_delete _ _ _) => apply unchanged_kv_request
  | |- unchanged _ (fetch _ _ _) => apply unchanged_fetch
  | |- unchanged _ (verifyAuth _ _) => apply unchanged_verifyAuth
  | |- unchanged _ (if ?b then _ else _) => destruct b
  | |- unchanged _ (match ?x with _ => _ end) => destruct x
  end.

Ltac unchanged_tac := repeat unchanged_step.

Section ServerBudget.
Context (c : constants) (E : env).

Lemma unchanged_deletePromises {R X} (f : R -> X) (providers : list s3Provider)
  (s3Urls : list json) :
  unchanged f (@Delete.deletePromises E R providers s3Urls).
Proof.
  induction s3Urls as [| url s3Urls IH]; simpl; [apply unchanged_ret |].
  destruct url; try (apply unchanged_bind; [exact IH | intros rs; apply unchanged_ret]).
  apply unchanged_bind;
    [| intros r; apply unchanged_bind; [exact IH | intros rs; apply unchanged_ret]].
  unfold Delete.deleteFromS3. unchanged_tac.
Qed.

(** The entry a pass over one credential adds to the report. *)
Definition reported (r : Delete.deleteResults) (entry : json) : Delete.deleteResults :=
  Delete.mkResults (Delete.processedKeys r ++ [entry]) (Delete.errors r)
    (Delete.nextCursor r).

(** A pass over one credential adds exactly one entry to the report when
    it returns, and nothing when it throws. *)
Lemma processKeyForDeletion_entry (keyName : string) (keyData : json) (isDryRun : bool)
  (s3Providers : list s3Provider) (w : world) (r : Delete.deleteResults) :
  match Delete.processKeyForDeletion c E keyName keyData isDryRun s3Providers (w, r) with
  | (Ret _, (_, r')) => exists entry, r' = reported r entry
  | (Throw _, (_, r')) => r' = r
  | (OutOfFuel, _) => False
  end.
Proof.
  unfold Delete.processKeyForDeletion.
  unfold bind at 1, now. cbn [fst snd].
  unfold bind at 1.
  destruct (member "lastSeen" (Some keyData) (w, r)) as [[x | e |] [w0 r0]] eqn:Hm.
  - assert (Hs : (w0, r0) = (w, r)).
    { unfold member in Hm. destruct keyData; inversion Hm; reflexivity. }
    injection Hs as -> ->.
    unfold bind at 1.
    match goal with
    | |- context [with_local ?l0 ?body (w, r)] =>
        assert (Hu : unchanged (fun r : Delete.deleteResults => r) (with_local l0 body));
        [| assert (He : result_of (with_local l0 body (w, r)) <> OutOfFuel);
           [| specialize (Hu (w, r)); unfold report_of, result_of in Hu, He;
              destruct (with_local l0 body (w, r)) as [[keyInfo | e |] [w1 r1]] ]]
    end.
    + unfold Delete.revoke, Delete.sendDeleteRequest, Delete.deleteFromMultipleS3.
      repeat first [apply unchanged_deletePromises | unchanged_step].
    + assert (stable : forall (ev : event) (w0 : world), True -> True) by auto.
      assert (Hs : steady (fun _ => True)
                     (Delete.processKeyForDeletion c E keyName keyData isDryRun s3Providers)).
      { apply steady_processKeyForDeletion; auto. }
      intros Habs. apply (proj1 (Hs (w, r) I)).
      unfold Delete.processKeyForDeletion, result_of, bind at 1, now. cbn [fst snd].
      unfold bind at 1. rewrite Hm. unfold bind at 1.
      unfold result_of in Habs.
      destruct (with_local _ _ (w, r)) as [[keyInfo | e |] [w1 r1]]; try discriminate.
      reflexivity.
    + cbn [fst snd] in Hu. subst r1. eexists. reflexivity.
    + cbn [fst snd] in Hu. exact Hu.
    + cbn [fst] in He. contradiction.
  - unfold member in Hm. destruct keyData; inversion Hm; reflexivity.
  - unfold member in Hm. destruct keyData; inversion Hm.
Qed.

(** The pass of the scan of one backend over one listed key: the count
    goes up by one with the entry, or stays with the report's entries as
    they were. *)
Lemma server_key_step (key : string) (isDryRun : bool) (s3Providers : list s3Provider)
  (processedCount : Z) (w : world) (r : Delete.deleteResults) :
  match
    try_catch
      (let* t := KV_get E ACCESS_KEYS_NAMESPACE key in
       let* keyData := JSON_parse t in
       run Delete.processKeyForDeletion c E key keyData isDryRun s3Providers then
       ret (processedCount + 1)%Z)
      (fun error =>
         let* m := message_of error in
         run Delete.push_error ["Error processing key " +:+ key +:+ ": " +:+ m] then
         ret processedCount) (w, r)
  with
  | (Ret n, (_, r')) =>
      (n = (processedCount + 1)%Z /\ exists entry, r' = reported r entry)
      \/ (n = processedCount /\ Delete.processedKeys r' = Delete.processedKeys r
          /\ Delete.nextCursor r' = Delete.nextCursor r)
  | (Throw _, _) => True
  | (OutOfFuel, _) => False
  end.
Proof.
  assert (Hcatch : forall e w1,
            match
              (let* m := message_of e in
               run Delete.push_error ["Error processing key " +:+ key +:+ ": " +:+ m] then
               ret processedCount) (w1, r)
            with
            | (Ret n, (_, r')) =>
                (n = (processedCount + 1)%Z /\ exists entry, r' = reported r entry)
                \/ (n = processedCount /\ Delete.processedKeys r' = Delete.processedKeys r
                    /\ Delete.nextCursor r' = Delete.nextCursor r)
            | (Throw _, _) => True
            | (OutOfFuel, _) => False
            end).
  { intros [m |] w1; [| exact I]. right. repeat split. }
  unfold try_catch, bind at 1.
  assert (Hget : unchanged (fun x : Delete.deleteResults => x)
                   (KV_get E ACCESS_KEYS_NAMESPACE key)) by apply unchanged_kv_request.
  specialize (Hget (w, r)).
  pose proof (proj1 (steady_KV_get (fun _ => True) (fun _ _ _ => I) E ACCESS_KEYS_NAMESPACE key
                       (w, r) I)) as Hgot.
  unfold report_of, result_of in Hget, Hgot.
  destruct (KV_get E ACCESS_KEYS_NAMESPACE key (w, r)) as [[t | e |] [w1 r1]];
    cbn [fst snd] in Hget, Hgot; subst r1; [| apply Hcatch | contradiction].
  unfold bind at 1.
  destruct (JSON_parse t (w1, r)) as [[keyData | e |] [w2 r2]] eqn:Hparse.
  - assert (Hs : (w2, r2) = (w1, r)).
    { unfold JSON_parse in Hparse. destruct t as [[] |]; inversion Hparse; reflexivity. }
    injection Hs as -> ->.
    unfold bind at 1.
    pose proof (processKeyForDeletion_entry key keyData isDryRun s3Providers w1 r) as Hentry.
    destruct (Delete.processKeyForDeletion c E key keyData isDryRun s3Providers (w1, r))
      as [[[] | e |] [w3 r3]]; [| | contradiction].
    + left. split; [reflexivity | exact Hentry].
    + subst r3. apply Hcatch.
  - assert (Hs : (w2, r2) = (w1, r)).
    { unfold JSON_parse in Hparse. destruct t as [[] |]; inversion Hparse; reflexivity. }
    injection Hs as -> ->. apply Hcatch.
  - unfold JSON_parse in Hparse. destruct t as [[] |]; inversion Hparse.
Qed.

Lemma server_page_counts (page : list string) (targetServer : string) (isDryRun : bool)
  (s3Providers : list s3Provider) (pageCursor : option string) (processedCount : Z)
  (w : world) (r : Delete.deleteResults) :
  Z.of_nat (List.length (Delete.processedKeys r)) = processedCount ->
  (processedCount < MAX_KEYS_PER_RUN c)%Z ->
  match Delete.server_page c E page targetServer isDryRun s3Providers pageCursor
          processedCount (w, r) with
  | (Ret (returned, n), (_, r')) =>
      Z.of_nat (List.length (Delete.processedKeys r')) = n
      /\ if returned
         then n = MAX_KEYS_PER_RUN c /\ Delete.nextCursor r' <> None
         else (n < MAX_KEYS_PER_RUN c)%Z /\ Delete.nextCursor r' = Delete.nextCursor r
  | (Throw _, _) => True
  | (OutOfFuel, _) => False
  end.
Proof.
  revert processedCount w r. induction page as [| key page IH]; intros n w r Hn Hlt.
  - simpl. split; [exact Hn |]. split; [exact Hlt | reflexivity].
  - cbn [Delete.server_page]. unfold bind at 1.
    pose proof (server_key_step key isDryRun s3Providers n w r) as Hstep.
    destruct (try_catch _ _ (w, r)) as [[n1 | e |] [w1 r1]]; [| exact I | contradiction].
    assert (Hn1 : Z.of_nat (List.length (Delete.processedKeys r1)) = n1
                  /\ (n1 <= MAX_KEYS_PER_RUN c)%Z
                  /\ Delete.nextCursor r1 = Delete.nextCursor r).
    { destruct Hstep as [[-> [entry ->]] | [-> [Hkeys Hcur]]].
      - unfold reported. simpl. rewrite List.length_app. simpl.
        split; [lia |]. split; [lia | reflexivity].
      - rewrite Hkeys. split; [exact Hn |]. split; [lia | exact Hcur]. }
    destruct Hn1 as [Hlen [Hle Hcur]].
    destruct (MAX_KEYS_PER_RUN c <=? n1)%Z eqn:Hmax.
    + apply Z.leb_le in Hmax. simpl. split; [exact Hlen |]. split; [lia | discriminate].
    + apply Z.leb_gt in Hmax. specialize (IH n1 w1 r1 Hlen Hmax).
      destruct (Delete.server_page c E page targetServer isDryRun s3Providers pageCursor n1
                  (w1, r1)) as [[[returned n2] | e |] [w2 r2]]; [| exact I | contradiction].
      destruct IH as [Hlen2 Hret]. split; [exact Hlen2 |].
      destruct returned; [exact Hret |]. rewrite <- Hcur. exact Hret.
Qed.

Lemma server_paging_counts (targetServer : string) (isDryRun : bool)
  (s3Providers : list s3Provider) (fuel : nat) (cursor : option string)
  (processedCount : Z) (w : world) (r : Delete.deleteResults) :
  Z.of_nat (List.length (Delete.processedKeys r)) = processedCount ->
  Delete.nextCursor r = None ->
  match Delete.server_paging c E fuel targetServer isDryRun s3Providers cursor
          processedCount (w, r) with
  | (Ret _, (_, r')) =>
      (Z.of_nat (List.length (Delete.processedKeys r')) <= MAX_KEYS_PER_RUN c)%Z
      /\ (0 < MAX_KEYS_PER_RUN c)%Z
      /\ (Delete.nextCursor r' <> None ->
          Z.of_nat (List.length (Delete.processedKeys r')) = MAX_KEYS_PER_RUN c)
  | (_, _) => True
  end.
Proof.
  revert cursor processedCount w r.
  induction fuel as [| fuel IH]; intros cur n w r Hn Hnone; [exact I |].
  cbn [Delete.server_paging]. unfold bind at 1, retry.
  set (limit := Z.min (MAX_KEYS_PER_RUN c - n) 1000).
  pose proof (retry_from_list E ACCESS_KEYS_NAMESPACE (Some (targetServer +:+ "-key-")) cur
                limit (Z.to_nat (MAX_RETRIES c)) Undefined w r) as Hlist.
  destruct (retry_from (KV_list E ACCESS_KEYS_NAMESPACE (Some (targetServer +:+ "-key-")) cur
                          limit) (Z.to_nat (MAX_RETRIES c)) Undefined (w, r))
    as [[lr | e |] [w1 r1]]; [| exact I | exact I].
  destruct Hlist as [Hl [-> _]].
  destruct (kv_list_bounds _ _ _ _ _ Hl) as [Hlimit _].
  assert (Hlt : (n < MAX_KEYS_PER_RUN c)%Z) by lia.
  assert (Hn0 : (0 <= n)%Z) by lia.
  pose proof (server_page_counts (keys lr) targetServer isDryRun s3Providers (list_cursor lr)
                n w1 r Hn Hlt) as Hpage.
  unfold bind at 1.
  destruct (Delete.server_page c E (keys lr) targetServer isDryRun s3Providers
              (list_cursor lr) n (w1, r)) as [[[returned n'] | e |] [w2 r2]];
    [| exact I | exact I].
  destruct Hpage as [Hlen Hret]. destruct returned.
  - destruct Hret as [-> Hcur]. simpl. split; [lia |]. split; [lia |]. intros _. exact Hlen.
  - destruct Hret as [Hlt' Hcur].
    destruct (nonempty (list_cursor lr)).
    + apply IH; [exact Hlen | rewrite Hcur; exact Hnone].
    + simpl. split; [lia |]. split; [lia |]. intros Habs. rewrite Hcur, Hnone in Habs.
      contradiction.
Qed.

(** X10. The scan of one backend respects the budget.  For a credential
    store listed in key order, [processKeysForServer] ends, by returning
    or by throwing; when it returns, the report has at most
    [MAX_KEYS_PER_RUN] entries, and it carries a cursor only when it has
    exactly that many. *)
Theorem server_scan_within_budget (targetServer : string) (isDryRun : bool)
  (s3Providers : list s3Provider) (w : world) (r : Delete.deleteResults) :
  ordered (map fst (access_keys w)) = true ->
  match Delete.processKeysForServer c E targetServer isDryRun s3Providers (w, r) with
  | (Ret results, _) =>
      (Z.of_nat (List.length (Delete.processedKeys results)) <= MAX_KEYS_PER_RUN c)%Z
      /\ (Delete.nextCursor results <> None ->
          Z.of_nat (List.length (Delete.processedKeys results)) = MAX_KEYS_PER_RUN c)
  | (Throw _, _) => True
  | (OutOfFuel, _) => False
  end.
Proof.
  intros Hord.
  assert (Hends : kept (keys_are (map fst (access_keys w)))
                    (Delete.server_paging c E (S (List.length (access_keys w))) targetServer
                       isDryRun s3Providers None 0 (w, Delete.empty))).
  { apply (server_paging_ends c E _ Hord targetServer isDryRun s3Providers
             (S (List.length (access_keys w))) 0 None 0 w Delete.empty eq_refl).
    - left. split; reflexivity.
    - pose proof (List.filter_length_le
                    (fun k => String.prefix (targetServer +:+ "-key-") k)
                    (map fst (access_keys w))) as Hle.
      rewrite List.length_map in Hle. lia. }
  apply proj1 in Hends. unfold result_of in Hends.
  pose proof (server_paging_counts targetServer isDryRun s3Providers
                (S (List.length (access_keys w))) None 0 w Delete.empty eq_refl eq_refl)
    as Hcount.
  unfold Delete.processKeysForServer, scoped, set_report, modify_report, get_world,
    bind at 1, bind at 1. cbn [fst snd]. unfold bind.
  destruct (Delete.server_paging c E (S (List.length (access_keys w))) targetServer isDryRun
              s3Providers None 0 (w, Delete.empty)) as [[[] | e |] [w' r']]; cbn [fst snd].
  - destruct Hcount as [Hle [_ Hcur]]. unfold get_report. cbn [fst snd].
    split; [exact Hle | exact Hcur].
  - exact I.
  - apply Hends. reflexivity.
Qed.

End ServerBudget.

(** ** The budget of a revocation scan *)

Section RevocationScan.
Context (c : constants) (E : env) (K : list string).
Hypothesis sorted : ordered K = true.

(** The scan of one backend, as a round of the scan of all backends sees
    it: the keys of the store are kept, the report of the caller is not
    touched, and the result holds no more entries than the budget. *)
Lemma server_scan_counts (targetServer : string) (isDryRun : bool)
  (s3Providers : list s3Provider) (w : world) (r : Delete.deleteResults) :
  keys_are K w ->
  match Delete.processKeysForServer c E targetServer isDryRun s3Providers (w, r) with
  | (Ret results, (w', r')) =>
      keys_are K w' /\ r' = r
      /\ (Z.of_nat (List.length (Delete.processedKeys results)) <= MAX_KEYS_PER_RUN c)%Z
  | (Throw _, (w', r')) => keys_are K w' /\ r' = r
  | (OutOfFuel, _) => False
  end.
Proof.
  intros HK.
  assert (Hends : kept (keys_are K)
                    (Delete.server_paging c E (S (List.length (access_keys w))) targetServer
                       isDryRun s3Providers None 0 (w, Delete.empty))).
  { apply (server_paging_ends c E K sorted targetServer isDryRun s3Providers
             (S (List.length (access_keys w))) 0 None 0 w Delete.empty HK).
    - left. split; reflexivity.
    - pose proof (List.filter_length_le
                    (fun k => String.prefix (targetServer +:+ "-key-") k) K) as Hle.
      assert (Hlen : List.length K = List.length (access_keys w))
        by (rewrite <- HK; apply List.length_map).
      lia. }
  destruct Hends as [Hends HK']. unfold result_of, world_of in Hends, HK'.
  pose proof (server_paging_counts c E targetServer isDryRun s3Providers
                (S (List.length (access_keys w))) None 0 w Delete.empty eq_refl eq_refl)
    as Hcount.
  unfold Delete.processKeysForServer, scoped, set_report, modify_report, get_world,
    bind at 1, bind at 1. cbn [fst snd]. unfold bind.
  destruct (Delete.server_paging c E (S (List.length (access_keys w))) targetServer isDryRun
              s3Providers None 0 (w, Delete.empty)) as [[[] | e |] [w' r']];
    cbn [fst snd] in *.
  - unfold get_report. cbn [fst snd]. split; [exact HK' |]. split; [reflexivity |].
    exact (proj1 Hcount).
  - split; [exact HK' | reflexivity].
  - apply Hends. reflexivity.
Qed.

(** The report [r'] holds at most [n] processed entries more than [r]. *)
Definition grown_by (n : Z) (r r' : Delete.deleteResults) : Prop :=
  (Z.of_nat (List.length (Delete.processedKeys r'))
   <= Z.of_nat (List.length (Delete.processedKeys r)) + n)%Z.

(** One round of the scan of all backends adds at most the budget to the
    report, and never ends the loop. *)
Lemma delete_round_counts (hostname : string) (isDryRun : bool)
  (s3Providers : list s3Provider) (currentCursor : option string) (globalKeyCount : Z)
  (w : world) (r : Delete.deleteResults) :
  keys_are K w ->
  match Delete.hostname_round c E hostname isDryRun s3Providers currentCursor globalKeyCount
          (w, r) with
  | (Ret (Delete.Next _ _), (w', r')) | (Throw _, (w', r')) =>
      keys_are K w' /\ grown_by (Z.max 0 (MAX_KEYS_PER_RUN c)) r r'
  | (Ret Delete.Break, _) | (OutOfFuel, _) => False
  end.
Proof.
  intros HK. unfold Delete.hostname_round, try_catch, bind at 1.
  pose proof (server_scan_counts hostname isDryRun s3Providers w r HK) as Hscan.
  destruct (Delete.processKeysForServer c E hostname isDryRun s3Providers (w, r))
    as [[results | [m |] |] [w1 r1]]; [| | | contradiction].
  - destruct Hscan as [HK1 [-> Hle]]. simpl. split; [exact HK1 |].
    unfold grown_by. simpl. rewrite List.length_app. lia.
  - destruct Hscan as [HK1 ->]. simpl. split; [exact HK1 |]. unfold grown_by. simpl. lia.
  - destruct Hscan as [HK1 ->]. simpl. split; [exact HK1 |]. unfold grown_by. lia.
Qed.

Lemma delete_hostnames_loop_counts (hostnames : list string) (isDryRun : bool)
  (s3Providers : list s3Provider) (startHostname currentCursor : option string)
  (globalKeyCount : Z) (w : world) (r : Delete.deleteResults) :
  keys_are K w ->
  match Delete.hostnames_loop c E hostnames isDryRun s3Providers startHostname currentCursor
          globalKeyCount (w, r) with
  | (OutOfFuel, _) => False
  | (_, (w', r')) =>
      grown_by (Z.max 0 (MAX_KEYS_PER_RUN c) * Z.of_nat (List.length hostnames)) r r'
  end.
Proof.
  revert startHostname currentCursor globalKeyCount w r.
  induction hostnames as [| hostname hostnames IH]; intros sh cur g w r HK.
  - simpl. unfold grown_by. lia.
  - cbn [Delete.hostnames_loop].
    assert (Hmore : forall r' : Delete.deleteResults,
              grown_by (Z.max 0 (MAX_KEYS_PER_RUN c) * Z.of_nat (List.length hostnames)) r r' ->
              grown_by (Z.max 0 (MAX_KEYS_PER_RUN c)
                        * Z.of_nat (List.length (hostname :: hostnames))) r r').
    { intros r'. unfold grown_by. cbn [List.length]. nia. }
    destruct (nonempty sh && negb (String.eqb hostname (template_str sh))).
    + specialize (IH sh cur g w r HK).
      destruct (Delete.hostnames_loop c E hostnames isDryRun s3Providers sh cur g (w, r))
        as [[[] | e |] [w' r']]; [apply Hmore, IH | apply Hmore, IH | exact IH].
    + unfold bind at 1.
      pose proof (delete_round_counts hostname isDryRun s3Providers cur g w r HK) as Hround.
      destruct (Delete.hostname_round c E hostname isDryRun s3Providers cur g (w, r))
        as [[[cur' g' |] | e |] [w1 r1]]; try contradiction.
      * destruct Hround as [HK1 Hg1].
        specialize (IH None cur' g' w1 r1 HK1).
        destruct (Delete.hostnames_loop c E hostnames isDryRun s3Providers None cur' g'
                    (w1, r1)) as [[[] | e |] [w' r']]; [| | exact IH];
          unfold grown_by in *; cbn [List.length]; nia.
      * destruct Hround as [_ Hg1]. unfold grown_by in *. cbn [List.length]. nia.
Qed.

(** X18. What the revocation scan of all backends does respect.  For a
    credential store listed in key order, [processAllKeys] ends; when it
    returns, the report holds at most [MAX_KEYS_PER_RUN] entries for each
    backend of the registry, not [MAX_KEYS_PER_RUN] in all: the count of
    the scan is never added up, so the scan goes through every backend
    from the one it starts at. *)
Theorem revocation_scan_budget_is_per_backend (isDryRun : bool)
  (startCursor : option string) (s3Providers : list s3Provider) (w : world)
  (r : Delete.deleteResults) :
  keys_are K w ->
  match Delete.processAllKeys c E isDryRun startCursor s3Providers (w, r) with
  | (Ret results, _) =>
      (Z.of_nat (List.length (Delete.processedKeys results))
       <= Z.max 0 (MAX_KEYS_PER_RUN c) * Z.of_nat (List.length (api_endpoints w)))%Z
      /\ Delete.nextCursor results = None
  | (Throw _, _) => True
  | (OutOfFuel, _) => False
  end.
Proof.
  intros HK.
  unfold Delete.processAllKeys, scoped, set_report, modify_report, bind at 1.
  cbn [fst snd]. unfold bind at 1, retry.
  pose proof (retry_from_list E API_ENDPOINTS_NAMESPACE None None 1000
                (Z.to_nat (MAX_RETRIES c)) Undefined w Delete.empty) as Hlist.
  pose proof (steady_retry_from (keys_are K)
                (KV_list E API_ENDPOINTS_NAMESPACE None None 1000)
                (Z.to_nat (MAX_RETRIES c)) Undefined
                (steady_KV_list (keys_are K) (keys_are_stable K) E API_ENDPOINTS_NAMESPACE
                   None None 1000)
                (w, Delete.empty) HK) as Hkept.
  destruct (retry_from (KV_list E API_ENDPOINTS_NAMESPACE None None 1000)
              (Z.to_nat (MAX_RETRIES c)) Undefined (w, Delete.empty))
    as [[hostnames | e |] [w1 r1]]; [| exact I | contradiction].
  destruct Hlist as [Hl [-> _]]. destruct Hkept as [_ HK1].
  unfold world_of in HK1. cbn [fst snd] in HK1.
  assert (Hlen : (List.length (keys hostnames) <= List.length (api_endpoints w))%nat).
  { rewrite (kv_list_page None None 0 1000) in Hl by (first [left; split; reflexivity | lia]).
    cbv zeta in Hl. injection Hl as <-. cbn [keys store].
    rewrite filter_all.
    change (skipn 0 (map fst (api_endpoints w))) with (map fst (api_endpoints w)).
    rewrite List.length_firstn, List.length_map. apply Nat.le_min_r. }
  unfold bind at 1.
  match goal with
  | |- context [Delete.hostnames_loop c E ?hs isDryRun s3Providers ?sh ?cur 0 ?s0] =>
      pose proof (delete_hostnames_loop_counts hs isDryRun s3Providers sh cur 0 w1
                    Delete.empty HK1) as Hcount;
      pose proof (delete_hostnames_loop_cursor c E hs isDryRun s3Providers sh cur 0
                    (w1, Delete.empty)) as Hcursor;
      unfold report_of in Hcursor;
      destruct (Delete.hostnames_loop c E hs isDryRun s3Providers sh cur 0 s0)
        as [[[] | e |] [w2 r2]]
  end; [| exact I | contradiction].
  cbn [fst snd get_report] in *. unfold grown_by in Hcount. cbn in Hcount.
  split; [nia | exact Hcursor].
Qed.

End RevocationScan.

(** ** Requests that are refused *)

Section Refusals.
Context (c : constants) (E : env).

(** X11. A request whose [Authorization] header is not exactly
    [Bearer <AUTH_TOKEN>] (or is missing) is answered 401 by the three
    management endpoints, and nothing is sent or changed: no KV request,
    no HTTP request, the report untouched. *)
Theorem unauthorized_requests_are_refused (C : calendar) (parsedS3Providers : list s3Provider)
  (h : headers) (w : world) :
  header "Authorization" h <> Some ("Bearer " +:+ AUTH_TOKEN c) ->
  (forall r, Update.handleRequest c E (Some h) false (w, r)
             = (Ret (Update.Failure 401 "Unauthorized" None), (w, r)))
  /\ (forall r, Delete.handleRequest c E parsedS3Providers (Some h) false (w, r)
                = (Ret (Delete.Failure 401 "Unauthorized" None), (w, r)))
  /\ (forall r, Listing.handleRequest c E C (Some h) (w, r)
                = (Ret (Listing.Failure 401 "Unauthorized" None), (w, r))).
Proof.
  intros Hauth. split; [| split]; intros r.
  - unfold Update.handleRequest.
    rewrite (bind_returned _ _ _ _ _ (verifyAuth_rejects h (AUTH_TOKEN c) (w, r) Hauth)).
    reflexivity.
  - unfold Delete.handleRequest.
    rewrite (bind_returned _ _ _ _ _ (verifyAuth_rejects h (AUTH_TOKEN c) (w, r) Hauth)).
    reflexivity.
  - unfold Listing.handleRequest.
    rewrite (bind_returned _ _ _ _ _ (verifyAuth_rejects h (AUTH_TOKEN c) (w, r) Hauth)).
    reflexivity.
Qed.

(** X12. A targeted revocation checks its key before it revokes.  A key
    that does not start with [<X-Target-Server>-key-] is reported as an
    error without any request; a key that is not in the credential store
    (or holds an empty text) is reported as not found after the one read
    of it, when that read succeeds.  Neither reaches a backend. *)
Theorem targeted_revocation_checks_the_key (key : string) (targetServer : option string)
  (isDryRun : bool) (s3Providers : list s3Provider) (w : world) (r : Delete.deleteResults) :
  (0 < MAX_RETRIES c)%Z -> kv_error E (List.length (trace w)) = None ->
  (nonempty targetServer = true ->
   String.prefix (template_str targetServer +:+ "-key-") key = false ->
   Delete.processKeys c E [key] isDryRun targetServer s3Providers (w, r)
   = (Ret (Delete.mkResults []
             ["Key " +:+ key +:+ " does not match target server " +:+
              template_str targetServer] None), (w, r)))
  /\ (nonempty targetServer = false
      \/ String.prefix (template_str targetServer +:+ "-key-") key = true ->
      missing (stored key w) = true ->
      Delete.processKeys c E [key] isDryRun targetServer s3Providers (w, r)
      = (Ret (Delete.mkResults [] ["Key not found: " +:+ key] None),
         (record_event (KvGet ACCESS_KEYS_NAMESPACE key) w, r))).
Proof.
  intros Hpos Hkv. split.
  - intros Hserver Hprefix.
    unfold Delete.processKeys, scoped, set_report, modify_report, bind at 1.
    cbn [fst snd Delete.processKeys_loop]. rewrite Hserver, Hprefix. reflexivity.
  - intros Hmatch Hmissing.
    assert (Hguard : nonempty targetServer
                     && negb (String.prefix (template_str targetServer +:+ "-key-") key)
                     = false).
    { destruct Hmatch as [-> | ->]; [reflexivity | apply andb_false_r]. }
    assert (Hread : forall r0 : Delete.deleteResults,
               retry c (KV_get E ACCESS_KEYS_NAMESPACE key) (w, r0)
               = (Ret (stored key w), (record_event (KvGet ACCESS_KEYS_NAMESPACE key) w, r0))).
    { intros r0. apply (retry_returns c); [exact Hpos |].
      unfold KV_get, kv_request. cbn [fst snd]. rewrite Hkv. reflexivity. }
    unfold Delete.processKeys, scoped, set_report, modify_report, bind at 1.
    cbn [fst snd Delete.processKeys_loop]. rewrite Hguard.
    unfold bind at 1, bind at 1, try_catch. rewrite (bind_returned _ _ _ _ _ (Hread _)).
    rewrite Hmissing. reflexivity.
Qed.

End Refusals.

(** ** Resuming a reconciliation scan *)

Section Resumption.
Context (c : constants) (E : env).

(** Backends other than the one the cursor names are passed over. *)
Lemma update_hostnames_loop_skips (hostnames : list string) (isDryRun : bool)
  (h : string) (currentCursor : option string) (globalKeyCount : Z)
  (s : world * Update.updateResults) :
  h <> "" -> ~ In h hostnames ->
  Update.hostnames_loop c E hostnames isDryRun (Some h) currentCursor globalKeyCount s
  = (Ret tt, s).
Proof.
  intros Hh. induction hostnames as [| hostname hostnames IH]; intros Hnotin; [reflexivity |].
  cbn [Update.hostnames_loop nonempty template_str].
  assert (Hne : String.eqb h "" = false) by (apply String.eqb_neq; exact Hh).
  assert (Hother : String.eqb hostname h = false).
  { apply String.eqb_neq. intros ->. apply Hnotin. left. reflexivity. }
  rewrite Hne, Hother. cbn [negb andb].
  apply IH. intros Hin. apply Hnotin. right. exact Hin.
Qed.

Lemma KV_delete_reliable {R} (ns : namespace) (k : string) (w : world) (r : R) :
  (forall n, kv_error E n = None) ->
  KV_delete E ns k (w, r)
  = (Ret tt, (set_store ns (kv_delete k (store ns w)) (record_event (KvDelete ns k) w), r)).
Proof.
  intros reliable. unfold KV_delete, kv_request. simpl. rewrite reliable.
  rewrite store_record_event. reflexivity.
Qed.

(** X13. A stale cursor ends a scheduled reconciliation at once.  With a
    reliable KV store and at least one attempt per request, when the saved
    cursor names a backend that is no longer in the registry, the scan
    passes over every backend: it reads the cursor and the
    registry, sends nothing else, reports no key and no error, and deletes
    the cursor, so that the next scan starts from the first backend. *)
Theorem stale_cursor_is_dropped (t : text) (h : string) (w : world)
  (r : Update.updateResults) :
  (0 < MAX_RETRIES c)%Z -> (forall n, kv_error E n = None) ->
  kv_get Update.UPDATE_CURSOR_KEY (state w) = Some t ->
  nth_error (split ":" (raw t)) 0 = Some h -> h <> "" ->
  ~ In h (map fst (api_endpoints w)) ->
  Update.handleRequest c E None true (w, r)
  = (Ret (Update.Report 200 Update.empty false None),
     (mkWorld (access_keys w) (api_endpoints w)
        (kv_delete Update.UPDATE_CURSOR_KEY (state w))
        ([KvDelete STATE_NAMESPACE Update.UPDATE_CURSOR_KEY;
          KvList API_ENDPOINTS_NAMESPACE None None 1000;
          KvGet STATE_NAMESPACE Update.UPDATE_CURSOR_KEY] ++ trace w),
      Update.empty)).
Proof.
  intros Hpos Hrel Hcursor Hnth Hh Hnotin.
  assert (Hraw : nonempty (Some (raw t)) = true).
  { simpl. apply negb_true_iff, String.eqb_neq. intros Habs. rewrite Habs in Hnth.
    vm_compute in Hnth. injection Hnth as <-. apply Hh. reflexivity. }
  assert (Hget : retry c (KV_get E STATE_NAMESPACE Update.UPDATE_CURSOR_KEY) (w, r)
                 = (Ret (Some t),
                    (record_event (KvGet STATE_NAMESPACE Update.UPDATE_CURSOR_KEY) w, r))).
  { apply (retry_returns c); [exact Hpos |].
    rewrite (KV_get_reliable E Hrel). cbn [store]. rewrite Hcursor. reflexivity. }
  set (w1 := record_event (KvGet STATE_NAMESPACE Update.UPDATE_CURSOR_KEY) w) in *.
  set (w2 := record_event (KvList API_ENDPOINTS_NAMESPACE None None 1000) w1).
  assert (Hlist : retry c (KV_list E API_ENDPOINTS_NAMESPACE None None 1000)
                    (w1, Update.empty)
                  = (Ret (mkListResult (firstn 1000 (map fst (api_endpoints w)))
                            (match skipn 1000 (map fst (api_endpoints w)) with
                             | [] => None
                             | _ => Some (encode_cursor 1000)
                             end)),
                     (w2, Update.empty))).
  { apply (retry_returns c); [exact Hpos |].
    rewrite (KV_list_reliable E Hrel).
    rewrite (kv_list_page None None 0 1000) by (first [left; split; reflexivity | lia]).
    cbv zeta. rewrite filter_all. reflexivity. }
  assert (Hscan : Update.updateAccessKeys c E false (Some (raw t)) (w1, r)
                  = (Ret Update.empty, (w2, Update.empty))).
  { unfold Update.updateAccessKeys, set_report, modify_report, bind at 1. cbn [fst snd].
    rewrite (bind_returned _ _ _ _ _ Hlist). rewrite Hraw. cbn [keys template_str].
    rewrite Hnth. unfold bind at 1.
    rewrite update_hostnames_loop_skips; [reflexivity | exact Hh |].
    intros Hin. apply Hnotin. apply In_segment with (n := 1000%nat) (off := 0%nat).
    exact Hin. }
  assert (Hdel : retry c (KV_delete E STATE_NAMESPACE Update.UPDATE_CURSOR_KEY)
                   (w2, Update.empty)
                 = (Ret tt,
                    (set_store STATE_NAMESPACE
                       (kv_delete Update.UPDATE_CURSOR_KEY (state w))
                       (record_event (KvDelete STATE_NAMESPACE Update.UPDATE_CURSOR_KEY) w2),
                     Update.empty))).
  { apply (retry_returns c); [exact Hpos |]. rewrite KV_delete_reliable by exact Hrel.
    reflexivity. }
  unfold Update.handleRequest.
  assert (Hauth : ret (R := Update.updateResults) true (w, r) = (Ret true, (w, r)))
    by reflexivity.
  rewrite (bind_returned _ _ _ _ _ Hauth). cbn [negb nonempty]. unfold try_catch.
  unfold bind at 1. rewrite (bind_returned _ _ _ _ _ Hget). cbn [option_map].
  rewrite (bind_returned _ _ _ _ _ Hscan). cbn [Update.nextCursor Update.empty nonempty].
  rewrite (bind_returned _ _ _ _ _ Hdel). reflexivity.
Qed.

End Resumption.

(** ** The budget of a reconciliation scan *)

(** What [m] leaves in the report from the state [s]: [Q] when it
    returns, [QE] when it throws. *)
Definition triple {R A} (m : M R A) (Q : A -> R -> Prop) (QE : R -> Prop)
  (s : world * R) : Prop :=
  match m s with
  | (Ret a, (_, r')) => Q a r'
  | (Throw _, (_, r')) => QE r'
  | (OutOfFuel, _) => True
  end.

Lemma triple_bind {R A B} (m : M R A) (k : A -> M R B) (Q1 : A -> R -> Prop)
  (Q : B -> R -> Prop) (QE : R -> Prop) (s : world * R) :
  triple m Q1 QE s -> (forall a w' r', Q1 a r' -> triple (k a) Q QE (w', r')) ->
  triple (bind m k) Q QE s.
Proof.
  unfold triple, bind. intros Hm Hk.
  destruct (m s) as [[a | e |] [w' r']]; [apply (Hk a w' r' Hm) | exact Hm | exact I].
Qed.

(** A step that leaves the report as it is. *)
Lemma triple_step {R A B} (m : M R A) (k : A -> M R B) (Q : B -> R -> Prop)
  (QE : R -> Prop) (w : world) (r : R) :
  unchanged (fun x => x) m -> QE r -> (forall a w', triple (k a) Q QE (w', r)) ->
  triple (bind m k) Q QE (w, r).
Proof.
  intros Hm HE Hk. apply (triple_bind m k (fun _ r' => r' = r)).
  - unfold triple. specialize (Hm (w, r)). unfold report_of in Hm.
    destruct (m (w, r)) as [[a | e |] [w' r']]; cbn [fst snd] in Hm;
      [exact Hm | subst r'; exact HE | exact I].
  - intros a w' r' ->. apply Hk.
Qed.

Lemma unchanged_Date_toISOString {R X} (f : R -> X) (E : env) (ms : option Z) :
  unchanged f (@Date_toISOString R E ms).
Proof.
  destruct ms as [t |]; simpl; [| apply unchanged_throw].
  destruct (Z.abs t <=? 8640000000000000)%Z; [apply unchanged_ret | apply unchanged_throw].
Qed.

Lemma unchanged_forEach_item {R X} (f : R -> X) (E : env) (data : list json)
  (activeKeys : gmap string activity) :
  unchanged f (@forEach_item R E data activeKeys).
Proof.
  revert activeKeys. induction data as [| item data IH]; intros activeKeys; simpl.
  - apply unchanged_ret.
  - destruct (sample item) as [[[accessKey t] v] |]; [| apply IH].
    apply unchanged_bind; [apply unchanged_Date_toISOString | intros timestamp; apply IH].
Qed.

Lemma unchanged_queryActiveKeys {R X} (f : R -> X) (c : constants) (E : env)
  (promApiEndpoint : option json) :
  unchanged f (@queryActiveKeys R c E promApiEndpoint).
Proof.
  unfold queryActiveKeys, queryPrometheus.
  repeat first [apply unchanged_forEach_item | unchanged_step].
Qed.

(** Whether a list request is rejected depends on its cursor and limit
    only. *)
Lemma kv_list_rejected {V} (pfx cur : option string) (limit : Z) (ns ns' : kv V) (e : exn) :
  kv_list pfx cur limit ns = Throw e -> kv_list pfx cur limit ns' = Throw e.
Proof.
  unfold kv_list.
  destruct (match cur with None => Some 0%nat | Some c => decode_cursor c end);
    [| intros H; exact H].
  destruct ((limit <? 1)%Z || (1000 <? limit)%Z); [intros H; exact H | discriminate].
Qed.

(** The cursor a list request returns is one it accepts. *)
Lemma kv_list_cursor {V} (pfx cur : option string) (limit : Z) (ns : kv V)
  (lr : list_result) :
  kv_list pfx cur limit ns = Ret lr ->
  list_cursor lr = None \/ exists off, list_cursor lr = Some (encode_cursor off).
Proof.
  unfold kv_list.
  destruct (match cur with None => Some 0%nat | Some c => decode_cursor c end) as [off |];
    [| discriminate].
  destruct ((limit <? 1)%Z || (1000 <? limit)%Z); [discriminate |].
  intros H. injection H as <-. cbn [list_cursor].
  destruct (skipn _ _); [left; reflexivity | right; eexists; reflexivity].
Qed.

Section ScanBudget.
Context (c : constants) (E : env).
Hypothesis attempts : (0 < MAX_RETRIES c)%Z.
Hypothesis reliable : forall n, kv_error E n = None.

(** With a reliable store the paging loop throws only when its first
    list request is rejected, before any credential is processed. *)
Lemma update_paging_reliable (fuel : nat) (hostname : string) (a : gmap string activity)
  (isDryRun : bool) (cur : option string) (p q : Z) (w : world)
  (r : Update.updateResults) :
  (Z.to_nat q < fuel)%nat ->
  match Update.paging c E fuel hostname a isDryRun cur p q (w, r) with
  | (Ret (p', cur'), (_, r')) =>
      (0 < q)%Z /\ (p <= p' <= p + q)%Z /\ grown r r' (Z.to_nat (p' - p))
  | (Throw _, (_, r')) =>
      r' = r
      /\ exists e, kv_list (Some (hostname +:+ "-key-")) cur (Z.min q 1000) (access_keys w)
                   = Throw e
  | (OutOfFuel, _) => False
  end.
Proof.
  revert cur p q w r. induction fuel as [| fuel IH]; intros cur p q w r Hfuel; [lia |].
  cbn [Update.paging]. unfold bind at 1.
  pose proof (settled_kv_list (Some (hostname +:+ "-key-")) cur (Z.min q 1000)
                (access_keys w)) as Hset.
  destruct (kv_list (Some (hostname +:+ "-key-")) cur (Z.min q 1000) (access_keys w))
    as [lr | e |] eqn:Hl; [| | contradiction].
  - assert (Hlist : retry c (KV_list E ACCESS_KEYS_NAMESPACE (Some (hostname +:+ "-key-")) cur
                               (Z.min q 1000)) (w, r)
                    = (Ret lr,
                       (record_event
                          (KvList ACCESS_KEYS_NAMESPACE (Some (hostname +:+ "-key-")) cur
                             (Z.min q 1000)) w, r))).
    { apply (retry_returns c); [exact attempts |].
      rewrite (KV_list_reliable E reliable). cbn [store]. rewrite Hl. reflexivity. }
    rewrite Hlist. clear Hlist.
    set (w1 := record_event _ w).
    destruct (kv_list_bounds _ _ _ _ _ Hl) as [Hlimit [Hlen Hfull]].
    destruct (update_process_page_counts c E attempts (keys lr) a isDryRun p q w1 r)
      as [p1 [q1 [w2 [r2 [H2 [Hp1 [Hq1 Hg2]]]]]]]; [lia |].
    unfold bind at 1. rewrite H2. cbv beta iota.
    destruct (nonempty (list_cursor lr) && (0 <? q1)%Z) eqn:Hmore.
    + apply andb_true_iff in Hmore as [Hcursor Hpos]. apply Z.ltb_lt in Hpos.
      assert (Hm : List.length (keys lr) = Z.to_nat (Z.min q 1000)).
      { apply Hfull. intros Hnone. rewrite Hnone in Hcursor. discriminate. }
      specialize (IH (list_cursor lr) p1 q1 w2 r2).
      destruct (Update.paging c E fuel hostname a isDryRun (list_cursor lr) p1 q1 (w2, r2))
        as [[[p' cur'] | e |] [w3 r3]].
      * destruct IH as [Hq [Hp Hg3]]; [lia |].
        split; [lia |]. split; [lia |].
        destruct Hg2 as [Ha Hb], Hg3 as [Hc Hd]. split; [lia | congruence].
      * destruct IH as [_ [e' Habs]]; [lia |]. exfalso.
        destruct (kv_list_cursor _ _ _ _ _ Hl) as [Hnone | [off Hoff]].
        -- rewrite Hnone in Hcursor. discriminate.
        -- rewrite Hoff in Habs.
           rewrite (kv_list_page _ _ off) in Habs;
             [discriminate | right; reflexivity | lia].
      * apply IH. lia.
    + unfold ret. split; [lia |]. split; [lia |].
      destruct Hg2 as [Ha Hb]. split; [lia | exact Hb].
  - pose proof (retry_from_list E ACCESS_KEYS_NAMESPACE (Some (hostname +:+ "-key-")) cur
                  (Z.min q 1000) (Z.to_nat (MAX_RETRIES c)) Undefined w r) as Hlist.
    unfold retry.
    destruct (retry_from _ _ _ _) as [[lr | e' |] [w1 r1]]; [| | contradiction].
    + destruct Hlist as [Habs _]. cbn [store] in Habs. congruence.
    + destruct Hlist as [-> _]. split; [reflexivity |]. exists e. reflexivity.
Qed.

(** The scan has counted [g] credentials so far, within the budget, and
    the report holds no more updated keys than that. *)
Definition within (g : Z) (r : Update.updateResults) : Prop :=
  (0 <= g)%Z /\ (Z.of_nat (List.length (Update.updatedKeys r)) <= g)%Z
  /\ (g <= Z.max 0 (MAX_KEYS_PER_RUN c))%Z.

(** The report holds no more updated keys than the budget. *)
Definition bounded (r : Update.updateResults) : Prop :=
  (Z.of_nat (List.length (Update.updatedKeys r)) <= Z.max 0 (MAX_KEYS_PER_RUN c))%Z.

Definition round_ok (x : Update.round) (r : Update.updateResults) : Prop :=
  match x with
  | Update.Next _ g => within g r
  | Update.Break => bounded r
  end.

Lemma within_pushed_error (g : Z) (r : Update.updateResults) (msg : string) :
  within g r ->
  within g (Update.mkResults (Update.updatedKeys r) (Update.errors r ++ [msg])
              (Update.nextCursor r)).
Proof. intros H. exact H. Qed.

Lemma update_round_budget (hostname : string) (isDryRun : bool)
  (currentCursor : option string) (globalKeyCount : Z) (w : world)
  (r : Update.updateResults) :
  within globalKeyCount r ->
  exists x w' r',
    Update.hostname_round c E hostname isDryRun currentCursor globalKeyCount (w, r)
    = (Ret x, (w', r'))
    /\ round_ok x r'.
Proof.
  intros Hin.
  destruct (returns_hostname_round c E attempts hostname isDryRun currentCursor
              globalKeyCount (w, r)) as [x [[w' r'] Hrun]].
  exists x, w', r'. split; [exact Hrun |].
  assert (Hbody : triple
                    (Update.hostname_round c E hostname isDryRun currentCursor globalKeyCount)
                    round_ok (fun _ => True) (w, r)).
  { unfold Update.hostname_round.
    assert (Hcatch : forall e w1 r1,
              Update.updatedKeys r1 = Update.updatedKeys r ->
              triple
                (let* m := message_of e in
                 run Update.push_error
                       ("Error processing hostname " +:+ hostname +:+ ": " +:+ m) then
                 ret (Update.Next currentCursor globalKeyCount))
                round_ok (fun _ => True) (w1, r1)).
    { intros [m |] w1 r1 Hr1; [| exact I].
      unfold triple. simpl. unfold within in *. simpl. rewrite Hr1. exact Hin. }
    assert (Htry : triple
                     (let* endpointDataStr :=
                        retry c (KV_get E API_ENDPOINTS_NAMESPACE hostname) in
                      if missing endpointDataStr then
                        run Update.push_error ("Endpoint not found for hostname: " +:+ hostname)
                        then ret (Update.Next currentCursor globalKeyCount)
                      else
                        let* parsed :=
                          try_catch
                            (let* u := Update.prometheusUrl endpointDataStr in ret (Some u))
                            (fun _ => ret None) in
                        match parsed with
                        | None =>
                            run Update.push_error
                                  ("Invalid endpoint data for hostname: " +:+ hostname) then
                            ret (Update.Next currentCursor globalKeyCount)
                        | Some promApiEndpoint =>
                            let* activeKeysResult := queryActiveKeys c E promApiEndpoint in
                            match activeKeysResult with
                            | ActiveKeysFailure error =>
                                run Update.push_error
                                      ("Error querying active keys for " +:+ hostname +:+
                                       ": " +:+ error) then
                                ret (Update.Next currentCursor globalKeyCount)
                            | ActiveKeys activeKeys =>
                                let* (processedKeys, nextCursor) :=
                                  Update.processKeysForHostname c E hostname activeKeys isDryRun
                                    (MAX_KEYS_PER_RUN c - globalKeyCount)%Z currentCursor in
                                let globalKeyCount := (globalKeyCount + processedKeys)%Z in
                                if (MAX_KEYS_PER_RUN c <=? globalKeyCount)%Z then
                                  run Update.set_nextCursor
                                        (hostname +:+ ":" +:+ template_str nextCursor) then
                                  ret Update.Break
                                else ret (Update.Next None globalKeyCount)
                            end
                        end)
                     round_ok
                     (fun r1 => Update.updatedKeys r1 = Update.updatedKeys r) (w, r)).
    { apply triple_step; [unchanged_tac | reflexivity |]. intros endpointDataStr w1.
      destruct (missing endpointDataStr); [exact Hin |].
      apply triple_step;
        [unfold Update.prometheusUrl; unchanged_tac | reflexivity |].
      intros [promApiEndpoint |] w2; [| exact Hin].
      apply triple_step; [apply unchanged_queryActiveKeys | reflexivity |].
      intros [activeKeys | error] w3; [| exact Hin].
      apply (triple_bind _ _
               (fun x r1 => (0 < MAX_KEYS_PER_RUN c - globalKeyCount)%Z
                            /\ (0 <= fst x <= MAX_KEYS_PER_RUN c - globalKeyCount)%Z
                            /\ grown r r1 (Z.to_nat (fst x)))).
      - unfold triple, Update.processKeysForHostname.
        pose proof (update_paging_reliable
                      (S (Z.to_nat (MAX_KEYS_PER_RUN c - globalKeyCount))) hostname activeKeys
                      isDryRun currentCursor 0 (MAX_KEYS_PER_RUN c - globalKeyCount) w3 r
                      (Nat.lt_succ_diag_r _)) as Hpage.
        destruct (Update.paging c E _ _ _ _ _ _ _ _) as [[[p' cur'] | e |] [w4 r4]];
          [| | exact I].
        + destruct Hpage as [Hq [Hp Hg]]. rewrite Z.sub_0_r in Hg. cbn [fst].
          split; [exact Hq |]. split; [lia | exact Hg].
        + destruct Hpage as [-> _]. reflexivity.
      - intros [p' cur'] w4 r4 [Hq [Hp [Hlen _]]]. cbn [fst] in *.
        destruct Hin as [H0 [Hr Hmax]].
        destruct (MAX_KEYS_PER_RUN c <=? globalKeyCount + p')%Z eqn:Hstop.
        + unfold triple. simpl. unfold bounded. simpl. lia.
        + apply Z.leb_gt in Hstop. unfold triple. simpl. unfold within. lia. }
    unfold triple, try_catch. unfold triple in Htry.
    destruct (bind _ _ (w, r)) as [[x0 | e |] [w1 r1]]; [exact Htry | | exact I].
    apply (Hcatch e w1 r1 Htry). }
  unfold triple in Hbody. rewrite Hrun in Hbody. exact Hbody.
Qed.

Lemma update_hostnames_loop_budget (hostnames : list string) (isDryRun : bool)
  (startHostname currentCursor : option string) (globalKeyCount : Z) (w : world)
  (r : Update.updateResults) :
  within globalKeyCount r ->
  exists w' r',
    Update.hostnames_loop c E hostnames isDryRun startHostname currentCursor globalKeyCount
      (w, r) = (Ret tt, (w', r'))
    /\ bounded r'.
Proof.
  revert startHostname currentCursor globalKeyCount w r.
  induction hostnames as [| hostname hostnames IH]; intros sh cur g w r Hin.
  - exists w, r. split; [reflexivity |]. destruct Hin as [_ [Hr Hmax]]. unfold bounded. lia.
  - cbn [Update.hostnames_loop].
    destruct (nonempty sh && negb (String.eqb hostname (template_str sh)));
      [apply IH, Hin |].
    destruct (update_round_budget hostname isDryRun cur g w r Hin)
      as [x [w1 [r1 [Hrun Hok]]]].
    rewrite (bind_returned _ _ _ _ _ Hrun).
    destruct x as [cur' g' |]; [apply IH, Hok |].
    exists w1, r1. split; [reflexivity | exact Hok].
Qed.

(** X14. A reconciliation scan respects the budget.  With a reliable KV
    store and at least one attempt per request, [updateAccessKeys] returns
    a report with at most [MAX_KEYS_PER_RUN] updated keys, whatever the
    cursor it is started from and whatever the usage oracles answer. *)
Theorem reconciliation_scan_within_budget (isDryRun : bool) (startCursor : option string)
  (w : world) (r : Update.updateResults) :
  exists results s',
    Update.updateAccessKeys c E isDryRun startCursor (w, r) = (Ret results, s')
    /\ (Z.of_nat (List.length (Update.updatedKeys results))
        <= Z.max 0 (MAX_KEYS_PER_RUN c))%Z.
Proof.
  unfold Update.updateAccessKeys, set_report, modify_report, bind at 1. cbn [fst snd].
  assert (Hlist : exists lr,
             retry c (KV_list E API_ENDPOINTS_NAMESPACE None None 1000) (w, Update.empty)
             = (Ret lr, (record_event (KvList API_ENDPOINTS_NAMESPACE None None 1000) w,
                         Update.empty))).
  { eexists. apply (retry_returns c); [exact attempts |].
    rewrite (KV_list_reliable E reliable).
    rewrite (kv_list_page None None 0 1000) by (first [left; split; reflexivity | lia]).
    reflexivity. }
  destruct Hlist as [lr Hlist]. rewrite (bind_returned _ _ _ _ _ Hlist).
  match goal with
  | |- context [Update.hostnames_loop c E ?hs isDryRun ?sh ?cur 0%Z] =>
      destruct (update_hostnames_loop_budget hs isDryRun sh cur 0
                  (record_event (KvList API_ENDPOINTS_NAMESPACE None None 1000) w)
                  Update.empty) as [w' [r' [Hloop Hb]]]
  end.
  { unfold within. simpl. lia. }
  rewrite (bind_returned _ _ _ _ _ Hloop).
  exists r', (w', r'). split; [reflexivity | exact Hb].
Qed.

End ScanBudget.

(** ** No attempt *)

Section NoAttempt.
Context (c : constants) (E : env).

(** With no attempt to make, [retry] throws its [lastError], which is
    still [undefined], without calling the function. *)
Lemma retry_without_attempts {R A} (fn : M R A) (s : world * R) :
  (MAX_RETRIES c <= 0)%Z -> retry c fn s = (Throw Undefined, s).
Proof.
  intros Hle. unfold retry.
  assert (Hn : Z.to_nat (MAX_RETRIES c) = 0%nat) by lia.
  rewrite Hn. reflexivity.
Qed.

(** X15. With [MAX_RETRIES] at 0 (or below) the scheduled scans do
    nothing: the first request, which is under [retry], is never sent,
    [retry] throws [undefined], and the entry points answer 500 without
    details, leaving every store and the report as they were. *)
Theorem scheduled_scans_need_an_attempt (parsedS3Providers : list s3Provider) (w : world) :
  (MAX_RETRIES c <= 0)%Z ->
  (forall r, Update.handleRequest c E None true (w, r)
             = (Ret (Update.Failure 500 "Error updating access keys" None), (w, r)))
  /\ (forall r, Delete.handleRequest c E parsedS3Providers None true (w, r)
                = (Ret (Delete.Failure 500 "Error deleting access keys" None), (w, r))).
Proof.
  intros Hle. split; intros r.
  - unfold Update.handleRequest.
    assert (Hauth : ret (R := Update.updateResults) true (w, r) = (Ret true, (w, r)))
      by reflexivity.
    rewrite (bind_returned _ _ _ _ _ Hauth). cbn [negb nonempty]. unfold try_catch.
    unfold bind at 1.
    rewrite (bind_thrown _ _ _ _ _
               (retry_without_attempts
                  (KV_get E STATE_NAMESPACE Update.UPDATE_CURSOR_KEY) (w, r) Hle)).
    reflexivity.
  - unfold Delete.handleRequest.
    assert (Hauth : ret (R := Delete.deleteResults) true (w, r) = (Ret true, (w, r)))
      by reflexivity.
    rewrite (bind_returned _ _ _ _ _ Hauth). cbn [negb nonempty]. unfold try_catch.
    unfold bind at 1.
    rewrite (bind_thrown _ _ _ _ _
               (retry_without_attempts
                  (KV_get E STATE_NAMESPACE Delete.DELETE_CURSOR_KEY) (w, r) Hle)).
    reflexivity.
Qed.

End NoAttempt.

(** ** The upload to an S3 provider *)

Section UploadFacts.
Context (E : env) (signing_error : s3Provider -> option string).

(** The URL of the object at the provider. *)
Definition upload_url (provider : s3Provider) (path : string) : string :=
  endpoint provider +:+ "/" +:+ bucket provider +:+ "/" +:+ path.

(** The provider accepts the upload it is sent as request number [n]. *)
Definition uploaded_at (provider : s3Provider) (path : string) (n : nat) : bool :=
  match http E n "PUT" (upload_url provider path) with
  | Response status _ => ok status
  | NetworkError _ => false
  end.

Lemma appended_repeat (ev : event) (n : nat) (w : world) :
  appended (repeat ev n) (appended [ev] w) = appended (repeat ev (S n)) w.
Proof.
  rewrite appended_app. f_equal.
  change (repeat ev n ++ [ev]) with (repeat ev n ++ repeat ev 1).
  rewrite <- List.repeat_app. rewrite Nat.add_1_r. reflexivity.
Qed.

Lemma length_trace_appended (evs : list event) (w : world) :
  List.length (trace (appended evs w)) = (List.length evs + List.length (trace w))%nat.
Proof. unfold appended. simpl. apply List.length_app. Qed.

(** One attempt that is not accepted: the request is sent and, unless
    the attempt is the last one, the loop goes on, whatever the reply
    was. *)
Lemma attempt_not_accepted {R} (provider : s3Provider) (path : string)
  (attempt maxRetries : Z) (w : world) (r : R) :
  signing_error provider = None ->
  uploaded_at provider path (List.length (trace w)) = false ->
  exists o,
    try_catch (S3.attempt_upload E signing_error provider path)
      (fun error => if (attempt =? maxRetries)%Z then throw error else ret None) (w, r)
    = (o, (appended [Fetch "PUT" (upload_url provider path)] w, r))
    /\ match o with
       | Ret None => True
       | Throw (Error _) => attempt = maxRetries
       | _ => False
       end.
Proof.
  intros Hsign Hno. unfold S3.attempt_upload, uploaded_at, upload_url in *.
  set (url := endpoint provider +:+ "/" +:+ bucket provider +:+ "/" +:+ path) in *.
  rewrite Hsign. unfold try_catch, bind at 1, ret at 1. cbv beta iota.
  unfold bind, fetch. cbn [fst snd].
  destruct (http E (List.length (trace w)) "PUT" url) as [msg | status body].
  - destruct (attempt =? maxRetries)%Z eqn:Hlast.
    + apply Z.eqb_eq in Hlast. eexists. split; [reflexivity | exact Hlast].
    + eexists. split; [reflexivity | exact I].
  - rewrite Hno. destruct ((status <? 500)%Z && negb (status =? 429)%Z).
    + destruct (attempt =? maxRetries)%Z eqn:Hlast.
      * apply Z.eqb_eq in Hlast. eexists. split; [reflexivity | exact Hlast].
      * eexists. split; [reflexivity | exact I].
    + eexists. split; [reflexivity | exact I].
Qed.

Lemma attempt_accepted {R} (provider : s3Provider) (path : string)
  (attempt maxRetries : Z) (w : world) (r : R) :
  signing_error provider = None ->
  uploaded_at provider path (List.length (trace w)) = true ->
  try_catch (S3.attempt_upload E signing_error provider path)
    (fun error => if (attempt =? maxRetries)%Z then throw error else ret None) (w, r)
  = (Ret (Some (publicUrl provider +:+ "/" +:+ path)),
     (appended [Fetch "PUT" (upload_url provider path)] w, r)).
Proof.
  intros Hsign Hyes. unfold S3.attempt_upload, uploaded_at, upload_url in *.
  set (url := endpoint provider +:+ "/" +:+ bucket provider +:+ "/" +:+ path) in *.
  rewrite Hsign. unfold try_catch, bind at 1, ret at 1. cbv beta iota.
  unfold bind, fetch. cbn [fst snd].
  destruct (http E (List.length (trace w)) "PUT" url) as [msg | status body];
    [discriminate |].
  rewrite Hyes. reflexivity.
Qed.

Lemma upload_attempts_run {R} (provider : s3Provider) (path : string) (maxRetries : Z)
  (n : nat) (attempt : Z) (w : world) (r : R) :
  signing_error provider = None ->
  (attempt + Z.of_nat n = maxRetries + 1)%Z ->
  (forall k, (k < n)%nat ->
     (forall j, (j < k)%nat ->
        uploaded_at provider path (List.length (trace w) + j) = false) ->
     uploaded_at provider path (List.length (trace w) + k) = true ->
     S3.upload_attempts E signing_error n attempt maxRetries provider path (w, r)
     = (Ret (publicUrl provider +:+ "/" +:+ path),
        (appended (repeat (Fetch "PUT" (upload_url provider path)) (S k)) w, r)))
  /\ ((forall j, (j < n)%nat ->
         uploaded_at provider path (List.length (trace w) + j) = false) ->
      exists msg,
        S3.upload_attempts E signing_error n attempt maxRetries provider path (w, r)
        = (Throw (Error msg),
           (appended (repeat (Fetch "PUT" (upload_url provider path)) n) w, r))).
Proof.
  intros Hsign. set (url := upload_url provider path).
  revert attempt w. induction n as [| n IH]; intros attempt w Hcount.
  - split; [intros k Hk; lia |]. intros _. eexists. simpl. rewrite appended_nil. reflexivity.
  - assert (Hnext : (attempt + 1 + Z.of_nat n = maxRetries + 1)%Z) by lia.
    split.
    + intros k Hk Hbefore Hat. cbn [S3.upload_attempts]. unfold bind at 1.
      destruct k as [| k].
      * rewrite Nat.add_0_r in Hat.
        rewrite (attempt_accepted provider path attempt maxRetries w r Hsign Hat).
        reflexivity.
      * assert (H0 : uploaded_at provider path (List.length (trace w)) = false).
        { rewrite <- (Nat.add_0_r (List.length (trace w))). apply Hbefore. lia. }
        destruct (attempt_not_accepted provider path attempt maxRetries w r Hsign H0)
          as [o [Hrun Ho]].
        fold url in Hrun. rewrite Hrun.
        destruct o as [[u |] | [msg |] |]; try contradiction; [| lia]. cbv beta iota.
        destruct (IH (attempt + 1)%Z (appended [Fetch "PUT" url] w) Hnext) as [Hret _].
        rewrite (Hret k); [rewrite appended_repeat; reflexivity | lia | |].
        -- intros j Hj. rewrite length_trace_appended. simpl.
           replace (S (List.length (trace w) + j)) with (List.length (trace w) + S j)%nat
             by lia.
           apply Hbefore. lia.
        -- rewrite length_trace_appended. simpl.
           replace (S (List.length (trace w) + k)) with (List.length (trace w) + S k)%nat
             by lia.
           exact Hat.
    + intros Hnone. cbn [S3.upload_attempts]. unfold bind at 1.
      assert (H0 : uploaded_at provider path (List.length (trace w)) = false).
      { rewrite <- (Nat.add_0_r (List.length (trace w))). apply Hnone. lia. }
      destruct (attempt_not_accepted provider path attempt maxRetries w r Hsign H0)
        as [o [Hrun Ho]].
      fold url in Hrun. rewrite Hrun.
      destruct o as [[u |] | [msg |] |]; try contradiction; cbv beta iota.
      * destruct (IH (attempt + 1)%Z (appended [Fetch "PUT" url] w) Hnext) as [_ Hthrow].
        destruct Hthrow as [msg Hmsg].
        { intros j Hj. rewrite length_trace_appended. simpl.
          replace (S (List.length (trace w) + j)) with (List.length (trace w) + S j)%nat
            by lia.
          apply Hnone. lia. }
        exists msg. rewrite Hmsg, appended_repeat. reflexivity.
      * assert (n = 0%nat) as -> by lia. exists msg. reflexivity.
Qed.

(** X16. [uploadToS3] sends its PUT requests, all to the same URL, until
    one is accepted, and at most [maxRetries] of them.  When signing does
    not throw: if the provider accepts request number [k + 1] (a 2xx
    status) after [k < maxRetries] requests that it did not accept, the
    upload returns the public URL of the object after exactly [k + 1]
    requests, whatever the earlier replies were: a client error such as
    403 before the last attempt is retried like a server error.  If none
    of [maxRetries] requests is accepted, the upload throws an [Error]
    after exactly [maxRetries] requests. *)
Theorem upload_retries_until_accepted {R} (provider : s3Provider) (path : string)
  (maxRetries : Z) (w : world) (r : R) :
  signing_error provider = None ->
  let sent n := (appended (repeat (Fetch "PUT" (upload_url provider path)) n) w, r) in
  (forall k, (Z.of_nat k < maxRetries)%Z ->
     (forall j, (j < k)%nat ->
        uploaded_at provider path (List.length (trace w) + j) = false) ->
     uploaded_at provider path (List.length (trace w) + k) = true ->
     S3.uploadToS3 E signing_error provider path maxRetries (w, r)
     = (Ret (publicUrl provider +:+ "/" +:+ path), sent (S k)))
  /\ ((forall j, (Z.of_nat j < maxRetries)%Z ->
         uploaded_at provider path (List.length (trace w) + j) = false) ->
      exists msg,
        S3.uploadToS3 E signing_error provider path maxRetries (w, r)
        = (Throw (Error msg), sent (Z.to_nat maxRetries))).
Proof.
  intros Hsign sent. unfold S3.uploadToS3.
  destruct (Z_lt_le_dec maxRetries 0) as [Hneg | Hpos].
  - assert (Hn : Z.to_nat maxRetries = 0%nat) by lia. rewrite Hn.
    split; [intros k Hk; lia |]. intros _. eexists. unfold sent. simpl.
    rewrite appended_nil. reflexivity.
  - destruct (upload_attempts_run provider path maxRetries (Z.to_nat maxRetries) 1 w r Hsign)
      as [Hret Hthrow]; [lia |].
    split.
    + intros k Hk Hbefore Hat. apply Hret; [lia | exact Hbefore | exact Hat].
    + intros Hnone. apply Hthrow. intros j Hj. apply Hnone. lia.
Qed.

End UploadFacts.

(** ** Targeted requests *)

(** [w'] differs from [w] at most in the credential record of [k]. *)
Definition only_key (k : string) (w w' : world) : Prop :=
  (forall key, key <> k -> stored key w' = stored key w)
  /\ api_endpoints w' = api_endpoints w /\ state w' = state w.

Lemma only_key_refl (k : string) (w : world) : only_key k w w.
Proof. split; [reflexivity | split; reflexivity]. Qed.

Lemma only_key_stable (k : string) (w0 : world) (ev : event) (w : world) :
  only_key k w0 w -> only_key k w0 (record_event ev w).
Proof. intros H. exact H. Qed.

Lemma only_key_put (k : string) (w0 : world) (v : text) (w : world) :
  only_key k w0 w ->
  only_key k w0 (set_store ACCESS_KEYS_NAMESPACE (kv_put k v (access_keys w)) w).
Proof.
  intros [Hkeys [Hreg Hstate]]. split; [| split; assumption].
  intros key Hne. unfold stored. cbn [set_store access_keys].
  rewrite kv_get_put_other by exact Hne. apply Hkeys, Hne.
Qed.

Section SteadyOracle.
Context (P : world -> Prop).
Hypothesis stable : forall ev w, P w -> P (record_event ev w).

Lemma steady_Date_toISOString {R} (E : env) (ms : option Z) :
  steady P (@Date_toISOString R E ms).
Proof.
  destruct ms as [t |]; simpl; [| apply steady_throw].
  destruct (Z.abs t <=? 8640000000000000)%Z; [apply steady_ret | apply steady_throw].
Qed.

Lemma steady_forEach_item {R} (E : env) (data : list json)
  (activeKeys : gmap string activity) :
  steady P (@forEach_item R E data activeKeys).
Proof.
  revert activeKeys. induction data as [| item data IH]; intros activeKeys; simpl.
  - apply steady_ret.
  - destruct (sample item) as [[[accessKey t] v] |]; [| apply IH].
    apply steady_bind; [apply steady_Date_toISOString | intros timestamp; apply IH].
Qed.

Lemma steady_queryActiveKeys {R} (c : constants) (E : env) (promApiEndpoint : option json) :
  steady P (@queryActiveKeys R c E promApiEndpoint).
Proof.
  unfold queryActiveKeys, queryPrometheus.
  repeat first [apply steady_forEach_item | steady_step].
Qed.

End SteadyOracle.

Section Targeted.
Context (c : constants) (E : env).

Lemma steady_update_processKey (k : string) (w0 : world) (a : gmap string activity)
  (isDryRun : bool) :
  steady (only_key k w0) (Update.processKey c E k a isDryRun).
Proof.
  pose proof (only_key_stable k w0) as stable.
  assert (Hput : forall v w, only_key k w0 w ->
                   only_key k w0 (set_store ACCESS_KEYS_NAMESPACE
                                    (kv_put k v (store ACCESS_KEYS_NAMESPACE w)) w))
    by (intros v w; apply only_key_put).
  unfold Update.processKey, Update.update_record, get_json, Update.push_updated,
    Update.push_error.
  repeat first [apply steady_KV_put; [assumption | apply Hput] | steady_step].
Qed.

Lemma steady_updateTargetKey (k : string) (w0 : world) (isDryRun : bool) :
  steady (only_key k w0) (Update.updateTargetKey c E k isDryRun).
Proof.
  pose proof (only_key_stable k w0) as stable.
  unfold Update.updateTargetKey, Update.prometheusUrl, Update.push_error.
  repeat first [ apply steady_update_processKey | apply steady_queryActiveKeys; assumption
               | steady_step ].
Qed.

Lemma steady_processKeys_one (k : string) (w0 : world) (isDryRun : bool)
  (targetServer : option string) (s3Providers : list s3Provider) :
  steady (only_key k w0) (Delete.processKeys c E [k] isDryRun targetServer s3Providers).
Proof.
  pose proof (only_key_stable k w0) as stable.
  unfold Delete.processKeys. cbn [Delete.processKeys_loop]. unfold Delete.push_error.
  repeat first [ apply steady_processKeyForDeletion;
                   [assumption | intros v w; apply only_key_put]
               | steady_step ].
Qed.

(** X17. A targeted request touches one credential.  When the header
    [X-Target-Key] names a key, the reconciliation and the revocation
    entry points leave every other credential record, the endpoint
    registry and the state store (the cursors) exactly as they were,
    whatever the outside world replies. *)
Theorem targeted_requests_touch_one_key (parsedS3Providers : list s3Provider)
  (h : headers) (k : string) (isCronTriggered : bool) (w : world) :
  header "X-Target-Key" h = Some k -> k <> "" ->
  (forall r, only_key k w
               (world_of (Update.handleRequest c E (Some h) isCronTriggered (w, r))))
  /\ (forall r, only_key k w
                  (world_of (Delete.handleRequest c E parsedS3Providers (Some h)
                               isCronTriggered (w, r)))).
Proof.
  intros Hkey Hne.
  assert (Htarget : nonempty (Some k) = true).
  { simpl. apply negb_true_iff, String.eqb_neq. exact Hne. }
  pose proof (only_key_stable k w) as stable.
  split; intros r.
  - assert (Hs : steady (only_key k w) (Update.handleRequest c E (Some h) isCronTriggered)).
    { unfold Update.handleRequest. rewrite Hkey, Htarget. cbn [template_str].
      repeat first [apply steady_updateTargetKey | steady_step]. }
    exact (proj2 (Hs (w, r) (only_key_refl k w))).
  - assert (Hs : steady (only_key k w)
                   (Delete.handleRequest c E parsedS3Providers (Some h) isCronTriggered)).
    { unfold Delete.handleRequest. rewrite Hkey, Htarget. cbn [template_str].
      repeat first [apply steady_processKeys_one | steady_step]. }
    exact (proj2 (Hs (w, r) (only_key_refl k w))).
Qed.

End Targeted.

(** ** The theorems at work *)

Section Instances.
Import Scenario Cases.

Lemma attempts_given : (0 < MAX_RETRIES config)%Z.
Proof. reflexivity. Qed.

(** The credential idle for 91 days under an expiry of 90 days is
    selected, and on a real run with a backend that accepts the request
    it is deleted there and its record becomes the tombstone. *)
Lemma revocation_witness :
  Delete.shouldDelete config accepting today idle = true
  /\ exists w' keyInfo evs,
       Delete.processKeyForDeletion config accepting "a-key-1" idle false []
         (one "a-key-1" idle, Delete.empty)
       = (Ret tt, (w', Delete.mkResults [JObj keyInfo] [] None))
       /\ trace w'
          = KvPut ACCESS_KEYS_NAMESPACE "a-key-1"
              (JsonText (JObj (tombstone_of accepting idle today)))
            :: evs
       /\ In (Fetch "DELETE" "https://a/api/access-keys/1") evs
       /\ stored "a-key-1" w' = Some (JsonText (JObj (tombstone_of accepting idle today)))
       /\ assoc "status" keyInfo = Some (JStr "Deleted").
Proof.
  assert (Htri : tri_state (get_prop "currentlyConnected" idle))
    by (right; right; exists false; reflexivity).
  destruct (revocation_decision config accepting today idle Htri)
    as [_ [Hidle [_ [_ Hreal]]]].
  assert (Hsel : Delete.shouldDelete config accepting today idle = true).
  { apply (Hidle 1711929600000%Z); reflexivity. }
  split; [exact Hsel |].
  destruct (Hreal "a-key-1" [] (endpoint_of "a") (one "a-key-1" idle) Delete.empty)
    as [w' [keyInfo [evs [Hrun [Htrace H]]]]];
    [reflexivity | intros n; reflexivity | reflexivity | exact Hsel | reflexivity
    | reflexivity | reflexivity |].
  exists w', keyInfo, evs. split; [exact Hrun |]. split; [| exact H].
  rewrite Htrace, app_nil_r. reflexivity.
Defined.

Lemma fleet_keys_distinct : NoDup (map fst (access_keys fleet)).
Proof. apply (bool_decide_unpack _). vm_compute. exact I. Qed.

Lemma fleet_keys_named : Forall plain_name (map fst (access_keys fleet)).
Proof. repeat constructor; discriminate. Qed.

(** The listing of the fleet: three records, all connected.  The token is
    sent under the name [authorization]. *)
Lemma listing_is_complete_witness :
  exists w' L,
    Listing.handleRequest config outside Utc.calendar (Some authorised)
      (fleet, Listing.empty)
    = (Ret (Listing.Listed 200 L), (w', Listing.empty))
    /\ Forall2 lists (access_keys fleet) (Listing.keys L)
    /\ Listing.tally L
       = Listing.mkCounts (count_of (fun e => parses (snd e)) (access_keys fleet))
           (count_of (fun e => connected_record (snd e)) (access_keys fleet)) 0 0 0 0
    /\ reads_only fleet w'.
Proof.
  exact (listing_is_complete config outside Utc.calendar authorised fleet Listing.empty
           (fun _ => eq_refl) fleet_keys_distinct fleet_keys_named eq_refl eq_refl).
Defined.

(** Credentials whose names are array indices are listed first, in
    numeric order, whatever the order of the store, and a record stored
    as [__proto__] is counted but not listed. *)
Example listing_orders_array_indices :
  let stored := mkWorld [("10", JsonText live); ("9", JsonText idle);
                         ("__proto__", JsonText live); ("a-key-1", JsonText live)]
                  registry [] [] in
  match result_of (Listing.handleRequest config outside Utc.calendar (Some authorised)
                     (stored, Listing.empty)) with
  | Ret (Listing.Listed 200 result) =>
      map fst (Listing.keys result) = ["9"; "10"; "a-key-1"]
      /\ Listing.total (Listing.tally result) = 4%Z
  | _ => False
  end.
Proof. vm_compute. split; reflexivity. Qed.

Example listing_of_the_fleet :
  result_of (Listing.handleRequest config outside Utc.calendar (Some authorised)
               (fleet, Listing.empty))
  = Ret (Listing.Listed 200
           (Listing.mkListing
              [("a-key-1", live); ("a-key-2", live); ("b-key-1", live)]
              (Listing.mkCounts 3 3 0 0 0 0) false)).
Proof. vm_compute. reflexivity. Qed.

(** The listing of the credentials seen on 2024-06-01, the filter sent
    under a name in lower case. *)
Lemma listing_honours_filters_witness :
  exists w' reply,
    Listing.handleRequest config outside Utc.calendar
      (Some (("x-filter-last-seen-on", "2024-06-01T00:00:00.000Z") :: authorised))
      (mixed, Listing.empty)
    = (Ret reply, (w', Listing.empty))
    /\ reads_only mixed w'.
Proof.
  destruct (listing_honours_filters config outside Utc.calendar
              (("x-filter-last-seen-on", "2024-06-01T00:00:00.000Z") :: authorised)
              mixed Listing.empty eq_refl)
    as [w' [reply [Hrun [Hreads _]]]].
  exists w', reply. split; [exact Hrun | exact Hreads].
Defined.

Example listing_seen_on_a_day :
  result_of (Listing.handleRequest config outside Utc.calendar
               (Some (("x-filter-last-seen-on", "2024-06-01T00:00:00.000Z") :: authorised))
               (mixed, Listing.empty))
  = Ret (Listing.Listed 200
           (Listing.mkListing [("a-key-2", live); ("b-key-1", live)]
              (Listing.mkCounts 3 2 0 0 0 0) false)).
Proof. vm_compute. reflexivity. Qed.

(** A filter sent twice is read as the two values joined: it is not
    "true", and nothing is filtered. *)
Example filter_sent_twice :
  Listing.currentlyConnected
    (Listing.getFiltersFromHeaders
       [("X-Filter-Connected", "true"); ("X-Filter-Connected", "false")]) = false
  /\ Listing.currentlyConnected
       (Listing.getFiltersFromHeaders [("x-filter-connected", "true")]) = true.
Proof. split; reflexivity. Qed.

(** One page of backend [a] under a budget of one credential. *)
Lemma reconciliation_paging_witness :
  match Update.processKeysForHostname config outside "a" stale_snapshot true 1 None
          (fleet, Update.empty) with
  | (Ret (processedKeys, nextCursor), (w', r')) =>
      (0 < 1)%Z /\ (0 <= processedKeys <= 1)%Z
      /\ (processedKeys = 1%Z \/ nonempty nextCursor = false)
      /\ (List.length (Update.updatedKeys r')
          <= List.length (Update.updatedKeys Update.empty) + Z.to_nat processedKeys)%nat
  | (Throw (Error _), _) => True
  | (Throw Undefined, _) | (OutOfFuel, _) => False
  end.
Proof.
  exact (reconciliation_paging_within_budget config outside attempts_given "a" stale_snapshot
           true 1 None fleet Update.empty).
Defined.

Lemma reconciliation_answers_witness :
  exists reply s',
    Update.handleRequest config outside None true (fleet, Update.empty) = (Ret reply, s').
Proof.
  destruct (reconciliation_always_answers config outside attempts_given None true
              (fleet, Update.empty) (or_intror eq_refl)) as [reply [s' [Hrun _]]].
  exists reply, s'. exact Hrun.
Defined.

(** The idle credential of the fleet is revoked: its backend is asked to
    delete it and the tombstone is stored. *)
Lemma revocation_writes_tombstone_witness :
  exists w' keyInfo,
    Delete.processKeyForDeletion config accepting "a-key-1" idle false []
      (mixed, Delete.empty)
    = (Ret tt, (w', Delete.mkResults [JObj keyInfo] [] None))
    /\ stored "a-key-1" w' = Some (JsonText (JObj (tombstone_of accepting idle today)))
    /\ assoc "status" keyInfo = Some (JStr "Deleted").
Proof.
  destruct (revocation_writes_tombstone config accepting "a-key-1" idle [] (endpoint_of "a")
              mixed Delete.empty attempts_given (fun _ => eq_refl) eq_refl eq_refl eq_refl
              eq_refl)
    as [w' [keyInfo [evs [Hrun [Hstored [_ [_ [_ [_ [_ [_ [Hstatus _]]]]]]]]]]]].
  exists w', keyInfo. split; [exact Hrun |]. split; [exact Hstored | exact Hstatus].
Defined.

Example revocation_of_the_idle_credential :
  let call := Delete.processKeyForDeletion config accepting "a-key-1" idle false []
                (mixed, Delete.empty) in
  List.rev (trace (world_of call))
  = [KvGet API_ENDPOINTS_NAMESPACE "a"; Fetch "DELETE" "https://a/api/access-keys/1";
     KvPut ACCESS_KEYS_NAMESPACE "a-key-1"
       (JsonText (JObj [("creationTime", JStr "2024-03-01T00:00:00.000Z");
                        ("deletionTime", JStr "2024-07-01T00:00:00.000Z");
                        ("lastSeen", JStr "2024-04-01T00:00:00.000Z");
                        ("currentlyConnected", JNull)]))].
Proof. vm_compute. reflexivity. Qed.

(** The tombstone of the idle credential is selected again a day later. *)
Lemma tombstone_selected_again_witness :
  Delete.shouldDelete config outside (today + 86400000)
    (JObj (tombstone_of outside idle today)) = true.
Proof.
  apply (tombstone_selected_again config outside idle today (today + 86400000)).
  - vm_compute. reflexivity.
  - vm_compute. discriminate.
Defined.

Lemma revocation_answers_witness :
  exists reply s',
    Delete.handleRequest config accepting [] (Some (("X-Dry-Run", "false") :: authorised))
      false (mixed, Delete.empty) = (Ret reply, s').
Proof.
  destruct (revocation_always_answers config accepting []
              (Some (("X-Dry-Run", "false") :: authorised)) false mixed Delete.empty
              eq_refl (or_introl (fun H => eq_ind (Some _) (fun x => match x with
                                                                      | Some _ => True
                                                                      | None => False
                                                                      end) I None H)))
    as [reply [s' [Hrun _]]].
  exists reply, s'. exact Hrun.
Defined.

(** The revocation scan of all backends revokes the idle credential of
    backend [a], goes on with backend [b] although the budget of one
    credential is used up, deletes its cursor and reports the two errors
    of the hostname loop. *)
Example revocation_scan_of_the_fleet :
  let call := Delete.handleRequest config accepting []
                (Some (("X-Dry-Run", "false") :: authorised)) false
                (mixed, Delete.empty) in
  match result_of call with
  | Ret (Delete.Report 200 results false None None 90) =>
      map (get_prop "status") (Delete.processedKeys results)
      = [Some (JStr "Deleted"); Some (JStr "Not deleted")]
      /\ Delete.nextCursor results = None
      /\ List.length (Delete.errors results) = 2%nat
  | _ => False
  end
  /\ List.filter mutating (trace (world_of call))
     = [KvDelete STATE_NAMESPACE Delete.DELETE_CURSOR_KEY;
        KvPut ACCESS_KEYS_NAMESPACE "a-key-1"
          (JsonText (JObj (tombstone_of accepting idle today)));
        Fetch "DELETE" "https://a/api/access-keys/1"].
Proof. vm_compute. repeat split. Qed.

(** The scan of backend [a] alone stops at the budget of one credential. *)
Lemma server_scan_witness :
  match Delete.processKeysForServer config outside "a" true [] (fleet, Delete.empty) with
  | (Ret results, _) =>
      (Z.of_nat (List.length (Delete.processedKeys results)) <= MAX_KEYS_PER_RUN config)%Z
      /\ (Delete.nextCursor results <> None ->
          Z.of_nat (List.length (Delete.processedKeys results)) = MAX_KEYS_PER_RUN config)
  | (Throw _, _) => True
  | (OutOfFuel, _) => False
  end.
Proof.
  exact (server_scan_within_budget config outside "a" true [] fleet Delete.empty eq_refl).
Defined.

Example server_scan_of_backend_a :
  match result_of (Delete.processKeysForServer config outside "a" true []
                     (fleet, Delete.empty)) with
  | Ret results =>
      map key_of (Delete.processedKeys results) = [Some (JStr "a-key-1")]
      /\ Delete.nextCursor results = Some "a:1"
  | _ => False
  end.
Proof. vm_compute. repeat split. Qed.

(** The scan of all backends of the fleet: at most one credential for
    each of the two backends. *)
Lemma revocation_scan_witness :
  match Delete.processAllKeys config outside false None [] (fleet, Delete.empty) with
  | (Ret results, _) =>
      (Z.of_nat (List.length (Delete.processedKeys results))
       <= Z.max 0 (MAX_KEYS_PER_RUN config) * Z.of_nat (List.length (api_endpoints fleet)))%Z
      /\ Delete.nextCursor results = None
  | (Throw _, _) => True
  | (OutOfFuel, _) => False
  end.
Proof.
  exact (revocation_scan_budget_is_per_backend config outside (map fst (access_keys fleet))
           eq_refl false None [] fleet Delete.empty eq_refl).
Defined.

(** A request that sends the token twice is refused by the three
    endpoints: [headers.get] joins the two values. *)
Lemma unauthorized_witness :
  let h := [("authorization", "Bearer secret"); ("Authorization", "Bearer secret")] in
  Update.handleRequest config outside (Some h) false (fleet, Update.empty)
  = (Ret (Update.Failure 401 "Unauthorized" None), (fleet, Update.empty))
  /\ Delete.handleRequest config outside [] (Some h) false (fleet, Delete.empty)
     = (Ret (Delete.Failure 401 "Unauthorized" None), (fleet, Delete.empty))
  /\ Listing.handleRequest config outside Utc.calendar (Some h) (fleet, Listing.empty)
     = (Ret (Listing.Failure 401 "Unauthorized" None), (fleet, Listing.empty)).
Proof.
  intros h.
  assert (Hnone : header "Authorization" h <> Some ("Bearer " +:+ AUTH_TOKEN config))
    by discriminate.
  destruct (unauthorized_requests_are_refused config outside Utc.calendar [] h fleet Hnone)
    as [Hupdate [Hdelete Hlist]].
  split; [apply Hupdate | split; [apply Hdelete | apply Hlist]].
Defined.

(** The name of a header is matched without regard to case: the token
    sent as [authorization] is accepted, a missing or a wrong one is not. *)
Example authorization_in_lower_case :
  header "Authorization" [("authorization", "Bearer secret")] = Some "Bearer secret"
  /\ result_of (verifyAuth (Some [("authorization", "Bearer secret")]) "secret"
                  (fleet, Listing.empty)) = Ret true
  /\ result_of (verifyAuth (Some [("AUTHORIZATION", "Bearer other")]) "secret"
                  (fleet, Listing.empty)) = Ret false
  /\ result_of (verifyAuth (Some [("X-Dry-Run", "true")]) "secret"
                  (fleet, Listing.empty)) = Ret false.
Proof. repeat split. Qed.

(** A key of backend [b] is not revoked through backend [a], and a key
    that does not exist is reported as such. *)
Lemma targeted_revocation_witness :
  Delete.processKeys config accepting ["b-key-1"] false (Some "a") [] (fleet, Delete.empty)
  = (Ret (Delete.mkResults [] ["Key b-key-1 does not match target server a"] None),
     (fleet, Delete.empty))
  /\ Delete.processKeys config accepting ["a-key-9"] false (Some "a") [] (fleet, Delete.empty)
     = (Ret (Delete.mkResults [] ["Key not found: a-key-9"] None),
        (record_event (KvGet ACCESS_KEYS_NAMESPACE "a-key-9") fleet, Delete.empty)).
Proof.
  split.
  - exact (proj1 (targeted_revocation_checks_the_key config accepting "b-key-1" (Some "a")
                    false [] fleet Delete.empty attempts_given eq_refl) eq_refl eq_refl).
  - exact (proj2 (targeted_revocation_checks_the_key config accepting "a-key-9" (Some "a")
                    false [] fleet Delete.empty attempts_given eq_refl)
             (or_intror eq_refl) eq_refl).
Defined.

(** The cursor [z:2] names a backend that is not registered. *)
Lemma stale_cursor_witness :
  Update.handleRequest config outside None true (resumed, Update.empty)
  = (Ret (Update.Report 200 Update.empty false None),
     (mkWorld (access_keys resumed) (api_endpoints resumed)
        (kv_delete Update.UPDATE_CURSOR_KEY (state resumed))
        ([KvDelete STATE_NAMESPACE Update.UPDATE_CURSOR_KEY;
          KvList API_ENDPOINTS_NAMESPACE None None 1000;
          KvGet STATE_NAMESPACE Update.UPDATE_CURSOR_KEY] ++ trace resumed),
      Update.empty)).
Proof.
  apply (stale_cursor_is_dropped config outside (PlainText "z:2") "z" resumed Update.empty
           attempts_given (fun _ => eq_refl) eq_refl eq_refl).
  - discriminate.
  - vm_compute. intros [H | [H | []]]; discriminate.
Defined.

Lemma reconciliation_scan_witness :
  exists results s',
    Update.updateAccessKeys config outside false None (fleet, Update.empty)
    = (Ret results, s')
    /\ (Z.of_nat (List.length (Update.updatedKeys results))
        <= Z.max 0 (MAX_KEYS_PER_RUN config))%Z.
Proof.
  exact (reconciliation_scan_within_budget config outside attempts_given (fun _ => eq_refl)
           false None fleet Update.empty).
Defined.

(** The scheduled reconciliation of the fleet with [MAX_RETRIES = 0]. *)
Lemma no_attempt_witness :
  Update.handleRequest no_attempt outside None true (fleet, Update.empty)
  = (Ret (Update.Failure 500 "Error updating access keys" None), (fleet, Update.empty)).
Proof.
  assert (Hle : (MAX_RETRIES no_attempt <= 0)%Z) by (vm_compute; discriminate).
  exact (proj1 (scheduled_scans_need_an_attempt no_attempt outside [] fleet Hle) Update.empty).
Defined.

(** The provider answers 403, then 200: the object is uploaded by the
    second request. *)
Lemma upload_witness :
  S3.uploadToS3 refusing_once (fun _ => None) bucket_a "keys/a-0f/7" 3
    (fleet, Update.empty)
  = (Ret "https://cdn.a/keys/a-0f/7",
     (appended (repeat (Fetch "PUT" "https://s3.a/keys/keys/a-0f/7") 2) fleet,
      Update.empty)).
Proof.
  apply (proj1 (upload_retries_until_accepted refusing_once (fun _ => None) bucket_a
                  "keys/a-0f/7" 3 fleet Update.empty eq_refl) 1%nat).
  - reflexivity.
  - intros j Hj. assert (j = 0%nat) as -> by lia. reflexivity.
  - reflexivity.
Defined.

(** The targeted revocation of the idle credential leaves the two
    other credentials alone. *)
Lemma targeted_request_witness :
  only_key "a-key-1" mixed
    (world_of (Delete.handleRequest config accepting []
                 (Some (("X-Target-Key", "a-key-1") :: ("X-Dry-Run", "false") :: authorised))
                 false (mixed, Delete.empty))).
Proof.
  assert (Hne : "a-key-1" <> "") by discriminate.
  exact (proj2 (targeted_requests_touch_one_key config accepting []
                  (("X-Target-Key", "a-key-1") :: ("X-Dry-Run", "false") :: authorised)
                  "a-key-1" false mixed eq_refl Hne) Delete.empty).
Defined.

Example targeted_revocation_of_the_idle_credential :
  let call := Delete.handleRequest config accepting []
                (Some (("X-Target-Key", "a-key-1") :: ("X-Dry-Run", "false") :: authorised))
                false (mixed, Delete.empty) in
  access_keys (world_of call)
  = [("a-key-1", JsonText (JObj (tombstone_of accepting idle today)));
     ("a-key-2", JsonText live); ("b-key-1", JsonText live)]
  /\ state (world_of call) = [].
Proof. vm_compute. split; reflexivity. Qed.

End Instances.
